(* ===== verification/_CoqProject ===== *)
-Q . S2P
Prelude.v
Text.v
Os.v
TextFacts.v
OsFacts.v
OsQuiet.v
WalkFacts.v
Traces.v
PyNum.v
Config.v
Json.v
JsonFacts.v
Sha256.v
Scenario.v
Mover.v
Hotswap.v
HotswapFacts.v
HotswapBatch.v
HotswapLoop.v
HotswapLock.v
HotswapLive.v
HotswapService.v
HotswapTypes.v
Wizard.v
WizardFacts.v
Console.v
WizardLink.v
ConsoleFacts.v
HotswapRecords.v
ConsoleStats.v
ConsoleStatus.v
ConsoleClear.v
Screen.v
ScreenFacts.v
ScreenFull.v
ScreenKeys.v
