(* ===== verification/Prelude.v ===== *)
(** * SEER sensor: a verified model of the capture pipeline

    The SEER sensor records network traffic into a ring of capture files
    (tcpdump, started by a unit) and moves them to an exchangeable drive.  Four
    Python programs do the work, and this library models all of them:

    - [Automation/SEER/move_oldest.py], the mover, started by a timer: once the
      ring holds [buffer_threshold] files it moves the oldest closed one to the
      export drive, or to the backlog when no drive qualifies;
    - [Automation/SEER/seer_hotswap.py], the hot-swap service: it polls for the
      drive and, when one appears, moves the backlog to it with SHA-256
      verification, a manifest, a transfer log and a state file;
    - [Automation/SEER/setup_wizard.py], the wizard that asks for the parameters
      and writes [seer.yml], which the other programs read;
    - [Automation/bin/seer_console.py], the operator's curses console: status,
      statistics, start, stop, clear, mount and unmount.

    The programs interact through the disk (ring, backlog, drive, [seer.yml],
    the state file) and through nothing else; so the model is a machine with a
    disk, and the programs are its users.

    ** The files of the library

    - [Prelude]: Python exceptions, the state-and-exception monad [io W] with
      [try_except] and [try_finally], the rules [only R] (a run stays in the
      preorder R), [wp] (postconditions on every outcome, exceptions included),
      [never] (an exception that cannot come out), hint databases [io], [calm].
    - [Text], [TextFacts]: strings, [fnmatch], paths, stable sort; printing and
      reading integers.  [PyNum]: [int] as [Z], [float] as binary64 (the
      Standard Library's [SpecFloat]).  [Config]: YAML values and the
      dictionary operations with their exceptions.  [Json], [JsonFacts]: the
      writer and the reader of the [json] module and their round trips.
      [Sha256]: [hashlib.sha256] with [update] and [hexdigest].
    - [Os]: the machine.  Files and directories by device and path, mounts,
      clock, trace of what is logged, printed, drawn and started; one
      definition per call of [os], [shutil], [pathlib], [glob], [time],
      [subprocess].  [OsFacts] frames and postconditions of the calls,
      [OsQuiet] their results when nothing fails, [WalkFacts] recursive
      listings, [Traces] what a run emits.
    - [Scenario]: a concrete sensor on which witnesses are evaluated.
    - [Mover]: [move_oldest.py], one definition per function, and its theorems.
    - [Hotswap]: [seer_hotswap.py]; theorems in [HotswapFacts] (one transfer),
      [HotswapBatch] (a batch), [HotswapLoop] (the rounds), [HotswapLock] (lock,
      detection), [HotswapLive] (progress), [HotswapService] (the whole life),
      [HotswapTypes] (types of the settings), [HotswapRecords] (the transfer log).
    - [Wizard], [WizardFacts]: [setup_wizard.py]; [WizardLink]: what the other
      programs read of its configuration.
    - [Console]: [seer_console.py] without the screen, [ConsoleFacts],
      [ConsoleStats], [ConsoleStatus], [ConsoleClear]; [Screen]: [render], the frames and the
      keys, [ScreenFacts], [ScreenFull], [ScreenKeys].

    Definitions carry the names of the source: [transfer_file], [export_batch],
    [pick_oldest_closed], [prompt_int], [act_clear] and so on.  Where the
    source has one long function, its parts are definitions of their own that
    are composed as in the source ([Hotswap.poll_body], [Screen.full_frame]).

    ** The environment

    What is not code of the repository is a class, and a theorem for every
    instance holds whatever it does:

    - [Os.Env]: the call number [n] may fail with an errno, be interrupted or
      kill the process ([fault n]); a copy may leave other data than was
      written ([bitrot]); the clock, the order of listings, the time zone, what
      started programs do ([exec]) and what other processes do while a program
      sleeps ([outside]).  The one law is that a listing is a permutation.
    - [Config.Yaml]: [yaml.safe_load] and [safe_dump]; no law is assumed, the
      theorems that need one state it.
    - [Os.Shell]: environment variables and command-line flags of the console.
    - [Screen.Term]: the window's size at each call, the keys, the curses calls
      that fail.  [ScreenFull] states the laws of curses it uses (a text that
      fits in the window is drawn).

    ** What the theorems show

    - The mover: no loss under every failure and corruption (C1); which file is
      picked, judged at the clock readings of the run itself (C2); a run moves
      that file, making the drive's directory of the day (C3).
    - One transfer: integrity under every failure and corruption (C4), success
      (C5), rejection of a bad copy (C6); the exact meaning of "still active"
      in double arithmetic (C7).
    - A batch: no loss (C8), a settled backlog is drained and recorded (C9), a
      mixed one as far as its files are settled (C36).
    - The service: its rounds refine a deterministic edge-triggered machine of
      two variables (C10), a round without an arrival exports nothing (C11), one
      instance at a time (C12), agreement of the two drive detections (C13); the
      settled files of the backlog are drained in the first round with a drive,
      however long the wait (C28); a captured file gets from the ring through the
      backlog to the drive unless that round finds it active (C29);
      over the whole life of the service, with drives plugged and unplugged, no
      file of the backlog is lost (C30); the lock of a dead instance is taken
      over (C31); the transfer log reads back (C34); settings of the right types
      do not go wrong (C35), and one of a wrong type stops the export (C25).
    - The wizard: bounds (C14) and termination (C15) of a question; the
      configuration is a function of the lines the operator typed, sensible, and
      accepted by the other programs (C16); the copy of [DEFAULTS] shares its
      dictionaries (C17); the backup (C18); mover and service start with, and
      the console reads, what the operator typed (C32).
    - The console: the state file is read as it was written (C19); a mount
      command is for the best unmounted whole disk of the listing just read
      (C20); the log statistics (C21) and the whole status (C33); clearing (C22);
      drawing within the window (C23, C24); the refresh interval (C26); nothing
      on the disk changes but by the programs it starts and by making missing
      directories (C27).

    A fact about time or input is tied to the run: [during w w' k] says that the
    [k]-th reading of the clock, or line of the standard input, was made between
    [w] and [w'], and [later] is the preorder that makes such facts compose.

    Safety theorems quantify over all of [Env]; theorems that work is done
    assume [fault n = None] and are stated as total results (the program
    returns), so that a program that never returns does not satisfy them.

    ** Bounds and fuel

    - [hash_loop] gets the length of the file plus one; each round takes a byte
      off, and [wp_hash_loop], [hash_loop_q] show that it is enough.
    - [poll_loop], [render_loop] and the question loops of the wizard run until
      they are ended from outside: their fuel is the number of rounds observed,
      after which the observation ends in [Killed]; the theorems hold for every
      number, C15 and C28 say what number suffices.
    - The recursive listing descends at most [depth_bound] levels; [WalkFacts]
      proves that no directory lies deeper.
    - The JSON reader's fuel is twice the length of the text; [JsonFacts] shows
      that it is enough for what the programs write.
    - Times are multiples of 2^-22 s, the grid of a double between 2004 and
      2038; [MAX_ROTATE] is 86400 s, for which C7 is exact.

    ** Not modelled

    - The shell scripts and systemd units: other languages.  What they do to
      the disk is [exec] and [outside].
    - [argparse] beyond the flags, the curses library, and the lines that the
      file handler of [logging] appends to [/var/log/seer/hotswap.log]: a message
      of the service is an event of the trace, so that "the disk as it is" (C11,
      C12, C25) is meant apart from that file.  The directory and the opening of
      the file are [Hotswap.program].
    - [shutil.move] of a directory tree across devices: no program moves a
      directory (the listed names are capture files); relative paths in the
      configuration of mover and hot-swap service; the character classes
      beyond ASCII; symbolic links, permissions other than the writability of a
      mount (a refused call is a [fault]). *)
From stdpp Require Export prelude gmap strings pretty sorting.
From Stdlib.Strings Require Export Byte.
From Stdlib Require Import Ascii.

(** ** Python exceptions

    [OSErr] carries what Python's [OSError] carries: the errno, and the one or
    two file names the failing call was given.  [FileNotFoundError] and the like
    are the errno classes of [OSError], as in the language.  [Killed] stands for
    a kill signal or a power loss: no handler sees it. *)

Declare Scope py_scope.
Delimit Scope py_scope with py.
Open Scope py_scope.

Inductive exn :=
  | OSErr (errno : Z) (f1 f2 : option string)
  | ShutilError (msg : string)
  | ValueError (msg : string)
  | KeyError (key : string)
  | TypeError (msg : string)
  | AttributeError (msg : string)
  | OverflowError (msg : string)
  | ZeroDivisionError
  | IndexError (msg : string)
  | EOFError (msg : string)
  | CursesError (msg : string)
  | KeyboardInterrupt
  | SystemExit (code : Z)
  | Killed.

#[export] Instance exn_eq_dec : EqDecision exn.
Proof. solve_decision. Defined.

Definition EPERM : Z := 1.
Definition ENOENT : Z := 2.
Definition ESRCH : Z := 3.
Definition EIO : Z := 5.
Definition EBADF : Z := 9.
Definition EACCES : Z := 13.
Definition EEXIST : Z := 17.
Definition EXDEV : Z := 18.
Definition ENOTDIR : Z := 20.
Definition EISDIR : Z := 21.
Definition EINVAL : Z := 22.
Definition ENOSPC : Z := 28.
Definition EROFS : Z := 30.
Definition ENOTEMPTY : Z := 39.
Definition ELOOP : Z := 40.

(** [except Exception] does not catch [BaseException]s. *)
Definition is_Exception (e : exn) : bool :=
  match e with KeyboardInterrupt | SystemExit _ | Killed => false | _ => true end.

(** [shutil.Error] and [shutil.SameFileError] are subclasses of [OSError]. *)
Definition is_OSError (e : exn) : bool :=
  match e with OSErr _ _ _ | ShutilError _ => true | _ => false end.

Definition has_errno (n : Z) (e : exn) : bool :=
  match e with OSErr m _ _ => bool_decide (m = n) | _ => false end.

Definition is_FileNotFoundError : exn → bool := has_errno ENOENT.
Definition is_ValueError (e : exn) : bool :=
  match e with ValueError _ => true | _ => false end.
Definition is_KeyboardInterrupt (e : exn) : bool :=
  match e with KeyboardInterrupt => true | _ => false end.
Definition is_CursesError (e : exn) : bool :=
  match e with CursesError _ => true | _ => false end.
Definition is_Killed (e : exn) : bool :=
  match e with Killed => true | _ => false end.

Definition strerror (n : Z) : string :=
  if bool_decide (n = EPERM) then "Operation not permitted" else
  if bool_decide (n = ENOENT) then "No such file or directory" else
  if bool_decide (n = ESRCH) then "No such process" else
  if bool_decide (n = EIO) then "Input/output error" else
  if bool_decide (n = EBADF) then "Bad file descriptor" else
  if bool_decide (n = EACCES) then "Permission denied" else
  if bool_decide (n = EEXIST) then "File exists" else
  if bool_decide (n = EXDEV) then "Invalid cross-device link" else
  if bool_decide (n = ENOTDIR) then "Not a directory" else
  if bool_decide (n = EISDIR) then "Is a directory" else
  if bool_decide (n = EINVAL) then "Invalid argument" else
  if bool_decide (n = ENOTEMPTY) then "Directory not empty" else
  if bool_decide (n = ENOSPC) then "No space left on device" else
  if bool_decide (n = EROFS) then "Read-only file system" else
  if bool_decide (n = ELOOP) then "Too many levels of symbolic links" else
  "Unknown error " +:+ pretty n.

(** [repr] of a file name with no quote or backslash in it. *)
Definition quoted (s : string) : string := "'" +:+ s +:+ "'".

(** [str(e)]. *)
Definition exn_str (e : exn) : string :=
  match e with
  | OSErr n None _ => "[Errno " +:+ pretty n +:+ "] " +:+ strerror n
  | OSErr n (Some f) None => "[Errno " +:+ pretty n +:+ "] " +:+ strerror n +:+ ": " +:+ quoted f
  | OSErr n (Some f) (Some g) =>
      "[Errno " +:+ pretty n +:+ "] " +:+ strerror n +:+ ": " +:+ quoted f +:+ " -> " +:+ quoted g
  | ShutilError m | ValueError m | TypeError m | AttributeError m | OverflowError m | IndexError m | EOFError m | CursesError m => m
  | KeyError k => quoted k
  | ZeroDivisionError => "division by zero"
  | KeyboardInterrupt => ""
  | SystemExit c => pretty c
  | Killed => ""
  end.

(** ** The state and exception monad

    Effectful Python code is a function of the state of the machine that returns
    a value or an exception, and the new state.  The notation is stdpp's. *)

Inductive res (A : Type) := Ok (a : A) | Err (e : exn).
Arguments Ok {A} a.
Arguments Err {A} e.

Definition io (W A : Type) : Type := W → res A * W.

#[export] Instance io_ret W : MRet (io W) := λ A a w, (Ok a, w).
#[export] Instance io_bind W : MBind (io W) := λ A B k m w,
  match m w with
  | (Ok a, w') => k a w'
  | (Err e, w') => (Err e, w')
  end.

Section Monad.
Context {W : Type}.

Definition raise {A} (e : exn) : io W A := λ w, (Err e, w).

(** [try: m except <class>: h]; [c] decides the exception class. *)
Definition try_except {A} (m : io W A) (c : exn → bool) (h : exn → io W A) : io W A := λ w,
  match m w with
  | (Ok a, w') => (Ok a, w')
  | (Err e, w') => if c e then h e w' else (Err e, w')
  end.

(** [try: m finally: f].  A killed process runs no handler; an exception of [f]
    replaces the one in flight. *)
Definition try_finally {A} (m : io W A) (f : io W unit) : io W A := λ w,
  match m w with
  | (Err Killed, w') => (Err Killed, w')
  | (r, w') => match f w' with (Ok _, w'') => (r, w'') | (Err e, w'') => (Err e, w'') end
  end.

Definition get : io W W := λ w, (Ok w, w).
Definition modify (f : W → W) : io W unit := λ w, (Ok tt, f w).
Definition lift_res {A} (r : res A) : io W A := λ w, (r, w).

Fixpoint mapM_io {A B} (f : A → io W B) (l : list A) : io W (list B) :=
  match l with
  | [] => mret []
  | x :: l => y ← f x; ys ← mapM_io f l; mret (y :: ys)
  end.

(** [[x for x in l if f(x)]] *)
Fixpoint filterM_io {A} (f : A → io W bool) (l : list A) : io W (list A) :=
  match l with
  | [] => mret []
  | x :: l => b ← f x; ys ← filterM_io f l; mret (if b : bool then x :: ys else ys)
  end.

Fixpoint forM_io {A} (f : A → io W unit) (l : list A) : io W unit :=
  match l with
  | [] => mret tt
  | x :: l => f x;; forM_io f l
  end.
End Monad.

(** ** Reasoning about programs

    [only R m]: whatever its outcome, [m] takes a state to an [R]-related one.
    For a preorder [R] this is closed under all the control structures, so a
    frame or a safety property of a program follows from its system calls. *)

Section Only.
Context {W : Type} (R : relation W).

Definition only {A} (m : io W A) : Prop := ∀ w, R w (m w).2.

Context `{!PreOrder R}.

Lemma only_ret {A} (a : A) : only (mret a).
Proof. intros w. reflexivity. Qed.

Lemma only_raise {A} e : only (raise (A:=A) e).
Proof. intros w. reflexivity. Qed.

Lemma only_get : only get.
Proof. intros w. reflexivity. Qed.

Lemma only_lift {A} (r : res A) : only (lift_res r).
Proof. intros w. reflexivity. Qed.

Lemma only_bind {A B} (m : io W A) (k : A → io W B) :
  only m → (∀ a, only (k a)) → only (m ≫= k).
Proof.
  intros Hm Hk w. specialize (Hm w). unfold mbind, io_bind.
  destruct (m w) as [[a|e] w']; simpl in *; [|done].
  etrans; [exact Hm|apply Hk].
Qed.

(** The same, when the first command can only return some values. *)
Lemma only_bind_post {A B} (Φ : A → Prop) (m : io W A) (k : A → io W B) :
  only m → (∀ w, match (m w).1 with Ok a => Φ a | Err _ => True end) →
  (∀ a, Φ a → only (k a)) → only (m ≫= k).
Proof.
  intros Hm HΦ Hk w. specialize (Hm w). specialize (HΦ w). unfold mbind, io_bind.
  destruct (m w) as [[a|e] w']; simpl in *; [|done].
  etrans; [exact Hm|by apply Hk].
Qed.

Lemma only_try {A} (m : io W A) c h :
  only m → (∀ e, only (h e)) → only (try_except m c h).
Proof.
  intros Hm Hh w. specialize (Hm w). unfold try_except.
  destruct (m w) as [[a|e] w']; simpl in *; [done|].
  destruct (c e); [etrans; [exact Hm|apply Hh]|done].
Qed.

Lemma only_finally {A} (m : io W A) f : only m → only f → only (try_finally m f).
Proof.
  intros Hm Hf w. specialize (Hm w). unfold try_finally.
  destruct (m w) as [[a|e] w']; [|destruct e]; simpl in *; try done;
    specialize (Hf w'); destruct (f w') as [[]]; simpl in *; by etrans.
Qed.

Lemma only_if {A} (b : bool) (m1 m2 : io W A) :
  only m1 → only m2 → only (if b then m1 else m2).
Proof. by destruct b. Qed.

Lemma only_filterM {A} (f : A → io W bool) l : (∀ x, only (f x)) → only (filterM_io f l).
Proof. intros Hf. induction l; simpl; auto using only_ret, only_bind. Qed.

Lemma only_mapM {A B} (f : A → io W B) l : (∀ x, only (f x)) → only (mapM_io f l).
Proof. intros Hf. induction l; simpl; auto using only_ret, only_bind. Qed.

Lemma only_forM {A} (f : A → io W unit) l : (∀ x, only (f x)) → only (forM_io f l).
Proof. intros Hf. induction l; simpl; auto using only_ret, only_bind. Qed.
End Only.

Lemma only_weaken {W A} (R R' : relation W) (m : io W A) :
  (∀ w w', R w w' → R' w w') → only R m → only R' m.
Proof. intros HR Hm w. apply HR, Hm. Qed.

Create HintDb io.
#[export] Hint Resolve only_ret only_raise only_get only_lift only_bind only_try
  only_finally only_if only_filterM only_mapM only_forM : io.
#[export] Hint Extern 1 (PreOrder _) => typeclasses eauto : io.

(** Decompose a program along its control structures and matches, leaving the
    system calls to the hint database. *)
Ltac only_step :=
  match goal with
  | |- only _ (match ?x with _ => _ end) => destruct x
  | |- only _ (mbind _ _) => apply only_bind; [typeclasses eauto| |intros ?]
  | |- only _ (try_except _ _ _) => apply only_try; [typeclasses eauto| |intros ?]
  | |- only _ (try_finally _ _) => apply only_finally; [typeclasses eauto| |]
  | |- only _ (mret _) => apply only_ret; typeclasses eauto
  | |- only _ (raise _) => apply only_raise; typeclasses eauto
  | |- only _ get => apply only_get; typeclasses eauto
  | |- only _ (lift_res _) => apply only_lift; typeclasses eauto
  | |- only _ (filterM_io _ _) => apply only_filterM; [typeclasses eauto|intros ?]
  | |- only _ (mapM_io _ _) => apply only_mapM; [typeclasses eauto|intros ?]
  | |- only _ (forM_io _ _) => apply only_forM; [typeclasses eauto|intros ?]
  | |- only _ _ => solve [eauto with io nocore]
  end.
Ltac solve_only := repeat only_step.

(** [wp m Q w]: run from [w], [m] ends in an outcome and a state related by [Q]. *)

Definition wp {W A} (m : io W A) (Q : res A → W → Prop) (w : W) : Prop := Q (m w).1 (m w).2.

Section Wp.
Context {W : Type}.
Implicit Types w : W.

Lemma wp_ret {A} (a : A) Q w : Q (Ok a) w → wp (mret a) Q w.
Proof. done. Qed.

Lemma wp_raise {A} e (Q : res A → W → Prop) w : Q (Err e) w → wp (raise e) Q w.
Proof. done. Qed.

Lemma wp_get (Q : res W → W → Prop) w : Q (Ok w) w → wp get Q w.
Proof. done. Qed.

Lemma wp_lift {A} (r : res A) Q w : Q r w → wp (lift_res r) Q w.
Proof. done. Qed.

Lemma wp_bind {A B} (m : io W A) (k : A → io W B) (Q : res B → W → Prop) w :
  wp m (λ r w', match r with Ok a => wp (k a) Q w' | Err e => Q (Err e) w' end) w →
  wp (m ≫= k) Q w.
Proof. unfold wp, mbind, io_bind. by destruct (m w) as [[a|e] w']. Qed.

Lemma wp_try {A} (m : io W A) (c : exn → bool) h (Q : res A → W → Prop) w :
  wp m (λ r w', match r with
                | Ok a => Q (Ok a) w'
                | Err e => if c e then wp (h e) Q w' else Q (Err e) w'
                end) w →
  wp (try_except m c h) Q w.
Proof.
  unfold wp, try_except. destruct (m w) as [[a|e] w']; simpl; [done|]. by destruct (c e).
Qed.

Lemma wp_finally {A} (m : io W A) f (Q : res A → W → Prop) w :
  wp m (λ r w', match r with
                | Err Killed => Q (Err Killed) w'
                | _ => wp f (λ r' w'', match r' with Ok _ => Q r w'' | Err e => Q (Err e) w'' end) w'
                end) w →
  wp (try_finally m f) Q w.
Proof.
  unfold wp, try_finally.
  destruct (m w) as [[a|e] w']; [|destruct e]; simpl; try done; by destruct (f w') as [[]].
Qed.

Lemma wp_mono {A} (m : io W A) (Q Q' : res A → W → Prop) w :
  wp m Q w → (∀ r w', Q r w' → Q' r w') → wp m Q' w.
Proof. intros Hm HQ. apply HQ, Hm. Qed.

Lemma wp_only {A} (R : relation W) (m : io W A) w (Q : res A → W → Prop) :
  only R m → (∀ r w', R w w' → Q r w') → wp m Q w.
Proof. intros Hm HQ. apply HQ, Hm. Qed.

Lemma wp_eq {A} (m : io W A) (Q : res A → W → Prop) w r w' : m w = (r, w') → Q r w' → wp m Q w.
Proof. unfold wp. by intros ->. Qed.

(** A specification of [m] and a frame of [m] combine. *)
Lemma wp_and_only {A} (R : relation W) (m : io W A) w Q :
  only R m → wp m Q w → wp m (λ r w', Q r w' ∧ R w w') w.
Proof. intros Hm HQ. split; [exact HQ|apply Hm]. Qed.

Lemma wp_run {A} (m : io W A) Q w r w' : m w = (r, w') → wp m Q w → Q r w'.
Proof. unfold wp. by intros ->. Qed.

(** Loop rule: an invariant kept by every iteration holds at the end, and at
    the exception that ends the loop. *)
Lemma wp_forM {A} (I : W → Prop) (f : A → io W unit) l w :
  I w → (∀ x w', x ∈ l → I w' → wp (f x) (λ _ w'', I w'') w') →
  wp (forM_io f l) (λ _ w', I w') w.
Proof.
  revert w. induction l as [|x l IH]; intros w Hw Hf; simpl; [by apply wp_ret|].
  apply wp_bind. eapply wp_mono; [apply Hf; [left|done]|].
  intros [[]|e] w' Hw'; [|done]. apply IH; [done|].
  intros y w'' Hy. apply Hf. by right.
Qed.
End Wp.

(** [never c m]: [m] does not end in an exception of the class [c]. *)

Section Never.
Context {W : Type} (c : exn → bool).

Definition never {A} (m : io W A) : Prop := ∀ w e, (m w).1 = Err e → c e = false.

Lemma never_ret {A} (a : A) : never (mret a).
Proof. by intros w e. Qed.
Lemma never_get : never get.
Proof. by intros w e. Qed.
Lemma never_modify f : never (modify f).
Proof. by intros w e. Qed.
Lemma never_raise {A} e : c e = false → never (raise (A:=A) e).
Proof. by intros He w e' [= <-]. Qed.
Lemma never_lift {A} (r : res A) : (∀ e, r = Err e → c e = false) → never (lift_res r).
Proof. intros Hr w e. apply Hr. Qed.
Lemma never_bind {A B} (m : io W A) (k : A → io W B) : never m → (∀ a, never (k a)) → never (m ≫= k).
Proof.
  intros Hm Hk w e. unfold mbind, io_bind. specialize (Hm w).
  destruct (m w) as [[a|e'] w']; [apply Hk|]. cbn. intros [= <-]. by apply Hm.
Qed.
Lemma never_bind_post {A B} (Φ : A → Prop) (m : io W A) (k : A → io W B) :
  never m → (∀ w a w', m w = (Ok a, w') → Φ a) → (∀ a, Φ a → never (k a)) → never (m ≫= k).
Proof.
  intros Hm HΦ Hk w e. unfold mbind, io_bind. specialize (Hm w). specialize (HΦ w).
  destruct (m w) as [[a|e'] w'] eqn:Hrun; [by apply Hk, (HΦ _ _ eq_refl)|]. cbn. intros [= <-]. by apply Hm.
Qed.
Lemma never_if {A} (b : bool) (m1 m2 : io W A) : never m1 → never m2 → never (if b then m1 else m2).
Proof. by destruct b. Qed.

(** What a handler of the class catches does not get out. *)
Lemma never_try {A} (m : io W A) d h :
  (∀ e, d e = false → c e = false) → (∀ e, never (h e)) → never (try_except m d h).
Proof.
  intros Hd Hh w e. unfold try_except. destruct (m w) as [[a|e'] w']; [done|].
  destruct (d e') eqn:Hde; [apply Hh|]. cbn. intros [= <-]. by apply Hd.
Qed.

(** A handler of another class lets it through. *)
Lemma never_try_inner {A} (m : io W A) d h : never m → (∀ e, never (h e)) → never (try_except m d h).
Proof.
  intros Hm Hh w e. unfold try_except. specialize (Hm w). destruct (m w) as [[a|e'] w']; [done|].
  destruct (d e'); [apply Hh|apply Hm].
Qed.

(** A handler that may raise what it has caught again. *)
Lemma never_try_again {A} (m : io W A) d h :
  never m → (∀ e, c e = false → never (h e)) → never (try_except m d h).
Proof.
  intros Hm Hh w e. unfold try_except. specialize (Hm w). destruct (m w) as [[a|e'] w']; [done|].
  specialize (Hm e' eq_refl). destruct (d e'); [by apply Hh|]. cbn. by intros [= <-].
Qed.

(** Everything the body may raise is handled. *)
Lemma never_try_all {A} (m : io W A) d h :
  (∀ w e, (m w).1 = Err e → d e = true) → (∀ e, never (h e)) → never (try_except m d h).
Proof.
  intros Hm Hh w e. unfold try_except. specialize (Hm w). destruct (m w) as [[a|e'] w']; [done|].
  rewrite (Hm e' eq_refl). apply Hh.
Qed.

Lemma never_forM {A} (f : A → io W unit) l : (∀ x, x ∈ l → never (f x)) → never (forM_io f l).
Proof.
  induction l as [|x l IH]; intros Hf; cbn [forM_io]; [apply never_ret|].
  apply never_bind; [apply Hf; left|]. intros _. apply IH. intros y Hy. apply Hf. by right.
Qed.
End Never.

Lemma never_mono {W A} (c d : exn → bool) (m : io W A) :
  (∀ e, d e = true → c e = true) → never c m → never d m.
Proof.
  intros Hcd Hm w e He. specialize (Hm w e He). destruct (d e) eqn:Hde; [|done].
  by rewrite Hcd in Hm.
Qed.

Create HintDb calm.
#[export] Hint Resolve never_ret never_get never_modify never_bind never_if : calm.

(** Running forward: rewriting with the outcome of the first command. *)
Lemma bind_ok {W A B} (m : io W A) (k : A → io W B) w a w' :
  m w = (Ok a, w') → (m ≫= k) w = k a w'.
Proof. unfold mbind, io_bind. by intros ->. Qed.

Lemma bind_err {W A B} (m : io W A) (k : A → io W B) w e w' :
  m w = (Err e, w') → (m ≫= k) w = (Err e, w').
Proof. unfold mbind, io_bind. by intros ->. Qed.

(** ** Stable sorting

    Python's [sorted] and [list.sort] are stable and keep all elements; insertion
    sort with a total [leb] is such a sort. *)

Section Sorting.
Context {A : Type} (leb : A → A → bool).

Fixpoint insert_by (x : A) (l : list A) : list A :=
  match l with
  | [] => [x]
  | y :: l' => if leb x y then x :: l else y :: insert_by x l'
  end.
Definition sort_by (l : list A) : list A := foldr insert_by [] l.

Let le : relation A := λ x y, leb x y.

Lemma insert_by_perm x l : insert_by x l ≡ₚ x :: l.
Proof. induction l as [|y l IH]; simpl; [done|]. destruct (leb x y); [done|]. rewrite IH. constructor. Qed.

Lemma sort_by_perm l : sort_by l ≡ₚ l.
Proof. induction l as [|x l IH]; simpl; [done|]. by rewrite insert_by_perm, IH. Qed.

Context (leb_total : ∀ x y, leb x y = false → leb y x = true).
Context `{!Transitive le}.

Lemma insert_by_sorted x l : StronglySorted le l → StronglySorted le (insert_by x l).
Proof.
  induction 1 as [|y l Hl IH Hy]; simpl; [repeat constructor|].
  destruct (leb x y) eqn:Hxy.
  - constructor; [by constructor|]. constructor; [unfold le; by rewrite Hxy|].
    eapply Forall_impl; [exact Hy|]. intros z Hz. etrans; [|exact Hz]. unfold le. by rewrite Hxy.
  - constructor; [done|]. rewrite insert_by_perm. constructor; [|done].
    unfold le. by rewrite leb_total.
Qed.

Lemma sort_by_sorted l : StronglySorted le (sort_by l).
Proof. induction l; simpl; [constructor|by apply insert_by_sorted]. Qed.

(** The sort is stable: its head is the first of the least elements. *)
Lemma sort_by_head l x l' :
  sort_by l = x :: l' →
  ∃ l1 l2, l = l1 ++ x :: l2 ∧ (∀ y, y ∈ l1 → leb y x = false) ∧ ∀ y, y ∈ l → y = x ∨ leb x y = true.
Proof.
  revert x l'. induction l as [|a l IH]; intros x l'; [done|]. simpl.
  destruct (sort_by l) as [|b k] eqn:Hs; simpl.
  { intros [= <- _]. assert (l = []) as -> by (apply Permutation_nil; by rewrite <-Hs, sort_by_perm).
    exists [], []. split_and!; [done|by intros y ?%elem_of_nil|]. intros y ->%list_elem_of_singleton. by left. }
  destruct (IH b k eq_refl) as (l1 & l2 & Hl & H1 & H2). destruct (leb a b) eqn:Hab; intros [= <- _].
  - exists [], l. split_and!; [done|by intros y ?%elem_of_nil|]. intros y [->|Hy]%elem_of_cons; [by left|right].
    destruct (H2 y Hy) as [->|Hby]; [done|]. apply Is_true_true. trans b; unfold le; apply Is_true_true; done.
  - exists (a :: l1), l2. split_and!; [by rewrite Hl|..].
    + intros y [->|Hy]%elem_of_cons; [done|by apply H1].
    + intros y [->|Hy]%elem_of_cons; [right; by apply leb_total|by apply H2].
Qed.
End Sorting.
