(* ===== verification/Text.v ===== *)
(** * Python strings

    What the SEER programs use of Python's [str], [fnmatch], [pathlib] and
    [sorted]: substring tests, [strip], [split], [lower], [int], shell patterns,
    path names, and the stable sort.  A [string] is the UTF-8 form of the Python
    string; the character classes are those of ASCII. *)
From S2P Require Import Prelude.
From Stdlib Require Import Ascii.

(** ** Characters *)

Definition code (c : ascii) : Z := Z.of_N (N_of_ascii c).

Definition is_space (c : ascii) : bool :=
  let n := code c in
  bool_decide (n = 32 ∨ (9 ≤ n ∧ n ≤ 13) ∨ (28 ≤ n ∧ n ≤ 31))%Z.

Definition is_digit (c : ascii) : bool := bool_decide (48 ≤ code c ∧ code c ≤ 57)%Z.

Definition lower_char (c : ascii) : ascii :=
  if bool_decide (65 ≤ code c ∧ code c ≤ 90)%Z
  then ascii_of_N (Z.to_N (code c + 32)%Z) else c.

Definition nl : string := String (ascii_of_N 10) EmptyString.
Definition dquote : string := String (ascii_of_N 34) EmptyString.

(** ** Strings as lists of characters *)

Abbreviation chars := String.list_ascii_of_string.
Abbreviation of_chars := String.string_of_list_ascii.

Definition str_len (s : string) : Z := Z.of_nat (String.length s).

(** [s[:n]] for [n >= 0]. *)
Definition str_take (n : nat) (s : string) : string := of_chars (take n (chars s)).

(** The code points of a UTF-8 string begin at the bytes that do not continue
    one.  [ulen] is [len(s)]; [uslice n] is [s[:n]], counted from the end for a
    negative [n]. *)
Definition continues (c : ascii) : bool := bool_decide (128 ≤ code c ∧ code c ≤ 191)%Z.
Definition ulen_chars (l : list ascii) : nat := length (List.filter (λ c, negb (continues c)) l).
Definition ulen (s : string) : Z := Z.of_nat (ulen_chars (chars s)).
Fixpoint take_points (n : nat) (l : list ascii) : list ascii :=
  match l with
  | [] => []
  | c :: l' =>
      if continues c then c :: take_points n l'
      else match n with O => [] | S n' => c :: take_points n' l' end
  end.
Definition uslice (n : Z) (s : string) : string :=
  of_chars (take_points (Z.to_nat (if (n <? 0)%Z then ulen s + n else n)) (chars s)).

(** [f"{s:<width}"], [s.ljust(width)] and [c * width]. *)
Definition repeat_char (c : ascii) (width : Z) : string := of_chars (replicate (Z.to_nat width) c).
Definition ljust (width : Z) (s : string) : string := s +:+ repeat_char " "%char (width - ulen s).

Definition lower (s : string) : string := of_chars (lower_char <$> chars s).

Definition startswith (pre s : string) : bool := String.prefix pre s.

(** [sub in s]. *)
Fixpoint contains (sub s : string) : bool :=
  startswith sub s ||
  match s with EmptyString => false | String _ s' => contains sub s' end.

Fixpoint lstrip_by (f : ascii → bool) (l : list ascii) : list ascii :=
  match l with
  | [] => []
  | c :: l' => if f c then lstrip_by f l' else l
  end.

Definition strip_chars (f : ascii → bool) (l : list ascii) : list ascii :=
  reverse (lstrip_by f (reverse (lstrip_by f l))).

(** [s.strip()]. *)
Definition strip (s : string) : string := of_chars (strip_chars is_space (chars s)).

(** Maximal runs of characters outside [f]: [s.split()] for [f = is_space]. *)
Fixpoint split_runs (f : ascii → bool) (cur : list ascii) (l : list ascii) : list (list ascii) :=
  match l with
  | [] => match cur with [] => [] | _ => [reverse cur] end
  | c :: l' =>
      if f c
      then match cur with [] => split_runs f [] l' | _ => reverse cur :: split_runs f [] l' end
      else split_runs f (c :: cur) l'
  end.

Definition split_ws (s : string) : list string := of_chars <$> split_runs is_space [] (chars s).

(** [s.split("\n")] *)
Fixpoint split_on (c : ascii) (cur : list ascii) (l : list ascii) : list (list ascii) :=
  match l with
  | [] => [reverse cur]
  | d :: l' => if bool_decide (c = d) then reverse cur :: split_on c [] l' else split_on c (d :: cur) l'
  end.

Definition split_lines (s : string) : list string := of_chars <$> split_on (ascii_of_N 10) [] (chars s).

(** [s.splitlines()]: a line ends at a line boundary, a carriage return and a
    newline being one; there is no empty line after the last boundary. *)
Definition is_boundary (c : ascii) : bool :=
  let n := code c in bool_decide ((10 ≤ n ∧ n ≤ 13) ∨ (28 ≤ n ∧ n ≤ 30))%Z.
Fixpoint split_bounds (cur : list ascii) (l : list ascii) : list (list ascii) :=
  match l with
  | [] => match cur with [] => [] | _ => [reverse cur] end
  | c :: l' =>
      if is_boundary c
      then reverse cur ::
             match l' with
             | d :: l'' => if bool_decide (code c = 13 ∧ code d = 10)%Z
                           then split_bounds [] l'' else split_bounds [] l'
             | [] => []
             end
      else split_bounds (c :: cur) l'
  end.
Definition splitlines (s : string) : list string := of_chars <$> split_bounds [] (chars s).

(** ** [int(s)]: a sign, then digits, with single underscores between digits. *)

Definition digit_val (c : ascii) : Z := (code c - 48)%Z.

Fixpoint parse_digits (acc : Z) (l : list ascii) : option Z :=
  match l with
  | [] => Some acc
  | c :: l' =>
      if is_digit c then parse_digits (acc * 10 + digit_val c)%Z l'
      else if bool_decide (c = "_"%char) then
        match l' with
        | d :: l'' => if is_digit d then parse_digits (acc * 10 + digit_val d)%Z l'' else None
        | [] => None
        end
      else None
  end.

Definition parse_nat_chars (l : list ascii) : option Z :=
  match l with
  | c :: l' => if is_digit c then parse_digits (digit_val c) l' else None
  | [] => None
  end.

Definition parse_signed (l : list ascii) : option Z :=
  match l with
  | "+"%char :: l' => parse_nat_chars l'
  | "-"%char :: l' => Z.opp <$> parse_nat_chars l'
  | _ => parse_nat_chars l
  end.

Definition py_int (s : string) : option Z := parse_signed (strip_chars is_space (chars s)).

(** [s.isdigit()]. *)
Definition isdigit (s : string) : bool :=
  match chars s with [] => false | l => forallb is_digit l end.

(** ** Shell words *)

(** [shlex.quote] *)
Definition shell_safe (c : ascii) : bool :=
  let n := code c in
  bool_decide ((48 ≤ n ∧ n ≤ 57) ∨ (65 ≤ n ∧ n ≤ 90) ∨ (97 ≤ n ∧ n ≤ 122))%Z ||
  bool_decide (c ∈ chars "_@%+=:,./-").
Definition shlex_quote (s : string) : string :=
  if bool_decide (s = "") then "''"
  else if forallb shell_safe (chars s) then s
  else "'" +:+ of_chars (mjoin ((λ c, if bool_decide (c = "'"%char)
                                      then chars ("'" +:+ dquote +:+ "'" +:+ dquote +:+ "'")
                                      else [c]) <$> chars s)) +:+ "'".

(** ** Decimal output padded with zeros: [f"{n:02d}"] for [n >= 0]. *)
Definition zpad (width : nat) (n : Z) : string :=
  let s := pretty n in
  of_chars (replicate (width - String.length s) "0"%char) +:+ s.

(** ** Shell patterns ([fnmatch]) with [*] and literal characters *)

Fixpoint fnmatch_chars (p : list ascii) : list ascii → bool :=
  match p with
  | [] => λ s, match s with [] => true | _ => false end
  | c :: p' =>
      if bool_decide (c = "*"%char)
      then fix star s := fnmatch_chars p' s || match s with [] => false | _ :: s' => star s' end
      else λ s, match s with d :: s' => bool_decide (c = d) && fnmatch_chars p' s' | [] => false end
  end.

Definition fnmatch (name pat : string) : bool := fnmatch_chars (chars pat) (chars name).

(** ** Path names

    A path is the list of its components from the root.  [Path_] is
    [pathlib]'s parsing of an absolute name: empty and dot components go. *)

Abbreviation path := (list string).

Definition Path_ (s : string) : path :=
  filter (λ c, negb (bool_decide (c = "" ∨ c = "."))) (of_chars <$> split_on "/"%char [] (chars s)).

Definition show_path (p : path) : string :=
  match p with
  | [] => "/"
  | _ => foldr (λ c acc, "/" +:+ c +:+ acc) "" p
  end.

Definition basename (p : path) : string := default "" (last p).
Definition parent (p : path) : path := take (length p - 1) p.
