(* ===== verification/Os.v ===== *)
(** * The machine under the SEER programs

    Files, mounts, clocks and the calls of [os], [shutil], [pathlib], [glob],
    [time] and [subprocess] the programs make.  The schedule of failures, the
    clock, the order of directory listings, what a copy leaves on a bad drive
    and what other processes do while a program sleeps are an instance of
    [Env]: a theorem that holds for every [Env] holds whatever they do. *)
From S2P Require Import Prelude Text.

Abbreviation bytes := (list byte).

Definition encode (s : string) : bytes := String.list_byte_of_string s.
Definition decode (b : bytes) : string := String.string_of_list_byte b.

(** ** State

    A file is found by the device and the path inside the device; a path is
    located through the longest mount point above it.  Times are counted in
    units of [2^-22] s, the spacing of doubles between [2^30] and [2^31] (the
    years 2004 to 2038), so that differences of [time.time()] and [st_mtime]
    are exact. *)

Definition second : Z := 2 ^ 22.

Inductive node := File (data : bytes) (mtime : Z) | Dir.

#[export] Instance byte_eq_dec : EqDecision byte := Byte.byte_eq_dec.
#[export] Instance node_eq_dec : EqDecision node.
Proof. solve_decision. Defined.

Record mount := Mount {
  m_dev : nat;
  m_writable : bool;
  f_bavail : Z;
  f_blocks : Z;
  f_frsize : Z;
}.

Abbreviation key := (nat * path)%type.

Inductive event :=
  | Logged (level msg : string)
  | Printed (msg : string)
  | Ran (argv : list string)
  | Drawn (y x : Z) (text : string) (attr : Z)
  | Paired (pair fg bg : Z)
  | Curses (call : string).

Record world := World {
  fs : gmap key node;
  mounts : gmap path mount;
  ticks : nat;
  trace : list event;
}.

Definition set_fs (m : gmap key node) (w : world) : world :=
  World m (mounts w) (ticks w) (trace w).
Definition tick (w : world) : world :=
  World (fs w) (mounts w) (S (ticks w)) (trace w).
Definition emit_event (e : event) (w : world) : world :=
  World (fs w) (mounts w) (ticks w) (trace w ++ [e]).

Fixpoint locate_from (mnt : gmap path mount) (k : nat) (p : path) : key :=
  match k with
  | O => (O, p)
  | S k' =>
      match mnt !! take k p with
      | Some m => (m_dev m, drop k p)
      | None => locate_from mnt k' p
      end
  end.

Definition locate (mnt : gmap path mount) (p : path) : key := locate_from mnt (length p) p.

(** The root directory of every device exists. *)
Definition kget (m : gmap key node) (k : key) : option node :=
  match k.2 with [] => Some Dir | _ => m !! k end.
Definition node_at (w : world) (p : path) : option node :=
  kget (fs w) (locate (mounts w) p).

Definition set_node (p : path) (n : node) (w : world) : world :=
  set_fs (<[locate (mounts w) p := n]> (fs w)) w.
Definition del_node (p : path) (w : world) : world :=
  set_fs (delete (locate (mounts w) p) (fs w)) w.

(** ** The environment *)

Inductive failure := Fail (errno : Z) | Interrupt | Kill.

Record tm := Tm {
  tm_year : Z; tm_mon : Z; tm_mday : Z; tm_hour : Z; tm_min : Z; tm_sec : Z; tm_usec : Z;
  tm_zone : string;
}.

(** [strftime] with the formats the programs use, and [isoformat()]. *)
Definition fmt_ymd (t : tm) : string :=
  zpad 4 (tm_year t) +:+ zpad 2 (tm_mon t) +:+ zpad 2 (tm_mday t).
Definition fmt_date (t : tm) : string :=
  zpad 4 (tm_year t) +:+ "-" +:+ zpad 2 (tm_mon t) +:+ "-" +:+ zpad 2 (tm_mday t).
Definition fmt_hms (t : tm) : string :=
  zpad 2 (tm_hour t) +:+ ":" +:+ zpad 2 (tm_min t) +:+ ":" +:+ zpad 2 (tm_sec t).
Definition isoformat (t : tm) : string :=
  fmt_date t +:+ "T" +:+ fmt_hms t +:+
  (if bool_decide (tm_usec t = 0%Z) then "" else "." +:+ zpad 6 (tm_usec t)).

Record proc := Proc { returncode : Z; stdout : string; stderr : string }.

Class Env := {
  root_mount : mount;
  clock : nat → Z;
  fault : nat → option failure;
  short_write : nat → nat;
  bitrot : nat → bytes → bytes;
  dir_order : nat → list string → list string;
  dir_order_perm : ∀ n l, dir_order n l ≡ₚ l;
  localtime : Z → tm;
  kill0 : nat → Z → option Z;
  pid : Z;
  nodename : string;
  outside : nat → world → world;
  exec : nat → list string → world → proc * world;
  stdin : nat → option string;
  cpu_count : option Z;
  which : string → bool;
}.

(** The command line and the environment of a program: the environment
    variables, the flags [argparse] finds, the working
    directory, and whether the standard streams are a terminal. *)
Class Shell := {
  environ : string → option string;
  arg_once : bool;
  arg_no_colors : bool;
  cwd : path;
  isatty : bool;
}.

Abbreviation prog := (io world).

Section Calls.
Context {E : Env}.

(** One system call: it may fail with an errno, be interrupted, or be the last
    thing the process does. *)
Definition syscall (f1 f2 : option path) : prog unit := λ w,
  match fault (ticks w) with
  | None => (Ok tt, tick w)
  | Some (Fail n) => (Err (OSErr n (show_path <$> f1) (show_path <$> f2)), tick w)
  | Some Interrupt => (Err KeyboardInterrupt, tick w)
  | Some Kill => (Err Killed, tick w)
  end.

Definition os_error {A} (n : Z) (p : path) : prog A := raise (OSErr n (Some (show_path p)) None).

Definition emit (e : event) : prog unit := modify (emit_event e).
Definition log_at (level msg : string) : prog unit := emit (Logged level msg).
Definition print (msg : string) : prog unit := emit (Printed msg).

(** [time.time()]; [datetime.now()]; [time.sleep()], during which the rest of
    the machine runs. *)
Definition time_time : prog Z := λ w, (Ok (clock (ticks w)), tick w).
Definition datetime_now : prog tm := λ w, (Ok (localtime (clock (ticks w))), tick w).
Definition sleep : prog unit := λ w,
  match syscall None None w with
  | (Ok tt, w') => (Ok tt, outside (ticks w) w')
  | r => r
  end.

(** [input(prompt)]: the prompt, then a line of the standard input. *)
Definition input (prompt : string) : prog string :=
  print prompt;;
  w ← get;
  syscall None None;;
  match stdin (ticks w) with
  | Some line => mret line
  | None => raise (EOFError "EOF when reading a line")
  end.

(** [subprocess.run(argv)] and [os.system(cmd)]: another program runs. *)
Definition exec_proc (argv : list string) : prog proc := λ w,
  let '(r, w') := exec (ticks w) argv w in (Ok r, tick w').
Definition run (argv : list string) : prog proc :=
  emit (Ran argv);; syscall None None;; exec_proc argv.
Definition os_system (cmd : string) : prog Z :=
  emit (Ran ["sh"; "-c"; cmd]);;
  r ← exec_proc ["sh"; "-c"; cmd];
  mret (returncode r).

(** [os.sync()] reports no error. *)
Definition os_sync : prog unit := try_except (syscall None None) is_OSError (λ _, mret tt).

(** [os.kill(n, 0)]: the errno the kernel answers with, if any; a number that is
    no C [int] does not reach the kernel. *)
Definition os_kill0 (n : Z) : prog unit :=
  if bool_decide (- 2 ^ 31 ≤ n < 2 ^ 31)%Z then
    syscall None None;;
    w ← get;
    match kill0 (ticks w) n with
    | None => mret tt
    | Some e => raise (OSErr e None None)
    end
  else raise (OverflowError "signed integer is greater than maximum").

(** [os.stat]. *)
Definition stat (p : path) : prog node :=
  syscall (Some p) None;;
  w ← get;
  match node_at w p with
  | Some n => mret n
  | None => os_error ENOENT p
  end.

Definition st_mtime (n : node) : Z := match n with File _ t => t | Dir => 0 end.
Definition st_size (n : node) : Z := match n with File d _ => Z.of_nat (length d) | Dir => 0 end.
Definition is_reg (n : node) : bool := match n with File _ _ => true | Dir => false end.
Definition is_dir (n : node) : bool := negb (is_reg n).

(** [os.stat(p).st_dev]. *)
Definition stat_dev (p : path) : prog nat :=
  stat p;; w ← get; mret (locate (mounts w) p).1.

(** [os.path.exists], [os.path.isdir]: no [OSError] gets out. *)
Definition os_exists (p : path) : prog bool :=
  try_except (stat p;; mret true) is_OSError (λ _, mret false).
Definition os_isdir (p : path) : prog bool :=
  try_except (n ← stat p; mret (is_dir n)) is_OSError (λ _, mret false).

(** [Path.is_file], [Path.exists]: only the errnos of a missing file are
    ignored ([pathlib._ignore_error]). *)
Definition ignore_error (e : exn) : bool :=
  has_errno ENOENT e || has_errno ENOTDIR e || has_errno EBADF e || has_errno ELOOP e.
Definition path_is_file (p : path) : prog bool :=
  try_except (n ← stat p; mret (is_reg n)) ignore_error (λ _, mret false).
Definition path_exists (p : path) : prog bool :=
  try_except (stat p;; mret true) ignore_error (λ _, mret false).

(** [os.path.ismount]: the device changes between the parent and [p], or both
    are the same directory (the root). *)
Definition os_ismount (p : path) : prog bool :=
  try_except
    (d1 ← stat_dev p;
     d2 ← stat_dev (parent p);
     w ← get;
     mret (negb (bool_decide (d1 = d2)) ||
           bool_decide (locate (mounts w) p = locate (mounts w) (parent p))))
    is_OSError (λ _, mret false).

(** The file system that holds [p]. *)
Fixpoint mount_from (mnt : gmap path mount) (k : nat) (p : path) : mount :=
  match k with
  | O => root_mount
  | S k' => match mnt !! take k p with Some m => m | None => mount_from mnt k' p end
  end.
Definition mount_of (mnt : gmap path mount) (p : path) : mount := mount_from mnt (length p) p.

(** [os.access(p, os.W_OK)] and [os.statvfs(p)]. *)
Definition os_access_w (p : path) : prog bool :=
  try_except
    (stat p;; w ← get; mret (m_writable (mount_of (mounts w) p)))
    is_OSError (λ _, mret false).
Definition os_statvfs (p : path) : prog (Z * Z * Z) :=
  stat p;; w ← get;
  let m := mount_of (mounts w) p in mret (f_bavail m, f_blocks m, f_frsize m).

(** ** Directories *)

Definition children (w : world) (p : path) : list string :=
  let '(d, q) := locate (mounts w) p in
  omap (λ '((d', q'), _),
    if bool_decide (d' = d ∧ q' ≠ [] ∧ parent q' = q) then Some (basename q') else None)
    (map_to_list (fs w)).

(** [os.scandir]: the entries come in no particular order. *)
Definition scandir (p : path) : prog (list string) :=
  n ← stat p;
  match n with
  | Dir => w ← get; mret (dir_order (ticks w) (children w p))
  | File _ _ => os_error ENOTDIR p
  end.

(** [Path(p).glob(pat)] for a pattern without a slash: nothing for a path that
    is not a directory; a directory that may not be read has no entries. *)
Definition path_glob (p : path) (pat : string) : prog (list path) :=
  b ← try_except (n ← stat p; mret (is_dir n)) ignore_error (λ _, mret false);
  if (b : bool) then
    names ← try_except (scandir p) (λ e, has_errno EACCES e || has_errno EPERM e) (λ _, mret []);
    mret ((λ n, p ++ [n]) <$> List.filter (λ n, fnmatch n pat) names)
  else mret [].

(** [glob.glob(os.path.join(p, pat))]: errors are swallowed and hidden files
    are skipped. *)
Definition glob_glob (p : path) (pat : string) : prog (list path) :=
  names ← try_except (scandir p) is_OSError (λ _, mret []);
  mret ((λ n, p ++ [n]) <$> List.filter (λ n, fnmatch n pat && negb (startswith "." n)) names).

(** The directories below [d], each before those below it; the errors of class
    [c] hide the entries of a directory, and so does a leading dot unless
    [hidden].  A path is determined by the mount point above it and the place on
    the device, so their number bounds the depth. *)
Definition perm_error (e : exn) : bool := has_errno EACCES e || has_errno EPERM e.
Definition listing (c : exn → bool) (d : path) : prog (list string) :=
  try_except (scandir d) c (λ _, mret []).
Definition isdir_in (w : world) (p : path) : bool :=
  match node_at w p with Some Dir => true | _ => false end.
Fixpoint subdirs (fuel : nat) (c : exn → bool) (hidden : bool) (d : path) : prog (list path) :=
  match fuel with
  | O => mret []
  | S fuel' =>
      names ← listing c d;
      w ← get;
      let ds := List.filter (λ n, isdir_in w (d ++ [n]) && (hidden || negb (startswith "." n))) names in
      rest ← mapM_io (λ n, l ← subdirs fuel' c hidden (d ++ [n]); mret ((d ++ [n]) :: l)) ds;
      mret (mjoin rest)
  end.
Definition depth_bound (w : world) : nat := S (size (fs w)) * S (size (mounts w)).

(** [glob.glob(os.path.join(p, "**", pat), recursive=True)] *)
Definition glob_rec (p : path) (pat : string) : prog (list path) :=
  b ← os_isdir p;
  w ← get;
  sub ← subdirs (depth_bound w) is_OSError false p;
  l ← mapM_io (λ d, glob_glob d pat) ((if (b : bool) then [p] else []) ++ sub);
  mret (mjoin l).

(** [Path(p).rglob(pat)] *)
Definition path_rglob (p : path) (pat : string) : prog (list path) :=
  b ← try_except (n ← stat p; mret (is_dir n)) ignore_error (λ _, mret false);
  if (b : bool) then
    w ← get;
    sub ← subdirs (depth_bound w) perm_error true p;
    l ← mapM_io (λ d, names ← listing perm_error d;
                      mret ((λ n, d ++ [n]) <$> List.filter (λ n, fnmatch n pat) names)) (p :: sub);
    mret (mjoin l)
  else mret [].

Definition mkdir (p : path) : prog unit :=
  syscall (Some p) None;;
  w ← get;
  match node_at w p with
  | Some _ => os_error EEXIST p
  | None =>
      match node_at w (parent p) with
      | Some Dir => modify (set_node p Dir)
      | Some (File _ _) => os_error ENOTDIR p
      | None => os_error ENOENT p
      end
  end.

(** [os.mkdir] under [exist_ok=True]. *)
Definition mkdir_ok (p : path) : prog unit :=
  try_except (mkdir p) is_OSError
    (λ e, b ← os_isdir p; if (b : bool) then mret tt else raise e).

(** [os.makedirs(p, exist_ok=True)] and [Path(p).mkdir(parents=True,
    exist_ok=True)]: the missing ancestors, then the directory. *)
Fixpoint makedirs_from (done todo : path) : prog unit :=
  match todo with
  | [] => mret tt
  | c :: todo' => mkdir_ok (done ++ [c]);; makedirs_from (done ++ [c]) todo'
  end.
Definition makedirs (p : path) : prog unit := makedirs_from [] p.

(** ** Files *)

(** Opening for writing makes the file when the directory is there, and
    empties it unless appending. *)
Definition open_write (append : bool) (p : path) : prog unit :=
  syscall (Some p) None;;
  w ← get;
  match node_at w p with
  | Some Dir => os_error EISDIR p
  | Some (File _ _) => if append then mret tt else modify (set_node p (File [] (clock (ticks w))))
  | None =>
      match node_at w (parent p) with
      | Some Dir => modify (set_node p (File [] (clock (ticks w))))
      | Some (File _ _) => os_error ENOTDIR p
      | None => os_error ENOENT p
      end
  end.

(** Adding data at the end of an open file.  A failing write may leave a part
    of the data in the file. *)
Definition append_node (p : path) (b : bytes) (w : world) : world :=
  match node_at w p with
  | Some (File d _) => set_node p (File (d ++ b) (clock (ticks w))) w
  | _ => w
  end.
Definition write_bytes (p : path) (b : bytes) : prog unit := λ w,
  match syscall None None w with
  | (Ok tt, w') => (Ok tt, append_node p b w')
  | (Err e, w') => (Err e, append_node p (take (short_write (ticks w)) b) w')
  end.

(** [with open(p, "w") as f: f.write(s)] and the same in mode ["a"]. *)
Definition write_text (p : path) (s : string) : prog unit :=
  open_write false p;; write_bytes p (encode s).
Definition append_text (p : path) (s : string) : prog unit :=
  open_write true p;; write_bytes p (encode s).

(** Opening for reading gives the contents. *)
Definition open_read (p : path) : prog bytes :=
  n ← stat p;
  match n with
  | File d _ => mret d
  | Dir => os_error EISDIR p
  end.

Definition unlink (p : path) : prog unit :=
  syscall (Some p) None;;
  w ← get;
  match node_at w p with
  | Some (File _ _) => modify (del_node p)
  | Some Dir => os_error EISDIR p
  | None => os_error ENOENT p
  end.

(** [os.rename] of a file, and of a directory with all that is under it. *)
Definition under (k k' : key) : Prop := k.1 = k'.1 ∧ k.2 `prefix_of` k'.2.
#[global] Instance under_dec k k' : Decision (under k k').
Proof. unfold under. apply _. Defined.

Definition reroot (from to k : key) : key := (to.1, to.2 ++ drop (length from.2) k.2).

Definition move_tree (from to : key) (m : gmap key node) : gmap key node :=
  list_to_map ((λ '(k, n), (reroot from to k, n)) <$>
               map_to_list (filter (λ '(k, _), under from k) m)) ∪
  filter (λ '(k, _), ¬ under from k) m.

Definition rename (src dst : path) : prog unit :=
  syscall (Some src) (Some dst);;
  w ← get;
  let err n := raise (OSErr n (Some (show_path src)) (Some (show_path dst))) in
  let ksrc := locate (mounts w) src in
  let kdst := locate (mounts w) dst in
  match node_at w src, node_at w dst, node_at w (parent dst) with
  | None, _, _ | _, _, None => err ENOENT
  | _, _, Some (File _ _) => err ENOTDIR
  | Some n, ndst, Some Dir =>
      if bool_decide (ksrc.1 ≠ kdst.1) then err EXDEV
      else match n, ndst with
      | File _ _, Some Dir => err EISDIR
      | File _ _, _ => modify (set_fs (<[kdst := n]> (delete ksrc (fs w))))
      | Dir, None => if bool_decide (under ksrc kdst) then err EINVAL
                     else modify (set_fs (move_tree ksrc kdst (fs w)))
      | Dir, Some (File _ _) => err ENOTDIR
      | Dir, Some Dir => if bool_decide (ksrc = kdst) then mret tt else err ENOTEMPTY
      end
  end.

(** [os.utime] on a file. *)
Definition utime (p : path) (t : Z) : prog unit :=
  syscall (Some p) None;;
  w ← get;
  match node_at w p with
  | Some (File d _) => modify (set_node p (File d t))
  | Some Dir => mret tt
  | None => os_error ENOENT p
  end.

(** [shutil.copy2] to a file name: the data, then the modification time.  What
    arrives is [bitrot] of what was read. *)
Definition copy2 (src dst0 : path) : prog unit :=
  b ← os_isdir dst0;
  let dst := if (b : bool) then dst0 ++ [basename src] else dst0 in
  w ← get;
  if bool_decide (locate (mounts w) src = locate (mounts w) dst)
  then raise (ShutilError (quoted (show_path src) +:+ " and " +:+ quoted (show_path dst)
                           +:+ " are the same file"))
  else
    d ← open_read src;
    open_write false dst;;
    w ← get;
    write_bytes dst (bitrot (ticks w) d);;
    n ← stat src;
    utime dst (st_mtime n).

(** [shutil.move]: a rename, and when that fails a copy and a deletion.  The
    copy of a directory tree is not modelled: a directory that cannot be
    renamed is reported as the failure of the rename. *)
Definition shutil_move (src dst0 : path) : prog unit :=
  b ← os_isdir dst0;
  w ← get;
  dst ← (if (b : bool) && negb (bool_decide (locate (mounts w) src = locate (mounts w) dst0))
         then (let real := dst0 ++ [basename src] in
               e ← os_exists real;
               if (e : bool)
               then raise (ShutilError ("Destination path " +:+ quoted (show_path real)
                                        +:+ " already exists"))
               else mret real)
         else mret dst0);
  try_except (rename src dst) is_OSError
    (λ e, d ← os_isdir src;
          if (d : bool) then raise e else copy2 src dst;; unlink src).
End Calls.
