(* ===== verification/TextFacts.v ===== *)
(** * Reading back what was printed

    The decimal text of an integer is what [int] reads as that integer. *)
From S2P Require Import Prelude Text Os.
From Stdlib Require Import Ascii.

Lemma chars_of_chars l : chars (of_chars l) = l.
Proof. apply String.list_ascii_of_string_of_list_ascii. Qed.

Lemma of_chars_chars s : of_chars (chars s) = s.
Proof. apply String.string_of_list_ascii_of_string. Qed.

Lemma chars_app s1 s2 : chars (s1 +:+ s2) = chars s1 ++ chars s2.
Proof.
  induction s1 as [|c s1 IH]; [done|].
  change (c :: chars (s1 +:+ s2) = c :: (chars s1 ++ chars s2)). by rewrite IH.
Qed.

Lemma length_chars s : length (chars s) = String.length s.
Proof. induction s as [|c s IH]; [done|]. cbn. by rewrite IH. Qed.

Lemma decode_encode s : decode (encode s) = s.
Proof. apply String.string_of_list_byte_of_string. Qed.

(** ** [strip] *)

Definition no_space (l : list ascii) : Prop := Forall (λ c, is_space c = false) l.

Lemma lstrip_none f l : Forall (λ c, f c = false) l → lstrip_by f l = l.
Proof. destruct 1 as [|c l Hc _]; simpl; [done|]. by rewrite Hc. Qed.

Lemma strip_none l : no_space l → strip_chars is_space l = l.
Proof.
  intros Hl. unfold strip_chars. rewrite (lstrip_none _ l) by done.
  rewrite lstrip_none by (by apply Forall_reverse). apply reverse_involutive.
Qed.

(** ** Digits *)

Lemma digit_char (x : N) :
  (x < 10)%N →
  is_digit (pretty_N_char x) = true ∧ digit_val (pretty_N_char x) = Z.of_N x ∧
  is_space (pretty_N_char x) = false.
Proof.
  intros Hx. assert (x ∈ [0;1;2;3;4;5;6;7;8;9]%N) as Hin.
  { repeat rewrite elem_of_cons. lia. }
  repeat (apply elem_of_cons in Hin as [->|Hin]; [by vm_compute|]). by apply elem_of_nil in Hin.
Qed.

(** The digits of a number, then [s]. *)
Lemma digits_spec (x : N) s :
  parse_digits 0 (chars (pretty_N_go x s)) = parse_digits (Z.of_N x) (chars s) ∧
  (Forall (λ c, is_digit c = true ∧ is_space c = false) (chars s) →
   Forall (λ c, is_digit c = true ∧ is_space c = false) (chars (pretty_N_go x s))).
Proof.
  revert s. induction (N.lt_wf_0 x) as [x _ IH]; intros s.
  destruct (decide (x = 0)%N) as [->|Hx]; [by rewrite pretty_N_go_0|].
  rewrite pretty_N_go_step by lia.
  assert (x `mod` 10 < 10)%N as Hm by (by apply N.mod_lt).
  destruct (digit_char _ Hm) as (Hd & Hv & Hs).
  destruct (IH (x `div` 10)%N) with (s := String (pretty_N_char (x `mod` 10)) s) as [IH1 IH2].
  { apply N.div_lt; lia. }
  split.
  - rewrite IH1. cbn [String.list_ascii_of_string parse_digits]. rewrite Hd, Hv. f_equal.
    rewrite N2Z.inj_div, N2Z.inj_mod. pose proof (Z.div_mod (Z.of_N x) 10). lia.
  - intros Hall. apply IH2. by constructor.
Qed.

Lemma pretty_N_digits (x : N) :
  parse_digits 0 (chars (pretty x)) = Some (Z.of_N x) ∧
  Forall (λ c, is_digit c = true ∧ is_space c = false) (chars (pretty x)) ∧ chars (pretty x) ≠ [].
Proof.
  unfold pretty, pretty_N. case_decide as Hx; [subst; split_and!; [done|by apply Forall_singleton|done]|].
  destruct (digits_spec x "") as [H1 H2]. split_and!; [by rewrite H1|by apply H2; constructor|].
  intros Hnil. rewrite Hnil in H1. simpl in H1. injection H1 as H1. lia.
Qed.

Lemma parse_nat_digits l :
  l ≠ [] → Forall (λ c, is_digit c = true ∧ is_space c = false) l →
  parse_nat_chars l = parse_digits 0 l.
Proof. destruct 2 as [|c l [Hc _] _]; [done|]. simpl. by rewrite Hc. Qed.

Lemma parse_signed_digits l :
  l ≠ [] → Forall (λ c, is_digit c = true ∧ is_space c = false) l →
  parse_signed l = parse_digits 0 l.
Proof.
  intros Hne Hall. rewrite <-(parse_nat_digits l) by done. inversion Hall as [|c l' [Hc _] _]; subst; [done|].
  destruct (decide (c = "+"%char)) as [->|Hp]; [done|].
  destruct (decide (c = "-"%char)) as [->|Hm]; [done|].
  by destruct c as [[] [] [] [] [] [] [] []].
Qed.

(** [int(str(z)) == z]. *)
Lemma py_int_pretty (z : Z) : py_int (pretty z) = Some z.
Proof.
  unfold py_int. destruct z as [|p|p].
  - reflexivity.
  - change (pretty (Z.pos p)) with (pretty (N.pos p)).
    destruct (pretty_N_digits (N.pos p)) as (H1 & H2 & H3).
    rewrite strip_none by (eapply Forall_impl; [exact H2|]; by intros c []).
    by rewrite parse_signed_digits.
  - change (pretty (Z.neg p)) with (String "-" (pretty (N.pos p))).
    destruct (pretty_N_digits (N.pos p)) as (H1 & H2 & H3).
    rewrite strip_none.
    + cbn [String.list_ascii_of_string parse_signed]. by rewrite parse_nat_digits, H1.
    + constructor; [done|]. eapply Forall_impl; [exact H2|]. by intros c [].
Qed.

Lemma chars_pretty_no_space (z : Z) : no_space (chars (pretty z)).
Proof.
  destruct z as [|p|p]; [by repeat constructor|..].
  - destruct (pretty_N_digits (N.pos p)) as (_ & H2 & _). eapply Forall_impl; [exact H2|]. by intros c [].
  - destruct (pretty_N_digits (N.pos p)) as (_ & H2 & _). constructor; [done|].
    eapply Forall_impl; [exact H2|]. by intros c [].
Qed.

(** [int(str(z).strip()) == z]. *)
Lemma py_int_strip_pretty (z : Z) : py_int (strip (pretty z)) = Some z.
Proof.
  unfold strip. rewrite strip_none by apply chars_pretty_no_space.
  by rewrite of_chars_chars, py_int_pretty.
Qed.

(** ** Patterns *)

(** A pattern that may go on matches more. *)
Lemma fnmatch_chars_star p : ∀ s, fnmatch_chars p s = true → fnmatch_chars (p ++ ["*"%char]) s = true.
Proof.
  induction p as [|c p IH]; intros s Hs.
  - cbn in Hs. destruct s; [reflexivity|done].
  - cbn [app fnmatch_chars] in *. case_bool_decide as Hc.
    + induction s as [|d s IHs].
      * apply orb_true_iff in Hs as [Hs|Hs]; [|done]. by rewrite IH.
      * apply orb_true_iff in Hs as [Hs|Hs]; [by rewrite IH|]. by rewrite IHs, orb_true_r.
    + destruct s as [|d s]; [done|]. apply andb_true_iff in Hs as [-> Hs]. by apply IH.
Qed.

Lemma fnmatch_pcap n : fnmatch n "*.pcap" = true → fnmatch n "*.pcap*" = true.
Proof. apply (fnmatch_chars_star (chars "*.pcap")). Qed.
