(* ===== verification/OsFacts.v ===== *)
(** * Facts about the machine

    What each system call of [Os] can do to the disk: [same_disk] for the calls
    that only read, [touches P] for those that change nothing outside the paths
    [P] except by making directories.  Both are preorders, so a program inherits
    the frame of its calls ([only], [Prelude]). *)
From S2P Require Import Prelude Text Os.

(** ** Lookups *)

Lemma kget_insert m k k' n :
  k.2 ≠ [] → kget (<[k := n]> m) k' = if decide (k = k') then Some n else kget m k'.
Proof.
  intros Hk. unfold kget. destruct k' as [d [|x q]]; simpl.
  - case_decide; [subst; done|done].
  - apply lookup_insert.
Qed.

Lemma kget_delete m k k' :
  k.2 ≠ [] → kget (delete k m) k' = if decide (k = k') then None else kget m k'.
Proof.
  intros Hk. unfold kget. destruct k' as [d [|x q]]; simpl.
  - case_decide; [subst; done|done].
  - apply lookup_delete.
Qed.

Lemma kget_nonroot m k : kget m k ≠ Some Dir → k.2 ≠ [].
Proof. unfold kget. by destruct k as [? []]. Qed.

Lemma node_at_nonroot w p : node_at w p ≠ Some Dir → (locate (mounts w) p).2 ≠ [].
Proof. apply kget_nonroot. Qed.

Lemma locate_child mnt p n :
  mnt !! (p ++ [n]) = None →
  locate mnt (p ++ [n]) = ((locate mnt p).1, (locate mnt p).2 ++ [n]).
Proof.
  intros Hn. unfold locate. rewrite length_app, Nat.add_comm. simpl.
  rewrite take_ge by (rewrite length_app; simpl; lia). rewrite Hn.
  assert (∀ k, k ≤ length p →
    locate_from mnt k (p ++ [n]) =
    ((locate_from mnt k p).1, (locate_from mnt k p).2 ++ [n])) as Hk; [|by apply Hk].
  induction k as [|k IH]; intros Hk; simpl; [done|].
  rewrite take_app_le, drop_app_le by lia.
  destruct (mnt !! take (S k) p); [done|]. apply IH. lia.
Qed.

Lemma parent_app (p : path) n : parent (p ++ [n]) = p.
Proof. unfold parent. rewrite length_app. simpl. by rewrite Nat.add_sub, take_app_length. Qed.

Lemma basename_app (p : path) n : basename (p ++ [n]) = n.
Proof. unfold basename. by rewrite last_snoc. Qed.

(** ** Frames *)

Definition same_disk : relation world := λ w w', fs w' = fs w ∧ mounts w' = mounts w.

#[global] Instance same_disk_preorder : PreOrder same_disk.
Proof. split; [done|]. intros w1 w2 w3 [] []. split; congruence. Qed.

(** A missing entry may become a directory; everything else stays. *)
Definition kept (o o' : option node) : Prop := o' = o ∨ (o = None ∧ o' = Some Dir).

Definition outside_of (mnt : gmap path mount) (P : list path) (k : key) : Prop :=
  ∀ p, p ∈ P → ¬ under (locate mnt p) k.

Definition touches (P : list path) : relation world := λ w w',
  mounts w' = mounts w ∧
  ∀ k, outside_of (mounts w) P k → kept (kget (fs w) k) (kget (fs w') k).

#[global] Instance kept_preorder : PreOrder kept.
Proof. split; [by left|]. intros x y z [->|[-> ->]] [->|[? ->]]; by constructor. Qed.

#[global] Instance touches_preorder P : PreOrder (touches P).
Proof.
  split; [split; [done|by left]|].
  intros w1 w2 w3 [Hm1 H1] [Hm2 H2]. split; [congruence|].
  intros k Hk. etrans; [by apply H1|]. apply H2. by rewrite Hm1.
Qed.

Lemma touches_mono P Q w w' : P ⊆ Q → touches P w w' → touches Q w w'.
Proof.
  intros HPQ [Hm H]. split; [done|]. intros k Hk. apply H. intros p Hp. by apply Hk, HPQ.
Qed.

Lemma same_disk_touches P w w' : same_disk w w' → touches P w w'.
Proof. intros [Hf Hm]. split; [done|]. intros k _. rewrite Hf. by left. Qed.

Lemma only_same_touches {A} P (m : prog A) : only same_disk m → only (touches P) m.
Proof. apply only_weaken, same_disk_touches. Qed.

Lemma only_touches_mono {A} P Q (m : prog A) :
  P ⊆ Q → only (touches P) m → only (touches Q) m.
Proof. intros HPQ. apply only_weaken. intros w w'. by apply touches_mono. Qed.

(** A file outside the touched paths keeps its contents. *)
Lemma touches_file P w w' p d t :
  touches P w w' → outside_of (mounts w) P (locate (mounts w) p) →
  node_at w p = Some (File d t) → node_at w' p = Some (File d t).
Proof.
  intros [Hm H] Ho Hp. unfold node_at in *. rewrite Hm.
  destruct (H _ Ho) as [->|[? _]]; congruence.
Qed.

(** A file there after the run was there before, unless it is a touched path. *)
Lemma touches_file_inv P w w' p d t :
  touches P w w' → outside_of (mounts w) P (locate (mounts w) p) →
  node_at w' p = Some (File d t) → node_at w p = Some (File d t).
Proof.
  intros [Hm H] Ho Hp. unfold node_at in *. rewrite Hm in Hp.
  destruct (H _ Ho) as [Hk|[_ Hk]]; rewrite Hk in Hp; congruence.
Qed.

(** The calls that write files change the entries of exactly the named paths. *)
Definition writes (P : list path) : relation world := λ w w',
  mounts w' = mounts w ∧
  ∀ k, (∀ p, p ∈ P → locate (mounts w) p ≠ k) → kget (fs w') k = kget (fs w) k.

#[global] Instance writes_preorder P : PreOrder (writes P).
Proof.
  split; [done|]. intros w1 w2 w3 [Hm1 H1] [Hm2 H2]. split; [congruence|].
  intros k Hk. rewrite H2, H1; [done|done|by rewrite Hm1].
Qed.

Lemma writes_mono P Q w w' : P ⊆ Q → writes P w w' → writes Q w w'.
Proof. intros HPQ [Hm H]. split; [done|]. intros k Hk. apply H. auto. Qed.

Lemma same_disk_writes P w w' : same_disk w w' → writes P w w'.
Proof. intros [Hf Hm]. split; [done|]. by rewrite Hf. Qed.

Lemma writes_touches P w w' : writes P w w' → touches P w w'.
Proof.
  intros [Hm H]. split; [done|]. intros k Hk. left. apply H.
  intros p Hp <-. by apply (Hk p).
Qed.

Lemma only_same_writes {A} P (m : prog A) : only same_disk m → only (writes P) m.
Proof. apply only_weaken, same_disk_writes. Qed.

Lemma only_writes_touches {A} P (m : prog A) : only (writes P) m → only (touches P) m.
Proof. apply only_weaken, writes_touches. Qed.

Lemma writes_node_ne P w w' p :
  writes P w w' → (∀ q, q ∈ P → locate (mounts w) q ≠ locate (mounts w) p) →
  node_at w' p = node_at w p.
Proof. intros [Hm H] Ho. unfold node_at. rewrite Hm. by apply H. Qed.

Lemma writes_node P w w' p :
  writes P w w' → outside_of (mounts w) P (locate (mounts w) p) → node_at w' p = node_at w p.
Proof.
  intros Hw Ho. eapply writes_node_ne; [exact Hw|]. intros q Hq Heq. apply (Ho q Hq). by rewrite Heq.
Qed.

Lemma writes_set_node P p n w :
  p ∈ P → (locate (mounts w) p).2 ≠ [] → writes P w (set_node p n w).
Proof.
  intros Hp Hr. split; [done|]. intros k Hk. simpl. rewrite kget_insert by done.
  by rewrite decide_False by (by apply Hk).
Qed.

Lemma writes_del_node P p w :
  p ∈ P → (locate (mounts w) p).2 ≠ [] → writes P w (del_node p w).
Proof.
  intros Hp Hr. split; [done|]. intros k Hk. simpl. rewrite kget_delete by done.
  by rewrite decide_False by (by apply Hk).
Qed.

Lemma touches_mkdir P p w : node_at w p = None → touches P w (set_node p Dir w).
Proof.
  intros Hp. split; [done|]. intros k _. simpl.
  rewrite kget_insert by (apply node_at_nonroot; congruence).
  case_decide; [subst; by right|by left].
Qed.

(** ** Frames of the calls *)

#[export] Hint Extern 2 (only (touches _) _) =>
  apply only_same_touches; solve [eauto with io nocore] : io.
#[export] Hint Extern 2 (only (writes _) _) =>
  apply only_same_writes; solve [eauto with io nocore] : io.
#[export] Hint Extern 3 (only (touches _) _) =>
  apply only_writes_touches; solve [eauto with io nocore] : io.

Section Frames.
Context {E : Env}.

Lemma syscall_same f1 f2 : only same_disk (syscall f1 f2).
Proof. intros w. unfold syscall. by destruct (fault _) as [[]|]. Qed.
Lemma os_error_same {A} n p : only same_disk (os_error (A:=A) n p).
Proof. intros w. done. Qed.
Lemma emit_same e : only same_disk (emit e).
Proof. intros w. done. Qed.
Lemma log_at_same l m : only same_disk (log_at l m).
Proof. apply emit_same. Qed.
Lemma print_same m : only same_disk (print m).
Proof. apply emit_same. Qed.
Lemma time_time_same : only same_disk time_time.
Proof. intros w. done. Qed.
Lemma datetime_now_same : only same_disk datetime_now.
Proof. intros w. done. Qed.
#[local] Hint Resolve syscall_same os_error_same emit_same log_at_same print_same
  time_time_same datetime_now_same : io.

Lemma input_same s : only same_disk (input s).
Proof. unfold input. solve_only. Qed.
Lemma os_sync_same : only same_disk os_sync.
Proof. unfold os_sync. solve_only. Qed.
Lemma os_kill0_same n : only same_disk (os_kill0 n).
Proof. unfold os_kill0. solve_only. Qed.

Lemma stat_same p : only same_disk (stat p).
Proof. unfold stat. solve_only. Qed.
#[local] Hint Resolve stat_same : io.
Lemma stat_dev_same p : only same_disk (stat_dev p).
Proof. unfold stat_dev. solve_only. Qed.
#[local] Hint Resolve stat_dev_same : io.
Lemma os_exists_same p : only same_disk (os_exists p).
Proof. unfold os_exists. solve_only. Qed.
Lemma os_isdir_same p : only same_disk (os_isdir p).
Proof. unfold os_isdir. solve_only. Qed.
Lemma path_is_file_same p : only same_disk (path_is_file p).
Proof. unfold path_is_file. solve_only. Qed.
Lemma path_exists_same p : only same_disk (path_exists p).
Proof. unfold path_exists. solve_only. Qed.
Lemma os_ismount_same p : only same_disk (os_ismount p).
Proof. unfold os_ismount. solve_only. Qed.
Lemma os_access_w_same p : only same_disk (os_access_w p).
Proof. unfold os_access_w. solve_only. Qed.
Lemma os_statvfs_same p : only same_disk (os_statvfs p).
Proof. unfold os_statvfs. solve_only. Qed.
Lemma scandir_same p : only same_disk (scandir p).
Proof. unfold scandir. solve_only. Qed.
#[local] Hint Resolve scandir_same : io.
Lemma path_glob_same p pat : only same_disk (path_glob p pat).
Proof. unfold path_glob. solve_only. Qed.
Lemma glob_glob_same p pat : only same_disk (glob_glob p pat).
Proof. unfold glob_glob. solve_only. Qed.
Lemma open_read_same p : only same_disk (open_read p).
Proof. unfold open_read. solve_only. Qed.
#[local] Hint Resolve os_exists_same os_isdir_same path_is_file_same path_exists_same
  os_ismount_same os_access_w_same os_statvfs_same path_glob_same glob_glob_same
  open_read_same : io.

(** A call that reads the state after a system call and then changes it. *)
Lemma only_syscall_then {A} (R : relation world) `{!PreOrder R} f1 f2 (k : world → prog A) :
  (∀ w w', same_disk w w' → R w w') → (∀ w, R w (k w w).2) →
  only R (syscall f1 f2;; w ← get; k w).
Proof.
  intros HR Hk w. unfold mbind, io_bind.
  pose proof (syscall_same f1 f2 w) as Hs. destruct (syscall f1 f2 w) as [[[]|e] w']; simpl in *.
  - etrans; [by apply HR|]. apply Hk.
  - by apply HR.
Qed.

Lemma mkdir_touches P p : only (touches P) (mkdir p).
Proof.
  apply only_syscall_then; [typeclasses eauto|apply same_disk_touches|]. intros w. destruct (node_at w p) eqn:Hp; [reflexivity|].
  destruct (node_at w (parent p)) as [[]|]; try reflexivity. by apply touches_mkdir.
Qed.
#[local] Hint Resolve mkdir_touches : io.
Lemma mkdir_ok_touches P p : only (touches P) (mkdir_ok p).
Proof. unfold mkdir_ok. solve_only. Qed.
#[local] Hint Resolve mkdir_ok_touches : io.
Lemma makedirs_touches P p : only (touches P) (makedirs p).
Proof.
  unfold makedirs. generalize (@nil string). induction p as [|c p IH]; intros done; simpl; solve_only.
Qed.

Lemma open_write_writes P a p : p ∈ P → only (writes P) (open_write a p).
Proof.
  intros Hp. apply only_syscall_then; [typeclasses eauto|apply same_disk_writes|]. intros w.
  destruct (node_at w p) as [[]|] eqn:Hn; try reflexivity.
  - destruct a; [reflexivity|]. apply writes_set_node; [done|]. apply node_at_nonroot. congruence.
  - destruct (node_at w (parent p)) as [[]|]; try reflexivity.
    apply writes_set_node; [done|]. apply node_at_nonroot. congruence.
Qed.

Lemma append_node_writes P p b w : p ∈ P → writes P w (append_node p b w).
Proof.
  intros Hp. unfold append_node. destruct (node_at w p) as [[]|] eqn:Hn; try reflexivity.
  apply writes_set_node; [done|]. apply node_at_nonroot. congruence.
Qed.

Lemma write_bytes_writes P p b : p ∈ P → only (writes P) (write_bytes p b).
Proof.
  intros Hp w. unfold write_bytes. pose proof (syscall_same None None w) as Hs.
  destruct (syscall None None w) as [[[]|e] w']; simpl in *;
    (etrans; [by apply same_disk_writes|by apply append_node_writes]).
Qed.

Lemma unlink_writes P p : p ∈ P → only (writes P) (unlink p).
Proof.
  intros Hp. apply only_syscall_then; [typeclasses eauto|apply same_disk_writes|]. intros w.
  destruct (node_at w p) as [[]|] eqn:Hn; try reflexivity.
  apply writes_del_node; [done|]. apply node_at_nonroot. congruence.
Qed.

Lemma utime_writes P p t : p ∈ P → only (writes P) (utime p t).
Proof.
  intros Hp. apply only_syscall_then; [typeclasses eauto|apply same_disk_writes|]. intros w.
  destruct (node_at w p) as [[]|] eqn:Hn; try reflexivity.
  apply writes_set_node; [done|]. apply node_at_nonroot. congruence.
Qed.
#[local] Hint Resolve open_write_writes write_bytes_writes unlink_writes utime_writes : io.

Lemma write_text_writes P p s : p ∈ P → only (writes P) (write_text p s).
Proof. intros Hp. unfold write_text. solve_only. Qed.

Lemma append_text_writes P p s : p ∈ P → only (writes P) (append_text p s).
Proof. intros Hp. unfold append_text. solve_only. Qed.

Lemma copy2_writes P src dst :
  dst ∈ P → dst ++ [basename src] ∈ P → only (writes P) (copy2 src dst).
Proof.
  intros Hd Hd'. unfold copy2. apply only_bind; [typeclasses eauto|solve_only|intros b].
  assert ((if b then dst ++ [basename src] else dst) ∈ P) as Hb by (by destruct b).
  cbv zeta. revert Hb. generalize (if b then dst ++ [basename src] else dst) as q.
  intros q Hq. solve_only.
Qed.
#[local] Hint Resolve copy2_writes : io.

Lemma move_tree_kept ksrc kdst m k :
  ¬ under ksrc k → ¬ under kdst k → kget (move_tree ksrc kdst m) k = kget m k.
Proof.
  intros Hs Hd. unfold kget. destruct k as [d [|x q]] eqn:Hk; simpl; [done|].
  rewrite <-Hk in *. unfold move_tree. rewrite lookup_union_r.
  - apply option_eq. intros n. rewrite map_lookup_filter_Some. naive_solver.
  - apply not_elem_of_list_to_map_1. rewrite <-list_fmap_compose.
    intros Hin. apply list_elem_of_fmap in Hin as ([k' n] & -> & _). apply Hd.
    split; simpl; [done|]. by apply prefix_app_r.
Qed.

Lemma writes_rename_file P src dst d t w :
  src ∈ P → dst ∈ P → node_at w src = Some (File d t) → node_at w dst ≠ Some Dir →
  writes P w (set_fs (<[locate (mounts w) dst := File d t]>
                        (delete (locate (mounts w) src) (fs w))) w).
Proof.
  intros Hs Hd Hn Hnd. split; [done|]. intros k Hk. simpl.
  rewrite kget_insert by (by apply node_at_nonroot).
  rewrite kget_delete by (apply node_at_nonroot; congruence).
  by rewrite !decide_False by (by apply Hk).
Qed.

Lemma touches_rename_dir P src dst w :
  src ∈ P → dst ∈ P →
  touches P w (set_fs (move_tree (locate (mounts w) src) (locate (mounts w) dst) (fs w)) w).
Proof.
  intros Hs Hd. split; [done|]. intros k Hk. simpl.
  rewrite move_tree_kept; [by left|by apply Hk..].
Qed.

Lemma rename_touches P src dst : src ∈ P → dst ∈ P → only (touches P) (rename src dst).
Proof.
  intros Hs Hd. apply only_syscall_then; [typeclasses eauto|apply same_disk_touches|]. intros w.
  destruct (node_at w src) as [n|] eqn:Hn; [|reflexivity].
  destruct (node_at w dst) as [[]|] eqn:Hnd, (node_at w (parent dst)) as [[]|];
    try reflexivity; case_bool_decide; try reflexivity; destruct n;
    try case_bool_decide; try reflexivity;
    first [apply writes_touches, writes_rename_file; try done; congruence | by apply touches_rename_dir].
Qed.

#[local] Hint Resolve rename_touches makedirs_touches : io.

(** The names [shutil.move] and [shutil.copy2] may write to. *)
Definition move_paths (src dst : path) : list path :=
  [src; dst; dst ++ [basename src]; (dst ++ [basename src]) ++ [basename src]].

Lemma shutil_move_touches P src dst :
  move_paths src dst ⊆ P → only (touches P) (shutil_move src dst).
Proof.
  unfold move_paths. intros HP. unfold shutil_move.
  apply only_bind; [typeclasses eauto|solve_only|intros b].
  apply only_bind; [typeclasses eauto|solve_only|intros w].
  apply only_bind_post with (Φ := λ d, d ∈ [dst; dst ++ [basename src]]).
  - typeclasses eauto.
  - solve_only.
  - intros w'. destruct (b && _); [|set_solver]. cbv zeta. unfold mbind, io_bind.
    destruct (os_exists _ w') as [[[]|]]; simpl; [done|set_solver|done].
  - intros d Hd. assert (src ∈ P) by set_solver. assert (d ∈ P) by set_solver.
    apply only_try; [typeclasses eauto|by apply rename_touches|intros e].
    assert (d ++ [basename src] ∈ P) by set_solver.
    solve_only.
Qed.
End Frames.

#[export] Hint Resolve syscall_same os_error_same emit_same log_at_same print_same
  time_time_same datetime_now_same input_same os_sync_same os_kill0_same stat_same stat_dev_same scandir_same
  os_exists_same os_isdir_same path_is_file_same path_exists_same
  os_ismount_same os_access_w_same os_statvfs_same path_glob_same glob_glob_same
  open_read_same mkdir_touches mkdir_ok_touches makedirs_touches
  open_write_writes write_bytes_writes unlink_writes utime_writes write_text_writes
  append_text_writes copy2_writes rename_touches shutil_move_touches : io.

(** ** What the calls return and leave behind *)

Lemma same_disk_node w w' p : same_disk w w' → node_at w' p = node_at w p.
Proof. intros [Hf Hm]. unfold node_at. by rewrite Hf, Hm. Qed.

Lemma node_at_set_node p n w :
  (locate (mounts w) p).2 ≠ [] → node_at (set_node p n w) p = Some n.
Proof. intros Hp. unfold node_at. simpl. rewrite kget_insert by done. by rewrite decide_True. Qed.

Section Specs.
Context {E : Env}.

Lemma wp_stat p w :
  wp (stat p) (λ r w', same_disk w w' ∧ ∀ n, r = Ok n → node_at w p = Some n) w.
Proof.
  unfold stat. apply wp_bind. apply (wp_only same_disk); [apply syscall_same|].
  intros [[]|e] w' Hw; [|by split].
  apply wp_bind, wp_get. rewrite (same_disk_node w w') by done.
  destruct (node_at w p) eqn:Hn; (split; [done|]); naive_solver.
Qed.

Lemma wp_isdir p w :
  wp (os_isdir p) (λ r w', same_disk w w' ∧ (r = Ok true → node_at w p = Some Dir)) w.
Proof.
  unfold os_isdir. apply wp_try, wp_bind. eapply wp_mono; [apply wp_stat|].
  intros [n|e] w' [Hw Hn]; simpl.
  - apply wp_ret. split; [done|]. specialize (Hn _ eq_refl). destruct n; naive_solver.
  - destruct (is_OSError e); [apply wp_ret|]; split; naive_solver.
Qed.

Lemma wp_is_file p w :
  wp (path_is_file p) (λ r w', same_disk w w' ∧
     (r = Ok true → ∃ d t, node_at w p = Some (File d t))) w.
Proof.
  unfold path_is_file. apply wp_try, wp_bind. eapply wp_mono; [apply wp_stat|].
  intros [n|e] w' [Hw Hn]; simpl.
  - apply wp_ret. split; [done|]. specialize (Hn _ eq_refl). destruct n; naive_solver.
  - destruct (ignore_error e); [apply wp_ret|]; split; naive_solver.
Qed.

Lemma wp_path_glob D pat w :
  wp (path_glob D pat)
    (λ r w', same_disk w w' ∧ ∀ l, r = Ok l →
       ∀ p, p ∈ l → ∃ n, p = D ++ [n] ∧ fnmatch n pat = true) w.
Proof.
  split; [apply path_glob_same|]. unfold path_glob, mbind, io_bind.
  destruct (try_except _ _ _ w) as [[[]|e] w1]; simpl; [|set_solver|done].
  destruct (try_except _ _ _ w1) as [[names|e] w2]; simpl; [|done].
  intros l [= <-] p. rewrite list_elem_of_fmap. intros (n & -> & Hn). exists n. split; [done|].
  apply list_elem_of_In, filter_In in Hn. apply Hn.
Qed.

Lemma wp_open_read p w :
  wp (open_read p) (λ r w', same_disk w w' ∧ ∀ d, r = Ok d → ∃ t, node_at w p = Some (File d t)) w.
Proof.
  unfold open_read. apply wp_bind. eapply wp_mono; [apply wp_stat|].
  intros [[d t|]|e] w' [Hw Hn]; simpl; [apply wp_ret|apply wp_raise|]; split; naive_solver.
Qed.

Lemma wp_open_write p w :
  wp (open_write false p)
    (λ r w', writes [p] w w' ∧ (r = Ok tt → ∃ t, node_at w' p = Some (File [] t))) w.
Proof.
  split; [apply open_write_writes; set_solver|].
  unfold open_write, mbind, io_bind.
  destruct (syscall _ _ w) as [[[]|e] w']; simpl; [|done].
  destruct (node_at w' p) as [[]|] eqn:Hn; simpl; [|done|].
  - intros _. eexists. apply node_at_set_node, node_at_nonroot. congruence.
  - destruct (node_at w' (parent p)) as [[]|]; simpl; try done.
    intros _. eexists. apply node_at_set_node, node_at_nonroot. congruence.
Qed.

Lemma wp_write_bytes p b d t w :
  node_at w p = Some (File d t) →
  wp (write_bytes p b)
    (λ r w', writes [p] w w' ∧ (r = Ok tt → ∃ t', node_at w' p = Some (File (d ++ b) t'))) w.
Proof.
  intros Hp. split; [apply write_bytes_writes; set_solver|]. unfold write_bytes.
  pose proof (syscall_same None None w) as Hs.
  destruct (syscall None None w) as [[[]|e] w']; simpl in *; [|done].
  intros _. unfold append_node. rewrite (same_disk_node w w'), Hp by done.
  eexists. apply node_at_set_node, node_at_nonroot. rewrite (same_disk_node w w'), Hp; done.
Qed.

Lemma wp_utime p t d t0 w :
  node_at w p = Some (File d t0) →
  wp (utime p t) (λ r w', writes [p] w w' ∧ (r = Ok tt → node_at w' p = Some (File d t))) w.
Proof.
  intros Hp. split; [apply utime_writes; set_solver|]. unfold utime, mbind, io_bind.
  pose proof (syscall_same (Some p) None w) as Hs.
  destruct (syscall _ _ w) as [[[]|e] w']; simpl in *; [|done].
  rewrite (same_disk_node w w'), Hp by done. simpl. intros _.
  apply node_at_set_node, node_at_nonroot. rewrite (same_disk_node w w'), Hp; done.
Qed.

Lemma wp_unlink p w :
  wp (unlink p) (λ r w', writes [p] w w' ∧
     match r with
     | Ok _ => node_at w' p = None
     | Err _ => node_at w' p = node_at w p
     end) w.
Proof.
  split; [apply unlink_writes; set_solver|]. unfold unlink, mbind, io_bind.
  pose proof (syscall_same (Some p) None w) as Hs.
  destruct (syscall _ _ w) as [[[]|e] w']; simpl in *; [|by apply same_disk_node].
  destruct (node_at w' p) as [[]|] eqn:Hn; simpl; [|by rewrite <-(same_disk_node w w')..].
  unfold node_at. simpl. rewrite kget_delete by (apply node_at_nonroot; congruence).
  by rewrite decide_True.
Qed.

(** A copy leaves the source alone; when it returns, the destination (or the
    namesake of the source in it, when it is a directory) holds what the device
    made of the data, with the source's modification time. *)
Definition copy_dests (src dst : path) : list path := [dst; dst ++ [basename src]].

Lemma wp_copy2_to src dst d t w :
  node_at w src = Some (File d t) →
  outside_of (mounts w) [dst] (locate (mounts w) src) →
  wp (d' ← open_read src;
      open_write false dst;;
      w ← get;
      write_bytes dst (bitrot (ticks w) d');;
      n ← stat src;
      utime dst (st_mtime n))
    (λ r w', writes [dst] w w' ∧
             (r = Ok tt → ∃ n, node_at w' dst = Some (File (bitrot n d) t))) w.
Proof.
  intros Hsrc Hout.
  apply wp_bind. eapply wp_mono; [apply wp_open_read|]. intros [d'|e] w2 [Hw2 Hd];
    [|split; [by apply same_disk_writes|done]].
  destruct (Hd _ eq_refl) as [t' Hd']. rewrite Hsrc in Hd'. injection Hd' as <- <-. clear Hd.
  apply wp_bind. eapply wp_mono; [apply wp_open_write|].
  intros [[]|e] w3 [Hw3 Ho]; (assert (writes [dst] w w3) as H13 by
    (etrans; [by apply same_disk_writes|done])); [|by split].
  destruct (Ho eq_refl) as [t3 Ho3]. apply wp_bind, wp_get, wp_bind.
  eapply wp_mono; [eapply wp_write_bytes; exact Ho3|]. intros [[]|e] w4 [Hw4 Hwr];
    (assert (writes [dst] w w4) as H14 by (by etrans)); [|by split].
  destruct (Hwr eq_refl) as [t4 Ht4]. simpl in Ht4. apply wp_bind.
  eapply wp_mono; [apply wp_stat|]. intros [n|e] w5 [Hw5 Hn];
    (assert (writes [dst] w w5) as H15 by (etrans; [done|by apply same_disk_writes])); [|by split].
  specialize (Hn _ eq_refl).
  rewrite (writes_node [dst] w w4 src), Hsrc in Hn by done. injection Hn as <-.
  eapply wp_mono; [eapply wp_utime; rewrite (same_disk_node w4 w5) by done; exact Ht4|].
  intros r w6 [Hw6 Hu]. split; [by etrans|]. intros ->. eexists. by apply Hu.
Qed.

Lemma wp_copy2 src dst d t w :
  node_at w src = Some (File d t) →
  outside_of (mounts w) (copy_dests src dst) (locate (mounts w) src) →
  wp (copy2 src dst)
    (λ r w', writes (copy_dests src dst) w w' ∧ (node_at w dst ≠ Some Dir → writes [dst] w w') ∧
       (r = Ok tt → ∃ q n, q ∈ copy_dests src dst ∧ node_at w' q = Some (File (bitrot n d) t) ∧
                           (node_at w dst ≠ Some Dir → q = dst))) w.
Proof.
  intros Hsrc Hout. unfold copy2.
  apply wp_bind. eapply wp_mono; [apply wp_isdir|]. intros [b|e] w1 [Hw1 Hb];
    [|by split_and!; [apply same_disk_writes|intros _; apply same_disk_writes|]]. cbv zeta.
  set (q := if b then dst ++ [basename src] else dst).
  assert (q ∈ copy_dests src dst) as Hq by (unfold q, copy_dests; destruct b; set_solver).
  assert (node_at w dst ≠ Some Dir → q = dst) as Hqd by (unfold q; destruct b; naive_solver).
  apply wp_bind, wp_get. case_bool_decide as Heq.
  { apply wp_raise. by split_and!; [apply same_disk_writes|intros _; apply same_disk_writes|]. }
  assert (mounts w1 = mounts w) as Hm by apply Hw1.
  eapply wp_mono.
  { apply wp_copy2_to; [by rewrite (same_disk_node w w1)|].
    rewrite Hm. intros q' Hq'. apply list_elem_of_singleton in Hq' as ->. by apply Hout. }
  intros r w2 [Hw2 Hr].
  assert (writes [q] w w2) as Hq2 by (etrans; [by apply same_disk_writes|done]). split_and!.
  - eapply writes_mono; [|done]. set_solver.
  - intros Hd. by rewrite (Hqd Hd) in Hq2.
  - intros ->. destruct (Hr eq_refl) as [n Hn]. by exists q, n.
Qed.

Lemma node_at_rename_file src dst d t w :
  (locate (mounts w) src).2 ≠ [] → (locate (mounts w) dst).2 ≠ [] →
  let w' := set_fs (<[locate (mounts w) dst := File d t]>
                     (delete (locate (mounts w) src) (fs w))) w in
  node_at w' dst = Some (File d t) ∧
  (locate (mounts w) src ≠ locate (mounts w) dst → node_at w' src = None).
Proof.
  intros Hs Hd w'. unfold node_at, w'. simpl. split.
  - rewrite kget_insert by done. by rewrite decide_True.
  - intros Hne. rewrite kget_insert by done. rewrite decide_False by done.
    rewrite kget_delete by done. by rewrite decide_True.
Qed.

Lemma wp_rename src dst d t w :
  node_at w src = Some (File d t) →
  wp (rename src dst)
    (λ r w', writes [src; dst] w w' ∧
       match r with
       | Ok _ => node_at w' dst = Some (File d t) ∧
                 (locate (mounts w) src ≠ locate (mounts w) dst → node_at w' src = None)
       | Err _ => same_disk w w'
       end) w.
Proof.
  intros Hsrc. unfold wp, rename, mbind, io_bind.
  pose proof (syscall_same (Some src) (Some dst) w) as Hs.
  destruct (syscall _ _ w) as [[[]|e] w']; simpl in *; [|by split; [apply same_disk_writes|]].
  assert (mounts w' = mounts w) as Hm by apply Hs.
  rewrite <-(same_disk_node w w') in Hsrc by done. rewrite Hsrc, <-Hm.
  assert ((locate (mounts w') src).2 ≠ []) by (apply node_at_nonroot; congruence).
  destruct (node_at w' dst) as [[]|] eqn:Hnd, (node_at w' (parent dst)) as [[]|];
    try (by split; [apply same_disk_writes|]); case_bool_decide;
    try (by split; [apply same_disk_writes|]);
    (split; [etrans; [by apply same_disk_writes|apply writes_rename_file; set_solver]|
             apply node_at_rename_file; [done|apply node_at_nonroot; congruence]]).
Qed.

(** Moving a file: an error, an interrupt or a kill leaves the source as it was;
    a return has removed it and a destination holds it, or the copy the device
    made of it. *)
Definition move_dests (src dst : path) : list path :=
  [dst; dst ++ [basename src]; (dst ++ [basename src]) ++ [basename src]].

Definition moved (src dst : path) (d : bytes) (t : Z) (w w' : world) : Prop :=
  node_at w' src = None ∧
  ∃ q d', q ∈ move_dests src dst ∧ (node_at w dst ≠ Some Dir → q = dst) ∧
          node_at w' q = Some (File d' t) ∧ (d' = d ∨ ∃ n, d' = bitrot n d).

Lemma wp_move_to src dst q d t w :
  q ∈ [dst; dst ++ [basename src]] → (node_at w dst ≠ Some Dir → q = dst) →
  node_at w src = Some (File d t) →
  outside_of (mounts w) (move_dests src dst) (locate (mounts w) src) →
  (∀ q, q ∈ move_dests src dst → outside_of (mounts w) [src] (locate (mounts w) q)) →
  wp (try_except (rename src q) is_OSError
       (λ e, d ← os_isdir src;
             if (d : bool) then raise e else copy2 src q;; unlink src))
    (λ r w', writes (src :: move_dests src dst) w w' ∧
       (node_at w dst ≠ Some Dir → writes [src; dst] w w') ∧
       match r with
       | Ok _ => moved src dst d t w w'
       | Err _ => node_at w' src = Some (File d t)
       end) w.
Proof.
  intros Hq Hqd0 Hsrc Hos Hod.
  assert (q ∈ move_dests src dst ∧ q ++ [basename src] ∈ move_dests src dst) as [Hqd Hqd'].
  { unfold move_dests. apply elem_of_cons in Hq as [->|Hq]; [set_solver|].
    apply list_elem_of_singleton in Hq as ->. set_solver. }
  assert (locate (mounts w) src ≠ locate (mounts w) q) as Hne.
  { intros Heq. apply (Hos q); [done|by rewrite Heq]. }
  apply wp_try. eapply wp_mono; [by apply wp_rename|].
  intros [[]|e] w2 [Hw2 Hr].
  { split_and!; [eapply writes_mono; [|done]; set_solver|
                 intros Hd; by rewrite (Hqd0 Hd) in Hw2|]. destruct Hr as [Hr1 Hr2].
    split; [auto|]. exists q, d. auto 6. }
  assert (∀ w3, same_disk w w3 → writes (src :: move_dests src dst) w w3 ∧
    (node_at w dst ≠ Some Dir → writes [src; dst] w w3) ∧ node_at w3 src = Some (File d t)) as Hsame.
  { intros w3 Hw3. split_and!; [by apply same_disk_writes|intros _; by apply same_disk_writes|].
    by rewrite (same_disk_node w w3). }
  destruct (is_OSError e); [|by apply Hsame].
  apply wp_bind. apply (wp_only same_disk); [apply os_isdir_same|]. intros [b|e'] w3 Hw3;
    (assert (same_disk w w3) as Hw13 by (by etrans)); [|by apply Hsame].
  destruct b; [by apply Hsame|]. destruct (Hsame w3 Hw13) as (_ & _ & Hsrc3).
  assert (mounts w3 = mounts w) as Hm3 by apply Hw13.
  apply wp_bind. eapply wp_mono.
  { apply wp_copy2; [done|]. rewrite Hm3. intros p Hp. apply Hos. unfold copy_dests in Hp. set_solver. }
  intros r w4 (Hw4 & Hw4' & Hc). rewrite (same_disk_node w w3) in Hw4', Hc by done.
  assert (node_at w4 src = Some (File d t)) as Hsrc4.
  { rewrite (writes_node _ _ _ _ Hw4); [done|]. rewrite Hm3. intros p Hp. apply Hos.
    unfold copy_dests in Hp. set_solver. }
  assert (writes (src :: move_dests src dst) w w4) as Ht4.
  { etrans; [by apply same_disk_writes|]. eapply writes_mono; [|exact Hw4]. unfold copy_dests. set_solver. }
  assert (node_at w dst ≠ Some Dir → writes [src; dst] w w4) as Ht4'.
  { intros Hd. etrans; [by apply same_disk_writes|]. pose proof (Hqd0 Hd) as ->.
    eapply writes_mono; [|by apply Hw4']. set_solver. }
  destruct r as [[]|e4]; [|by split_and!]. destruct (Hc eq_refl) as (q' & n & Hq' & Hn & Hdir).
  eapply wp_mono; [apply wp_unlink|]. intros r w5 [Hw5 Hu]. split_and!.
  { etrans; [done|]. eapply writes_mono; [|done]. set_solver. }
  { intros Hd. etrans; [by apply Ht4'|]. eapply writes_mono; [|done]. set_solver. }
  destruct r; [|congruence]. split; [done|]. exists q', (bitrot n d).
  assert (q' ∈ move_dests src dst) by (unfold copy_dests in Hq'; set_solver).
  split_and!; [done| | |eauto].
  - intros Hd. pose proof (Hqd0 Hd) as ->. by apply Hdir.
  - rewrite (writes_node [src] w4 w5); [exact Hn|exact Hw5|]. destruct Hw4 as [-> _]. rewrite Hm3. by apply Hod.
Qed.

Lemma wp_shutil_move src dst d t w :
  node_at w src = Some (File d t) →
  outside_of (mounts w) (move_dests src dst) (locate (mounts w) src) →
  (∀ q, q ∈ move_dests src dst → outside_of (mounts w) [src] (locate (mounts w) q)) →
  wp (shutil_move src dst)
    (λ r w', writes (src :: move_dests src dst) w w' ∧
       (node_at w dst ≠ Some Dir → writes [src; dst] w w') ∧
       match r with
       | Ok _ => moved src dst d t w w'
       | Err _ => node_at w' src = Some (File d t)
       end) w.
Proof.
  intros Hsrc Hos Hod. unfold shutil_move.
  apply wp_bind. eapply wp_mono; [apply wp_isdir|]. intros [b|e] w1 [Hw1 Hb];
    [|split_and!; [by apply same_disk_writes|intros _; by apply same_disk_writes|
                   by rewrite (same_disk_node w w1)]].
  apply wp_bind, wp_get, wp_bind. set (c := b && _).
  apply (wp_mono _ (λ r w', same_disk w w' ∧
    match r with
    | Ok q => q ∈ [dst; dst ++ [basename src]] ∧ (node_at w dst ≠ Some Dir → q = dst)
    | Err _ => True
    end)).
  { unfold c. destruct b; simpl; [|split; [done|set_solver]].
    destruct (negb _); [|split; [done|set_solver]]. apply wp_bind.
    apply (wp_only same_disk); [apply os_exists_same|]. intros [[]|e] w2 Hw2;
      (split; [by etrans|]); [done| |done]. split; [set_solver|]. intros []. by apply Hb. }
  intros [q|e] w2 [Hw2 Hq];
    [|split_and!; [by apply same_disk_writes|intros _; by apply same_disk_writes|
                   by rewrite (same_disk_node w w2)]].
  assert (mounts w2 = mounts w) as Hm2 by apply Hw2.
  eapply wp_mono.
  { apply (wp_move_to src dst q d t); rewrite ?Hm2, ?(same_disk_node w w2) by done;
      [apply Hq|apply Hq|done..]. }
  intros r w' (Ht & Ht' & Hr). unfold moved in *. rewrite (same_disk_node w w2) in Hr, Ht' by done.
  split_and!; [etrans; [by apply same_disk_writes|done]| |done].
  intros Hd. etrans; [by apply same_disk_writes|by apply Ht'].
Qed.
End Specs.

(** ** Directories stay

    No call but the renaming of a directory makes a directory go. *)

Definition dirs_stay : relation world := λ w w',
  mounts w' = mounts w ∧ ∀ k, kget (fs w) k = Some Dir → kget (fs w') k = Some Dir.

#[global] Instance dirs_stay_preorder : PreOrder dirs_stay.
Proof.
  split; [done|]. intros w1 w2 w3 [Hm1 H1] [Hm2 H2]. split; [congruence|auto].
Qed.

Lemma same_disk_stay w w' : same_disk w w' → dirs_stay w w'.
Proof. intros [Hf Hm]. split; [done|]. by rewrite Hf. Qed.

Lemma only_same_stay {A} (m : prog A) : only same_disk m → only dirs_stay m.
Proof. apply only_weaken, same_disk_stay. Qed.

Lemma dirs_stay_node w w' p : dirs_stay w w' → node_at w p = Some Dir → node_at w' p = Some Dir.
Proof. intros [Hm H]. unfold node_at. rewrite Hm. apply H. Qed.

Lemma stay_set_node p n w : node_at w p ≠ Some Dir ∨ n = Dir → dirs_stay w (set_node p n w).
Proof.
  intros Hp. split; [done|]. intros k Hk. simpl.
  destruct (decide ((locate (mounts w) p).2 = [])) as [Hr|Hr].
  - unfold kget in *. destruct k as [d [|x q]]; [done|]. simpl in *.
    rewrite lookup_insert_ne; [done|]. intros Heq. by rewrite Heq in Hr.
  - rewrite kget_insert by done. case_decide as Heq; [|done]. subst.
    destruct Hp as [Hp| ->]; [|done]. by destruct Hp.
Qed.

Lemma stay_del_node p w : node_at w p ≠ Some Dir → dirs_stay w (del_node p w).
Proof.
  intros Hp. split; [done|]. intros k Hk. simpl. rewrite kget_delete by (by apply node_at_nonroot).
  case_decide as Heq; [|done]. subst. by destruct Hp.
Qed.

#[export] Hint Extern 2 (only dirs_stay _) =>
  apply only_same_stay; solve [eauto with io nocore] : io.

Section Stay.
Context {E : Env}.

Lemma mkdir_stay p : only dirs_stay (mkdir p).
Proof.
  apply only_syscall_then; [typeclasses eauto|apply same_disk_stay|]. intros w.
  destruct (node_at w p) eqn:Hp; [reflexivity|].
  destruct (node_at w (parent p)) as [[]|]; try reflexivity. apply stay_set_node. by right.
Qed.
#[local] Hint Resolve mkdir_stay : io.

Lemma makedirs_stay p : only dirs_stay (makedirs p).
Proof.
  unfold makedirs. generalize (@nil string).
  induction p as [|c p IH]; intros done; simpl; unfold mkdir_ok; solve_only.
Qed.

Lemma open_write_stay a p : only dirs_stay (open_write a p).
Proof.
  apply only_syscall_then; [typeclasses eauto|apply same_disk_stay|]. intros w.
  destruct (node_at w p) as [[]|] eqn:Hn; try reflexivity.
  - destruct a; [reflexivity|]. apply stay_set_node. left. congruence.
  - destruct (node_at w (parent p)) as [[]|]; try reflexivity. apply stay_set_node. left. congruence.
Qed.

Lemma write_bytes_stay p b : only dirs_stay (write_bytes p b).
Proof.
  intros w. unfold write_bytes. pose proof (syscall_same None None w) as Hs.
  destruct (syscall None None w) as [[[]|e] w']; simpl in *;
    (etrans; [by apply same_disk_stay|]); unfold append_node;
    destruct (node_at w' p) as [[]|] eqn:Hn; try reflexivity; apply stay_set_node; left; congruence.
Qed.

Lemma unlink_stay p : only dirs_stay (unlink p).
Proof.
  apply only_syscall_then; [typeclasses eauto|apply same_disk_stay|]. intros w.
  destruct (node_at w p) as [[]|] eqn:Hn; try reflexivity. apply stay_del_node. congruence.
Qed.

Lemma utime_stay p t : only dirs_stay (utime p t).
Proof.
  apply only_syscall_then; [typeclasses eauto|apply same_disk_stay|]. intros w.
  destruct (node_at w p) as [[]|] eqn:Hn; try reflexivity. apply stay_set_node. left. congruence.
Qed.
#[local] Hint Resolve makedirs_stay open_write_stay write_bytes_stay unlink_stay utime_stay : io.

Lemma copy2_stay src dst : only dirs_stay (copy2 src dst).
Proof. unfold copy2. solve_only. Qed.

Lemma write_text_stay p s : only dirs_stay (write_text p s).
Proof. unfold write_text. solve_only. Qed.
Lemma append_text_stay p s : only dirs_stay (append_text p s).
Proof. unfold append_text. solve_only. Qed.

(** So does moving a file. *)
Lemma rename_stay src dst d t w :
  node_at w src = Some (File d t) → dirs_stay w (rename src dst w).2.
Proof.
  intros Hsrc. unfold rename, mbind, io_bind.
  pose proof (syscall_same (Some src) (Some dst) w) as Hs.
  destruct (syscall _ _ w) as [[[]|e] w']; simpl in *; [|by apply same_disk_stay].
  etrans; [by apply same_disk_stay|]. rewrite <-(same_disk_node w w') in Hsrc by done.
  rewrite Hsrc.
  destruct (node_at w' dst) as [[]|] eqn:Hnd, (node_at w' (parent dst)) as [[]|];
    try reflexivity; case_bool_decide; try reflexivity;
    (split; [done|]; intros k Hk; simpl;
     rewrite kget_insert by (apply node_at_nonroot; congruence);
     rewrite kget_delete by (apply node_at_nonroot; congruence);
     unfold node_at in *; repeat case_decide; subst; congruence).
Qed.

Lemma shutil_move_stay src dst d t w :
  node_at w src = Some (File d t) → dirs_stay w (shutil_move src dst w).2.
Proof.
  intros Hsrc. enough (wp (shutil_move src dst) (λ _ w', dirs_stay w w') w) as Hw by exact Hw.
  unfold shutil_move. apply wp_bind, (wp_only same_disk); [apply os_isdir_same|].
  intros [b|e] w1 Hw1; [|by apply same_disk_stay]. apply wp_bind, wp_get, wp_bind.
  apply (wp_only same_disk).
  { solve_only. }
  intros [q|e] w2 Hw2; (assert (same_disk w w2) as Hw02 by (by etrans)); [|by apply same_disk_stay].
  apply wp_try. unfold wp. rewrite <-(same_disk_node w w2) in Hsrc by done.
  pose proof (rename_stay src q d t w2 Hsrc) as Hr.
  assert (dirs_stay w (rename src q w2).2) as Hr' by (etrans; [by apply same_disk_stay|done]).
  destruct (rename src q w2) as [[[]|e] w3]; simpl in *; [done|].
  destruct (is_OSError e); [|done]. etrans; [exact Hr'|].
  assert (only dirs_stay (b ← os_isdir src; if b : bool then raise (A:=unit) e else copy2 src q;; unlink src))
    as Ho; [|apply Ho]. pose proof copy2_stay. solve_only.
Qed.
End Stay.
#[export] Hint Resolve mkdir_stay makedirs_stay open_write_stay write_bytes_stay unlink_stay
  utime_stay copy2_stay write_text_stay append_text_stay : io.

(** ** Layout of the directories *)

(** Nothing is mounted below [D]. *)
Definition plain_dir (mnt : gmap path mount) (D : path) : Prop :=
  map_Forall (λ q _, ¬ (D `prefix_of` q ∧ q ≠ D)) mnt.

(** Neither path is above the other. *)
Definition apart (mnt : gmap path mount) (p q : path) : Prop :=
  ¬ under (locate mnt p) (locate mnt q) ∧ ¬ under (locate mnt q) (locate mnt p).

#[global] Instance plain_dir_dec mnt D : Decision (plain_dir mnt D).
Proof. unfold plain_dir. apply _. Defined.
#[global] Instance apart_dec mnt p q : Decision (apart mnt p q).
Proof. unfold apart. apply _. Defined.

Lemma plain_dir_below mnt D x : plain_dir mnt D → plain_dir mnt (D ++ x).
Proof.
  intros HD q m Hq [Hpre Hne]. apply (HD q m Hq). split; [by etrans; [apply prefix_app_r|]|].
  intros ->. destruct x as [|c x]; [by rewrite app_nil_r in Hne|].
  apply prefix_length in Hpre. rewrite length_app in Hpre. simpl in Hpre. lia.
Qed.

Lemma apart_sym mnt p q : apart mnt p q → apart mnt q p.
Proof. unfold apart. tauto. Qed.

Lemma locate_below mnt D x :
  plain_dir mnt D → locate mnt (D ++ x) = ((locate mnt D).1, (locate mnt D).2 ++ x).
Proof.
  intros HD. induction x as [|c x IH] using rev_ind.
  - rewrite !app_nil_r. by destruct (locate mnt D).
  - rewrite (assoc_L (++)), locate_child, IH; simpl; [by rewrite (assoc_L (++))|].
    destruct (mnt !! _) eqn:Hq; [|done]. exfalso. eapply HD; [exact Hq|].
    rewrite <-(assoc_L (++)). split; [by apply prefix_app_r|].
    intros Heq%(f_equal length). rewrite !length_app in Heq. simpl in Heq. lia.
Qed.

Lemma under_trans k1 k2 k3 : under k1 k2 → under k2 k3 → under k1 k3.
Proof. intros [? ?] [? ?]. split; [congruence|]. by etrans. Qed.

Lemma under_below mnt D x : plain_dir mnt D → under (locate mnt D) (locate mnt (D ++ x)).
Proof. intros HD. rewrite locate_below by done. split; [done|]. by apply prefix_app_r. Qed.

Lemma touches_below P Q w w' :
  (∀ p, p ∈ P → ∃ q, q ∈ Q ∧ under (locate (mounts w) q) (locate (mounts w) p)) →
  touches P w w' → touches Q w w'.
Proof.
  intros HPQ [Hm H]. split; [done|]. intros k Hk. apply H. intros p Hp Hu.
  destruct (HPQ p Hp) as (q & Hq & Huq). apply (Hk q Hq). by eapply under_trans.
Qed.

Lemma apart_below mnt p D x : plain_dir mnt D → apart mnt p D → apart mnt p (D ++ x).
Proof.
  intros HD [H1 H2]. pose proof (under_below mnt D x HD) as Hx. split; intros Hu.
  - destruct Hu as [Hu1 Hu2], Hx as [Hx1 Hx2].
    destruct (prefix_weak_total _ _ _ Hu2 Hx2); [apply H1|apply H2]; split; congruence || done.
  - apply H2. by eapply under_trans.
Qed.

Lemma apart_children mnt D n m : plain_dir mnt D → n ≠ m → apart mnt (D ++ [n]) (D ++ [m]).
Proof.
  intros HD Hne. unfold apart. rewrite !locate_below by done.
  split; intros [_ Hu]; simpl in Hu; apply prefix_app_inv in Hu;
    apply prefix_cons_inv_1 in Hu; congruence.
Qed.

Lemma outside_of_apart mnt P p :
  Forall (λ q, apart mnt q p) P → outside_of mnt P (locate mnt p).
Proof. rewrite Forall_forall. intros HP q Hq. by apply HP. Qed.

Lemma outside_of_one mnt q p : apart mnt q p → outside_of mnt [q] (locate mnt p).
Proof. intros Hq. apply outside_of_apart. by constructor. Qed.

(** No device is mounted twice, nor the root's a second time: then a file has
    one name. *)
Definition one_mount (mnt : gmap path mount) : Prop :=
  map_Forall (λ p m, m_dev m ≠ 0 ∧ map_Forall (λ q m', m_dev m = m_dev m' → p = q) mnt) mnt.
#[global] Instance one_mount_dec mnt : Decision (one_mount mnt).
Proof. unfold one_mount. apply _. Defined.

Lemma locate_split mnt p :
  ∃ q, p = q ++ (locate mnt p).2 ∧
    ((q = [] ∧ (locate mnt p).1 = 0) ∨ ∃ m, mnt !! q = Some m ∧ (locate mnt p).1 = m_dev m).
Proof.
  unfold locate. generalize (length p) as k. induction k as [|k IH]; simpl; [by exists []; auto|].
  destruct (mnt !! take (S k) p) as [m|] eqn:Hm; [|done].
  exists (take (S k) p). simpl. rewrite take_drop. eauto.
Qed.

Lemma locate_inj mnt p q : one_mount mnt → locate mnt p = locate mnt q → p = q.
Proof.
  intros Hone Heq. destruct (locate_split mnt p) as (p1 & Hp & Hp1).
  destruct (locate_split mnt q) as (q1 & Hq & Hq1). rewrite Heq in Hp, Hp1.
  enough (p1 = q1) by congruence.
  destruct Hp1 as [[-> Hd1]|(m1 & Hm1 & Hd1)], Hq1 as [[-> Hd2]|(m2 & Hm2 & Hd2)]; [done|..].
  - destruct (Hone _ _ Hm2) as [Hne _]. congruence.
  - destruct (Hone _ _ Hm1) as [Hne _]. congruence.
  - destruct (Hone _ _ Hm1) as [_ Ho]. apply (Ho _ _ Hm2). congruence.
Qed.

(** [makedirs p] makes nothing but [p] and directories above it. *)
Definition prefixes (p : path) : list path := (λ k, take k p) <$> seq 0 (S (length p)).

Lemma elem_of_prefixes p q : q ∈ prefixes p ↔ q `prefix_of` p.
Proof.
  unfold prefixes. rewrite list_elem_of_fmap. split.
  - intros (k & -> & _). exists (drop k p). by rewrite take_drop.
  - intros [r ->]. exists (length q). rewrite take_app_length, elem_of_seq, length_app. split; [done|lia].
Qed.

Section Makes.
Context {E : Env}.

Lemma mkdir_writes P p : p ∈ P → only (writes P) (mkdir p).
Proof.
  intros Hp. apply only_syscall_then; [typeclasses eauto|apply same_disk_writes|]. intros w.
  destruct (node_at w p) eqn:Hn; [reflexivity|].
  destruct (node_at w (parent p)) as [[]|]; try reflexivity.
  apply writes_set_node; [done|]. apply node_at_nonroot. congruence.
Qed.

Lemma makedirs_writes p : only (writes (prefixes p)) (makedirs p).
Proof.
  unfold makedirs.
  assert (∀ todo done, done ++ todo = p → only (writes (prefixes p)) (makedirs_from done todo)) as Hgen;
    [|by apply Hgen].
  induction todo as [|c todo IH]; intros done Hp; simpl; [solve_only|].
  assert (done ++ [c] ∈ prefixes p) as Hin.
  { apply elem_of_prefixes. exists todo. by rewrite <-(assoc_L (++)). }
  pose proof (mkdir_writes (prefixes p) (done ++ [c]) Hin).
  apply only_bind; [typeclasses eauto|unfold mkdir_ok; solve_only|intros _].
  apply IH. by rewrite <-(assoc_L (++)).
Qed.

Lemma makedirs_node p q w :
  one_mount (mounts w) → ¬ q `prefix_of` p → node_at (makedirs p w).2 q = node_at w q.
Proof.
  intros Hone Hq. apply (writes_node_ne (prefixes p)); [apply makedirs_writes|].
  intros r Hr%elem_of_prefixes Heq. apply locate_inj in Heq; [|done]. by subst.
Qed.
End Makes.

(** ** Directory listings *)

Lemma path_snoc (p : path) : p ≠ [] → p = parent p ++ [basename p].
Proof.
  intros Hp. destruct (exists_last Hp) as (q & n & ->). by rewrite parent_app, basename_app.
Qed.

Lemma elem_of_children w D n :
  n ∈ children w D ↔ is_Some (fs w !! ((locate (mounts w) D).1, (locate (mounts w) D).2 ++ [n])).
Proof.
  unfold children. destruct (locate (mounts w) D) as [d q]. simpl. rewrite list_elem_of_omap. split.
  - intros ([[d' q'] m] & Hin & Hb). apply elem_of_map_to_list in Hin.
    case_bool_decide as Hc; [|done]. destruct Hc as (-> & Hne & <-). injection Hb as <-.
    rewrite <-path_snoc by done. eauto.
  - intros [m Hm]. exists ((d, q ++ [n]), m). split; [by apply elem_of_map_to_list|].
    rewrite parent_app, basename_app, bool_decide_true; [done|].
    split_and!; [done| |done]. by destruct q.
Qed.

Lemma NoDup_children w D : NoDup (children w D).
Proof.
  unfold children. destruct (locate (mounts w) D) as [d q].
  assert (∀ l : list (key * node), NoDup l.*1 → NoDup (omap (λ '((d', q'), _),
    if bool_decide (d' = d ∧ q' ≠ [] ∧ parent q' = q) then Some (basename q') else None) l)) as Hl.
  { induction l as [|[[d1 q1] m] l IH]; csimpl; [constructor|].
    intros [Hni Hnd]%NoDup_cons. case_bool_decide as Hc; [|by apply IH].
    constructor; [|by apply IH]. destruct Hc as (-> & Hne1 & Hp1).
    rewrite list_elem_of_omap. intros ([[d2 q2] m2] & Hin & Hb). case_bool_decide as Hc; [|done].
    destruct Hc as (-> & Hne2 & Hp2). injection Hb as Hb. apply Hni.
    apply list_elem_of_fmap. exists ((d, q2), m2). split; [|done]. simpl. f_equal.
    rewrite (path_snoc q1), (path_snoc q2) by done. congruence. }
  apply Hl, NoDup_fst_map_to_list.
Qed.

(** In a directory with nothing mounted below it, the listing has the names
    that resolve. *)
Lemma elem_of_children_node w D n :
  plain_dir (mounts w) D → n ∈ children w D ↔ is_Some (node_at w (D ++ [n])).
Proof.
  intros HD. rewrite elem_of_children. unfold node_at. rewrite locate_below by done.
  unfold kget. simpl. by destruct ((locate (mounts w) D).2).
Qed.

Lemma wp_scandir_names {E : Env} D w :
  wp (scandir D) (λ r _, ∀ l, r = Ok l → NoDup l) w.
Proof.
  unfold scandir. apply wp_bind, (wp_only same_disk); [apply stat_same|].
  intros [[d t|]|e] w1 _; [by intros l ?| |done]. apply wp_bind, wp_get, wp_ret.
  intros l [= <-]. rewrite dir_order_perm. apply NoDup_children.
Qed.

(** A listing by pattern: different names, all of the pattern. *)
Lemma wp_glob_names {E : Env} D pat w :
  wp (path_glob D pat)
    (λ r w', same_disk w w' ∧ ∀ l, r = Ok l → ∃ names, l = (λ n, D ++ [n]) <$> names ∧
       NoDup names ∧ ∀ n, n ∈ names → fnmatch n pat = true) w.
Proof.
  split; [apply path_glob_same|].
  enough (wp (path_glob D pat) (λ r _, ∀ l, r = Ok l → ∃ names, l = (λ n, D ++ [n]) <$> names ∧
    NoDup names ∧ ∀ n, n ∈ names → fnmatch n pat = true) w) as Hw by exact Hw.
  assert (∀ names, NoDup names → ∃ names', (λ n, D ++ [n]) <$> List.filter (λ n, fnmatch n pat) names =
    (λ n, D ++ [n]) <$> names' ∧ NoDup names' ∧ ∀ n, n ∈ names' → fnmatch n pat = true) as Hfilter.
  { intros names Hnd. eexists. split_and!; [reflexivity| |].
    - by apply NoDup_ListNoDup, List.NoDup_filter, NoDup_ListNoDup.
    - intros n Hn%list_elem_of_In%filter_In. apply Hn. }
  unfold path_glob. apply wp_bind, (wp_only same_disk); [solve_only|].
  intros [[]|e] w1 _; [| |done].
  - apply wp_bind, wp_try. eapply wp_mono; [apply wp_scandir_names|].
    intros [l|e] w2 Hl; [apply wp_ret; intros ? [= <-]; by apply Hfilter, Hl|].
    destruct (_ || _); [apply wp_ret, wp_ret; intros l [= <-]|done].
    exists []. split_and!; [done|constructor|set_solver].
  - apply wp_ret. intros l [= <-]. exists []. split_and!; [done|constructor|set_solver].
Qed.

(** ** The calls only move forward in time *)

Definition later : relation world := λ w w', ticks w ≤ ticks w'.
#[global] Instance later_preorder : PreOrder later.
Proof. unfold later. split; [intros w|intros w1 w2 w3]; lia. Qed.

Section Later.
Context {E : Env}.

Lemma syscall_later f1 f2 : only later (syscall f1 f2).
Proof. intros w. unfold syscall, later. destruct (fault _) as [[]|]; simpl; lia. Qed.
Lemma os_error_later {A} n p : only later (os_error (A:=A) n p).
Proof. intros w. apply Nat.le_refl. Qed.
Lemma emit_later e : only later (emit e).
Proof. intros w. apply Nat.le_refl. Qed.
Lemma time_time_later : only later time_time.
Proof. intros w. unfold later. simpl. lia. Qed.
Lemma datetime_now_later : only later datetime_now.
Proof. intros w. unfold later. simpl. lia. Qed.
Lemma set_node_later p n : only later (modify (set_node p n)).
Proof. intros w. apply Nat.le_refl. Qed.
Lemma del_node_later p : only later (modify (del_node p)).
Proof. intros w. apply Nat.le_refl. Qed.
Lemma set_fs_later m : only later (modify (set_fs m)).
Proof. intros w. apply Nat.le_refl. Qed.
#[local] Hint Resolve syscall_later os_error_later emit_later time_time_later datetime_now_later
  set_node_later del_node_later set_fs_later : io.

Lemma print_later s : only later (print s).
Proof. apply emit_later. Qed.
Lemma log_at_later l s : only later (log_at l s).
Proof. apply emit_later. Qed.
#[local] Hint Resolve print_later log_at_later : io.
Lemma input_later s : only later (input s).
Proof. unfold input. solve_only. Qed.
Lemma stat_later p : only later (stat p).
Proof. unfold stat. solve_only. Qed.
#[local] Hint Resolve stat_later : io.
Lemma stat_dev_later p : only later (stat_dev p).
Proof. unfold stat_dev. solve_only. Qed.
#[local] Hint Resolve stat_dev_later : io.
Lemma os_exists_later p : only later (os_exists p).
Proof. unfold os_exists. solve_only. Qed.
Lemma os_isdir_later p : only later (os_isdir p).
Proof. unfold os_isdir. solve_only. Qed.
Lemma path_is_file_later p : only later (path_is_file p).
Proof. unfold path_is_file. solve_only. Qed.
Lemma os_ismount_later p : only later (os_ismount p).
Proof. unfold os_ismount. solve_only. Qed.
Lemma os_access_w_later p : only later (os_access_w p).
Proof. unfold os_access_w. solve_only. Qed.
Lemma os_statvfs_later p : only later (os_statvfs p).
Proof. unfold os_statvfs. solve_only. Qed.
Lemma scandir_later p : only later (scandir p).
Proof. unfold scandir. solve_only. Qed.
#[local] Hint Resolve os_exists_later os_isdir_later path_is_file_later os_ismount_later
  os_access_w_later os_statvfs_later scandir_later : io.
Lemma path_glob_later p pat : only later (path_glob p pat).
Proof. unfold path_glob. solve_only. Qed.
Lemma open_read_later p : only later (open_read p).
Proof. unfold open_read. solve_only. Qed.
Lemma mkdir_ok_later p : only later (mkdir_ok p).
Proof. unfold mkdir_ok, mkdir. solve_only. Qed.
#[local] Hint Resolve open_read_later mkdir_ok_later : io.
Lemma makedirs_later p : only later (makedirs p).
Proof.
  unfold makedirs. generalize (@nil string). induction p as [|c p IH]; intros done; simpl; solve_only.
Qed.
Lemma open_write_later a p : only later (open_write a p).
Proof. unfold open_write. solve_only. Qed.
Lemma append_node_later p b w : later w (append_node p b w).
Proof. unfold append_node. destruct (node_at w p) as [[]|]; apply Nat.le_refl. Qed.
Lemma write_bytes_later p b : only later (write_bytes p b).
Proof.
  intros w. unfold write_bytes. pose proof (syscall_later None None w) as Hs.
  destruct (syscall None None w) as [[[]|e] w']; simpl in *; (etrans; [exact Hs|apply append_node_later]).
Qed.
#[local] Hint Resolve open_write_later write_bytes_later : io.
Lemma write_text_later p s : only later (write_text p s).
Proof. unfold write_text. solve_only. Qed.
Lemma append_text_later p s : only later (append_text p s).
Proof. unfold append_text. solve_only. Qed.
Lemma unlink_later p : only later (unlink p).
Proof. unfold unlink. solve_only. Qed.
Lemma utime_later p t : only later (utime p t).
Proof. unfold utime. solve_only. Qed.
#[local] Hint Resolve unlink_later utime_later : io.
Lemma copy2_later src dst : only later (copy2 src dst).
Proof. unfold copy2. cbv zeta. solve_only. Qed.
Lemma rename_later src dst : only later (rename src dst).
Proof. unfold rename. cbv zeta. solve_only. Qed.
#[local] Hint Resolve copy2_later rename_later : io.
Lemma shutil_move_later src dst : only later (shutil_move src dst).
Proof. unfold shutil_move. cbv zeta. solve_only. Qed.
End Later.
#[export] Hint Resolve syscall_later os_error_later emit_later print_later log_at_later
  time_time_later datetime_now_later input_later stat_later stat_dev_later os_exists_later
  os_isdir_later path_is_file_later os_ismount_later os_access_w_later os_statvfs_later
  scandir_later path_glob_later open_read_later mkdir_ok_later makedirs_later open_write_later
  write_bytes_later write_text_later append_text_later unlink_later utime_later copy2_later
  rename_later shutil_move_later : io.

Lemma only_later {A} (m : prog A) w r w' : only later m → m w = (r, w') → ticks w ≤ ticks w'.
Proof. intros Hm Hw. specialize (Hm w). by rewrite Hw in Hm. Qed.

(** The [k]-th reading of the clock, or [k]-th line typed, of the run from [w]
    to [w']. *)
Definition during (w w' : world) (k : nat) : Prop := ticks w ≤ k < ticks w'.

Lemma during_mono w0 w w' w1 k : later w0 w → later w' w1 → during w w' k → during w0 w1 k.
Proof. unfold later, during. lia. Qed.

(** What a call that only makes directories leaves alone. *)
Lemma touches_nil_some w w' p n : touches [] w w' → node_at w p = Some n → node_at w' p = Some n.
Proof.
  intros [Hm Hk] Hn. unfold node_at in *. rewrite Hm.
  destruct (Hk (locate (mounts w) p)) as [->|[? _]]; [|done|congruence].
  intros q Hq. by apply not_elem_of_nil in Hq.
Qed.
