(* ===== verification/OsQuiet.v ===== *)
(** * Runs in which no system call fails

    When nothing fails, the calls of [Os] return what the state of the disk
    says; these are the facts behind the theorems that a program does its work,
    as opposed to doing no harm. *)
From S2P Require Import Prelude Text Os OsFacts.

(** Evaluate the first system call of a program that cannot fail. *)
Section Quiet.
Context {E : Env} (no_fault : ∀ n, fault n = None).

Lemma syscall_q f1 f2 w : syscall f1 f2 w = (Ok tt, tick w).
Proof. unfold syscall. by rewrite no_fault. Qed.

Lemma node_at_tick w p : node_at (tick w) p = node_at w p.
Proof. done. Qed.

Lemma stat_q p w :
  stat p w = match node_at w p with
             | Some n => (Ok n, tick w)
             | None => (Err (OSErr ENOENT (Some (show_path p)) None), tick w)
             end.
Proof.
  unfold stat. rewrite (bind_ok _ _ _ _ _ (syscall_q _ _ _)).
  unfold mbind, io_bind, get. rewrite node_at_tick. by destruct (node_at w p).
Qed.

Lemma stat_q_ok p n w : node_at w p = Some n → stat p w = (Ok n, tick w).
Proof. intros Hn. by rewrite stat_q, Hn. Qed.

Lemma os_isdir_q p w :
  os_isdir p w = (Ok (match node_at w p with Some n => is_dir n | None => false end), tick w).
Proof.
  unfold os_isdir, try_except, mbind, io_bind. rewrite stat_q. by destruct (node_at w p).
Qed.

Lemma os_exists_q p w :
  os_exists p w = (Ok (match node_at w p with Some _ => true | None => false end), tick w).
Proof.
  unfold os_exists, try_except, mbind, io_bind. rewrite stat_q. by destruct (node_at w p).
Qed.

Lemma path_exists_q p w :
  path_exists p w = (Ok (match node_at w p with Some _ => true | None => false end), tick w).
Proof.
  unfold path_exists, try_except, mbind, io_bind. rewrite stat_q. by destruct (node_at w p).
Qed.

Lemma path_is_file_q p w :
  path_is_file p w = (Ok (match node_at w p with Some n => is_reg n | None => false end), tick w).
Proof.
  unfold path_is_file, try_except, mbind, io_bind. rewrite stat_q. by destruct (node_at w p).
Qed.

(** What [os.path.ismount] answers. *)
Definition mounted (w : world) (p : path) : bool :=
  match node_at w p, node_at w (parent p) with
  | Some _, Some _ =>
      negb (bool_decide ((locate (mounts w) p).1 = (locate (mounts w) (parent p)).1)) ||
      bool_decide (locate (mounts w) p = locate (mounts w) (parent p))
  | _, _ => false
  end.

Lemma os_ismount_q p w : ∃ w', os_ismount p w = (Ok (mounted w p), w') ∧ same_disk w w'.
Proof.
  pose proof (os_ismount_same p w) as Hs.
  enough ((os_ismount p w).1 = Ok (mounted w p)) as Hr.
  { destruct (os_ismount p w) as [r w']; simpl in *; subst. by eexists. }
  unfold os_ismount, mounted, try_except, stat_dev, mbind, io_bind, get. rewrite stat_q.
  destruct (node_at w p) as [n|] eqn:Hn; simpl; [|done].
  rewrite stat_q, node_at_tick. by destruct (node_at w (parent p)).
Qed.

Lemma mounted_node w p : mounted w p = true → is_Some (node_at w p).
Proof. unfold mounted. destruct (node_at w p); [done|done]. Qed.

Lemma os_access_w_q p w :
  is_Some (node_at w p) → os_access_w p w = (Ok (m_writable (mount_of (mounts w) p)), tick w).
Proof.
  intros [n Hn]. unfold os_access_w, try_except, mbind, io_bind, get. by rewrite (stat_q_ok p n).
Qed.

Lemma os_statvfs_q p w :
  is_Some (node_at w p) →
  let m := mount_of (mounts w) p in
  os_statvfs p w = (Ok (f_bavail m, f_blocks m, f_frsize m), tick w).
Proof.
  intros [n Hn]. unfold os_statvfs, mbind, io_bind, get. by rewrite (stat_q_ok p n).
Qed.

Lemma scandir_q p w :
  node_at w p = Some Dir →
  scandir p w = (Ok (dir_order (S (ticks w)) (children (tick w) p)), tick w).
Proof.
  intros Hp. unfold scandir. rewrite (bind_ok _ _ _ _ _ (stat_q_ok _ _ _ Hp)). done.
Qed.

Lemma path_glob_q p pat w :
  node_at w p = Some Dir →
  path_glob p pat w =
    (Ok ((λ n, p ++ [n]) <$> List.filter (λ n, fnmatch n pat)
           (dir_order (S (S (ticks w))) (children (tick (tick w)) p))), tick (tick w)).
Proof.
  intros Hp. unfold path_glob, mbind, io_bind, try_except.
  rewrite (stat_q_ok _ _ _ Hp). simpl. by rewrite scandir_q.
Qed.

(** ** Programs that return *)

Definition returns {A} (m : prog A) (w : world) : Prop := ∃ a w', m w = (Ok a, w').

Lemma returns_ret {A} (a : A) w : returns (mret a) w.
Proof. by eexists _, _. Qed.

Lemma returns_bind {A B} (m : prog A) (k : A → prog B) w :
  returns m w → (∀ a w', m w = (Ok a, w') → returns (k a) w') → returns (m ≫= k) w.
Proof.
  intros (a & w' & Hm) Hk. destruct (Hk a w' Hm) as (b & w'' & Hb).
  exists b, w''. by rewrite (bind_ok _ _ _ _ _ Hm).
Qed.

Lemma returns_try {A} (m : prog A) c h w : returns m w → returns (try_except m c h) w.
Proof. intros (a & w' & Hm). exists a, w'. unfold try_except. by rewrite Hm. Qed.

Lemma mkdir_ok_q p w :
  node_at w (parent p) = Some Dir → (∀ d t, node_at w p ≠ Some (File d t)) →
  returns (mkdir_ok p) w ∧ node_at (mkdir_ok p w).2 p = Some Dir.
Proof.
  intros Hpar Hp. unfold returns, mkdir_ok, try_except, mkdir, mbind, io_bind, get.
  rewrite syscall_q, !node_at_tick. destruct (node_at w p) as [[]|] eqn:Hn; [naive_solver|..]; simpl.
  - unfold os_error, raise. simpl. rewrite os_isdir_q, node_at_tick, Hn.
    split; [by eexists _, _|done].
  - rewrite Hpar. split; [by eexists _, _|].
    apply (node_at_set_node p Dir (tick w)), node_at_nonroot. rewrite node_at_tick. congruence.
Qed.

(** Every directory on the way to [p] is there. *)
Definition dir_ready (w : world) (p : path) : Prop := ∀ k, node_at w (take k p) = Some Dir.

Lemma dir_ready_self w p : dir_ready w p → node_at w p = Some Dir.
Proof. intros Hp. specialize (Hp (length p)). by rewrite take_ge in Hp. Qed.

(** [makedirs] returns when no file is in the way, and makes the directories. *)
Lemma makedirs_q p w :
  (∀ k d t, node_at w (take k p) ≠ Some (File d t)) →
  returns (makedirs p) w ∧ dir_ready (makedirs p w).2 p.
Proof.
  intros Hp. unfold makedirs.
  assert (∀ todo done w, node_at w done = Some Dir →
    (∀ k d t, node_at w (done ++ take k todo) ≠ Some (File d t)) →
    returns (makedirs_from done todo) w ∧
    ∀ k, node_at (makedirs_from done todo w).2 (done ++ take k todo) = Some Dir) as Hgen.
  { intros todo. induction todo as [|c todo IH]; intros done w0 Hd Ht; simpl.
    { split; [by eexists _, _|]. intros k. by rewrite take_nil, app_nil_r. }
    destruct (mkdir_ok_q (done ++ [c]) w0) as [(a & w1 & Hw1) Hn].
    { by rewrite parent_app. }
    { apply (Ht 1). }
    rewrite Hw1 in Hn. simpl in Hn.
    assert (touches [] w0 w1 ∧ dirs_stay w0 w1) as [Ht1 Hst1].
    { pose proof (mkdir_ok_touches [] (done ++ [c]) w0) as H1.
      assert (only dirs_stay (mkdir_ok (done ++ [c]))) as H2 by (unfold mkdir_ok; solve_only).
      specialize (H2 w0). by rewrite Hw1 in H1, H2. }
    destruct (IH (done ++ [c]) w1 Hn) as [Hr Hdir].
    { intros k d t Hk. apply (Ht (S k) d t). simpl.
      replace (done ++ c :: take k todo) with ((done ++ [c]) ++ take k todo)
        by (by rewrite <-(assoc_L (++))).
      eapply touches_file_inv; [exact Ht1| |exact Hk]. intros q Hq. by apply not_elem_of_nil in Hq. }
    rewrite (bind_ok _ _ _ _ _ Hw1). split.
    - destruct Hr as (b & w2 & Hb). exists b, w2. by rewrite (bind_ok _ _ _ _ _ Hw1).
    - intros [|k].
      + simpl. rewrite app_nil_r. eapply dirs_stay_node; [|by eapply dirs_stay_node].
        assert (∀ l d, only dirs_stay (makedirs_from d l)) as Hst; [|apply Hst].
        induction l; intros d'; simpl; unfold mkdir_ok; solve_only.
      + simpl. specialize (Hdir k). by rewrite <-(assoc_L (++)) in Hdir. }
  destruct (Hgen p [] w); [done|intros k; apply (Hp k)|done].
Qed.

(** ** Writing *)

(** A file can be written at [p]. *)
Definition writable_at (w : world) (p : path) : Prop :=
  node_at w p ≠ Some Dir ∧ (node_at w p = None → node_at w (parent p) = Some Dir).

Lemma open_write_q a p w : writable_at w p → returns (open_write a p) w.
Proof.
  intros [Hd Hp]. unfold returns, open_write, mbind, io_bind, get.
  rewrite syscall_q, !node_at_tick. destruct (node_at w p) as [[]|]; [|done|].
  - destruct a; by eexists _, _.
  - rewrite Hp by done. by eexists _, _.
Qed.

Lemma write_bytes_q p b w : returns (write_bytes p b) w.
Proof. unfold returns, write_bytes. rewrite syscall_q. by eexists _, _. Qed.

Lemma append_text_q p s w : writable_at w p → returns (append_text p s) w.
Proof.
  intros Hp. apply returns_bind; [by apply open_write_q|]. intros a w' _. apply write_bytes_q.
Qed.

Lemma write_text_q p s w : writable_at w p → returns (write_text p s) w.
Proof.
  intros Hp. apply returns_bind; [by apply open_write_q|]. intros a w' _. apply write_bytes_q.
Qed.

Lemma utime_q p t d t0 w : node_at w p = Some (File d t0) → returns (utime p t) w.
Proof.
  intros Hp. unfold returns, utime, mbind, io_bind, get. rewrite syscall_q, node_at_tick, Hp.
  by eexists _, _.
Qed.

Lemma unlink_q p d t w : node_at w p = Some (File d t) → returns (unlink p) w.
Proof.
  intros Hp. unfold returns, unlink, mbind, io_bind, get. rewrite syscall_q, node_at_tick, Hp.
  by eexists _, _.
Qed.

Lemma open_read_q p d t w : node_at w p = Some (File d t) → open_read p w = (Ok d, tick w).
Proof. intros Hp. unfold open_read. by rewrite (bind_ok _ _ _ _ _ (stat_q_ok _ _ _ Hp)). Qed.

Lemma copy2_q src dst d t w :
  node_at w src = Some (File d t) → writable_at w dst →
  outside_of (mounts w) [dst] (locate (mounts w) src) → returns (copy2 src dst) w.
Proof.
  intros Hsrc Hdst Hout. unfold copy2. unfold returns.
  rewrite (bind_ok _ _ _ _ _ (os_isdir_q _ _)).
  assert (match node_at w dst with Some n => is_dir n | None => false end = false) as ->
    by (destruct Hdst as [Hd _]; by destruct (node_at w dst) as [[]|]).
  cbv zeta. rewrite (bind_ok get _ _ _ _ eq_refl). change (mounts (tick w)) with (mounts w).
  rewrite bool_decide_false by (intros Heq; apply (Hout dst); [set_solver|by rewrite Heq]).
  rewrite (bind_ok _ _ _ _ _ (open_read_q src d t (tick w) Hsrc)).
  set (w1 := tick (tick w)). change (returns (open_write false dst;; w ← get;
    write_bytes dst (bitrot (ticks w) d);; n ← stat src; utime dst (st_mtime n)) w1).
  apply returns_bind; [by apply open_write_q|]. intros [] w2 Hw2.
  destruct (wp_run _ _ _ _ _ Hw2 (wp_open_write dst w1)) as [Ht2 Ho].
  destruct (Ho eq_refl) as [t2 Ho2]. apply returns_bind; [by eexists _, _|]. intros w2' ? [= -> <-].
  apply returns_bind; [apply write_bytes_q|]. intros [] w3 Hw3.
  destruct (wp_run _ _ _ _ _ Hw3 (wp_write_bytes _ _ _ _ _ Ho2)) as [Ht3 Hwr].
  destruct (Hwr eq_refl) as [t3 Ho3].
  assert (node_at w3 src = Some (File d t)) as Hsrc3.
  { rewrite (writes_node [dst] w1); [exact Hsrc|by etrans|exact Hout]. }
  apply returns_bind; [eexists _, _; by apply stat_q_ok|].
  intros n w4. rewrite (stat_q_ok _ _ _ Hsrc3). intros [= <- <-]. eapply utime_q.
  rewrite node_at_tick. exact Ho3.
Qed.

(** A file can be moved to a name in an existing directory, on the same device
    or on another. *)
Lemma shutil_move_q src dst d t w :
  node_at w src = Some (File d t) → node_at w dst ≠ Some Dir →
  node_at w (parent dst) = Some Dir →
  outside_of (mounts w) (copy_dests src dst) (locate (mounts w) src) →
  returns (shutil_move src dst) w.
Proof.
  intros Hsrc Hdst Hpar Hout'.
  assert (outside_of (mounts w) [dst] (locate (mounts w) src)) as Hout.
  { intros p Hp. apply Hout'. unfold copy_dests. set_solver. } unfold shutil_move.
  assert (match node_at w dst with Some n => is_dir n | None => false end = false) as Hb
    by (by destruct (node_at w dst) as [[]|]).
  apply returns_bind; [eexists _, _; apply os_isdir_q|]. intros b w1.
  rewrite os_isdir_q, Hb. intros [= <- <-].
  apply returns_bind; [by eexists _, _|]. intros w1 w1' [= <- <-]. cbn [andb].
  apply returns_bind; [by eexists _, _|]. intros q w2 [= <- <-].
  unfold try_except, returns. destruct (rename src dst (tick w)) as [[[]|e] w2] eqn:Hren; [by eexists _, _|].
  assert (is_OSError e = true ∧ w2 = tick (tick w)) as [-> ->].
  { revert Hren. unfold rename, mbind, io_bind, get. rewrite syscall_q, !node_at_tick, Hsrc, Hpar.
    repeat case_match; unfold raise; intros [= <- <-]; try done; naive_solver. }
  rewrite (bind_ok _ _ _ _ _ (os_isdir_q _ _)), !node_at_tick, Hsrc. simpl.
  change (returns (copy2 src dst;; unlink src) (tick (tick (tick w)))).
  apply returns_bind; [by eapply (copy2_q src dst d t)|]. intros [] w3 Hw3.
  destruct (wp_run _ _ _ _ _ Hw3 (wp_copy2 src dst d t (tick (tick (tick w))) Hsrc Hout')) as (_ & Ht3 & _).
  eapply unlink_q. rewrite (writes_node _ _ _ _ (Ht3 Hdst)); [exact Hsrc|].
  intros p Hp. apply Hout'. unfold copy_dests. set_solver.
Qed.

(** ** Directories that are already there *)

#[global] Instance dir_ready_dec w p : Decision (dir_ready w p).
Proof.
  refine (cast_if (decide (Forall (λ k, node_at w (take k p) = Some Dir) (seq 0 (S (length p)))))).
  - abstract (intros k; rewrite Forall_seq in f; destruct (decide (k ≤ length p));
      [apply f; lia|rewrite take_ge by lia; rewrite <-(firstn_all p); apply f; lia]).
  - abstract (intros Hp; apply n, Forall_seq; intros; apply Hp).
Defined.

Lemma dir_ready_same w w' p : same_disk w w' → dir_ready w p → dir_ready w' p.
Proof. intros Hw Hp k. by rewrite (same_disk_node w w'). Qed.

Lemma makedirs_ready p w :
  dir_ready w p → ∃ w', makedirs p w = (Ok tt, w') ∧ same_disk w w'.
Proof.
  intros Hp. unfold makedirs.
  assert (∀ todo done w, (∀ k, node_at w (done ++ take k todo) = Some Dir) →
    ∃ w', makedirs_from done todo w = (Ok tt, w') ∧ same_disk w w') as Hgen; [|by apply Hgen].
  intros todo. induction todo as [|c todo IH]; intros done w0 Hd; simpl; [by eexists|].
  assert (mkdir_ok (done ++ [c]) w0 = (Ok tt, tick (tick w0))) as Hm.
  { unfold mkdir_ok, try_except, mkdir, mbind, io_bind, get.
    pose proof (Hd 1) as H1. simpl in H1. rewrite take_0 in H1.
    rewrite syscall_q, !node_at_tick, H1. simpl. by rewrite os_isdir_q, node_at_tick, H1. }
  rewrite (bind_ok _ _ _ _ _ Hm).
  destruct (IH (done ++ [c]) (tick (tick w0))) as (w' & Hw' & Hs).
  - intros k. rewrite <-(assoc_L (++)). apply (Hd (S k)).
  - exists w'. split; [done|]. by etrans; [|exact Hs].
Qed.
End Quiet.

(** ** What is written *)

Definition contents (w : world) (p : path) : bytes :=
  match node_at w p with Some (File d _) => d | _ => [] end.

Section Written.
Context {E : Env} (no_fault : ∀ n, fault n = None).

Lemma append_text_written p s w :
  writable_at w p →
  ∃ w' t, append_text p s w = (Ok tt, w') ∧ writes [p] w w' ∧
          node_at w' p = Some (File (contents w p ++ encode s) t).
Proof.
  intros Hp. destruct (open_write_q no_fault true p w Hp) as ([] & w1 & Hw1).
  assert (∃ t, node_at w1 p = Some (File (contents w p) t)) as [t1 Ht1].
  { revert Hw1. unfold contents, open_write, mbind, io_bind, get. rewrite syscall_q, !node_at_tick by done.
    destruct Hp as [Hd Hp]. destruct (node_at w p) as [[d t|]|] eqn:Hn; [|done|].
    - intros [= <-]. exists t. by rewrite node_at_tick.
    - rewrite Hp by done. unfold modify. intros [= <-]. eexists.
      apply node_at_set_node, node_at_nonroot. rewrite node_at_tick. congruence. }
  destruct (write_bytes_q no_fault p (encode s) w1) as ([] & w2 & Hw2).
  destruct (wp_run _ _ _ _ _ Hw2 (wp_write_bytes p (encode s) _ t1 w1 Ht1)) as [Hwr2 Hn2].
  destruct (Hn2 eq_refl) as [t2 Ht2]. exists w2, t2. split_and!; [|etrans; [|exact Hwr2]|done].
  - unfold append_text. by rewrite (bind_ok _ _ _ _ _ Hw1).
  - pose proof (open_write_writes [p] true p (list_elem_of_here _ _) w) as Hwr. by rewrite Hw1 in Hwr.
Qed.

(** A file opened anew, and one write. *)
Lemma write_new_q p b w w0 :
  writable_at w p → same_disk w w0 →
  ∃ w1, open_write false p w0 = (Ok tt, w1) ∧ writes [p] w w1 ∧
    ∀ w2, same_disk w1 w2 → ∃ w3 t, write_bytes p b w2 = (Ok tt, w3) ∧ writes [p] w w3 ∧
                                     node_at w3 p = Some (File b t).
Proof.
  intros Hp Hs. assert (writable_at w0 p) as Hp0.
  { unfold writable_at. by rewrite !(same_disk_node w w0). }
  destruct (open_write_q no_fault false p w0 Hp0) as ([] & w1 & Hw1). exists w1.
  destruct (wp_run _ _ _ _ _ Hw1 (wp_open_write p w0)) as [Hwr Hn]. destruct (Hn eq_refl) as [t Ht].
  assert (writes [p] w w1) as Hwr1 by (etrans; [by apply same_disk_writes|done]).
  split_and!; [done|done|]. intros w2 Hs2.
  destruct (write_bytes_q no_fault p b w2) as ([] & w3 & Hw3).
  rewrite <-(same_disk_node w1 w2) in Ht by done.
  destruct (wp_run _ _ _ _ _ Hw3 (wp_write_bytes p b _ t w2 Ht)) as [Hwr3 Hn3].
  destruct (Hn3 eq_refl) as [t3 Ht3]. exists w3, t3. split_and!; [done| |done].
  etrans; [exact Hwr1|]. etrans; [by apply same_disk_writes|done].
Qed.
End Written.
