(* ===== verification/WalkFacts.v ===== *)
(** * Recursive listings

    When no call fails, [glob.glob] with [recursive=True] finds the names of the
    pattern below a directory, at every depth: the bound of the walk is never
    reached. *)
From S2P Require Import Prelude Text Os OsFacts OsQuiet.

Definition visible (n : string) : Prop := startswith "." n = false.

(** Every step from [d] along [comps] is a visible directory. *)
Definition dirs_along (w : world) (d comps : path) : Prop :=
  Forall visible comps ∧ ∀ k, node_at w (d ++ take k comps) = Some Dir.

Lemma dirs_along_cons w d n comps :
  dirs_along w d (n :: comps) ↔ node_at w d = Some Dir ∧ visible n ∧ dirs_along w (d ++ [n]) comps.
Proof.
  unfold dirs_along. rewrite Forall_cons. split.
  - intros ([Hn Hv] & Hk). split_and!; try done; [specialize (Hk 0); by rewrite app_nil_r in Hk|].
    intros k. rewrite <-(assoc_L (++)). apply (Hk (S k)).
  - intros (Hd & Hn & Hv & Hk). split; [done|]. intros [|k]; [by rewrite app_nil_r|].
    specialize (Hk k). by rewrite <-(assoc_L (++)) in Hk.
Qed.

Lemma dirs_along_same w w' d comps : same_disk w w' → dirs_along w' d comps ↔ dirs_along w d comps.
Proof. intros Hs. unfold dirs_along. by setoid_rewrite (same_disk_node w w'). Qed.

Lemma dirs_along_last w d comps : dirs_along w d comps → node_at w (d ++ comps) = Some Dir.
Proof. intros [_ Hk]. specialize (Hk (length comps)). by rewrite take_ge in Hk. Qed.

(** A way down has at most as many steps as there are nodes. *)
Lemma dirs_along_bound w d comps :
  plain_dir (mounts w) d → dirs_along w d comps → length comps ≤ size (fs w).
Proof.
  intros Hd [_ Hk]. set (loc := locate (mounts w) d).
  set (keys := (λ k, (loc.1, loc.2 ++ take k comps)) <$> seq 1 (length comps)).
  assert (length keys = length comps) as <- by (unfold keys; by rewrite length_fmap, length_seq).
  assert (NoDup keys) as Hnd.
  { apply NoDup_fmap_2_strong; [|apply NoDup_seq]. intros i j Hi Hj [= Heq].
    apply elem_of_seq in Hi, Hj. apply (f_equal length) in Heq. rewrite !length_app, !length_take in Heq. lia. }
  rewrite <-(size_list_to_set (C := gset key)), <-size_dom by done. apply subseteq_size.
  intros k Hin. apply elem_of_list_to_set, list_elem_of_fmap in Hin as (i & -> & Hi). apply elem_of_seq in Hi.
  apply elem_of_dom. specialize (Hk i). unfold node_at in Hk. rewrite locate_below in Hk by done.
  unfold kget in Hk. cbn [snd] in Hk. fold loc in Hk.
  destruct (loc.2 ++ take i comps) eqn:Heq; [|by rewrite Hk].
  apply (f_equal length) in Heq. rewrite length_app, length_take in Heq. cbn in Heq. lia.
Qed.

Section Walk.
Context {E : Env} (no_fault : ∀ n, fault n = None).

(** A loop whose rounds return and leave the disk alone. *)
Lemma mapM_q {A B} (f : A → prog B) (Φ : A → B → Prop) l w :
  (∀ x w', x ∈ l → same_disk w w' → ∃ y w'', f x w' = (Ok y, w'') ∧ same_disk w' w'' ∧ Φ x y) →
  ∃ ys w', mapM_io f l w = (Ok ys, w') ∧ same_disk w w' ∧ Forall2 Φ l ys.
Proof.
  intros Hf. revert w Hf. induction l as [|x l IH]; intros w Hf; cbn [mapM_io]; [by eexists [], w|].
  destruct (Hf x w) as (y & w1 & H1 & Hs1 & Hy); [left|done|].
  destruct (IH w1) as (ys & w2 & H2 & Hs2 & Hys).
  { intros x' w' Hx' Hs'. apply Hf; [by right|by etrans]. }
  exists (y :: ys), w2. rewrite (bind_ok _ _ _ _ _ H1), (bind_ok _ _ _ _ _ H2).
  split_and!; [done|by etrans|by constructor].
Qed.

Lemma elem_of_mjoin_Forall2 {A B} (Q : A → B → Prop) l (ys : list (list B)) :
  Forall2 (λ x y, ∀ p, p ∈ y ↔ Q x p) l ys → ∀ p, p ∈ mjoin ys ↔ ∃ x, x ∈ l ∧ Q x p.
Proof.
  induction 1 as [|x y l ys Hy Hl IH]; intros p.
  - split; [by intros ?%elem_of_nil|by intros (? & ?%elem_of_nil & _)].
  - change (mjoin (y :: ys)) with (y ++ mjoin ys). rewrite elem_of_app, Hy, IH.
    setoid_rewrite elem_of_cons. naive_solver.
Qed.

Lemma listing_q d w :
  plain_dir (mounts w) d →
  ∃ l w', listing is_OSError d w = (Ok l, w') ∧ same_disk w w' ∧
    ∀ n, n ∈ l ↔ node_at w d = Some Dir ∧ is_Some (node_at w (d ++ [n])).
Proof.
  intros Hd. unfold listing, try_except, scandir, mbind, io_bind, get. rewrite (stat_q no_fault).
  destruct (node_at w d) as [[b t|]|] eqn:Hn.
  - eexists [], _. split_and!; [reflexivity|done|]. intros n. split; [by intros ?%elem_of_nil|by intros [? _]].
  - eexists _, _. split_and!; [reflexivity|done|]. intros n. rewrite dir_order_perm.
    rewrite elem_of_children_node by done. rewrite node_at_tick. tauto.
  - eexists [], _. split_and!; [reflexivity|done|]. intros n. split; [by intros ?%elem_of_nil|by intros [? _]].
Qed.

Lemma subdirs_q fuel d w :
  plain_dir (mounts w) d →
  ∃ l w', subdirs fuel is_OSError false d w = (Ok l, w') ∧ same_disk w w' ∧
    ∀ p, p ∈ l ↔ ∃ comps, comps ≠ [] ∧ length comps ≤ fuel ∧ p = d ++ comps ∧ dirs_along w d comps.
Proof.
  revert d w. induction fuel as [|fuel IH]; intros d w Hd; cbn [subdirs].
  { exists [], w. split_and!; [done|done|]. intros p. split; [by intros ?%elem_of_nil|].
    intros ([|] & ? & ? & _); [done|cbn in *; lia]. }
  destruct (listing_q d w Hd) as (names & w1 & H1 & Hs1 & Hnames).
  rewrite (bind_ok _ _ _ _ _ H1), (bind_ok get _ _ _ _ eq_refl). cbv zeta. cbn [orb].
  set (ds := List.filter _ names).
  destruct (mapM_q (λ n, l ← subdirs fuel is_OSError false (d ++ [n]); mret ((d ++ [n]) :: l))
    (λ n l, ∀ p, p ∈ l ↔ ∃ comps, length comps ≤ fuel ∧ p = d ++ n :: comps ∧ dirs_along w (d ++ [n]) comps)
    ds w1) as (ys & w2 & H2 & Hs2 & Hys).
  { intros n w' Hn Hs'. assert (same_disk w w') as Hw' by by etrans.
    destruct (IH (d ++ [n]) w') as (l & w'' & H3 & Hs3 & Hl).
    { destruct Hw' as [_ ->]. by apply plain_dir_below. }
    eexists _, w''. rewrite (bind_ok _ _ _ _ _ H3). split_and!; [done|done|]. intros p.
    apply list_elem_of_In, filter_In in Hn as [_ Hn]. apply andb_true_iff in Hn as [Hdir _].
    rewrite elem_of_cons, Hl. split.
    - intros [->|(comps & _ & Hlen & -> & Hal)].
      + exists []. split_and!; [cbn; lia|done|]. split; [constructor|]. intros k. rewrite take_nil, app_nil_r.
        unfold isdir_in in Hdir. rewrite (same_disk_node w w1) in Hdir by done. by destruct (node_at w (d ++ [n])) as [[]|].
      + exists comps. rewrite <-(assoc_L (++)). split_and!; [done|done|].
        by apply (dirs_along_same w w').
    - intros (comps & Hlen & -> & Hal). destruct comps as [|c comps]; [by left|right].
      exists (c :: comps). rewrite <-(assoc_L (++)). split_and!; try done. by apply (dirs_along_same w w'). }
  exists (mjoin ys), w2. rewrite (bind_ok _ _ _ _ _ H2). split_and!; [done|by etrans|]. intros p.
  rewrite (elem_of_mjoin_Forall2 _ _ _ Hys). split.
  - intros (n & Hn & comps & Hlen & -> & Hal). exists (n :: comps). apply list_elem_of_In, filter_In in Hn as [Hn Hb].
    apply list_elem_of_In, Hnames in Hn as [Hdir _]. apply andb_true_iff in Hb as [_ Hv].
    split_and!; [done|cbn; lia|done|]. apply dirs_along_cons. split_and!; [done| |done].
    by apply negb_true_iff in Hv.
  - intros ([|n comps] & ? & Hlen & -> & Hal); [done|]. apply dirs_along_cons in Hal as (Hdir & Hv & Hal).
    exists n. split; [|exists comps; split_and!; [cbn in *; lia|done|done]].
    assert (node_at w (d ++ [n]) = Some Dir) as Hn.
    { destruct Hal as [_ Hk]. specialize (Hk 0). by rewrite app_nil_r in Hk. }
    apply list_elem_of_In, filter_In. split; [apply list_elem_of_In, Hnames; by rewrite Hn|].
    apply andb_true_iff. split; [|by rewrite Hv]. unfold isdir_in.
    by rewrite (same_disk_node w w1), Hn.
Qed.

Lemma glob_glob_q d pat w :
  plain_dir (mounts w) d →
  ∃ l w', glob_glob d pat w = (Ok l, w') ∧ same_disk w w' ∧
    ∀ p, p ∈ l ↔ ∃ n, p = d ++ [n] ∧ node_at w d = Some Dir ∧ is_Some (node_at w p) ∧
                      fnmatch n pat = true ∧ visible n.
Proof.
  intros Hd. destruct (listing_q d w Hd) as (names & w1 & H1 & Hs1 & Hnames).
  eexists _, w1. unfold glob_glob. fold (listing is_OSError d). rewrite (bind_ok _ _ _ _ _ H1).
  split_and!; [reflexivity|done|]. intros p. rewrite list_elem_of_fmap. split.
  - intros (n & -> & Hn). apply list_elem_of_In, filter_In in Hn as [Hn Hb].
    apply list_elem_of_In, Hnames in Hn as [Hdir Hnode]. apply andb_true_iff in Hb as [Hm Hv].
    exists n. split_and!; try done. by apply negb_true_iff in Hv.
  - intros (n & -> & Hdir & Hnode & Hm & Hv). exists n. split; [done|].
    apply list_elem_of_In, filter_In. split; [by apply list_elem_of_In, Hnames|]. by rewrite Hm, Hv.
Qed.

(** The recursive pattern finds the names of [pat] at every depth. *)
Lemma glob_rec_q d pat w :
  plain_dir (mounts w) d →
  ∃ l w', glob_rec d pat w = (Ok l, w') ∧ same_disk w w' ∧
    ∀ p, p ∈ l ↔ ∃ comps n, p = d ++ comps ++ [n] ∧ dirs_along w d comps ∧ is_Some (node_at w p) ∧
                            fnmatch n pat = true ∧ visible n.
Proof.
  intros Hd. unfold glob_rec. rewrite (bind_ok _ _ _ _ _ (os_isdir_q no_fault _ _)), (bind_ok get _ _ _ _ eq_refl).
  destruct (subdirs_q (depth_bound (tick w)) d (tick w) Hd) as (sub & w1 & H1 & Hs1 & Hsub).
  assert (same_disk w w1) as Hw1 by (by etrans; [|exact Hs1]).
  rewrite (bind_ok _ _ _ _ _ H1). set (dirs := _ ++ sub).
  assert (∀ q, q ∈ dirs ↔ ∃ comps, q = d ++ comps ∧ dirs_along w d comps) as Hdirs.
  { intros q. unfold dirs. rewrite elem_of_app, Hsub. split.
    - intros [Hq|(comps & _ & _ & -> & Hal)]; [|by exists comps].
      destruct (node_at w d) as [[]|] eqn:Hn; cbn in Hq; try by apply elem_of_nil in Hq.
      apply list_elem_of_singleton in Hq as ->. exists []. rewrite app_nil_r. split; [done|].
      split; [constructor|]. intros k. by rewrite take_nil, app_nil_r.
    - intros (comps & -> & Hal). destruct comps as [|c comps].
      + left. pose proof (dirs_along_last _ _ _ Hal) as Hn. rewrite app_nil_r in *. rewrite Hn. by left.
      + right. exists (c :: comps). split_and!; [done| |done|done].
        pose proof (dirs_along_bound w d _ Hd Hal). unfold depth_bound. cbn [fs mounts tick]. lia. }
  destruct (mapM_q (λ q, glob_glob q pat) (λ q l, ∀ p, p ∈ l ↔ ∃ n, p = q ++ [n] ∧ node_at w q = Some Dir ∧
    is_Some (node_at w p) ∧ fnmatch n pat = true ∧ visible n) dirs w1) as (ys & w2 & H2 & Hs2 & Hys).
  { intros q w' Hq Hs'. assert (same_disk w w') as Hw' by by etrans.
    apply Hdirs in Hq as (comps & -> & _).
    destruct (glob_glob_q (d ++ comps) pat w') as (l & w'' & H3 & Hs3 & Hl).
    { destruct Hw' as [_ ->]. by apply plain_dir_below. }
    exists l, w''. split_and!; [done|done|]. intros p. rewrite Hl. by rewrite !(same_disk_node w w'). }
  exists (mjoin ys), w2. rewrite (bind_ok _ _ _ _ _ H2). split_and!; [done|by etrans|]. intros p.
  rewrite (elem_of_mjoin_Forall2 _ _ _ Hys). split.
  - intros (q & Hq & n & -> & _ & Hrest). apply Hdirs in Hq as (comps & -> & Hal).
    exists comps, n. by rewrite (assoc_L (++)).
  - intros (comps & n & -> & Hal & Hrest). exists (d ++ comps). split; [apply Hdirs; eauto|].
    exists n. rewrite (assoc_L (++)) in Hrest |- *. split_and!; try apply Hrest; [done|].
    by apply dirs_along_last.
Qed.
End Walk.
