(* ===== verification/Traces.v ===== *)
(** * What a program emits

    The trace of a run holds the lines logged and printed, the programs started
    and the texts drawn.  [emits P]: everything a run adds to it satisfies [P]. *)
From S2P Require Import Prelude Text Os.

Definition silent : relation world := λ w w', trace w' = trace w.
#[global] Instance silent_preorder : PreOrder silent.
Proof. split; [done|]. intros w1 w2 w3 H1 H2. unfold silent in *. congruence. Qed.

Definition emits (P : event → Prop) : relation world := λ w w',
  ∃ l, trace w' = trace w ++ l ∧ Forall P l.
#[global] Instance emits_preorder P : PreOrder (emits P).
Proof.
  split; [intros w; exists []; by rewrite app_nil_r|].
  intros w1 w2 w3 (l1 & H1 & Hl1) (l2 & H2 & Hl2). exists (l1 ++ l2).
  split; [by rewrite H2, H1, (assoc_L (++))|by apply Forall_app].
Qed.

Lemma silent_emits P w w' : silent w w' → emits P w w'.
Proof. intros Hw. exists []. by rewrite app_nil_r. Qed.

Lemma only_silent_emits {A} P (m : prog A) : only silent m → only (emits P) m.
Proof. apply only_weaken, silent_emits. Qed.

Lemma emits_mono P Q w w' : (∀ e, P e → Q e) → emits P w w' → emits Q w w'.
Proof. intros HPQ (l & Hw & Hl). exists l. split; [done|]. by eapply Forall_impl. Qed.

(** An event is emitted when it is new in the trace. *)
Definition emitted (e : event) (w w' : world) : Prop := ∃ l, trace w' = trace w ++ l ∧ e ∈ l.

Lemma emits_emitted P e w w' : emits P w w' → emitted e w w' → P e.
Proof.
  intros (l & Hw & Hl) (l' & Hw' & He). rewrite Hw in Hw'. apply app_inv_head in Hw' as ->.
  by eapply Forall_forall in Hl.
Qed.

#[export] Hint Extern 2 (only (emits _) _) =>
  apply only_silent_emits; solve [eauto with io nocore] : io.

Section Silent.
Context {E : Env}.

Lemma syscall_silent f1 f2 : only silent (syscall f1 f2).
Proof. intros w. unfold syscall. by destruct (fault (ticks w)) as [[]|]. Qed.
Lemma os_error_silent {A} n p : only silent (os_error (A:=A) n p).
Proof. unfold os_error. solve_only. Qed.
Lemma time_time_silent : only silent time_time.
Proof. by intros w. Qed.
Lemma datetime_now_silent : only silent datetime_now.
Proof. by intros w. Qed.
Lemma modify_silent f : (∀ w, trace (f w) = trace w) → only silent (modify f).
Proof. intros Hf w. apply Hf. Qed.
#[local] Hint Resolve syscall_silent os_error_silent time_time_silent datetime_now_silent : io.
#[local] Hint Extern 1 (only silent (modify _)) => by apply modify_silent : io.

Lemma stat_silent p : only silent (stat p).
Proof. unfold stat. solve_only. Qed.
#[local] Hint Resolve stat_silent : io.
Lemma stat_dev_silent p : only silent (stat_dev p).
Proof. unfold stat_dev. solve_only. Qed.
#[local] Hint Resolve stat_dev_silent : io.
Lemma os_exists_silent p : only silent (os_exists p).
Proof. unfold os_exists. solve_only. Qed.
Lemma os_isdir_silent p : only silent (os_isdir p).
Proof. unfold os_isdir. solve_only. Qed.
Lemma os_ismount_silent p : only silent (os_ismount p).
Proof. unfold os_ismount. solve_only. Qed.
Lemma scandir_silent p : only silent (scandir p).
Proof. unfold scandir. solve_only. Qed.
Lemma open_read_silent p : only silent (open_read p).
Proof. unfold open_read. solve_only. Qed.
#[local] Hint Resolve os_isdir_silent scandir_silent : io.
Lemma glob_glob_silent p pat : only silent (glob_glob p pat).
Proof. unfold glob_glob. solve_only. Qed.
#[local] Hint Resolve glob_glob_silent : io.
Lemma listing_silent c d : only silent (listing c d).
Proof. unfold listing. solve_only. Qed.
#[local] Hint Resolve listing_silent : io.
Lemma subdirs_silent n c h d : only silent (subdirs n c h d).
Proof. revert d. induction n as [|n IH]; intros d; cbn [subdirs]; solve_only. Qed.
#[local] Hint Resolve subdirs_silent : io.
Lemma glob_rec_silent p pat : only silent (glob_rec p pat).
Proof. unfold glob_rec. solve_only. Qed.
Lemma path_rglob_silent p pat : only silent (path_rglob p pat).
Proof. unfold path_rglob. solve_only. Qed.
Lemma mkdir_ok_silent p : only silent (mkdir_ok p).
Proof. unfold mkdir_ok, mkdir. solve_only. Qed.
#[local] Hint Resolve mkdir_ok_silent : io.
Lemma makedirs_silent p : only silent (makedirs p).
Proof. unfold makedirs. generalize (@nil string). induction p as [|c p IH]; intros d; simpl; solve_only. Qed.

Lemma emit_emits (P : event → Prop) e : P e → only (emits P) (emit e).
Proof. intros HP w. exists [e]. split; [done|by repeat constructor]. Qed.

(** Other programs have traces of their own. *)
Context (exec_silent : ∀ n a w, trace (exec n a w).2 = trace w).

Lemma exec_proc_silent argv : only silent (exec_proc argv).
Proof.
  intros w. unfold exec_proc. specialize (exec_silent (ticks w) argv w).
  by destruct (exec (ticks w) argv w).
Qed.

Lemma run_emits (P : event → Prop) argv : P (Ran argv) → only (emits P) (run argv).
Proof.
  intros HP. unfold run. apply only_bind; [typeclasses eauto|by apply emit_emits|]. intros [].
  apply only_silent_emits. apply only_bind; [typeclasses eauto|apply syscall_silent|].
  intros []. apply exec_proc_silent.
Qed.
End Silent.

#[export] Hint Resolve syscall_silent os_error_silent time_time_silent datetime_now_silent
  stat_silent stat_dev_silent os_exists_silent os_isdir_silent os_ismount_silent scandir_silent
  open_read_silent glob_glob_silent glob_rec_silent path_rglob_silent makedirs_silent : io.
