(* ===== verification/PyNum.v ===== *)
(** * Python numbers

    Python's [int] is [Z]; its [float] is binary64, computed with the Standard
    Library's executable specification of IEEE 754. *)
From S2P Require Import Prelude Text.
From Stdlib Require Import SpecFloat Ascii.

Definition prec : Z := 53.
Definition emax : Z := 1024.

Inductive num := NInt (z : Z) | NFloat (f : spec_float).

(** The double nearest to an integer. *)
Definition float_of_Z (z : Z) : spec_float := binary_normalize prec emax z 0 false.

(** [a / b] for integers: the double nearest to the exact quotient. *)
Definition int_truediv (a b : Z) : res spec_float :=
  match a, b with
  | _, Z0 => Err ZeroDivisionError
  | Z0, Zpos _ => Ok (S754_zero false)
  | Z0, Zneg _ => Ok (S754_zero true)
  | _, _ =>
      let s := xorb (a <? 0)%Z (b <? 0)%Z in
      let '(m, e, l) := SFdiv_core_binary prec emax (Z.abs a) 0 (Z.abs b) 0 in
      match binary_round_aux prec emax s m e l with
      | S754_infinity _ => Err (OverflowError "integer division result too large for a float")
      | f => Ok f
      end
  end.

Definition float_mul : spec_float → spec_float → spec_float := SFmul prec emax.
Definition float_div : spec_float → spec_float → spec_float := SFdiv prec emax.
Definition float_add : spec_float → spec_float → spec_float := SFadd prec emax.
Definition float_sub : spec_float → spec_float → spec_float := SFsub prec emax.

(** Comparison of a float and an integer is exact. *)
Definition compare_float_Z (f : spec_float) (z : Z) : option comparison :=
  match f with
  | S754_nan => None
  | S754_infinity s => Some (if s then Lt else Gt)
  | S754_zero _ => Some (0 ?= z)%Z
  | S754_finite s m e =>
      let v := if s then Zneg m else Zpos m in
      Some (if (0 <=? e)%Z then (v * 2 ^ e ?= z)%Z else (v ?= z * 2 ^ (- e))%Z)
  end.

Definition num_compare (a b : num) : option comparison :=
  match a, b with
  | NInt x, NInt y => Some (x ?= y)%Z
  | NFloat f, NInt z => compare_float_Z f z
  | NInt z, NFloat f => CompOpp <$> compare_float_Z f z
  | NFloat f, NFloat g => SFcompare f g
  end.

(** [a >= b], [a < b], [a > b]. *)
Definition num_ge (a b : num) : bool :=
  match num_compare a b with Some Gt | Some Eq => true | _ => false end.
Definition num_lt (a b : num) : bool :=
  match num_compare a b with Some Lt => true | _ => false end.
Definition num_gt (a b : num) : bool := num_lt b a.

(** ** [float(s)]

    A decimal number, read as the nearest double. *)

(** A run of digits, with single underscores between digits. *)
Fixpoint scan_digits (l : list ascii) (acc : Z) (n : nat) : Z * nat * list ascii :=
  match l with
  | c :: l' =>
      if is_digit c then scan_digits l' (acc * 10 + digit_val c)%Z (S n)
      else if bool_decide (c = "_"%char) then
        match l' with
        | d :: l'' => if is_digit d && negb (bool_decide (n = 0))
                      then scan_digits l'' (acc * 10 + digit_val d)%Z (S n) else (acc, n, l)
        | [] => (acc, n, l)
        end
      else (acc, n, l)
  | [] => (acc, n, [])
  end.

(** The double nearest to [m * 10 ^ e] for [m >= 0]. *)
Definition decimal (m e : Z) : spec_float :=
  if (0 <=? e)%Z then binary_normalize prec emax (m * 10 ^ e) 0 false
  else match int_truediv m (10 ^ (- e)) with Ok f => f | Err _ => S754_infinity false end.

Definition parse_exponent (l : list ascii) : option Z :=
  match l with
  | [] => Some 0%Z
  | c :: l' =>
      if bool_decide (c = "e"%char ∨ c = "E"%char) then
        let '(neg, r) := match l' with
                         | "+"%char :: r => (false, r)
                         | "-"%char :: r => (true, r)
                         | r => (false, r)
                         end in
        match scan_digits r 0 0 with
        | (v, S _, []) => Some (if neg : bool then (- v)%Z else v)
        | _ => None
        end
      else None
  end.

Definition parse_decimal (l : list ascii) : option spec_float :=
  let '(ip, n1, r1) := scan_digits l 0 0 in
  let '(m, n2, r2) := match r1 with
                      | "."%char :: r => scan_digits r ip 0
                      | _ => (ip, 0, r1)
                      end in
  if bool_decide (n1 + n2 = 0) then None
  else e ← parse_exponent r2; Some (decimal m (e - Z.of_nat n2)).

Definition parse_unsigned (l : list ascii) : option spec_float :=
  let s := lower (of_chars l) in
  if bool_decide (s = "inf" ∨ s = "infinity") then Some (S754_infinity false)
  else if bool_decide (s = "nan") then Some S754_nan
  else parse_decimal l.

Definition py_float (s : string) : option spec_float :=
  match strip_chars is_space (chars s) with
  | "+"%char :: l => parse_unsigned l
  | "-"%char :: l => SFopp <$> parse_unsigned l
  | l => parse_unsigned l
  end.

(** A float literal of a program. *)
Definition flit (s : string) : spec_float := default S754_nan (py_float s).

Example flit_half : flit "0.5" = S754_finite false 4503599627370496 (-53).
Proof. reflexivity. Qed.
Example flit_tenth : flit "1e-1" = S754_finite false 7205759403792794 (-56).
Proof. reflexivity. Qed.

(** [int(f)] truncates; NaN and infinities raise. *)
Definition int_of_float (f : spec_float) : res Z :=
  match f with
  | S754_nan => Err (ValueError "cannot convert float NaN to integer")
  | S754_infinity _ => Err (OverflowError "cannot convert float infinity to integer")
  | S754_zero _ => Ok 0%Z
  | S754_finite s m e =>
      let v := if (0 <=? e)%Z then (Zpos m * 2 ^ e)%Z else (Zpos m / 2 ^ (- e))%Z in
      Ok (if s then (- v)%Z else v)
  end.

Lemma num_ge_int x y : num_ge (NInt x) (NInt y) = (y <=? x)%Z.
Proof. unfold num_ge, num_compare. destruct (Z.compare_spec x y); symmetry; lia. Qed.

Lemma num_lt_int x y : num_lt (NInt x) (NInt y) = (x <? y)%Z.
Proof. unfold num_lt, num_compare. destruct (Z.compare_spec x y); symmetry; lia. Qed.
