(* ===== verification/Config.v ===== *)
(** * Configuration values

    What [yaml.safe_load] returns, with the operations the programs apply to
    it: [d.get(k, default)], [d[k]], [int(v)], iteration, use as a path.  A
    value of the wrong type raises the exception Python raises.  The YAML
    library is not part of the repository: loading and dumping are the
    operations of the class [Yaml]. *)
From S2P Require Import Prelude Text Os PyNum.
From Stdlib Require Import SpecFloat.

#[warnings="-register-all"] Inductive yval :=
  | YNull
  | YBool (b : bool)
  | YInt (z : Z)
  | YFloat (f : spec_float)
  | YStr (s : string)
  | YList (l : list yval)
  | YMap (l : list (string * yval)).

(** PyYAML: [safe_load] of the bytes of a file, [safe_dump(..., sort_keys=False)];
    [show_other] is the text of a float, a list or a dictionary in a log line. *)
Class Yaml := {
  safe_load : bytes → res yval;
  safe_dump : yval → bytes;
  show_other : yval → string;
}.

(** [f"{v}"] *)
Definition yshow `{Yaml} (v : yval) : string :=
  match v with
  | YNull => "None"
  | YBool b => if b then "True" else "False"
  | YInt z => pretty z
  | YStr s => s
  | v => show_other v
  end.

Fixpoint assoc {A} (k : string) (l : list (string * A)) : option A :=
  match l with
  | [] => None
  | (k', v) :: l' => if bool_decide (k' = k) then Some v else assoc k l'
  end.

(** Dictionary assignment keeps the position of an existing key. *)
Fixpoint assoc_set {A} (k : string) (v : A) (l : list (string * A)) : list (string * A) :=
  match l with
  | [] => [(k, v)]
  | (k', v') :: l' => if bool_decide (k' = k) then (k, v) :: l' else (k', v') :: assoc_set k v l'
  end.

(** [v.get(k, dflt)] *)
Definition yget (v : yval) (k : string) (dflt : yval) : res yval :=
  match v with
  | YMap l => Ok (default dflt (assoc k l))
  | _ => Err (AttributeError "object has no attribute 'get'")
  end.

(** [v[k]] for a string [k]. *)
Definition yindex (v : yval) (k : string) : res yval :=
  match v with
  | YMap l => match assoc k l with Some x => Ok x | None => Err (KeyError k) end
  | _ => Err (TypeError "object is not subscriptable with a string")
  end.

(** [bool(v)]; [v or {}]. *)
Definition truthy (v : yval) : bool :=
  match v with
  | YNull => false
  | YBool b => b
  | YInt z => negb (bool_decide (z = 0%Z))
  | YFloat (S754_zero _) => false
  | YFloat _ => true
  | YStr s => negb (bool_decide (s = ""))
  | YList l => match l with [] => false | _ => true end
  | YMap l => match l with [] => false | _ => true end
  end.

(** [int(v)] *)
Definition yint (v : yval) : res Z :=
  match v with
  | YInt z => Ok z
  | YBool b => Ok (if b then 1%Z else 0%Z)
  | YFloat f => int_of_float f
  | YStr s => match py_int s with Some z => Ok z | None => Err (ValueError "invalid literal for int()") end
  | _ => Err (TypeError "int() argument must be a string or a number")
  end.

(** A number, where arithmetic or a comparison needs one. *)
Definition ynum (v : yval) : res num :=
  match v with
  | YInt z => Ok (NInt z)
  | YBool b => Ok (NInt (if b then 1 else 0))
  | YFloat f => Ok (NFloat f)
  | _ => Err (TypeError "not a number")
  end.

(** A path, where the file system needs one. *)
Definition ypath (v : yval) : res path :=
  match v with
  | YStr s => Ok (Path_ s)
  | _ => Err (TypeError "expected str, bytes or os.PathLike object")
  end.

(** [for x in v] *)
Definition yiter (v : yval) : res (list yval) :=
  match v with
  | YList l => Ok l
  | YMap l => Ok ((λ kv, YStr kv.1) <$> l)
  | YStr s => Ok ((λ c, YStr (of_chars [c])) <$> chars s)
  | _ => Err (TypeError "object is not iterable")
  end.

#[export] Instance res_ret : MRet res := λ A, Ok.
#[export] Instance res_bind : MBind res := λ A B k m,
  match m with Ok a => k a | Err e => Err e end.

(** A file name, as the candidates of a configuration are used. *)
Definition ystr (v : yval) : res string :=
  match v with
  | YStr s => mret s
  | _ => Err (TypeError "expected str, bytes or os.PathLike object")
  end.

(** [cfg.get(sec, {}).get(k, dflt)] *)
Definition yget2 (cfg : yval) (sec k : string) (dflt : yval) : res yval :=
  s ← yget cfg sec (YMap []); yget s k dflt.

(** [v or {}] *)
Definition or_empty (v : yval) : yval := if truthy v then v else YMap [].

(** [sep.join(v)] *)
Definition yjoin (sep : string) (v : yval) : res string :=
  l ← yiter v;
  foldr (λ x k first, s ← ystr x; r ← k false;
         mret ((if first : bool then "" else sep) +:+ s +:+ r)) (λ _, mret "") l true.

Lemma assoc_set_eq {A} k (v : A) l : assoc k (assoc_set k v l) = Some v.
Proof.
  induction l as [|[k' v'] l IH]; simpl; [by rewrite bool_decide_true|].
  case_bool_decide; simpl; [by rewrite bool_decide_true|by rewrite bool_decide_false].
Qed.

Lemma assoc_set_ne {A} k k' (v : A) l : k ≠ k' → assoc k (assoc_set k' v l) = assoc k l.
Proof.
  intros Hne. induction l as [|[k1 v1] l IH]; simpl; [by rewrite bool_decide_false|].
  case_bool_decide; subst; simpl.
  - by rewrite !bool_decide_false by congruence.
  - case_bool_decide; [done|apply IH].
Qed.

(** Assigning to a dictionary changes none of its other keys, nor their order. *)
Lemma assoc_set_keys {A} k (v : A) l :
  is_Some (assoc k l) → (assoc_set k v l).*1 = l.*1.
Proof.
  induction l as [|[k' v'] l IH]; simpl; [by intros []|].
  case_bool_decide; simpl; [by subst|]. intros Hk. f_equal. by apply IH.
Qed.
