(* ===== verification/Json.v ===== *)
(** * JSON text ([json.dumps], [json.dump], [json.load])

    The values the programs write, and the text the [json] module makes of them:
    on one line for the transfer log, indented by two for the state file; and
    the reader, which makes Python values of a text. *)
From S2P Require Import Prelude Text Os PyNum Config.
From Stdlib Require Import Ascii SpecFloat.
Local Open Scope Z_scope.

#[warnings="-register-all"] Inductive json :=
  | JNull
  | JBool (b : bool)
  | JInt (z : Z)
  | JStr (s : string)
  | JObj (l : list (string * json)).

Definition chr (z : Z) : ascii := ascii_of_N (Z.to_N z).

(** The code points of a string; a byte that is not UTF-8 stands for a lone
    surrogate, as in the file names Python gets from the system. *)
Definition cont (b : Z) : bool := bool_decide (128 ≤ b ∧ b ≤ 191).
Fixpoint utf8_decode (l : list ascii) : list Z :=
  match l with
  | [] => []
  | c0 :: r0 =>
      let b0 := code c0 in
      let bad (_ : unit) := (56320 + b0) :: utf8_decode r0 in
      if b0 <? 128 then b0 :: utf8_decode r0 else
      match r0 with
      | [] => bad tt
      | c1 :: r1 =>
          let b1 := code c1 in
          if bool_decide (194 ≤ b0 ∧ b0 ≤ 223) && cont b1
          then ((b0 - 192) * 64 + (b1 - 128)) :: utf8_decode r1 else
          match r1 with
          | [] => bad tt
          | c2 :: r2 =>
              let b2 := code c2 in
              let u3 := (b0 - 224) * 4096 + (b1 - 128) * 64 + (b2 - 128) in
              if bool_decide (224 ≤ b0 ∧ b0 ≤ 239) && cont b1 && cont b2 &&
                 bool_decide (2048 ≤ u3 ∧ ¬ (55296 ≤ u3 ∧ u3 ≤ 57343))
              then u3 :: utf8_decode r2 else
              match r2 with
              | [] => bad tt
              | c3 :: r3 =>
                  let b3 := code c3 in
                  let u4 := (b0 - 240) * 262144 + (b1 - 128) * 4096 + (b2 - 128) * 64 + (b3 - 128) in
                  if bool_decide (240 ≤ b0 ∧ b0 ≤ 244) && cont b1 && cont b2 && cont b3 &&
                     bool_decide (65536 ≤ u4 ∧ u4 ≤ 1114111)
                  then u4 :: utf8_decode r3 else bad tt
              end
          end
      end
  end.

Definition hex_char (z : Z) : ascii := if z <? 10 then chr (48 + z) else chr (87 + z).
Definition hex4 (z : Z) : list ascii :=
  [hex_char (z / 4096 mod 16); hex_char (z / 256 mod 16);
   hex_char (z / 16 mod 16); hex_char (z mod 16)].
Definition backslash : ascii := chr 92.
Definition u_escape (z : Z) : list ascii := backslash :: "u"%char :: hex4 z.

(** One code point inside a string, with [ensure_ascii]. *)
Definition json_char (u : Z) : list ascii :=
  if u =? 34 then [backslash; chr 34] else
  if u =? 92 then [backslash; backslash] else
  if u =? 10 then [backslash; "n"%char] else
  if u =? 13 then [backslash; "r"%char] else
  if u =? 9 then [backslash; "t"%char] else
  if u =? 12 then [backslash; "f"%char] else
  if u =? 8 then [backslash; "b"%char] else
  if (32 <=? u) && (u <=? 126) then [chr u] else
  if u <? 65536 then u_escape u else
  u_escape (55296 + (u - 65536) / 1024) ++ u_escape (56320 + (u - 65536) mod 1024).

Definition json_str (s : string) : string :=
  dquote +:+ of_chars (mjoin (json_char <$> utf8_decode (chars s))) +:+ dquote.

Fixpoint join (sep : string) (l : list string) : string :=
  match l with
  | [] => ""
  | [s] => s
  | s :: l' => s +:+ sep +:+ join sep l'
  end.

(** [json.dumps(v)] *)
Fixpoint dumps (v : json) : string :=
  match v with
  | JNull => "null"
  | JBool b => if b then "true" else "false"
  | JInt z => pretty z
  | JStr s => json_str s
  | JObj l =>
      "{" +:+ join ", " (map (λ kv, json_str kv.1 +:+ ": " +:+ dumps kv.2) l) +:+ "}"
  end.

Definition spaces (n : nat) : string := of_chars (replicate n " "%char).

(** [json.dumps(v, indent=2)] at nesting depth [d]. *)
Fixpoint dumps_indent (d : nat) (v : json) : string :=
  match v with
  | JObj [] => "{}"
  | JObj l =>
      let pad := nl +:+ spaces (2 * S d) in
      "{" +:+ pad +:+
      join ("," +:+ pad) (map (λ kv, json_str kv.1 +:+ ": " +:+ dumps_indent (S d) kv.2) l)
      +:+ nl +:+ spaces (2 * d) +:+ "}"
  | v => dumps v
  end.

(** ** Reading *)

Definition json_space (c : ascii) : bool :=
  bool_decide (code c = 32 ∨ code c = 9 ∨ code c = 10 ∨ code c = 13).
Definition skip_ws : list ascii → list ascii := lstrip_by json_space.

Fixpoint drop_prefix (p l : list ascii) : option (list ascii) :=
  match p, l with
  | [], l => Some l
  | c :: p', d :: l' => if bool_decide (c = d) then drop_prefix p' l' else None
  | _ :: _, [] => None
  end.

Definition hex_val (c : ascii) : option Z :=
  let n := code c in
  if bool_decide (48 ≤ n ∧ n ≤ 57) then Some (n - 48)
  else if bool_decide (97 ≤ n ∧ n ≤ 102) then Some (n - 87)
  else if bool_decide (65 ≤ n ∧ n ≤ 70) then Some (n - 55) else None.

Definition read_hex4 (l : list ascii) : option (Z * list ascii) :=
  match l with
  | a :: b :: c :: d :: l' =>
      x ← hex_val a; y ← hex_val b; z ← hex_val c; t ← hex_val d;
      Some (((x * 16 + y) * 16 + z) * 16 + t, l')
  | _ => None
  end.

Definition utf8_encode (u : Z) : list ascii :=
  if u <? 128 then [chr u]
  else if u <? 2048 then [chr (192 + u / 64); chr (128 + u mod 64)]
  else if u <? 65536 then [chr (224 + u / 4096); chr (128 + u / 64 mod 64); chr (128 + u mod 64)]
  else [chr (240 + u / 262144); chr (128 + u / 4096 mod 64); chr (128 + u / 64 mod 64); chr (128 + u mod 64)].

(** After a backslash and a [u]: a code point, or a pair of surrogates. *)
Definition read_unicode (l : list ascii) : option (list ascii * list ascii) :=
  '(u, l1) ← read_hex4 l;
  if bool_decide (55296 ≤ u ∧ u ≤ 56319) then
    match drop_prefix [backslash; "u"%char] l1 with
    | Some l2 =>
        '(v, l3) ← read_hex4 l2;
        if bool_decide (56320 ≤ v ∧ v ≤ 57343)
        then Some (utf8_encode (65536 + (u - 55296) * 1024 + (v - 56320)), l3)
        else Some (utf8_encode u, l1)
    | None => Some (utf8_encode u, l1)
    end
  else Some (utf8_encode u, l1).

Definition simple_escape (c : ascii) : option ascii :=
  if bool_decide (c ∈ [chr 34; backslash; "/"%char]) then Some c
  else if bool_decide (c = "n"%char) then Some (chr 10)
  else if bool_decide (c = "r"%char) then Some (chr 13)
  else if bool_decide (c = "t"%char) then Some (chr 9)
  else if bool_decide (c = "b"%char) then Some (chr 8)
  else if bool_decide (c = "f"%char) then Some (chr 12)
  else None.

(** The rest of a string, after its opening quote; control characters are not
    allowed.  Each step takes a character, so the length of the text bounds them. *)
Fixpoint read_string (fuel : nat) (l acc : list ascii) : option (string * list ascii) :=
  match fuel, l with
  | S fuel', c :: l' =>
      if bool_decide (code c = 34) then Some (of_chars (reverse acc), l')
      else if bool_decide (c = backslash) then
        match l' with
        | d :: l'' =>
            if bool_decide (d = "u"%char) then
              '(u, l3) ← read_unicode l''; read_string fuel' l3 (reverse u ++ acc)
            else
              e ← simple_escape d; read_string fuel' l'' (e :: acc)
        | [] => None
        end
      else if bool_decide (code c < 32) then None
      else read_string fuel' l' (c :: acc)
  | _, _ => None
  end.

Fixpoint span_digits (l : list ascii) : list ascii * list ascii :=
  match l with
  | c :: l' => if is_digit c then let '(a, b) := span_digits l' in (c :: a, b) else ([], l)
  | [] => ([], [])
  end.

(** A number: an integer, or a float when it has a fraction or an exponent. *)
Definition read_number (l : list ascii) : option (yval * list ascii) :=
  let '(neg, l1) := match l with "-"%char :: r => (true, r) | _ => (false, l) end in
  let '(ip, l2) := match l1 with
                   | "0"%char :: r => (["0"%char], r)
                   | _ => span_digits l1
                   end in
  let '(fp, l3) := match l2 with
                   | "."%char :: r => match span_digits r with ([], _) => ([], l2) | (a, b) => ("."%char :: a, b) end
                   | _ => ([], l2)
                   end in
  let '(ep, l4) := match l3 with
                   | e :: r =>
                       if bool_decide (e = "e"%char ∨ e = "E"%char) then
                         let '(sg, r') := match r with
                                          | "+"%char :: r' => (["+"%char], r')
                                          | "-"%char :: r' => (["-"%char], r')
                                          | _ => ([], r)
                                          end in
                         match span_digits r' with ([], _) => ([], l3) | (a, b) => (e :: sg ++ a, b) end
                       else ([], l3)
                   | [] => ([], l3)
                   end in
  match ip with
  | [] => None
  | _ =>
      match fp, ep with
      | [], [] => z ← parse_digits 0 ip; Some (YInt (if neg : bool then - z else z), l4)
      | _, _ => f ← parse_decimal (ip ++ fp ++ ep);
                Some (YFloat (if neg : bool then SFopp f else f), l4)
      end
  end.

(** A value.  Each nested value takes a character, so the length of the text
    bounds the recursion. *)
Fixpoint read_value (fuel : nat) (l : list ascii) : option (yval * list ascii) :=
  match fuel with
  | O => None
  | S fuel' =>
      match l with
      | [] => None
      | c :: l' =>
          if bool_decide (code c = 34) then
            '(s, r) ← read_string (S (length l')) l' []; Some (YStr s, r)
          else if bool_decide (c = "{"%char) then
            match skip_ws l' with
            | "}"%char :: r => Some (YMap [], r)
            | r => read_members fuel' r []
            end
          else if bool_decide (c = "["%char) then
            match skip_ws l' with
            | "]"%char :: r => Some (YList [], r)
            | r => read_elements fuel' r []
            end
          else match drop_prefix (chars "null") l, drop_prefix (chars "true") l,
                     drop_prefix (chars "false") l, drop_prefix (chars "NaN") l,
                     drop_prefix (chars "Infinity") l, drop_prefix (chars "-Infinity") l with
          | Some r, _, _, _, _, _ => Some (YNull, r)
          | _, Some r, _, _, _, _ => Some (YBool true, r)
          | _, _, Some r, _, _, _ => Some (YBool false, r)
          | _, _, _, Some r, _, _ => Some (YFloat S754_nan, r)
          | _, _, _, _, Some r, _ => Some (YFloat (S754_infinity false), r)
          | _, _, _, _, _, Some r => Some (YFloat (S754_infinity true), r)
          | _, _, _, _, _, _ => read_number l
          end
      end
  end
(** [name : value], then a comma and the next, or the closing brace. *)
with read_members (fuel : nat) (l : list ascii) (acc : list (string * yval)) : option (yval * list ascii) :=
  match fuel with
  | O => None
  | S fuel' =>
      match l with
      | c :: l' =>
          if bool_decide (code c = 34) then
            '(k, r1) ← read_string (S (length l')) l' [];
            r2 ← drop_prefix [":"%char] (skip_ws r1);
            '(v, r3) ← read_value fuel' (skip_ws r2);
            let acc' := assoc_set k v acc in
            match skip_ws r3 with
            | "}"%char :: r => Some (YMap acc', r)
            | ","%char :: r => read_members fuel' (skip_ws r) acc'
            | _ => None
            end
          else None
      | [] => None
      end
  end
with read_elements (fuel : nat) (l : list ascii) (acc : list yval) : option (yval * list ascii) :=
  match fuel with
  | O => None
  | S fuel' =>
      '(v, r1) ← read_value fuel' l;
      match skip_ws r1 with
      | "]"%char :: r => Some (YList (reverse (v :: acc)), r)
      | ","%char :: r => read_elements fuel' (skip_ws r) (v :: acc)
      | _ => None
      end
  end.

(** [json.loads(s)]: one value and white space. *)
Definition loads (s : string) : res yval :=
  match read_value (2 * S (String.length s)) (skip_ws (chars s)) with
  | Some (v, r) =>
      match skip_ws r with
      | [] => Ok v
      | _ => Err (ValueError "Extra data")
      end
  | None => Err (ValueError "Expecting value")
  end.
