(* ===== verification/JsonFacts.v ===== *)
(** * Reading back JSON

    A dictionary of scalars that [json.dump] or [json.dumps] has written is what
    [json.load] reads. *)
From S2P Require Import Prelude Text Os TextFacts PyNum Config Json.
From Stdlib Require Import Ascii SpecFloat.

(** ** Strings *)

(** Printable ASCII without quotes and backslashes. *)
Definition plain_char (c : ascii) : bool :=
  bool_decide (32 ≤ code c ∧ code c ≤ 126)%Z && negb (bool_decide (code c = 34%Z))
  && negb (bool_decide (code c = 92%Z)).
Definition plain (s : string) : Prop := Forall (λ c, plain_char c = true) (chars s).

(** What a property of the two hundred and fifty-six characters amounts to. *)
Lemma all_chars (P : ascii → bool) :
  forallb (λ n, P (ascii_of_N (N.of_nat n))) (seq 0 256) = true → ∀ c, P c = true.
Proof.
  intros Hall c. rewrite forallb_forall in Hall.
  rewrite <-(ascii_N_embedding c). replace (N_of_ascii c) with (N.of_nat (N.to_nat (N_of_ascii c))) by lia.
  apply Hall, in_seq. pose proof (N_ascii_bounded c). lia.
Qed.

Lemma plain_char_json c :
  plain_char c = true → utf8_decode [c] = [code c] ∧ json_char (code c) = [c] ∧
  (code c <? 128)%Z = true ∧ code c ≠ 34%Z ∧ c ≠ backslash ∧ ¬ (code c < 32)%Z.
Proof.
  assert (∀ c, implb (plain_char c) (bool_decide (utf8_decode [c] = [code c] ∧ json_char (code c) = [c] ∧
    (code c <? 128)%Z = true ∧ code c ≠ 34%Z ∧ c ≠ backslash ∧ ¬ (code c < 32)%Z)) = true) as Hall
    by (apply all_chars; vm_compute; reflexivity).
  intros Hc. specialize (Hall c). rewrite Hc in Hall. by apply bool_decide_eq_true in Hall.
Qed.

Lemma json_chars_plain l :
  Forall (λ c, plain_char c = true) l → mjoin (json_char <$> utf8_decode l) = l.
Proof.
  induction 1 as [|c l Hc Hl IH]; [done|].
  destruct (plain_char_json c Hc) as (_ & Hj & H128 & _). cbn [utf8_decode]. rewrite H128. csimpl.
  by rewrite Hj, IH.
Qed.

Lemma chars_json_str s :
  plain s → chars (json_str s) = chr 34 :: chars s ++ [chr 34].
Proof.
  intros Hs. unfold json_str. rewrite !chars_app, chars_of_chars, json_chars_plain by done. done.
Qed.

Lemma read_string_plain l acc fuel r :
  Forall (λ c, plain_char c = true) l → length l < fuel →
  read_string fuel (l ++ chr 34 :: r) acc = Some (of_chars (reverse acc ++ l), r).
Proof.
  intros Hl. revert acc fuel. induction Hl as [|c l Hc Hl IH]; intros acc fuel Hf;
    (destruct fuel as [|fuel]; [simpl in Hf; lia|]).
  - simpl. by rewrite app_nil_r.
  - destruct (plain_char_json c Hc) as (_ & _ & _ & H34 & Hb & H32).
    cbn [app read_string]. rewrite !bool_decide_false by done.
    rewrite IH by (simpl in Hf; lia). by rewrite reverse_cons, <-(assoc_L (++)).
Qed.

Lemma read_string_whole s r :
  plain s → read_string (S (length (chars s ++ chr 34 :: r))) (chars s ++ chr 34 :: r) [] = Some (s, r).
Proof.
  intros Hs. rewrite read_string_plain; [|done|rewrite length_app; lia].
  change (reverse [] ++ chars s) with (chars s). by rewrite of_chars_chars.
Qed.

(** ** Numbers *)

Lemma digit_cases c : is_digit c = true → c ∈ chars "0123456789".
Proof.
  assert (∀ c, implb (is_digit c) (bool_decide (c ∈ chars "0123456789")) = true) as Hall
    by (apply all_chars; vm_compute; reflexivity).
  intros Hc. specialize (Hall c). rewrite Hc in Hall. by apply bool_decide_eq_true in Hall.
Qed.

(** What may follow a value. *)
Definition delim (r : list ascii) : Prop :=
  ∃ c r', r = c :: r' ∧ c ∈ [","%char; "}"%char; chr 10].

Lemma span_digits_app l r :
  Forall (λ c, is_digit c = true ∧ is_space c = false) l → delim r → span_digits (l ++ r) = (l, r).
Proof.
  intros Hl (c & r' & -> & Hc). induction Hl as [|d l [Hd _] Hl IH]; cbn [app span_digits].
  - repeat (apply elem_of_cons in Hc as [->|Hc]; [done|]). by apply elem_of_nil in Hc.
  - by rewrite Hd, IH.
Qed.

(** The first digit of a positive number is not zero. *)
Lemma head_digit (x : N) s :
  (0 < x)%N → ∃ d s', chars (pretty_N_go x s) = pretty_N_char d :: s' ∧ (0 < d < 10)%N.
Proof.
  revert s. induction (N.lt_wf_0 x) as [x _ IH]; intros s Hx. rewrite pretty_N_go_step by done.
  destruct (decide (x < 10)%N) as [Hlt|Hge].
  - rewrite N.div_small by done. rewrite pretty_N_go_0, N.mod_small by done. eauto.
  - apply IH; [apply N.div_lt; lia|]. apply N.div_str_pos. lia.
Qed.

Lemma pretty_pos_head (p : positive) :
  ∃ d s', chars (pretty (N.pos p)) = d :: s' ∧ d ∈ chars "123456789".
Proof.
  unfold pretty, pretty_N. rewrite decide_False by done.
  destruct (head_digit (N.pos p) "") as (d & s' & -> & Hd); [lia|]. exists (pretty_N_char d), s'.
  split; [done|]. assert (d ∈ [1;2;3;4;5;6;7;8;9]%N) as Hin by (repeat rewrite elem_of_cons; lia).
  repeat (apply elem_of_cons in Hin as [->|Hin]; [by apply (bool_decide_unpack _)|]).
  by apply elem_of_nil in Hin.
Qed.

Lemma read_number_digits l neg r :
  Forall (λ c, is_digit c = true ∧ is_space c = false) l → delim r →
  (∃ d l', l = d :: l' ∧ d ∈ chars "123456789") →
  read_number ((if neg : bool then ["-"%char] else []) ++ l ++ r) =
    z ← parse_digits 0 l; Some (YInt (if neg then (- z)%Z else z), r).
Proof.
  intros Hl Hr (d & l' & -> & Hd). pose proof (span_digits_app _ _ Hl Hr) as Hspan.
  assert (match (d :: l') ++ r with "0"%char :: r => (["0"%char], r) | _ => span_digits ((d :: l') ++ r) end
    = (d :: l', r)) as Hip.
  { rewrite <-Hspan. cbn [app].
    repeat (apply elem_of_cons in Hd as [->|Hd]; [reflexivity|]). by apply elem_of_nil in Hd. }
  unfold read_number.
  assert (match (if neg then ["-"%char] else []) ++ (d :: l') ++ r with
          | "-"%char :: r0 => (true, r0)
          | _ => (false, (if neg then ["-"%char] else []) ++ (d :: l') ++ r)
          end = (neg, (d :: l') ++ r)) as ->.
  { destruct neg; [reflexivity|]. cbn [app].
    repeat (apply elem_of_cons in Hd as [->|Hd]; [reflexivity|]). by apply elem_of_nil in Hd. }
  cbv beta iota. rewrite Hip. cbv beta iota. destruct Hr as (c & r' & -> & Hc).
  repeat (apply elem_of_cons in Hc as [->|Hc]; [reflexivity|]). by apply elem_of_nil in Hc.
Qed.

(** A text that begins like a number is read as one. *)
Lemma read_value_number fuel l :
  (∃ c l', l = c :: l' ∧ (c ∈ chars "0123456789" ∨
     c = "-"%char ∧ ∃ d l'', l' = d :: l'' ∧ d ∈ chars "0123456789")) →
  read_value (S fuel) l = read_number l.
Proof.
  intros (c & l' & -> & [Hc|(-> & d & l'' & -> & Hd)]).
  - repeat (apply elem_of_cons in Hc as [->|Hc]; [reflexivity|]). by apply elem_of_nil in Hc.
  - repeat (apply elem_of_cons in Hd as [->|Hd]; [reflexivity|]). by apply elem_of_nil in Hd.
Qed.

Lemma digits_sub d : d ∈ chars "123456789" → d ∈ chars "0123456789".
Proof. intros Hd. by right. Qed.

Lemma read_int fuel z r :
  delim r → read_value (S fuel) (chars (pretty z) ++ r) = Some (YInt z, r).
Proof.
  intros Hr. destruct z as [|p|p].
  - destruct Hr as (c & r' & -> & Hc).
    repeat (apply elem_of_cons in Hc as [->|Hc]; [reflexivity|]). by apply elem_of_nil in Hc.
  - change (pretty (Z.pos p)) with (pretty (N.pos p)).
    destruct (pretty_pos_head p) as (d & s' & Heq & Hd).
    destruct (pretty_N_digits (N.pos p)) as (H1 & H2 & _).
    rewrite read_value_number by (rewrite Heq; eexists _, _; split; [reflexivity|left; by apply digits_sub]).
    pose proof (read_number_digits _ false r H2 Hr ltac:(eauto)) as Hn. cbn [app] in Hn.
    by rewrite Hn, H1.
  - change (chars (pretty (Z.neg p))) with ("-"%char :: chars (pretty (N.pos p))).
    destruct (pretty_pos_head p) as (d & s' & Heq & Hd).
    destruct (pretty_N_digits (N.pos p)) as (H1 & H2 & _).
    rewrite read_value_number by (rewrite Heq; eexists _, _; split; [reflexivity|right];
      split; [done|]; eexists _, _; split; [reflexivity|by apply digits_sub]).
    pose proof (read_number_digits _ true r H2 Hr ltac:(eauto)) as Hn. cbn [app] in Hn.
    cbn [app]. by rewrite Hn, H1.
Qed.

(** ** Dictionaries of scalars *)

Definition flat (v : json) : Prop :=
  match v with JObj _ => False | JStr s => plain s | _ => True end.

Definition to_y (v : json) : yval :=
  match v with
  | JNull => YNull
  | JBool b => YBool b
  | JInt z => YInt z
  | JStr s => YStr s
  | JObj _ => YNull
  end.

Lemma read_scalar fuel v r :
  flat v → delim r → read_value (S fuel) (chars (dumps v) ++ r) = Some (to_y v, r).
Proof.
  intros Hv Hr. destruct v as [|b|z|s|]; [reflexivity|by destruct b|by apply read_int| |done].
  cbn [dumps to_y]. rewrite chars_json_str by done.
  cbn [app read_value]. rewrite bool_decide_true by done.
  rewrite <-(assoc_L (++)). cbn [app].
  by rewrite read_string_whole.
Qed.

(** White space between the members, before the first and after the last. *)
Definition blank (l : list ascii) : Prop := Forall (λ c, json_space c = true) l.

Lemma skip_blank l c r :
  blank l → json_space c = false → skip_ws (l ++ c :: r) = c :: r.
Proof.
  intros Hl Hc. unfold skip_ws. induction Hl as [|d l Hd Hl IH]; simpl; [by rewrite Hc|by rewrite Hd].
Qed.

Definition member (kv : string * json) : string := json_str kv.1 +:+ ": " +:+ dumps kv.2.

Definition flat_members (l : list (string * json)) : Prop := Forall (λ kv, plain kv.1 ∧ flat kv.2) l.

(** One step of the reader of members, its recursive calls left folded. *)
Lemma read_members_step fuel c l acc :
  code c = 34%Z →
  read_members (S fuel) (c :: l) acc =
    ('(k, r1) ← read_string (S (length l)) l [];
     r2 ← drop_prefix [":"%char] (skip_ws r1);
     '(v, r3) ← read_value fuel (skip_ws r2);
     match skip_ws r3 with
     | "}"%char :: r => Some (YMap (assoc_set k v acc), r)
     | ","%char :: r => read_members fuel (skip_ws r) (assoc_set k v acc)
     | _ => None
     end).
Proof.
  intros Hc. change (read_members (S fuel) (c :: l) acc) with
    (if bool_decide (code c = 34%Z) then
       '(k, r1) ← read_string (S (length l)) l [];
       r2 ← drop_prefix [":"%char] (skip_ws r1);
       '(v, r3) ← read_value fuel (skip_ws r2);
       match skip_ws r3 with
       | "}"%char :: r => Some (YMap (assoc_set k v acc), r)
       | ","%char :: r => read_members fuel (skip_ws r) (assoc_set k v acc)
       | _ => None
       end
     else None).
  by rewrite bool_decide_true.
Qed.

Lemma skip_ws_space r : skip_ws (" "%char :: r) = skip_ws r.
Proof. reflexivity. Qed.

Lemma skip_ws_colon r : skip_ws (":"%char :: r) = ":"%char :: r.
Proof. reflexivity. Qed.

(** The text of a scalar starts with a character that is not white space. *)
Lemma skip_ws_scalar v r : flat v → skip_ws (chars (dumps v) ++ r) = chars (dumps v) ++ r.
Proof.
  intros Hv. destruct v as [|b|z|s|]; [reflexivity|by destruct b| | |done].
  - cbn [dumps]. destruct z as [|p|p]; [reflexivity| |].
    + change (pretty (Z.pos p)) with (pretty (N.pos p)).
      destruct (pretty_pos_head p) as (d & s' & -> & Hd). cbn [app].
      repeat (apply elem_of_cons in Hd as [->|Hd]; [reflexivity|]). by apply elem_of_nil in Hd.
    + change (chars (pretty (Z.neg p))) with ("-"%char :: chars (pretty (N.pos p))). reflexivity.
  - cbn [dumps]. by rewrite chars_json_str.
Qed.

Lemma read_member fuel acc kv r :
  plain kv.1 → flat kv.2 → delim r →
  read_members (S (S fuel)) (chars (member kv) ++ r) acc =
    match skip_ws r with
    | "}"%char :: r => Some (YMap (assoc_set kv.1 (to_y kv.2) acc), r)
    | ","%char :: r => read_members (S fuel) (skip_ws r) (assoc_set kv.1 (to_y kv.2) acc)
    | _ => None
    end.
Proof.
  intros Hk Hv Hd. unfold member. rewrite !chars_app, chars_json_str by done.
  change (chars ": ") with [":"%char; " "%char].
  assert (((chr 34 :: chars kv.1 ++ [chr 34]) ++ [":"%char; " "%char] ++ chars (dumps kv.2)) ++ r =
    chr 34 :: (chars kv.1 ++ chr 34 :: ":"%char :: " "%char :: chars (dumps kv.2) ++ r)) as ->
    by (cbn [app]; rewrite <-!(assoc_L (++)); reflexivity).
  rewrite read_members_step by reflexivity. rewrite read_string_whole by done.
  unfold mbind, option_bind. cbv beta iota. rewrite skip_ws_colon.
  change (drop_prefix [":"%char] (":"%char :: " "%char :: chars (dumps kv.2) ++ r))
    with (Some (" "%char :: chars (dumps kv.2) ++ r)). cbv beta iota.
  rewrite skip_ws_space, skip_ws_scalar, read_scalar by done. reflexivity.
Qed.

(** The text of the members, with [sep] after each comma, then [close]. *)
Definition members_text (sep : string) (l : list (string * json)) : string :=
  join ("," +:+ sep) (member <$> l).

Definition blanks (s : string) : Prop := Forall (λ c, json_space c = true) (chars s).

(** The dictionary the members make. *)
Definition dict_of (acc : list (string * yval)) (l : list (string * json)) : list (string * yval) :=
  fold_left (λ d kv, assoc_set kv.1 (to_y kv.2) d) l acc.

Lemma string_app_nil (s : string) : s +:+ "" = s.
Proof. induction s as [|c s IH]; [done|]. change (String c (s +:+ "") = String c s). by rewrite IH. Qed.

Lemma members_head sep l :
  flat_members l → l ≠ [] → ∃ r, chars (members_text sep l) = chr 34 :: r.
Proof.
  intros Hl Hne. unfold members_text. destruct Hl as [|kv l [Hk _] _]; [done|].
  assert (∃ t, join ("," +:+ sep) (member <$> kv :: l) = member kv +:+ t) as [t ->].
  { destruct l; [exists ""; by rewrite string_app_nil|by eexists]. }
  unfold member. rewrite !chars_app, chars_json_str by done. eexists. reflexivity.
Qed.

(** A list of members up to the closing brace, laid out with any white space. *)
Lemma read_members_text sep close l acc fuel :
  blanks sep → blanks close → delim (chars close ++ ["}"%char]) → flat_members l → l ≠ [] →
  length l < fuel →
  read_members fuel (chars (members_text sep l) ++ chars close ++ ["}"%char]) acc =
    Some (YMap (dict_of acc l), []).
Proof.
  intros Hsep Hclose Hd Hl Hne. revert acc fuel. unfold members_text.
  induction Hl as [|kv l [Hk Hv] Hl IH]; [done|]; intros acc fuel Hfuel.
  destruct fuel as [|[|fuel]]; [cbn in Hfuel; lia..|].
  destruct l as [|kv2 l].
  - cbn [fmap list_fmap join]. rewrite read_member by done.
    rewrite skip_blank by done. reflexivity.
  - change (join ("," +:+ sep) (member <$> kv :: kv2 :: l)) with
      (member kv +:+ ("," +:+ sep) +:+ join ("," +:+ sep) (member <$> kv2 :: l)).
    rewrite !chars_app, <-!(assoc_L (++)). change (chars ",") with [","%char]. cbn [app].
    rewrite read_member; [|done..|eexists _, _; split; [reflexivity|by left]].
    change (skip_ws (","%char :: ?r)) with (","%char :: r). cbv beta iota.
    destruct (members_head sep (kv2 :: l) Hl) as [r Heq]; [done|]. unfold members_text in Heq.
    rewrite Heq. cbn [app]. rewrite skip_blank by done.
    change (chr 34 :: r ++ chars close ++ ["}"%char]) with ((chr 34 :: r) ++ chars close ++ ["}"%char]).
    rewrite <-Heq. rewrite IH; [reflexivity|done|cbn in *; lia].
Qed.

Lemma length_members sep l : length l ≤ length (chars (members_text sep l)).
Proof.
  unfold members_text. induction l as [|kv l IH]; [cbn; lia|].
  assert (1 ≤ length (chars (member kv))) as Hm.
  { unfold member, json_str. rewrite !chars_app, !length_app. change (length (chars dquote)) with 1. lia. }
  destruct l as [|kv2 l]; [cbn [fmap list_fmap join length]; lia|].
  change (join ("," +:+ sep) (member <$> kv :: kv2 :: l)) with
    (member kv +:+ ("," +:+ sep) +:+ join ("," +:+ sep) (member <$> kv2 :: l)).
  rewrite !chars_app, !length_app. cbn [length] in *. lia.
Qed.

(** Distinct keys: the dictionary is the list of the members. *)
Lemma assoc_set_new {A} k (v : A) d : k ∉ d.*1 → assoc_set k v d = d ++ [(k, v)].
Proof.
  induction d as [|[k' v'] d IH]; [done|]. cbn [fmap list_fmap fst assoc_set app]. intros Hk.
  apply not_elem_of_cons in Hk as [Hne Hk]. by rewrite bool_decide_false, IH by congruence.
Qed.

Lemma dict_of_nodup l acc :
  NoDup (acc.*1 ++ l.*1) → dict_of acc l = acc ++ ((λ kv, (kv.1, to_y kv.2)) <$> l).
Proof.
  revert acc. induction l as [|[k v] l IH]; intros acc Hnd; [by rewrite app_nil_r|].
  unfold dict_of. cbn [fold_left fst snd]. fold (dict_of (assoc_set k (to_y v) acc) l).
  cbn [fmap list_fmap fst] in Hnd. rewrite assoc_set_new, IH.
  - cbn [fmap list_fmap fst snd]. by rewrite <-(assoc_L (++)).
  - rewrite fmap_app, <-(assoc_L (++)). exact Hnd.
  - apply NoDup_app in Hnd as (_ & Hdis & _). intros Hk. apply (Hdis _ Hk). left.
Qed.

(** Reading an opening brace, then the first member. *)
Lemma read_value_dict fuel l r :
  skip_ws l = chr 34 :: r → read_value (S fuel) ("{"%char :: l) = read_members fuel (chr 34 :: r) [].
Proof.
  intros Hl.
  change (read_value (S fuel) ("{"%char :: l)) with
    (match skip_ws l with "}"%char :: r => Some (YMap [], r) | r => read_members fuel r [] end).
  by rewrite Hl.
Qed.

(** The two layouts of a dictionary of scalars. *)
Definition dict_text (open sep close : string) (l : list (string * json)) : string :=
  "{" +:+ open +:+ members_text sep l +:+ close +:+ "}".

Lemma dumps_text l : dumps (JObj l) = dict_text "" " " "" l.
Proof. reflexivity. Qed.

Lemma dumps_indent_text l :
  flat_members l → l ≠ [] →
  dumps_indent 0 (JObj l) = dict_text (nl +:+ spaces 2) (nl +:+ spaces 2) nl l.
Proof.
  intros Hl Hne. destruct l as [|kv0 l0]; [done|].
  change (dumps_indent 0 (JObj (kv0 :: l0))) with
    ("{" +:+ (nl +:+ spaces 2) +:+
     join ("," +:+ (nl +:+ spaces 2))
       (map (λ kv, json_str kv.1 +:+ ": " +:+ dumps_indent 1 kv.2) (kv0 :: l0)) +:+ nl +:+ "" +:+ "}").
  unfold dict_text, members_text. do 4 f_equal. apply map_ext_in. intros kv Hin.
  apply list_elem_of_In in Hin. eapply Forall_forall in Hl as [_ Hv]; [|exact Hin].
  unfold member. by destruct kv.2.
Qed.

Lemma loads_dict open sep close l :
  blanks open → blanks sep → blanks close → delim (chars close ++ ["}"%char]) →
  flat_members l → NoDup l.*1 → l ≠ [] →
  loads (dict_text open sep close l) = Ok (YMap ((λ kv, (kv.1, to_y kv.2)) <$> l)).
Proof.
  intros Ho Hsep Hclose Hd Hl Hnd Hne. unfold loads, dict_text.
  destruct (members_head sep l Hl Hne) as [r Hr].
  rewrite <-length_chars, !chars_app. change (chars "{") with ["{"%char]. change (chars "}") with ["}"%char].
  change (["{"%char] ++ ?l) with ("{"%char :: l). change (skip_ws ("{"%char :: ?l)) with ("{"%char :: l).
  match goal with |- context [2 * S ?n] => set (fuel := n) end.
  replace (2 * S fuel) with (S (S (2 * fuel))) by lia.
  rewrite (read_value_dict _ _ (r ++ chars close ++ ["}"%char])).
  2: { rewrite Hr. cbn [app]. by rewrite skip_blank. }
  change (chr 34 :: r ++ chars close ++ ["}"%char]) with ((chr 34 :: r) ++ chars close ++ ["}"%char]).
  rewrite <-Hr. rewrite read_members_text; try done.
  - cbn [skip_ws lstrip_by]. by rewrite dict_of_nodup.
  - pose proof (length_members sep l). unfold fuel. cbn [length]. rewrite !length_app. lia.
Qed.

Lemma blanks_pad n : blanks (nl +:+ spaces n).
Proof.
  unfold blanks, spaces. rewrite chars_app, chars_of_chars. apply Forall_app. split; [by repeat constructor|].
  by apply Forall_replicate.
Qed.

(** What [json.dump(d, f, indent=2)] writes and what [json.dumps(d)] returns,
    [json.load] reads back. *)
Lemma loads_dumps_indent l :
  flat_members l → NoDup l.*1 → l ≠ [] →
  loads (dumps_indent 0 (JObj l)) = Ok (YMap ((λ kv, (kv.1, to_y kv.2)) <$> l)).
Proof.
  intros Hl Hnd Hne. rewrite dumps_indent_text by done.
  apply loads_dict; auto using blanks_pad; [by repeat constructor|].
  eexists _, _. split; [reflexivity|by do 2 right; left].
Qed.

Lemma loads_dumps l :
  flat_members l → NoDup l.*1 → l ≠ [] →
  loads (dumps (JObj l)) = Ok (YMap ((λ kv, (kv.1, to_y kv.2)) <$> l)).
Proof.
  intros Hl Hnd Hne. rewrite dumps_text.
  apply loads_dict; try done; [by repeat constructor..|].
  eexists _, _. split; [reflexivity|by right; left].
Qed.
