(* ===== verification/Sha256.v ===== *)
(** * SHA-256 ([hashlib.sha256])

    The hash object as the standard library keeps it: the chaining value, the
    bytes that do not fill a block yet, and the total length.  [update] may be
    called with any cut of the data; [hexdigest] pads and prints. *)
From S2P Require Import Prelude Text Os.
From Stdlib Require Import Ascii.
Local Open Scope Z_scope.

(** ** 32-bit words *)

Definition word_mask : Z := 4294967295.
Definition wadd (a b : Z) : Z := Z.land (a + b) word_mask.
Definition rotr (n a : Z) : Z := Z.lor (Z.shiftr a n) (Z.land (Z.shiftl a (32 - n)) word_mask).
Definition Ch (x y z : Z) : Z := Z.lxor (Z.land x y) (Z.land (Z.lxor x word_mask) z).
Definition Maj (x y z : Z) : Z := Z.lxor (Z.land x y) (Z.lxor (Z.land x z) (Z.land y z)).
Definition Sigma0 (x : Z) : Z := Z.lxor (rotr 2 x) (Z.lxor (rotr 13 x) (rotr 22 x)).
Definition Sigma1 (x : Z) : Z := Z.lxor (rotr 6 x) (Z.lxor (rotr 11 x) (rotr 25 x)).
Definition sigma0 (x : Z) : Z := Z.lxor (rotr 7 x) (Z.lxor (rotr 18 x) (Z.shiftr x 3)).
Definition sigma1 (x : Z) : Z := Z.lxor (rotr 17 x) (Z.lxor (rotr 19 x) (Z.shiftr x 10)).

(** The constants are the first 32 bits of the fractional parts of roots of the
    first primes: cube roots for the rounds, square roots for the initial value. *)
Definition is_prime (n : nat) : bool :=
  forallb (λ d, negb (bool_decide (n mod d = 0)%nat)) (seq 2 (n - 2)).
Definition primes : list Z := Z.of_nat <$> List.filter is_prime (seq 2 310).

(** The integer cube root of [n], built from the bits below [2 ^ b]. *)
Fixpoint cube_root (b : nat) (r n : Z) : Z :=
  match b with
  | O => r
  | S b' =>
      let r' := r + 2 ^ Z.of_nat b' in
      cube_root b' (if r' * r' * r' <=? n then r' else r) n
  end.

Definition round_constant (p : Z) : Z := Z.land (cube_root 40 0 (p * 2 ^ 96)) word_mask.
Definition initial_word (p : Z) : Z := Z.land (Z.sqrt (p * 2 ^ 64)) word_mask.

Definition K256 : list Z := Eval vm_compute in round_constant <$> primes.

Record chain := Chain { ha : Z; hb : Z; hc : Z; hd : Z; he : Z; hf : Z; hg : Z; hh : Z }.

Definition H0 : chain := Eval vm_compute in
  match initial_word <$> take 8 primes with
  | [a; b; c; d; e; f; g; h] => Chain a b c d e f g h
  | _ => Chain 0 0 0 0 0 0 0 0
  end.

Definition byte_val (b : byte) : Z := Z.of_N (Byte.to_N b).

(** Big-endian words of a block. *)
Fixpoint words (b : bytes) : list Z :=
  match b with
  | b0 :: b1 :: b2 :: b3 :: r =>
      (byte_val b0 * 16777216 + byte_val b1 * 65536 + byte_val b2 * 256 + byte_val b3) :: words r
  | _ => []
  end.

(** The message schedule, from the last sixteen words (newest first). *)
Fixpoint schedule (n : nat) (win : list Z) : list Z :=
  match n with
  | O => []
  | S n' =>
      let w t := nth (t - 1) win 0 in
      let new := wadd (wadd (sigma1 (w 2%nat)) (w 7%nat)) (wadd (sigma0 (w 15%nat)) (w 16%nat)) in
      new :: schedule n' (take 16 (new :: win))
  end.

Definition round (s : chain) (kw : Z * Z) : chain :=
  let '(Chain a b c d e f g h) := s in
  let t1 := wadd (wadd h (Sigma1 e)) (wadd (Ch e f g) (wadd kw.1 kw.2)) in
  let t2 := wadd (Sigma0 a) (Maj a b c) in
  Chain (wadd t1 t2) a b c (wadd d t1) e f g.

Definition compress (s : chain) (block : bytes) : chain :=
  let m := words block in
  let ws := m ++ schedule 48 (reverse m) in
  let r := foldl round s (zip K256 ws) in
  Chain (wadd (ha s) (ha r)) (wadd (hb s) (hb r)) (wadd (hc s) (hc r)) (wadd (hd s) (hd r))
        (wadd (he s) (he r)) (wadd (hf s) (hf r)) (wadd (hg s) (hg r)) (wadd (hh s) (hh r)).

(** ** The hash object *)

Record sha := Sha { cv : chain; pending : bytes; total : nat }.

Definition sha_init : sha := Sha H0 [] 0.

(** Take whole blocks off the front; [fuel] bounds their number. *)
Fixpoint absorb (fuel : nat) (c : chain) (b : bytes) : chain * bytes :=
  match fuel with
  | O => (c, b)
  | S fuel' =>
      if decide (64 ≤ length b)%nat then absorb fuel' (compress c (take 64 b)) (drop 64 b) else (c, b)
  end.

Definition sha_update (h : sha) (b : bytes) : sha :=
  let data := pending h ++ b in
  let '(c, rest) := absorb (length data / 64) (cv h) data in
  Sha c rest (total h + length b).

(** Padding: a one bit, zeros, the length in bits as eight bytes. *)
Definition byte_of (z : Z) : byte := default x00 (Byte.of_N (Z.to_N (z mod 256))).
Definition be64 (z : Z) : bytes :=
  (λ i, byte_of (Z.shiftr z (8 * i))) <$> [7; 6; 5; 4; 3; 2; 1; 0].
Definition padding (n : nat) : bytes :=
  x80 :: replicate ((119 - n mod 64) mod 64)%nat x00 ++ be64 (Z.of_nat n * 8).

Definition hex_digit (z : Z) : ascii :=
  ascii_of_N (Z.to_N (if z <? 10 then 48 + z else 87 + z)).
Definition hex_word (z : Z) : string :=
  of_chars ((λ i, hex_digit (Z.land (Z.shiftr z (4 * i)) 15)) <$> [7; 6; 5; 4; 3; 2; 1; 0]).

Definition hexdigest (h : sha) : string :=
  let c := cv (sha_update h (padding (total h))) in
  hex_word (ha c) +:+ hex_word (hb c) +:+ hex_word (hc c) +:+ hex_word (hd c) +:+
  hex_word (he c) +:+ hex_word (hf c) +:+ hex_word (hg c) +:+ hex_word (hh c).

(** [hashlib.sha256(data).hexdigest()] *)
Definition sha256 (data : bytes) : string := hexdigest (sha_update sha_init data).

(** ** Streaming

    Cutting the data into pieces does not change the hash. *)

Local Close Scope Z_scope.

Definition absorb_all (c : chain) (b : bytes) : chain * bytes := absorb (length b / 64) c b.

Lemma absorb_all_small c b : length b < 64 → absorb_all c b = (c, b).
Proof. intros Hb. unfold absorb_all. by rewrite Nat.div_small. Qed.

Lemma absorb_all_step c b :
  64 ≤ length b → absorb_all c b = absorb_all (compress c (take 64 b)) (drop 64 b).
Proof.
  intros Hb. unfold absorb_all. rewrite length_drop.
  replace (length b / 64) with (S ((length b - 64) / 64)).
  - cbn [absorb]. by rewrite decide_True.
  - replace (length b) with (length b - 64 + 1 * 64) at 2 by lia.
    rewrite Nat.div_add by lia. lia.
Qed.

Lemma absorb_all_app n c a b :
  length a ≤ n →
  absorb_all c (a ++ b) = absorb_all (absorb_all c a).1 ((absorb_all c a).2 ++ b) ∧
  length (absorb_all c a).2 < 64.
Proof.
  revert c a. induction n as [n IH] using lt_wf_ind. intros c a Hn.
  destruct (decide (64 ≤ length a)) as [Ha|Ha].
  - rewrite (absorb_all_step c a) by done.
    rewrite (absorb_all_step c (a ++ b)) by (rewrite length_app; lia).
    rewrite take_app_le, drop_app_le by lia.
    apply (IH (n - 64)); [lia|]. rewrite length_drop. lia.
  - rewrite (absorb_all_small c a) by lia. simpl. split; [done|lia].
Qed.

(** What is pending never fills a block. *)
Definition sha_ok (h : sha) : Prop := length (pending h) < 64.

Lemma sha_update_unfold h b :
  sha_update h b =
    Sha (absorb_all (cv h) (pending h ++ b)).1 (absorb_all (cv h) (pending h ++ b)).2
        (total h + length b).
Proof. unfold sha_update, absorb_all. by destruct (absorb _ _ _). Qed.

Lemma sha_init_ok : sha_ok sha_init.
Proof. unfold sha_ok. simpl. lia. Qed.

Lemma sha_update_ok h b : sha_ok (sha_update h b).
Proof.
  rewrite sha_update_unfold. unfold sha_ok. simpl.
  by apply (absorb_all_app (length (pending h ++ b)) (cv h) (pending h ++ b) []).
Qed.

Lemma sha_update_app h a b : sha_update (sha_update h a) b = sha_update h (a ++ b).
Proof.
  rewrite !sha_update_unfold. simpl.
  destruct (absorb_all_app (length (pending h ++ a)) (cv h) (pending h ++ a) b) as [Heq _]; [done|].
  rewrite (assoc_L (++)), Heq, length_app. f_equal. lia.
Qed.

Lemma sha_update_nil h : sha_ok h → sha_update h [] = h.
Proof.
  intros Hh. rewrite sha_update_unfold, app_nil_r, absorb_all_small by done.
  rewrite Nat.add_0_r. by destruct h.
Qed.

(** A digest has sixty-four characters. *)
Lemma length_app_str s1 s2 : String.length (s1 +:+ s2) = String.length s1 + String.length s2.
Proof. induction s1 as [|c s1 IH]; simpl; [done|]. f_equal. exact IH. Qed.

Lemma hexdigest_length h : String.length (hexdigest h) = 64.
Proof. unfold hexdigest. rewrite !length_app_str. reflexivity. Qed.

Example sha256_abc :
  sha256 (encode "abc") = "ba7816bf8f01cfea414140de5dae2223b00361a396177a9cb410ff61f20015ad".
Proof. vm_compute. reflexivity. Qed.
