(* ===== verification/Scenario.v ===== *)
(** * A concrete machine

    A sensor on which the programs are evaluated and the hypotheses of the
    theorems are met: the ring of captured files, an empty backlog, and an
    export drive that may be mounted. *)
From S2P Require Import Prelude Text Os OsFacts PyNum Config.

Definition root_vfs : mount := Mount 0 true 500000 1000000 4096.
Definition drive_vfs : mount := Mount 7 true 900000 1000000 4096.

(** 14 October 2025, 12:00:00, in seconds since the epoch. *)
Definition noon : Z := 1760443200.

Definition noon_tm : tm := Tm 2025 10 14 12 0 0 0 "+0000".

(** Nothing fails and the clock stands still; [f] schedules failures, [b] says
    what a copy leaves on the target, [x] what other programs do, and [o] what
    happens while the program sleeps. *)
Definition env_full (f : nat → option failure) (b : nat → bytes → bytes)
    (x : nat → list string → world → proc * world) (o : nat → world → world) : Env := {|
  root_mount := root_vfs;
  clock := λ _, (noon * second)%Z;
  fault := f;
  short_write := λ _, 0;
  bitrot := b;
  dir_order := λ _ l, l;
  dir_order_perm := λ _ l, reflexivity l;
  localtime := λ _, noon_tm;
  kill0 := λ _ _, Some ESRCH;
  pid := 4711;
  nodename := "seer-sensor-01";
  outside := o;
  exec := x;
  stdin := λ _, Some "";
  cpu_count := Some 4%Z;
  which := λ _, true;
|}.

Definition env_exec (f : nat → option failure) (b : nat → bytes → bytes)
    (x : nat → list string → world → proc * world) : Env := env_full f b x (λ _ w, w).

(** Other programs succeed and print nothing. *)
Definition env_with (f : nat → option failure) (b : nat → bytes → bytes) : Env :=
  env_exec f b (λ _ _ w, (Proc 0 "" "", w)).

Definition quiet : Env := env_with (λ _, None) (λ _ d, d).

Definition ring : path := ["var"; "seer"; "pcap_ring"].
Definition backlog : path := ["opt"; "seer"; "var"; "backlog"].
Definition log_file : path := ["var"; "log"; "seer"; "mover.log"].
Definition drive : path := ["mnt"; "seer_external"].

(** A capture file last written [age] seconds before noon. *)
Definition pcap (content : string) (age : Z) : node :=
  File (encode content) ((noon - age) * second).

Definition dirs : list path :=
  [["var"]; ["var"; "seer"]; ring; ["var"; "log"]; ["var"; "log"; "seer"];
   ["opt"]; ["opt"; "seer"]; ["opt"; "seer"; "var"]; backlog; ["mnt"]; drive].

Definition disk (files : list (path * node)) : gmap key node :=
  list_to_map (((λ p, ((0, p), Dir)) <$> dirs) ++ ((λ '(p, n), ((0, p), n)) <$> files)).

Definition ring_four : list (path * node) :=
  [(ring ++ ["SEER-3.pcap"], pcap "third" 41);
   (ring ++ ["SEER-1.pcap"], pcap "first" 81);
   (ring ++ ["SEER-4.pcap"], pcap "fourth" 1);
   (ring ++ ["SEER-2.pcap"], pcap "second" 61);
   (ring ++ ["notes.txt"], pcap "not a capture" 500)].

Definition no_drive (files : list (path * node)) : world := World (disk files) ∅ 0 [].
Definition with_drive (files : list (path * node)) : world :=
  World (disk files) {[ drive := drive_vfs ]} 0 [].

Definition seer_yml : yval := YMap [
  ("ring_dir", YStr "/var/seer/pcap_ring");
  ("buffer_threshold", YInt 4);
  ("mover_log", YStr "/var/log/seer/mover.log")].

(** Decide a closed proposition by computation. *)
Ltac by_computation := apply (bool_decide_unpack _); vm_compute; exact I.

(** The operator types [lines], one for each question, then end of file. *)
Definition typing (lines : list string) : Env := {|
  root_mount := root_vfs;
  clock := λ _, (noon * second)%Z;
  fault := λ _, None;
  short_write := λ _, 0;
  bitrot := λ _ d, d;
  dir_order := λ _ l, l;
  dir_order_perm := λ _ l, reflexivity l;
  localtime := λ _, noon_tm;
  kill0 := λ _ _, Some ESRCH;
  pid := 4711;
  nodename := "seer-sensor-01";
  outside := λ _ w, w;
  exec := λ _ _ w, (Proc 0 "" "", w);
  stdin := λ n, lines !! n;
  cpu_count := Some 4%Z;
  which := λ _, true;
|}.

(** A backlog of two settled files. *)
Definition backlog_two : list (path * node) :=
  [(backlog ++ ["SEER-1.pcap"], pcap "first" 81);
   (backlog ++ ["SEER-2.pcap"], pcap "second" 61)].

(** The same with a third file, five seconds old. *)
Definition backlog_mixed : list (path * node) :=
  backlog_two ++ [(backlog ++ ["SEER-3.pcap"], pcap "third" 5)].

(** A drive that loses the first byte of what is written to it. *)
Definition lossy : Env := env_with (λ _, None) (λ _ d, tail d).

(** The process is killed at its [n]-th system call. *)
Definition killed_at (n : nat) : Env :=
  env_with (λ k, if bool_decide (k = n) then Some Kill else None) (λ _ d, d).

(** Nothing is on the drive. *)
Lemma disk_drive files d q : disk files !! (S d, q) = None.
Proof.
  apply not_elem_of_list_to_map_1. rewrite fmap_app, elem_of_app, !list_elem_of_fmap.
  intros [([k n] & Hk & Hin)|([k n] & Hk & Hin)]; simpl in Hk; subst k;
    apply list_elem_of_fmap in Hin as (x & Hx & _); [done|]. by destruct x.
Qed.

Lemma drive_plain files : plain_dir (mounts (with_drive files)) drive.
Proof.
  intros q m Hq [_ Hne]. simpl in Hq. apply lookup_singleton_Some in Hq as [<- _]. done.
Qed.

Lemma drive_node files x y : node_at (with_drive files) (drive ++ x :: y) = None.
Proof.
  unfold node_at. rewrite (locate_below _ drive) by apply drive_plain. apply disk_drive.
Qed.

(** A YAML library that loads the configuration of the scenario. *)
#[export] Instance yaml_of_scenario : Yaml := {|
  safe_load := λ _, Ok seer_yml;
  safe_dump := λ _, encode "interface: enp2s0";
  show_other := λ _, "0.5";
|}.

(** A listing of block devices: the system disk, a mounted disk, a small disk
    and two that may be mounted. *)
Definition listing_text : string :=
  "sda 512110190592 disk 0" +:+ nl +:+
  "sda1 512109142016 part 0 / ext4" +:+ nl +:+
  "sdc 4000787030016 disk 0 /srv xfs" +:+ nl +:+
  "sdd 900000000 disk 0 ext4" +:+ nl +:+
  "nvme0n1 2000398934016 disk 0 ext4" +:+ nl +:+
  "sde 1000204886016 disk 1 exfat" +:+ nl.

Definition with_lsblk : Env :=
  env_exec (λ _, None) (λ _ d, d)
    (λ _ argv w, (Proc 0 (if bool_decide (head argv = Some "lsblk") then listing_text else "") "", w)).

(** No variable is set and there are no flags. *)
#[export] Instance plain_shell : Shell := {|
  environ := λ _, None;
  arg_once := false;
  arg_no_colors := false;
  cwd := [];
  isatty := true;
|}.

(** No file is on the way to [p], by computation. *)
Lemma way_check w p :
  forallb (λ k, match node_at w (take k p) with Some (File _ _) => false | _ => true end)
    (seq 0 (S (length p))) = true →
  ∀ k f t, node_at w (take k p) ≠ Some (File f t).
Proof.
  intros Hall k f t Hk. rewrite forallb_forall in Hall.
  assert (take (min k (length p)) p = take k p) as Hmin.
  { destruct (decide (k ≤ length p)); [by rewrite Nat.min_l|].
    rewrite Nat.min_r by lia. by rewrite !take_ge by lia. }
  specialize (Hall (min k (length p))). rewrite Hmin, Hk in Hall.
  enough (false = true) by done. apply Hall, in_seq. lia.
Qed.

(** The operator mounts the drive while the program sleeps. *)
Definition mount_drive (w : world) : world :=
  World (fs w) (<[drive := drive_vfs]> (mounts w)) (ticks w) (trace w).
Definition operator_mounts : Env :=
  env_full (λ _, None) (λ _ d, d) (λ _ _ w, (Proc 0 "" "", w)) (λ _, mount_drive).
