(* ===== verification/Mover.v ===== *)
(** * The mover: [Automation/SEER/move_oldest.py]

    Started by a timer, it moves the oldest closed capture file out of the ring
    once the ring holds [buffer_threshold] files: to the export drive when one
    qualifies, to the backlog otherwise. *)
From S2P Require Import Prelude Text Os OsFacts OsQuiet PyNum Config Scenario.

Record cfg := Cfg {
  RING : path;
  BACKLOG : path;
  THRESH : Z;
  LOGPATH : path;
  MOUNT_CANDIDATES : yval;
  MIN_FREE_PCT : yval;
}.

Definition QUIET_SECS : Z := 3.

Definition default_candidates : yval :=
  YList [YStr "/mnt/seer_external"; YStr "/mnt/SEER_EXT"; YStr "/media/seer_external"].

(** The constants the module computes from the contents of [seer.yml]. *)
Definition load_cfg (CFG : yval) : res cfg :=
  ring ← (v ← yindex CFG "ring_dir"; ypath v);
  backlog ← (v ← yget CFG "backlog_dir" (YStr "/opt/seer/var/backlog"); ypath v);
  thresh ← (v ← yindex CFG "buffer_threshold"; yint v);
  logpath ← (v ← yindex CFG "mover_log"; ypath v);
  candidates ← yget2 CFG "export" "mount_candidates" default_candidates;
  min_free ← yget2 CFG "export" "min_free_pct" (YInt 2);
  mret (Cfg ring backlog thresh logpath candidates min_free).

(** What the module does when it is loaded: the file, then the constants. *)
Definition CONFIG_FILE : path := ["opt"; "seer"; "etc"; "seer.yml"].
Definition start {E : Env} {Y : Yaml} : prog cfg :=
  b ← open_read CONFIG_FILE;
  CFG ← lift_res (safe_load b);
  lift_res (load_cfg CFG).

Section Mover.
Context {E : Env} (C : cfg).

Definition log (msg : string) : prog unit :=
  makedirs (parent (LOGPATH C));;
  now ← datetime_now;
  let ts := fmt_date now +:+ "T" +:+ fmt_hms now +:+ tm_zone now in
  append_text (LOGPATH C) (ts +:+ " " +:+ msg +:+ nl).

(** The free share of a file system, in per cent: a double, or the integer 0
    for a file system that reports no size. *)
Definition free_percent (bavail blocks frsize : Z) : res num :=
  let free_bytes := (bavail * frsize)%Z in
  let total_bytes := (blocks * frsize)%Z in
  if (0 <? total_bytes)%Z
  then f ← int_truediv free_bytes total_bytes; mret (NFloat (float_mul f (float_of_Z 100)))
  else mret (NInt 0).

Definition check_candidate (candidate : string) : prog (option (string * path)) :=
  try_except
    ('(bavail, blocks, frsize) ← os_statvfs (Path_ candidate);
     free_pct ← lift_res (free_percent bavail blocks frsize);
     min ← lift_res (ynum (MIN_FREE_PCT C));
     if num_ge free_pct min then
       now ← datetime_now;
       mret (Some (candidate, Path_ candidate ++ ["pcap"; fmt_ymd now]))
     else mret None)
    is_Exception (λ _, mret None).

Fixpoint detect_loop (candidates : list yval) : prog (option (string * path)) :=
  match candidates with
  | [] => mret None
  | v :: rest =>
      candidate ← lift_res (ystr v);
      mounted ← os_ismount (Path_ candidate);
      if negb mounted then detect_loop rest else
      writable ← os_access_w (Path_ candidate);
      if negb writable then detect_loop rest else
      r ← check_candidate candidate;
      match r with
      | Some x => mret (Some x)
      | None => detect_loop rest
      end
  end.

Definition detect_export_drive : prog (option (string * path)) :=
  candidates ← lift_res (yiter (MOUNT_CANDIDATES C));
  detect_loop candidates.

Definition closed (p : path) : prog bool :=
  try_except
    (now ← time_time;
     n ← stat p;
     mret (bool_decide (QUIET_SECS * second ≤ now - st_mtime n)%Z))
    is_FileNotFoundError (λ _, mret false).

(** [[p for p in RING.glob("*.pcap") if p.is_file()]] *)
Definition ring_files : prog (list path) :=
  names ← path_glob (RING C) "*.pcap";
  filterM_io path_is_file names.

Fixpoint first_closed (files : list path) : prog (option path) :=
  match files with
  | [] => mret None
  | p :: rest => b ← closed p; if (b : bool) then mret (Some p) else first_closed rest
  end.

Definition older (a b : Z * path) : bool := (a.1 <=? b.1)%Z.

Definition pick_oldest_closed : prog (option path) :=
  files ← ring_files;
  keyed ← mapM_io (λ p, n ← stat p; mret (st_mtime n, p)) files;
  first_closed (sort_by older keyed).*2.

(** The destination and the route of the log line. *)
Definition choose_dest (target : path) : prog (path * string) :=
  drive ← detect_export_drive;
  match drive with
  | Some (drive_mount, drive_dest) =>
      makedirs drive_dest;;
      mret (drive_dest ++ [basename target], "export(" +:+ drive_mount +:+ ")")
  | None => mret (BACKLOG C ++ [basename target], "backlog")
  end.

(** The destination, the move, and its log line. *)
Definition move_target (target : path) : prog unit :=
  '(dest_path, route) ← choose_dest target;
  try_except
    (shutil_move target dest_path;;
     log ("[moved] " +:+ basename target +:+ " -> " +:+ route
          +:+ " (" +:+ show_path dest_path +:+ ")"))
    is_Exception
    (λ e, log ("[error] move " +:+ basename target +:+ " -> " +:+ route +:+ ": " +:+ exn_str e)).

Definition main : prog unit :=
  makedirs (RING C);;
  makedirs (BACKLOG C);;
  files ← ring_files;
  let count := Z.of_nat (length files) in
  if bool_decide (count < THRESH C)%Z then
    log ("[noop] ring has " +:+ pretty count +:+ " files (< threshold " +:+ pretty (THRESH C) +:+ ")")
  else
    target ← pick_oldest_closed;
    match target with
    | None => log "[noop] no closed file to move"
    | Some target => move_target target
    end.
End Mover.

(** ** Frames *)

Section MoverFrames.
Context {E : Env} (C : cfg).

Lemma check_candidate_same c : only same_disk (check_candidate C c).
Proof. unfold check_candidate. solve_only. Qed.
#[local] Hint Resolve check_candidate_same : io.

Lemma detect_export_drive_same : only same_disk (detect_export_drive C).
Proof.
  unfold detect_export_drive. apply only_bind; [typeclasses eauto|solve_only|]. intros l.
  induction l as [|v l IH]; simpl; solve_only.
Qed.

Lemma closed_same p : only same_disk (closed p).
Proof. unfold closed. solve_only. Qed.
#[local] Hint Resolve closed_same : io.

Lemma ring_files_same : only same_disk (ring_files C).
Proof. unfold ring_files. solve_only. Qed.
#[local] Hint Resolve ring_files_same : io.

Lemma first_closed_same l : only same_disk (first_closed l).
Proof. induction l as [|p l IH]; simpl; solve_only. Qed.
#[local] Hint Resolve first_closed_same : io.

Lemma pick_same : only same_disk (pick_oldest_closed C).
Proof. unfold pick_oldest_closed. solve_only. Qed.

Lemma log_touches P msg : LOGPATH C ∈ P → only (touches P) (log C msg).
Proof. intros HP. unfold log, append_text. cbv zeta. solve_only. Qed.
End MoverFrames.
#[export] Hint Resolve check_candidate_same detect_export_drive_same closed_same
  ring_files_same first_closed_same pick_same log_touches : io.

(** ** What is selected *)

(** [p] is a capture file of the ring. *)
Definition ring_pcap (C : cfg) (w : world) (p : path) : Prop :=
  ∃ n d t, p = RING C ++ [n] ∧ fnmatch n "*.pcap" = true ∧ node_at w p = Some (File d t).

Section Selection.
Context {E : Env} (C : cfg).

Lemma wp_filter_files l w :
  wp (filterM_io path_is_file l)
    (λ r w', same_disk w w' ∧ ∀ fl, r = Ok fl →
       ∀ p, p ∈ fl → p ∈ l ∧ ∃ d t, node_at w p = Some (File d t)) w.
Proof.
  revert w. induction l as [|p l IH]; intros w; simpl.
  { apply wp_ret. split; [done|]. intros fl [= <-]. set_solver. }
  apply wp_bind. eapply wp_mono; [apply wp_is_file|]. intros [b|e] w1 [Hw1 Hb]; [|by split].
  apply wp_bind. eapply wp_mono; [apply IH|]. intros [fl|e] w2 [Hw2 Hfl];
    (split; [by etrans|]); [|done]. intros fl' [= <-] q Hq.
  assert (q ∈ fl → q ∈ p :: l ∧ ∃ d t, node_at w q = Some (File d t)) as Hin.
  { intros Hqf. destruct (Hfl _ eq_refl q Hqf) as [? Hn].
    rewrite (same_disk_node w w1) in Hn by done. set_solver. }
  destruct b; [|by apply Hin]. apply elem_of_cons in Hq as [->|Hq]; [|by apply Hin].
  split; [set_solver|]. by apply Hb.
Qed.

Lemma wp_ring_files w :
  wp (ring_files C)
    (λ r w', same_disk w w' ∧ ∀ l, r = Ok l → ∀ p, p ∈ l → ring_pcap C w p) w.
Proof.
  unfold ring_files. apply wp_bind. eapply wp_mono; [apply wp_path_glob|].
  intros [names|e] w1 [Hw1 Hnames]; [|by split].
  eapply wp_mono; [apply wp_filter_files|]. intros r w2 [Hw2 Hfl].
  split; [by etrans|]. intros l -> p Hp. destruct (Hfl l eq_refl p Hp) as [Hin (d & t & Hn)].
  destruct (Hnames _ eq_refl p Hin) as (n & -> & Hf).
  rewrite (same_disk_node w w1) in Hn by done. by exists n, d, t.
Qed.

Lemma wp_keys l w :
  wp (mapM_io (λ p, n ← stat p; mret (st_mtime n, p)) l)
    (λ r w', same_disk w w' ∧ ∀ kl, r = Ok kl → kl.*2 = l ∧
       ∀ t p, (t, p) ∈ kl → ∃ n, node_at w p = Some n ∧ t = st_mtime n) w.
Proof.
  revert w. induction l as [|p l IH]; intros w; simpl.
  { apply wp_ret. split; [done|]. intros kl [= <-]. set_solver. }
  apply wp_bind, wp_bind. eapply wp_mono; [apply wp_stat|]. intros [n|e] w1 [Hw1 Hn]; [|by split].
  apply wp_ret, wp_bind. eapply wp_mono; [apply IH|]. intros [kl|e] w2 [Hw2 Hkl];
    (split; [by etrans|]); [|done]. intros kl' [= <-]. destruct (Hkl _ eq_refl) as [Hl Hk].
  split; [csimpl; by rewrite Hl|]. intros t q Hq. apply elem_of_cons in Hq as [[= -> ->]|Hq].
  - eauto.
  - destruct (Hk t q Hq) as (n' & Hn' & ->). rewrite (same_disk_node w w1) in Hn' by done. eauto.
Qed.

Lemma wp_first_closed l w :
  wp (first_closed l)
    (λ r w', same_disk w w' ∧ ∀ p, r = Ok (Some p) → p ∈ l) w.
Proof.
  revert w. induction l as [|p l IH]; intros w; simpl; [by apply wp_ret|].
  apply wp_bind. apply (wp_only same_disk); [apply closed_same|]. intros [b|e] w1 Hw1; [|by split].
  destruct b.
  - apply wp_ret. split; [done|]. intros q [= <-]. set_solver.
  - eapply wp_mono; [apply IH|]. intros r w2 [Hw2 Hr]. split; [by etrans|]. set_solver.
Qed.

(** Whatever fails, a file that is picked is a regular file of the ring. *)
Lemma wp_pick w :
  wp (pick_oldest_closed C)
    (λ r w', same_disk w w' ∧ ∀ p, r = Ok (Some p) → ring_pcap C w p) w.
Proof.
  unfold pick_oldest_closed. apply wp_bind. eapply wp_mono; [apply wp_ring_files|].
  intros [l|e] w1 [Hw1 Hl]; [|by split]. apply wp_bind. eapply wp_mono; [apply wp_keys|].
  intros [kl|e] w2 [Hw2 Hkl]; (assert (same_disk w w2) by (by etrans)); [|by split].
  destruct (Hkl _ eq_refl) as [Hkl2 _]. eapply wp_mono; [apply wp_first_closed|].
  intros r w3 [Hw3 Hr]. split; [by etrans|]. intros p ->. specialize (Hr p eq_refl).
  apply (Hl l eq_refl). rewrite sort_by_perm, Hkl2 in Hr. done.
Qed.
End Selection.

(** ** Destinations *)

Definition candidate_paths (C : cfg) : list path :=
  match yiter (MOUNT_CANDIDATES C) with
  | Ok l => omap (λ v, match v with YStr s => Some (Path_ s) | _ => None end) l
  | Err _ => []
  end.

Definition dest_dirs (C : cfg) : list path := BACKLOG C :: candidate_paths C.

(** The ring, the log and the destinations do not overlap, and no file system
    is mounted inside the ring or a destination. *)
Definition layout (C : cfg) (mnt : gmap path mount) : Prop :=
  plain_dir mnt (RING C) ∧ apart mnt (LOGPATH C) (RING C) ∧
  Forall (λ D, plain_dir mnt D ∧ apart mnt (RING C) D ∧ apart mnt (LOGPATH C) D) (dest_dirs C).

#[global] Instance layout_dec C mnt : Decision (layout C mnt).
Proof. unfold layout. apply _. Defined.

(** The file [d], last modified at [t], of the ring is still there, or it is
    under its name in a destination, as the file or as the copy the device made. *)
Definition survives {E : Env} (C : cfg) (n : string) (d : bytes) (t : Z) (w' : world) : Prop :=
  node_at w' (RING C ++ [n]) = Some (File d t) ∨
  ∃ D x d', D ∈ dest_dirs C ∧ node_at w' (D ++ x ++ [n]) = Some (File d' t) ∧
            (d' = d ∨ ∃ k, d' = bitrot k d).

Section Destinations.
Context {E : Env} (C : cfg).

Lemma check_candidate_dest s w :
  match (check_candidate C s w).1 with
  | Ok (Some (s', dd)) => s' = s ∧ ∃ y, dd = Path_ s ++ ["pcap"; y]
  | _ => True
  end.
Proof.
  unfold check_candidate, try_except, mbind, io_bind, lift_res.
  destruct (os_statvfs _ w) as [[[[bavail blocks] frsize]|e] w1]; simpl; [|by destruct (is_Exception e)].
  destruct (free_percent _ _ _) as [f|e]; simpl; [|by destruct (is_Exception e)].
  destruct (ynum _) as [m|e]; simpl; [|by destruct (is_Exception e)].
  destruct (num_ge f m); simpl; eauto.
Qed.

Lemma wp_detect_loop l w :
  wp (detect_loop C l)
    (λ r _, ∀ s dd, r = Ok (Some (s, dd)) →
       Path_ s ∈ omap (λ v, match v with YStr s => Some (Path_ s) | _ => None end) l ∧
       ∃ y, dd = Path_ s ++ ["pcap"; y]) w.
Proof.
  revert w. induction l as [|v l IH]; intros w; [by apply wp_ret|].
  assert (∀ w, wp (detect_loop C l) (λ r _, ∀ s dd, r = Ok (Some (s, dd)) →
    Path_ s ∈ omap (λ v, match v with YStr s => Some (Path_ s) | _ => None end) (v :: l) ∧
    ∃ y, dd = Path_ s ++ ["pcap"; y]) w) as IH'.
  { intros w0. eapply wp_mono; [apply IH|]. intros r w1 Hr s dd Hd.
    destruct (Hr s dd Hd). split; [|done]. destruct v; csimpl; set_solver. }
  cbn [detect_loop]. apply wp_bind, wp_lift. destruct v as [| | | |s0| |]; try done. cbn [ystr mret res_ret].
  apply wp_bind, (wp_only same_disk); [apply os_ismount_same|]. intros [[]|e] w1 _; [|by apply IH'|done].
  apply wp_bind, (wp_only same_disk); [apply os_access_w_same|]. intros [[]|e] w2 _; [|by apply IH'|done].
  apply wp_bind. pose proof (check_candidate_dest s0 w2) as Hc. unfold wp at 1.
  destruct (check_candidate C s0 w2) as [[[[s' dd']|]|e] w3]; simpl in Hc; [|by apply IH'|done].
  destruct Hc as [-> Hy]. apply wp_ret. intros s dd [= <- <-]. split; [csimpl; set_solver|done].
Qed.

Lemma wp_detect w :
  wp (detect_export_drive C)
    (λ r w', same_disk w w' ∧ ∀ s dd, r = Ok (Some (s, dd)) →
       Path_ s ∈ candidate_paths C ∧ ∃ y, dd = Path_ s ++ ["pcap"; y]) w.
Proof.
  split; [apply detect_export_drive_same|].
  enough (wp (detect_export_drive C) (λ r _, ∀ s dd, r = Ok (Some (s, dd)) →
       Path_ s ∈ candidate_paths C ∧ ∃ y, dd = Path_ s ++ ["pcap"; y]) w) as Hw by exact Hw.
  unfold detect_export_drive, candidate_paths. apply wp_bind, wp_lift.
  destruct (yiter _) as [l|e]; [apply wp_detect_loop|done].
Qed.

Lemma wp_choose_dest target w :
  wp (choose_dest C target)
    (λ r w', touches [] w w' ∧ ∀ dst route, r = Ok (dst, route) →
       ∃ D x, D ∈ dest_dirs C ∧ dst = D ++ x ++ [basename target]) w.
Proof.
  unfold choose_dest. apply wp_bind. eapply wp_mono; [apply wp_detect|].
  intros [[[s dd]|]|e] w1 [Hw1 Hd].
  - destruct (Hd s dd eq_refl) as [Hs [y ->]]. apply wp_bind.
    apply (wp_only (touches [])); [apply makedirs_touches|]. intros [[]|e] w2 Hw2;
      (assert (touches [] w w2) by (etrans; [by apply same_disk_touches|done])); [|by split].
    apply wp_ret. split; [done|]. intros dst route [= <- _]. exists (Path_ s), ["pcap"; y].
    split; [by right|]. by rewrite (assoc_L (++)).
  - apply wp_ret. split; [by apply same_disk_touches|]. intros dst route [= <- _].
    exists (BACKLOG C), []. split; [left|done].
  - split; [by apply same_disk_touches|done].
Qed.
End Destinations.

(** ** No file of the ring is lost *)

Section NoLoss.
Context {E : Env} (C : cfg).

Lemma move_dests_below m D x q src :
  basename src = m → q ∈ move_dests src (D ++ x ++ [m]) → ∃ y, q = D ++ y ++ [m].
Proof.
  intros <-. unfold move_dests. rewrite !elem_of_cons, elem_of_nil.
  intros [->|[->|[->|[]]]]; [exists x|exists (x ++ [basename src])|
    exists ((x ++ [basename src]) ++ [basename src])]; by rewrite <-?(assoc_L (++)).
Qed.

Lemma layout_dest mnt D y n :
  layout C mnt → D ∈ dest_dirs C →
  apart mnt (RING C ++ [n]) (D ++ y) ∧ apart mnt (LOGPATH C) (D ++ y) ∧
  apart mnt (RING C ++ [n]) (LOGPATH C).
Proof.
  intros (Hr & Hlr & HD) Hin. rewrite Forall_forall in HD. destruct (HD D Hin) as (Hp & Hrd & Hld).
  split_and!.
  - apply apart_below; [done|]. by apply apart_sym, apart_below, apart_sym.
  - by apply apart_below.
  - by apply apart_sym, apart_below.
Qed.

(** The move itself: the target survives, and so does every other file. *)
Lemma wp_move_survives m D x w d t :
  layout C (mounts w) → D ∈ dest_dirs C → node_at w (RING C ++ [m]) = Some (File d t) →
  wp (shutil_move (RING C ++ [m]) (D ++ x ++ [m]))
    (λ _ w', mounts w' = mounts w ∧ ∀ n dn tn,
       node_at w (RING C ++ [n]) = Some (File dn tn) → survives C n dn tn w') w.
Proof.
  intros HL HD Hm. set (src := RING C ++ [m]). set (dst := D ++ x ++ [m]).
  assert (basename src = m) as Hb by apply basename_app.
  assert (∀ q n, q ∈ move_dests src dst → apart (mounts w) (RING C ++ [n]) q) as Hq.
  { intros q n Hq. apply move_dests_below in Hq as [y ->]; [|done].
    by destruct (layout_dest (mounts w) D (y ++ [m]) n HL HD). }
  eapply wp_mono.
  { apply (wp_shutil_move src dst d t); [done|..].
    - intros q Hin. by destruct (Hq q m Hin).
    - intros q Hin p ->%list_elem_of_singleton. by destruct (Hq q m Hin). }
  intros r w' (Ht & _ & Hr). split; [apply Ht|]. apply writes_touches in Ht. intros n dn tn Hn.
  destruct (decide (n = m)) as [->|Hne].
  - assert (dn = d ∧ tn = t) as [-> ->] by (rewrite Hm in Hn; by injection Hn).
    destruct r as [[]|e]; [right|by left]. destruct Hr as (_ & q & d' & Hin & _ & Hnode & Hd').
    apply move_dests_below in Hin as [y ->]; [|done]. by exists D, y, d'.
  - left. eapply touches_file; [exact Ht| |done]. apply outside_of_apart. constructor.
    + apply apart_children; [apply HL|done].
    + apply Forall_forall. intros q Hin. apply apart_sym, Hq, Hin.
Qed.

(** Writing the log afterwards loses nothing either. *)
Lemma survives_log P w w' n d t :
  layout C (mounts w) → P ⊆ [LOGPATH C] → touches P w w' →
  survives C n d t w → survives C n d t w'.
Proof.
  intros HL HP Ht. apply (touches_mono _ [LOGPATH C]) in Ht; [|done].
  intros [Hs|(D & y & d' & HD & Hn & Hd')].
  - left. eapply touches_file; [done| |done]. apply outside_of_one.
    destruct (layout_dest (mounts w) (BACKLOG C) [] n HL) as (_ & _ & H3); [left|].
    by apply apart_sym.
  - right. exists D, y, d'. split_and!; [done| |done].
    eapply touches_file; [exact Ht| |done]. apply outside_of_one.
    by destruct (layout_dest (mounts w) D (y ++ [n]) n HL HD) as (_ & H2 & _).
Qed.
End NoLoss.

Section Main.
Context {E : Env} (C : cfg).

(** The move and the log lines after it, from the state in which the target was
    chosen. *)
Lemma wp_move_and_log m D x msg msg' w d t :
  layout C (mounts w) → D ∈ dest_dirs C → node_at w (RING C ++ [m]) = Some (File d t) →
  wp (try_except (shutil_move (RING C ++ [m]) (D ++ x ++ [m]);; log C msg)
        is_Exception (λ e, log C (msg' e)))
    (λ _ w', ∀ n dn tn, node_at w (RING C ++ [n]) = Some (File dn tn) → survives C n dn tn w') w.
Proof.
  intros HL HD Hm. apply wp_try, wp_bind. eapply wp_mono; [by eapply wp_move_survives|].
  intros r w1 [Hm1 Hs]. rewrite <-Hm1 in HL.
  assert (∀ w2, touches [LOGPATH C] w1 w2 →
    ∀ n dn tn, node_at w (RING C ++ [n]) = Some (File dn tn) → survives C n dn tn w2) as Hlog.
  { intros w2 Hw2 n dn tn Hn. eapply survives_log; [done|done|exact Hw2|by apply Hs]. }
  assert (∀ e w2, touches [LOGPATH C] w1 w2 →
    wp (log C (msg' e)) (λ _ w', ∀ n dn tn,
      node_at w (RING C ++ [n]) = Some (File dn tn) → survives C n dn tn w') w2) as Herr.
  { intros e w2 Hw2. apply (wp_only (touches [LOGPATH C])); [apply log_touches; set_solver|].
    intros _ w3 Hw3. apply Hlog. by etrans. }
  destruct r as [[]|e]; [|destruct (is_Exception e); [by apply Herr|by apply Hlog]].
  apply (wp_only (touches [LOGPATH C])); [apply log_touches; set_solver|].
  intros [[]|e] w2 Hw2; [by apply Hlog|]. destruct (is_Exception e); [by apply Herr|by apply Hlog].
Qed.

Lemma survives_prepared n d t w w' :
  layout C (mounts w) → touches [] w w' →
  node_at w (RING C ++ [n]) = Some (File d t) →
  node_at w' (RING C ++ [n]) = Some (File d t) ∧ layout C (mounts w').
Proof.
  intros HL Ht Hn. split; [|by destruct Ht as [-> _]].
  eapply touches_file; [exact Ht| |done]. intros q Hq. by apply not_elem_of_nil in Hq.
Qed.
End Main.

(** C1.  Whatever system call fails, is interrupted or kills the process, and
    whatever the drive does to copied data: a file of the ring is still in the
    ring, or a destination holds it under its name (as itself, or as the copy
    that was written). *)
Theorem main_no_loss {E : Env} (C : cfg) (w : world) n d t :
  layout C (mounts w) → node_at w (RING C ++ [n]) = Some (File d t) →
  survives C n d t (main C w).2.
Proof.
  intros HL Hn.
  enough (wp (main C) (λ _ w', survives C n d t w') w) as Hwp by exact Hwp.
  assert (∀ w1, touches [] w w1 → survives C n d t w1) as Hs.
  { intros w1 Hw1. left. by eapply survives_prepared. }
  assert (∀ w1 msg, touches [] w w1 → wp (log C msg) (λ _ w', survives C n d t w') w1) as Hlog.
  { intros w1 msg Hw1. apply (wp_only (touches [LOGPATH C])); [apply log_touches; set_solver|].
    intros _ w2 Hw2. eapply (survives_log C _ w1); [by destruct Hw1 as [-> _]|done|exact Hw2|by apply Hs]. }
  unfold main. apply wp_bind, (wp_only (touches [])); [apply makedirs_touches|].
  intros [[]|e] w1 Hw1; [|by apply Hs].
  apply wp_bind, (wp_only (touches [])); [apply makedirs_touches|].
  intros [[]|e] w2 Hw2; (assert (touches [] w w2) as Hw02 by (by etrans)); [|by apply Hs].
  apply wp_bind, (wp_only (touches [])); [apply only_same_touches, ring_files_same|].
  intros [files|e] w3 Hw3; (assert (touches [] w w3) as Hw03 by (by etrans)); [|by apply Hs].
  cbv zeta. case_bool_decide; [by apply Hlog|].
  apply wp_bind. eapply wp_mono; [apply wp_pick|]. intros r w4 [Hw4 Hp].
  assert (touches [] w w4) as Hw04 by (etrans; [done|by apply same_disk_touches]).
  destruct r as [[target|]|e]; [|by apply Hlog|by apply Hs].
  destruct (Hp target eq_refl) as (m & dm & tm & -> & _ & Hm).
  unfold move_target. apply wp_bind. eapply wp_mono; [apply wp_choose_dest|].
  intros [[dst route]|e] w5 [Hw5 Hd]; (assert (touches [] w w5) as Hw05 by (by etrans)); [|by apply Hs].
  destruct (Hd dst route eq_refl) as (D & x & HD & ->). rewrite basename_app.
  assert (touches [] w3 w5) as Hw35 by (etrans; [by apply same_disk_touches|done]).
  assert (layout C (mounts w3)) as HL3 by (by destruct Hw03 as [-> _]).
  destruct (survives_prepared C m dm tm w3 w5 HL3 Hw35 Hm) as [Hm5 HL5].
  eapply wp_mono; [by eapply wp_move_and_log|]. intros r w6 H6. apply H6.
  by eapply (survives_prepared C n d t w w5).
Qed.

(** ** The oldest closed file *)

#[local] Instance older_trans : Transitive (λ x y, Is_true (older x y)).
Proof. intros [] [] []; unfold older; simpl. rewrite !Is_true_true, !Z.leb_le. lia. Qed.

Lemma older_total x y : older x y = false → older y x = true.
Proof. unfold older. lia. Qed.

(** Before the position of [p] in the sorted files come all the older ones. *)
Lemma sorted_before kl l1 l2 p :
  (sort_by older kl).*2 = l1 ++ p :: l2 →
  ∃ t, (t, p) ∈ kl ∧ ∀ t' q, (t', q) ∈ kl → (t' < t)%Z → q ∈ l1.
Proof.
  intros Heq. pose proof (sort_by_sorted older older_total kl) as Hs.
  pose proof (sort_by_perm older kl) as Hp.
  apply fmap_app_inv in Heq as (k1 & k2 & -> & Hk2 & Hsort).
  symmetry in Hk2. apply fmap_cons_inv in Hk2 as ([t p'] & k3 & -> & -> & ->). simpl.
  exists t. rewrite <-Hp, Hsort. split; [set_solver|]. intros t' q Hq Hlt.
  rewrite Hsort in Hs. rewrite <-Hp, Hsort in Hq. apply elem_of_app in Hq as [Hq|Hq].
  - apply list_elem_of_fmap. by exists (t', q).
  - exfalso. apply StronglySorted_app_1_r in Hs. inversion Hs as [|? ? _ Hall]; subst.
    apply elem_of_cons in Hq as [[= -> ->]|Hq]; [lia|].
    rewrite Forall_forall in Hall. specialize (Hall _ Hq). unfold older in Hall. simpl in Hall.
    rewrite Is_true_true, Z.leb_le in Hall. lia.
Qed.
Section Oldest.
Context {E : Env} (C : cfg) (no_fault : ∀ n, fault n = None).

(** A file modified at [t] is quiet at the [k]-th reading of the clock. *)
Definition closed_at (k : nat) (t : Z) : Prop := (QUIET_SECS * second ≤ clock k - t)%Z.
#[global] Instance closed_at_dec k t : Decision (closed_at k t).
Proof. unfold closed_at. apply _. Defined.

(** A reading of the clock of the run from [w] to [w'] at which it is quiet; one
    at which it is not. *)
Definition seen_closed (w w' : world) (t : Z) : Prop := ∃ k, during w w' k ∧ closed_at k t.
Definition seen_open (w w' : world) (t : Z) : Prop := ∃ k, during w w' k ∧ ¬ closed_at k t.

Lemma seen_closed_mono w0 w w' w1 t :
  later w0 w → later w' w1 → seen_closed w w' t → seen_closed w0 w1 t.
Proof. intros H0 H1 (k & Hk & Hc). exists k. split; [by eapply during_mono|done]. Qed.
Lemma seen_open_mono w0 w w' w1 t :
  later w0 w → later w' w1 → seen_open w w' t → seen_open w0 w1 t.
Proof. intros H0 H1 (k & Hk & Hc). exists k. split; [by eapply during_mono|done]. Qed.

Lemma first_closed_later l : only later (first_closed l).
Proof. induction l as [|p l IH]; simpl; unfold closed; solve_only. Qed.
Lemma pick_later : only later (pick_oldest_closed C).
Proof. pose proof first_closed_later. unfold pick_oldest_closed, ring_files. solve_only. Qed.

Lemma closed_q p d t w :
  node_at w p = Some (File d t) →
  closed p w = (Ok (bool_decide (closed_at (ticks w) t)), tick (tick w)).
Proof.
  intros Hp. unfold closed, try_except, mbind, io_bind, time_time.
  by rewrite (stat_q_ok no_fault p (File d t)).
Qed.

Lemma filter_files_q l w :
  ∃ w', filterM_io path_is_file l w =
    (Ok (List.filter (λ p, match node_at w p with Some n => is_reg n | None => false end) l), w') ∧
    same_disk w w'.
Proof.
  revert w. induction l as [|p l IH]; intros w; simpl; [by eexists|].
  rewrite (bind_ok _ _ _ _ _ (path_is_file_q no_fault p w)).
  destruct (IH (tick w)) as (w1 & Hw1 & Hs). exists w1. split; [|by etrans; [|exact Hs]].
  rewrite (bind_ok _ _ _ _ _ Hw1). by destruct (match node_at w p with _ => _ end).
Qed.

(** Nothing fails: the listing is exactly the capture files of the ring. *)
Lemma ring_files_q w :
  plain_dir (mounts w) (RING C) → node_at w (RING C) = Some Dir →
  ∃ l w', ring_files C w = (Ok l, w') ∧ same_disk w w' ∧ NoDup l ∧
          ∀ p, p ∈ l ↔ ring_pcap C w p.
Proof.
  intros HD Hr. unfold ring_files. rewrite (bind_ok _ _ _ _ _ (path_glob_q no_fault _ _ _ Hr)).
  set (names := dir_order _ _). set (w1 := tick (tick w)).
  assert (names ≡ₚ children w (RING C)) as Hn by apply dir_order_perm.
  destruct (filter_files_q ((λ n, RING C ++ [n]) <$> List.filter (λ n, fnmatch n "*.pcap") names) w1)
    as (w' & Hw' & Hs).
  eexists _, w'. split_and!; [exact Hw'|done|..].
  - apply NoDup_ListNoDup, List.NoDup_filter, NoDup_ListNoDup, NoDup_fmap_2.
    { intros n m Heq. by apply (inj (app (RING C))) in Heq as [= ->]. }
    apply NoDup_ListNoDup, List.NoDup_filter, NoDup_ListNoDup. rewrite Hn. apply NoDup_children.
  - intros p. rewrite list_elem_of_In, filter_In, <-list_elem_of_In, list_elem_of_fmap.
    unfold ring_pcap. split.
    + intros [(n & -> & Hin%list_elem_of_In%filter_In) Hf]. destruct Hin as [_ Hin].
      change (node_at w1) with (node_at w) in Hf.
      destruct (node_at w (RING C ++ [n])) as [[d t|]|] eqn:Hd; [|done..]. by exists n, d, t.
    + intros (n & d & t & -> & Hf & Hd). split; [|by change (node_at w1) with (node_at w); rewrite Hd].
      exists n. split; [done|]. apply list_elem_of_In, filter_In. split; [|done].
      apply list_elem_of_In. rewrite Hn, elem_of_children_node by done. by rewrite Hd.
Qed.

Lemma keys_q l w :
  (∀ p, p ∈ l → ∃ d t, node_at w p = Some (File d t)) →
  ∃ kl w', mapM_io (λ p, n ← stat p; mret (st_mtime n, p)) l w = (Ok kl, w').
Proof.
  revert w. induction l as [|p l IH]; intros w Hl; simpl; [by eexists _, _|].
  destruct (Hl p) as (d & t & Hp); [left|].
  unfold mbind at 1, io_bind at 1. unfold mbind at 1, io_bind at 1.
  rewrite (stat_q_ok no_fault _ _ _ Hp). simpl.
  destruct (IH (tick w)) as (kl & w' & Hkl); [intros q Hq; apply Hl; by right|].
  rewrite (bind_ok _ _ _ _ _ Hkl). by eexists _, _.
Qed.

Lemma first_closed_q l w :
  (∀ p, p ∈ l → ∃ d t, node_at w p = Some (File d t)) →
  wp (first_closed l) (λ r w', same_disk w w' ∧
    match r with
    | Ok (Some p) => ∃ l1 l2, l = l1 ++ p :: l2 ∧
        (∃ d t, node_at w p = Some (File d t) ∧ seen_closed w w' t) ∧
        ∀ q, q ∈ l1 → ∃ d t, node_at w q = Some (File d t) ∧ seen_open w w' t
    | Ok None => ∀ q, q ∈ l → ∃ d t, node_at w q = Some (File d t) ∧ seen_open w w' t
    | Err _ => False
    end) w.
Proof.
  revert w. induction l as [|p l IH]; intros w Hl; simpl.
  { apply wp_ret. split; [done|]. set_solver. }
  destruct (Hl p) as (d & t & Hp); [left|]. apply wp_bind. unfold wp at 1.
  rewrite (closed_q p d t w Hp). simpl.
  assert (∀ w1, later (tick (tick w)) w1 → during w w1 (ticks w)) as Hnow
    by (unfold later, during; simpl; lia).
  assert (later w (tick (tick w))) as Hfwd by (unfold later; simpl; lia).
  case_bool_decide as Hc.
  - apply wp_ret. split; [done|]. exists [], l. split_and!; [done| |set_solver].
    exists d, t. split; [done|]. exists (ticks w). split; [by apply Hnow|done].
  - eapply wp_mono; [apply (wp_and_only later); [apply first_closed_later|
      apply IH; intros q Hq; apply Hl; by right]|]. intros r w1 [[Hw1 Hr] Hl1].
    split; [done|]. change (node_at (tick (tick w))) with (node_at w) in Hr.
    assert (seen_open w w1 t) as Hopen by (exists (ticks w); auto).
    destruct r as [[q|]|e]; [| |done].
    + destruct Hr as (l1 & l2 & -> & (dq & tq & Hq & Hcl) & Hn). exists (p :: l1), l2.
      split_and!; [done|exists dq, tq; split; [done|by apply (seen_closed_mono w (tick (tick w)) w1 w1)]|].
      intros q' [->|Hq']%elem_of_cons; [by eauto|].
      destruct (Hn q' Hq') as (d' & t' & Hn' & Ho). exists d', t'.
      split; [done|by apply (seen_open_mono w (tick (tick w)) w1 w1)].
    + intros q' [->|Hq']%elem_of_cons; [by eauto|].
      destruct (Hr q' Hq') as (d' & t' & Hn' & Ho). exists d', t'.
      split; [done|by apply (seen_open_mono w (tick (tick w)) w1 w1)].
Qed.
End Oldest.

(** [p] is the file the run from [w] to [w'] should take: a capture file of the
    ring that was closed at one of the run's readings of the clock, while each
    older one was not closed at one of them. *)
Definition oldest_closed {E : Env} (C : cfg) (w w' : world) (p : path) (d : bytes) (t : Z) : Prop :=
  ring_pcap C w p ∧ node_at w p = Some (File d t) ∧ seen_closed w w' t ∧
  ∀ q d' t', ring_pcap C w q → node_at w q = Some (File d' t') → (t' < t)%Z → seen_open w w' t'.

Lemma oldest_closed_mono {E : Env} C w w1 w2 w' p d t :
  same_disk w w1 → later w w1 → later w2 w' → oldest_closed C w1 w2 p d t → oldest_closed C w w' p d t.
Proof.
  intros Hs H1 H2 (Hp & Hn & Hc & Ho). unfold oldest_closed, ring_pcap in *.
  setoid_rewrite (same_disk_node w w1) in Hp; [|done]. rewrite (same_disk_node w w1) in Hn by done.
  split_and!; [done|done|by apply (seen_closed_mono w w1 w2 w')|].
  intros q d' t' Hq Hn' Hlt. apply (seen_open_mono w w1 w2 w'); [done|done|].
  apply (Ho q d' t'); [|by rewrite (same_disk_node w w1)|done].
  destruct Hq as (n & dq & tq & -> & Hf & Hn2). exists n, dq, tq. by rewrite (same_disk_node w w1).
Qed.

Lemma pick_q {E : Env} (C : cfg) (w : world) :
  (∀ n, fault n = None) → plain_dir (mounts w) (RING C) → node_at w (RING C) = Some Dir →
  match pick_oldest_closed C w with
  | (Ok (Some p), w') => ∃ d t, oldest_closed C w w' p d t
  | (Ok None, w') => ∀ q d t, ring_pcap C w q → node_at w q = Some (File d t) → seen_open w w' t
  | (Err _, _) => False
  end.
Proof.
  intros Hq HD Hr. destruct (ring_files_q C Hq w HD Hr) as (l & w1 & Hl & Hs1 & _ & Hin).
  assert (∀ p, p ∈ l → ∃ d t, node_at w1 p = Some (File d t)) as Hfiles.
  { intros p (n & d & t & -> & _ & Hn)%Hin. exists d, t. by rewrite (same_disk_node w w1). }
  destruct (keys_q Hq l w1 Hfiles) as (kl & w2 & Hkl).
  destruct (wp_run _ _ _ _ _ Hkl (wp_keys l w1)) as [Hs2 Hk].
  destruct (Hk kl eq_refl) as [Hkl2 Htimes]. clear Hk.
  assert (same_disk w w2) as Hs by (by etrans).
  unfold pick_oldest_closed. rewrite (bind_ok _ _ _ _ _ Hl), (bind_ok _ _ _ _ _ Hkl).
  assert (∀ p, p ∈ (sort_by older kl).*2 ↔ p ∈ l) as Hsort by (intros; by rewrite sort_by_perm, Hkl2).
  pose proof (first_closed_q Hq (sort_by older kl).*2 w2) as Hfc.
  destruct Hfc as [_ Hfc].
  { intros p Hp%Hsort. rewrite (same_disk_node w1 w2) by done. auto. }
  assert (later w w2) as Hlate.
  { etrans; [eapply (only_later (ring_files C)); [|exact Hl]|eapply only_later; [|exact Hkl]];
      unfold ring_files; solve_only. }
  destruct (first_closed _ w2) as [[[p|]|e] w3]; simpl in *; [| |done].
  - destruct Hfc as (l1 & l2 & Heq & (d & t & Hp & Hc) & Hn).
    rewrite (same_disk_node w w2) in Hp by done.
    exists d, t. split_and!; [apply Hin, Hsort; rewrite Heq; set_solver|done|by apply (seen_closed_mono w w2 w3 w3)|].
    intros q d' t' Hring Hnode Hlt.
    apply sorted_before in Heq as (t0 & Ht0 & Hbefore).
    destruct (Htimes _ _ Ht0) as (n0 & Hn0 & ->).
    rewrite (same_disk_node w w1), Hp in Hn0 by done. injection Hn0 as <-.
    assert ((t', q) ∈ kl) as Hqk.
    { apply Hin in Hring. rewrite <-Hkl2 in Hring. apply list_elem_of_fmap in Hring as ([t1 q1] & -> & Hq1).
      destruct (Htimes _ _ Hq1) as (n1 & Hn1 & ->). simpl in *.
      rewrite (same_disk_node w w1), Hnode in Hn1 by done. injection Hn1 as <-. done. }
    destruct (Hn q (Hbefore _ _ Hqk Hlt)) as (d2 & t2 & Hn2 & Hc2).
    rewrite (same_disk_node w w2), Hnode in Hn2 by done. injection Hn2 as <- <-. by apply (seen_open_mono w w2 w3 w3).
  - intros q d' t' Hring%Hin%Hsort Hnode. destruct (Hfc q Hring) as (d2 & t2 & Hn2 & Hc2).
    rewrite (same_disk_node w w2), Hnode in Hn2 by done. injection Hn2 as <- <-. by apply (seen_open_mono w w2 w3 w3).
Qed.

(** C2.  When no call fails, [pick_oldest_closed] returns a capture file of the
    ring that had been quiet for three seconds at a reading of the clock made by
    this very call, while every older file of the ring had not been at a reading
    made by it; it returns [None] only when that is so of all files of the ring.
    (Between the readings the clock goes on: each file is judged at its own.) *)
Theorem pick_oldest_closed_spec {E : Env} (C : cfg) (w : world) :
  (∀ n, fault n = None) → plain_dir (mounts w) (RING C) → node_at w (RING C) = Some Dir →
  match pick_oldest_closed C w with
  | (Ok (Some p), w') => ∃ d t, oldest_closed C w w' p d t
  | (Ok None, w') => ∀ q d t, ring_pcap C w q → node_at w q = Some (File d t) → seen_open w w' t
  | (Err _, _) => False
  end.
Proof. apply pick_q. Qed.

(** ** Detection of the export drive *)

(** The free share of the file system at [p] reaches the minimum. *)
Definition enough_free {E : Env} (w : world) (min : yval) (p : path) : bool :=
  let m := mount_of (mounts w) p in
  match free_percent (f_bavail m) (f_blocks m) (f_frsize m), ynum min with
  | Ok f, Ok n => num_ge f n
  | _, _ => false
  end.

(** A candidate qualifies: mounted, writable, enough free space. *)
Definition qualifies {E : Env} (w : world) (min : yval) (s : string) : bool :=
  mounted w (Path_ s) && m_writable (mount_of (mounts w) (Path_ s)) &&
  enough_free w min (Path_ s).

Fixpoint first_qualifying {E : Env} (w : world) (min : yval) (l : list string) : option string :=
  match l with
  | [] => None
  | s :: l' => if qualifies w min s then Some s else first_qualifying w min l'
  end.

(** The candidates, when the configuration lists strings. *)
Definition candidate_strings (v : yval) : option (list string) :=
  match yiter v with
  | Ok l => mapM (λ v, match v with YStr s => Some s | _ => None end) l
  | Err _ => None
  end.

Section Detection.
Context {E : Env} (C : cfg) (no_fault : ∀ n, fault n = None).

Lemma mounted_same w w' p : same_disk w w' → mounted w' p = mounted w p.
Proof.
  intros Hs. unfold mounted. rewrite !(same_disk_node w w') by done. by destruct Hs as [_ ->].
Qed.

Lemma qualifies_same w w' min s : same_disk w w' → qualifies w' min s = qualifies w min s.
Proof.
  intros Hs. unfold qualifies, enough_free. rewrite (mounted_same w w') by done.
  by destruct Hs as [_ ->].
Qed.

Lemma check_candidate_q s w :
  is_Some (node_at w (Path_ s)) →
  ∃ w', same_disk w w' ∧ (enough_free w (MIN_FREE_PCT C) (Path_ s) = true → during w w' (S (ticks w))) ∧
  check_candidate C s w =
    (Ok (if enough_free w (MIN_FREE_PCT C) (Path_ s)
         then Some (s, Path_ s ++ ["pcap"; fmt_ymd (localtime (clock (S (ticks w))))]) else None), w').
Proof.
  intros Hn. unfold check_candidate, enough_free, try_except.
  rewrite (bind_ok _ _ _ _ _ (os_statvfs_q no_fault _ _ Hn)). cbv zeta beta iota.
  unfold mbind, io_bind, lift_res.
  destruct (free_percent _ _ _) as [f|e] eqn:Hf; simpl.
  - destruct (ynum (MIN_FREE_PCT C)) as [n|e] eqn:Hy; simpl.
    + destruct (num_ge f n); (eexists; split_and!; [| |reflexivity]); [by split| |by split|done].
      intros _. unfold during. simpl. lia.
    + destruct (MIN_FREE_PCT C); simplify_eq/=; (eexists; split_and!; [| |reflexivity]); by try split.
  - assert (is_Exception e = true) as ->; [|eexists; split_and!; [| |reflexivity]; by try split].
    revert Hf. unfold free_percent, int_truediv, mbind, res_bind.
    repeat case_match; intros; simplify_eq; done.
Qed.

Lemma detect_loop_q w l w1 :
  same_disk w w1 →
  ∃ w' k, same_disk w w' ∧
  (is_Some (first_qualifying w (MIN_FREE_PCT C) l) → during w1 w' k) ∧ detect_loop C (YStr <$> l) w1 =
    (Ok ((λ s, (s, Path_ s ++ ["pcap"; fmt_ymd (localtime (clock k))]))
           <$> first_qualifying w (MIN_FREE_PCT C) l), w').
Proof.
  revert w1. induction l as [|s l IH]; intros w1 Hs1.
  { exists w1, 0. split_and!; [done| |done]. by intros [? [=]]. }
  csimpl. rewrite (bind_ok (lift_res (Ok s)) _ _ _ _ eq_refl).
  destruct (os_ismount_q no_fault (Path_ s) w1) as (w2 & Hw2 & Hs2).
  assert (same_disk w w2) as Hs02 by (by etrans).
  pose proof (only_later _ _ _ _ (os_ismount_later (Path_ s)) Hw2) as Hl2.
  assert (∀ w3, same_disk w w3 → later w1 w3 → ∃ w' k, same_disk w w' ∧
    (is_Some (first_qualifying w (MIN_FREE_PCT C) l) → during w1 w' k) ∧ detect_loop C (YStr <$> l) w3 =
    (Ok ((λ s, (s, Path_ s ++ ["pcap"; fmt_ymd (localtime (clock k))]))
           <$> first_qualifying w (MIN_FREE_PCT C) l), w')) as Hrest.
  { intros w3 Hs3 Hl3. destruct (IH w3 Hs3) as (w' & k & Hs' & Hk & Hw'). exists w', k.
    split_and!; [done| |done]. intros Hq. eapply during_mono; [exact Hl3|reflexivity|by apply Hk]. }
  rewrite (bind_ok _ _ _ _ _ Hw2), (mounted_same w w1) by done. unfold qualifies.
  destruct (mounted w (Path_ s)) eqn:Hm; simpl; [|by apply Hrest].
  assert (is_Some (node_at w2 (Path_ s))) as Hn.
  { rewrite (same_disk_node w w2) by done. by apply mounted_node. }
  rewrite (bind_ok _ _ _ _ _ (os_access_w_q no_fault _ _ Hn)).
  assert (mounts w2 = mounts w) as Hmm by apply Hs02. rewrite Hmm.
  assert (later w1 (tick w2)) as Hl3 by (unfold later in *; simpl; lia).
  destruct (m_writable _); simpl; [|by apply Hrest].
  destruct (check_candidate_q s (tick w2)) as (w3 & Hs3 & Hk3 & Hw3); [done|].
  rewrite (bind_ok _ _ _ _ _ Hw3). unfold enough_free in Hk3 |- *. simpl in Hk3 |- *. rewrite Hmm in Hk3 |- *.
  fold (enough_free w (MIN_FREE_PCT C) (Path_ s)). fold (enough_free w (MIN_FREE_PCT C) (Path_ s)) in Hk3.
  destruct (enough_free w (MIN_FREE_PCT C) (Path_ s)); simpl.
  - eexists _, _. split_and!; [| |reflexivity]; [etrans; [exact Hs02|exact Hs3]|].
    intros _. eapply during_mono; [exact Hl3|reflexivity|by apply Hk3].
  - apply Hrest; [etrans; [exact Hs02|exact Hs3]|].
    etrans; [exact Hl3|]. eapply only_later; [|exact Hw3]. unfold check_candidate. solve_only.
Qed.

Lemma candidate_strings_yiter v l :
  candidate_strings v = Some l → yiter v = Ok (YStr <$> l).
Proof.
  unfold candidate_strings. destruct (yiter v) as [l'|]; [|done]. intros Hm. f_equal.
  apply mapM_Some_1 in Hm. induction Hm as [|x y l1 l2 Hxy Hl IH]; [done|].
  destruct x; simplify_eq/=. by f_equal.
Qed.

Lemma detect_q w l w1 :
  candidate_strings (MOUNT_CANDIDATES C) = Some l → same_disk w w1 →
  ∃ w' k, same_disk w w' ∧
  (is_Some (first_qualifying w (MIN_FREE_PCT C) l) → during w1 w' k) ∧ detect_export_drive C w1 =
    (Ok ((λ s, (s, Path_ s ++ ["pcap"; fmt_ymd (localtime (clock k))]))
           <$> first_qualifying w (MIN_FREE_PCT C) l), w').
Proof.
  intros Hc Hs. unfold detect_export_drive. rewrite (candidate_strings_yiter _ _ Hc).
  rewrite (bind_ok (lift_res (Ok _)) _ _ _ _ eq_refl). by apply detect_loop_q.
Qed.

Lemma first_qualifying_in w min l s : first_qualifying w min l = Some s → s ∈ l.
Proof.
  induction l as [|s' l IH]; simpl; [done|]. destruct (qualifies w min s'); [|set_solver].
  intros [= ->]. left.
Qed.

Lemma first_qualifying_same w w' min l :
  same_disk w w' → first_qualifying w' min l = first_qualifying w min l.
Proof.
  intros Hs. induction l as [|s l IH]; simpl; [done|]. by rewrite (qualifies_same w w'), IH.
Qed.

Lemma candidate_strings_paths l s :
  candidate_strings (MOUNT_CANDIDATES C) = Some l → s ∈ l → Path_ s ∈ candidate_paths C.
Proof.
  intros Hc Hs. unfold candidate_paths. rewrite (candidate_strings_yiter _ _ Hc).
  apply list_elem_of_omap. exists (YStr s). split; [by apply list_elem_of_fmap_2|done].
Qed.
End Detection.

(** ** A run that moves a file *)

Section Progress.
Context {E : Env} (C : cfg) (no_fault : ∀ n, fault n = None).

(** The directories the installation makes, and room for the log. *)
Definition installed (w : world) : Prop :=
  dir_ready w (RING C) ∧ dir_ready w (BACKLOG C) ∧ dir_ready w (parent (LOGPATH C)) ∧
  node_at w (LOGPATH C) ≠ Some Dir.

Lemma log_q w msg :
  dir_ready w (parent (LOGPATH C)) → node_at w (LOGPATH C) ≠ Some Dir →
  ∃ w', log C msg w = (Ok tt, w') ∧ writes [LOGPATH C] w w'.
Proof.
  intros Hd Hl. unfold log. destruct (makedirs_ready no_fault _ _ Hd) as (w1 & Hw1 & Hs).
  rewrite (bind_ok _ _ _ _ _ Hw1), (bind_ok datetime_now _ _ _ _ eq_refl). cbv zeta.
  match goal with |- ∃ w', append_text ?p ?s _ = _ ∧ _ =>
    pose proof (append_text_writes [p] p s (list_elem_of_here _ _) (tick w1)) as Hwr;
    destruct (append_text_q no_fault p s (tick w1)) as ([] & w' & Hw') end.
  - assert (∀ p, node_at (tick w1) p = node_at w p) as Hn by (intros p; by apply (same_disk_node w)).
    split; rewrite !Hn; [done|]. intros _. by apply dir_ready_self.
  - exists w'. split; [done|]. rewrite Hw' in Hwr. etrans; [|exact Hwr]. by apply same_disk_writes.
Qed.

(** The directory [D] a file goes to in the run from [w] to [w']: that of the day
    on the first candidate that qualifies (the date is one the run has read), and
    the backlog when none does. *)
Definition goes_to (l : list string) (w w' : world) (D : path) : Prop :=
  match first_qualifying w (MIN_FREE_PCT C) l with
  | Some s => ∃ k, during w w' k ∧ D = Path_ s ++ ["pcap"; fmt_ymd (localtime (clock k))]
  | None => D = BACKLOG C
  end.

(** The mount point of the candidate is there, no file is where the directories
    of a day go, and no directory where a capture file goes.  The directories of
    the day themselves need not be there. *)
Definition room_on (w : world) (s : string) : Prop :=
  dir_ready w (Path_ s) ∧ (∀ d t, node_at w (Path_ s ++ ["pcap"]) ≠ Some (File d t)) ∧
  ∀ day, (∀ d t, node_at w (Path_ s ++ ["pcap"; day]) ≠ Some (File d t)) ∧
         ∀ n, node_at w (Path_ s ++ ["pcap"; day; n]) ≠ Some Dir.
Definition room (l : list string) (w : world) : Prop :=
  match first_qualifying w (MIN_FREE_PCT C) l with
  | Some s => room_on w s
  | None => ∀ n, node_at w (BACKLOG C ++ [n]) ≠ Some Dir
  end.

(** Making the directory of the day changes no place outside the drive, and none
    that is not on the way. *)
Lemma makedirs_day s day p w :
  plain_dir (mounts w) (Path_ s) → dir_ready w (Path_ s) →
  (∀ y, y ∈ [["pcap"]; ["pcap"; day]] → locate (mounts w) (Path_ s ++ y) ≠ locate (mounts w) p) →
  node_at (makedirs (Path_ s ++ ["pcap"; day]) w).2 p = node_at w p.
Proof.
  intros Hpl Hr Hp. destruct (node_at w p) as [n|] eqn:Hn.
  { eapply touches_nil_some; [apply makedirs_touches|done]. }
  rewrite <-Hn. apply (writes_node_ne (prefixes (Path_ s ++ ["pcap"; day]))); [apply makedirs_writes|].
  intros q Hq%elem_of_prefixes Heq. destruct Hq as [z Hz].
  destruct (decide (length q ≤ length (Path_ s))) as [Hle|Hgt].
  - assert (q = take (length q) (Path_ s)) as Hq.
    { rewrite <-(take_app_le _ ["pcap"; day]) by done. rewrite Hz. by rewrite take_app_length. }
    specialize (Hr (length q)). rewrite <-Hq in Hr. unfold node_at in Hr, Hn. congruence.
  - assert (∃ y, q = Path_ s ++ y ∧ y ∈ [["pcap"]; ["pcap"; day]]) as (y & -> & Hy).
    { apply app_eq_inv in Hz as [(y & Hy & _)|(y & -> & Hy)].
      - rewrite Hy, length_app in Hgt. lia.
      - exists y. split; [done|]. destruct y as [|a [|b [|c y]]]; simplify_eq/=; [|set_solver..].
        rewrite app_nil_r in Hgt. lia. }
    by apply (Hp y).
Qed.

Lemma choose_dest_q w l w1 m :
  candidate_strings (MOUNT_CANDIDATES C) = Some l → same_disk w w1 →
  layout C (mounts w) → dir_ready w (BACKLOG C) → room l w →
  ∃ route w2 D x, choose_dest C (RING C ++ [m]) w1 = (Ok (D ++ x ++ [m], route), w2) ∧
    D ∈ dest_dirs C ∧ goes_to l w1 w2 (D ++ x) ∧ touches [] w w2 ∧ dirs_stay w w2 ∧
    node_at w2 (D ++ x) = Some Dir ∧ node_at w2 (D ++ x ++ [m]) ≠ Some Dir ∧
    node_at w2 (LOGPATH C) = node_at w (LOGPATH C).
Proof.
  intros Hc Hs HL Hback Hroom. destruct (detect_q C no_fault w l w1 Hc Hs) as (w2 & k & Hs2 & Hk & Hw2).
  unfold choose_dest. rewrite (bind_ok _ _ _ _ _ Hw2), basename_app. unfold goes_to, room in *.
  rewrite (first_qualifying_same w w1) by done.
  destruct (first_qualifying w _ _) as [s|] eqn:Hq; simpl; [|clear Hk].
  - set (day := fmt_ymd (localtime (clock k))). destruct Hroom as (Hr & Hpcap & Hday).
    destruct (Hday day) as [Hfree Hnodir].
    assert (Path_ s ∈ dest_dirs C) as HD.
    { right. eapply candidate_strings_paths; [done|by eapply first_qualifying_in]. }
    pose proof HL as (_ & _ & HF). rewrite Forall_forall in HF. destruct (HF _ HD) as (Hpl & _ & Hlog).
    assert (mounts w2 = mounts w) as Hm2 by apply Hs2.
    assert (∀ p, node_at w2 p = node_at w p) as Hn2 by (intros p; by apply same_disk_node).
    destruct (makedirs_q no_fault (Path_ s ++ ["pcap"; day]) w2) as [([] & w3 & Hw3) Hready].
    { intros j d t. rewrite Hn2. destruct (decide (j ≤ length (Path_ s))) as [Hj|Hj].
      - rewrite take_app_le by done. by rewrite Hr.
      - rewrite take_app_ge by lia. destruct (j - length (Path_ s)) as [|[|i]] eqn:Hi; [lia|apply Hpcap|].
        simpl. rewrite take_nil. apply Hfree. }
    pose proof (makedirs_touches [] (Path_ s ++ ["pcap"; day]) w2) as Ht.
    pose proof (makedirs_stay (Path_ s ++ ["pcap"; day]) w2) as Hst.
    pose proof (λ p, makedirs_day s day p w2) as Hsame.
    pose proof (only_later _ _ _ _ (makedirs_later _) Hw3) as Hl3.
    rewrite Hw3 in Hready, Ht, Hst. rewrite Hw3 in Hsame. simpl in Hready, Ht, Hst, Hsame.
    rewrite Hm2 in Hsame.
    assert (dir_ready w2 (Path_ s)) as Hr2 by (by eapply dir_ready_same).
    rewrite (bind_ok _ _ _ _ _ Hw3). eexists _, w3, (Path_ s), ["pcap"; day].
    rewrite <-(assoc_L (++)). split_and!; [reflexivity|done| |etrans; [by apply same_disk_touches|exact Ht]|
      etrans; [by apply same_disk_stay|exact Hst]|by apply dir_ready_self| |].
    + exists k. split; [|done]. eapply during_mono; [reflexivity|exact Hl3|apply Hk; eauto].
    + simpl. rewrite Hsame, Hn2; [apply Hnodir|done|done|]. intros y Hy.
      rewrite !(locate_below _ (Path_ s)) by done. intros [=Heq].
      apply (f_equal length) in Heq. rewrite !length_app in Heq.
      repeat (apply elem_of_cons in Hy as [->|Hy]); [simpl in Heq; lia..|by apply elem_of_nil in Hy].
    + rewrite Hsame, Hn2; [done|done|done|]. intros y _ Heq.
      destruct (apart_below _ _ _ y Hpl Hlog) as [Hno _]. apply Hno. by rewrite Heq.
  - eexists _, w2, (BACKLOG C), []. rewrite app_nil_r. simpl. rewrite !(same_disk_node w w2) by done.
    split_and!; [reflexivity|left|done|by apply same_disk_touches|by apply same_disk_stay|
      by apply dir_ready_self|done|done].
Qed.

(** Up to the move: the oldest closed file has been chosen and the disk is as it
    was. *)
Lemma main_chooses w :
  layout C (mounts w) → installed w →
  (∃ l, NoDup l ∧ (∀ p, p ∈ l → ring_pcap C w p) ∧ (THRESH C ≤ Z.of_nat (length l))%Z) →
  (∃ q d t, ring_pcap C w q ∧ node_at w q = Some (File d t) ∧ ∀ k, ticks w ≤ k → closed_at k t) →
  ∃ p d t w4, oldest_closed C w w4 p d t ∧ same_disk w w4 ∧ later w w4 ∧ main C w = move_target C p w4.
Proof.
  intros HL (Hring & Hback & _ & _) (l0 & Hnd0 & Hl0 & Hcount) (q & dq & tq & Hq & Hqn & Hqc).
  destruct (makedirs_ready no_fault _ _ Hring) as (w1 & Hw1 & Hs1).
  destruct (makedirs_ready no_fault (BACKLOG C) w1) as (w2 & Hw2 & Hs2);
    [by eapply dir_ready_same|].
  assert (same_disk w w2) as Hs02 by (by etrans).
  assert (∀ w', same_disk w w' → ∀ p, ring_pcap C w' p ↔ ring_pcap C w p) as Hpcap.
  { intros w' Hw' p. unfold ring_pcap. by setoid_rewrite (same_disk_node w w'); [|done]. }
  destruct (ring_files_q C no_fault w2) as (l & w3 & Hl & Hs3 & Hnd & Hin).
  { destruct Hs02 as [_ ->]. apply HL. }
  { rewrite (same_disk_node w w2) by done. by apply dir_ready_self. }
  assert (same_disk w w3) as Hs03 by (by etrans).
  assert ((THRESH C ≤ Z.of_nat (length l))%Z) as Hthresh.
  { etrans; [exact Hcount|]. apply Nat2Z.inj_le, submseteq_length, NoDup_submseteq; [done|].
    intros p Hp. apply Hin, Hpcap, Hl0, Hp. done. }
  assert (later w w3) as Hl03.
  { etrans; [exact (only_later _ _ _ _ (makedirs_later _) Hw1)|].
    etrans; [exact (only_later _ _ _ _ (makedirs_later _) Hw2)|].
    eapply only_later; [|exact Hl]. unfold ring_files. solve_only. }
  pose proof (pick_q C w3 no_fault) as Hpick. pose proof (pick_same C w3) as Hs4.
  rewrite (same_disk_node w w3) in Hpick by done.
  specialize (Hpick ltac:(destruct Hs03 as [_ ->]; apply HL) ltac:(by apply dir_ready_self)).
  destruct (pick_oldest_closed C w3) as [[o|e] w4] eqn:Hp; simpl in Hpick, Hs4; [|done].
  destruct o as [p|].
  - destruct Hpick as (d & t & Hold). exists p, d, t, w4. split_and!.
    + by apply (oldest_closed_mono C w w3 w4 w4).
    + by etrans.
    + etrans; [exact Hl03|]. eapply only_later; [apply pick_later|exact Hp].
    + unfold main. rewrite (bind_ok _ _ _ _ _ Hw1), (bind_ok _ _ _ _ _ Hw2), (bind_ok _ _ _ _ _ Hl).
      cbv zeta. rewrite bool_decide_false by lia. by rewrite (bind_ok _ _ _ _ _ Hp).
  - destruct (Hpick q dq tq) as (k & Hk & Hno); [by apply Hpcap|by rewrite (same_disk_node w w3)|].
    destruct Hno. apply Hqc. unfold during, later in *. lia.
Qed.

(** The move and its log line, when nothing fails. *)
Lemma move_target_q m D x d t w4 route w :
  layout C (mounts w) → dir_ready w (parent (LOGPATH C)) → node_at w (LOGPATH C) ≠ Some Dir →
  node_at w (RING C ++ [m]) = Some (File d t) →
  D ∈ dest_dirs C → node_at w (D ++ x) = Some Dir → node_at w (D ++ x ++ [m]) ≠ Some Dir →
  choose_dest C (RING C ++ [m]) w4 = (Ok (D ++ x ++ [m], route), w) →
  ∃ w', move_target C (RING C ++ [m]) w4 = (Ok tt, w') ∧ later w w' ∧
    node_at w' (RING C ++ [m]) = None ∧
    ∃ d', node_at w' (D ++ x ++ [m]) = Some (File d' t) ∧ (d' = d ∨ ∃ k, d' = bitrot k d).
Proof.
  intros HL Hlogdir Hlog Hm HD Hdir Hnd Hw5.
  set (src := RING C ++ [m]) in *. set (dst := D ++ x ++ [m]) in *.
  assert (basename src = m) as Hb by apply basename_app.
  assert (∀ q, q ∈ move_dests src dst →
    apart (mounts w) src q ∧ apart (mounts w) (LOGPATH C) q ∧ apart (mounts w) src (LOGPATH C)) as Hq.
  { intros q Hq. apply move_dests_below in Hq as [y ->]; [|done]. by apply layout_dest. }
  assert (dst ∈ move_dests src dst) as Hdst by (unfold move_dests; set_solver).
  destruct (shutil_move_q no_fault src dst d t w) as ([] & w6 & Hw6); [done|done|..].
  { unfold dst. by rewrite (assoc_L (++)), parent_app. }
  { intros q Hin. apply (Hq q). unfold copy_dests in Hin. unfold move_dests. set_solver. }
  destruct (wp_run _ _ _ _ _ Hw6 (wp_shutil_move src dst d t w Hm
    ltac:(intros q Hin; apply (Hq q Hin))
    ltac:(intros q Hin p ->%list_elem_of_singleton; apply (Hq q Hin))))
    as (_ & Hwr & Hgone & q & d' & _ & Hqdst & Hnode & Hd'). specialize (Hwr Hnd).
  specialize (Hqdst Hnd) as ->.
  assert (node_at w6 (LOGPATH C) = node_at w (LOGPATH C)) as Hlog6.
  { rewrite (writes_node _ _ _ _ Hwr); [done|].
    apply outside_of_apart. repeat apply Forall_cons_2; [|..|constructor]; [apply (Hq dst Hdst)|].
    apply apart_sym, (Hq dst Hdst). }
  assert (dir_ready w6 (parent (LOGPATH C))) as Hready6.
  { intros k. specialize (Hlogdir k).
    rewrite (writes_node_ne _ _ _ _ Hwr); [done|]. unfold node_at in *.
    intros p Hp Heq. rewrite <-Heq in Hlogdir.
    apply elem_of_cons in Hp as [->|Hp]; [congruence|].
    apply list_elem_of_singleton in Hp as ->. done. }
  destruct (log_q w6 ("[moved] " +:+ basename src +:+ " -> " +:+ route +:+ " (" +:+ show_path dst +:+ ")"))
    as (w7 & Hw7 & Hwr7); [done|by rewrite Hlog6|].
  assert (mounts w6 = mounts w) as Hm6 by (destruct Hwr as [-> _]; done).
  exists w7. split_and!.
  - unfold move_target. rewrite (bind_ok _ _ _ _ _ Hw5). unfold try_except.
    by rewrite (bind_ok _ _ _ _ _ Hw6), Hw7.
  - etrans; [exact (only_later _ _ _ _ (shutil_move_later _ _) Hw6)|].
    eapply only_later; [|exact Hw7]. unfold log. cbv zeta. solve_only.
  - rewrite (writes_node _ _ _ _ Hwr7); [done|]. rewrite Hm6.
    apply outside_of_one, apart_sym, (Hq dst Hdst).
  - exists d'. split; [|done]. rewrite (writes_node _ _ _ _ Hwr7); [done|]. rewrite Hm6.
    apply outside_of_one, (Hq dst Hdst).
Qed.
End Progress.

(** The whole run, when no call fails. *)
Lemma main_moves_q {E : Env} (C : cfg) (w : world) (l : list string) :
  (∀ n, fault n = None) →
  layout C (mounts w) → installed C w →
  candidate_strings (MOUNT_CANDIDATES C) = Some l → room C l w →
  (∃ files, NoDup files ∧ (∀ p, p ∈ files → ring_pcap C w p) ∧
            (THRESH C ≤ Z.of_nat (length files))%Z) →
  (∃ q d t, ring_pcap C w q ∧ node_at w q = Some (File d t) ∧ ∀ k, ticks w ≤ k → closed_at k t) →
  ∃ w' m d t D, main C w = (Ok tt, w') ∧ oldest_closed C w w' (RING C ++ [m]) d t ∧
    goes_to C l w w' D ∧ node_at w' (RING C ++ [m]) = None ∧
    ∃ d', node_at w' (D ++ [m]) = Some (File d' t) ∧ (d' = d ∨ ∃ j, d' = bitrot j d).
Proof.
  intros Hq HL Hinst Hc Hroom Hcount Hclosed.
  destruct (main_chooses C Hq w HL Hinst Hcount Hclosed) as (p & d & t & w4 & Hold & Hs4 & Hl4 & Hmain).
  pose proof Hold as [(m & d0 & t0 & -> & Hf & Hn0) [Hn _]].
  destruct Hinst as (_ & Hback & Hlogdir & Hlog).
  destruct (choose_dest_q C Hq w l w4 m Hc Hs4 HL Hback Hroom)
    as (route & w5 & D & x & Hch & HD & Hgoes & Ht5 & Hst5 & Hdir & Hnd & Hlog5).
  destruct (move_target_q C Hq m D x d t w4 route w5) as (w' & Hw' & Hl' & Hgone & d' & Hd' & Heq); try done.
  { by destruct Ht5 as [-> _]. }
  { intros k. by eapply dirs_stay_node. }
  { by rewrite Hlog5. }
  { by eapply touches_nil_some. }
  assert (later w4 w5) as Hl5.
  { eapply only_later; [|exact Hch]. unfold choose_dest, detect_export_drive.
    apply only_bind; [typeclasses eauto| |intros; solve_only].
    apply only_bind; [typeclasses eauto|solve_only|]. intros cands.
    induction cands; simpl; unfold check_candidate; solve_only. }
  exists w', m, d, t, (D ++ x). split_and!; [by rewrite Hmain|..|done|].
  - apply (oldest_closed_mono C w w w4 w'); [done|done|by etrans|done].
  - unfold goes_to in *. rewrite (first_qualifying_same w w4) in Hgoes by done.
    destruct (first_qualifying w _ _); [|done]. destruct Hgoes as (k & Hk & ->).
    exists k. split; [|done]. by apply (during_mono w w4 w5 w').
  - exists d'. by rewrite <-(assoc_L (++)).
Qed.

(** C3.  When no call fails, the directories of the installation are in place,
    the ring holds at least [buffer_threshold] files and one of them has been
    quiet for three seconds since the run began, a run returns having moved the
    oldest closed file: it is gone from the ring and under its name in the
    directory of the day on the first candidate that qualifies, which the run
    makes when it is not there, or in the backlog when no candidate does.  The
    day is that of a reading of the clock by this run. *)
Theorem main_moves_oldest {E : Env} (C : cfg) (w : world) (l : list string) :
  (∀ n, fault n = None) →
  layout C (mounts w) → installed C w →
  candidate_strings (MOUNT_CANDIDATES C) = Some l → room C l w →
  (∃ files, NoDup files ∧ (∀ p, p ∈ files → ring_pcap C w p) ∧
            (THRESH C ≤ Z.of_nat (length files))%Z) →
  (∃ q d t, ring_pcap C w q ∧ node_at w q = Some (File d t) ∧ ∀ k, ticks w ≤ k → closed_at k t) →
  ∃ w' m d t D, main C w = (Ok tt, w') ∧ oldest_closed C w w' (RING C ++ [m]) d t ∧
    goes_to C l w w' D ∧ node_at w' (RING C ++ [m]) = None ∧
    ∃ d', node_at w' (D ++ [m]) = Some (File d' t) ∧ (d' = d ∨ ∃ j, d' = bitrot j d).
Proof. exact (main_moves_q C w l). Qed.

(** ** The theorems at work on a sensor *)

Definition sensor_cfg : cfg := Cfg ring backlog 4 log_file default_candidates (YInt 2).

Lemma load_cfg_sensor : load_cfg seer_yml = Ok sensor_cfg.
Proof. reflexivity. Qed.

Lemma main_no_loss_witness :
  survives (E:=quiet) sensor_cfg "SEER-1.pcap" (encode "first") ((noon - 81) * second)
    (main (E:=quiet) sensor_cfg (with_drive ring_four)).2.
Proof.
  apply (main_no_loss (E:=quiet) sensor_cfg (with_drive ring_four)); [by_computation|reflexivity].
Defined.

Lemma pick_oldest_closed_spec_witness :
  ∃ d t, oldest_closed (E:=quiet) sensor_cfg (no_drive ring_four)
    (pick_oldest_closed (E:=quiet) sensor_cfg (no_drive ring_four)).2 (ring ++ ["SEER-1.pcap"]) d t.
Proof.
  assert ((pick_oldest_closed (E:=quiet) sensor_cfg (no_drive ring_four)).1 =
          Ok (Some (ring ++ ["SEER-1.pcap"]))) as Hr by (vm_compute; reflexivity).
  pose proof (pick_oldest_closed_spec (E:=quiet) sensor_cfg (no_drive ring_four)
    (λ _, eq_refl) ltac:(by_computation) ltac:(reflexivity)) as Hp.
  destruct (pick_oldest_closed (E:=quiet) sensor_cfg (no_drive ring_four)) as [r w'].
  simpl in Hr. subst r. exact Hp.
Defined.

(** The backlog of the scenario has no subdirectory. *)
Lemma backlog_no_dir n : node_at (no_drive ring_four) (backlog ++ [n]) ≠ Some Dir.
Proof.
  intros Hn. assert (n ∈ children (no_drive ring_four) backlog) as Hin.
  { apply elem_of_children_node; [by_computation|by rewrite Hn]. }
  assert (children (no_drive ring_four) backlog = []) as Hc by (vm_compute; reflexivity).
  rewrite Hc in Hin. by apply elem_of_nil in Hin.
Qed.

(** The drive of the scenario is empty: the directory of the day is made. *)
Lemma room_drive files : dir_ready (with_drive files) drive → room_on (with_drive files) "/mnt/seer_external".
Proof.
  intros Hr. change (Path_ "/mnt/seer_external") with drive. unfold room_on.
  change (Path_ "/mnt/seer_external") with drive. split_and!; [done|by intros; rewrite drive_node|].
  intros day. split; intros; by rewrite drive_node.
Qed.

Abbreviation candidates_three := ["/mnt/seer_external"; "/mnt/SEER_EXT"; "/media/seer_external"].

Lemma main_moves_oldest_witness :
  ∃ w' m d t D, main (E:=quiet) sensor_cfg (with_drive ring_four) = (Ok tt, w') ∧
    oldest_closed (E:=quiet) sensor_cfg (with_drive ring_four) w' (RING sensor_cfg ++ [m]) d t ∧
    goes_to (E:=quiet) sensor_cfg candidates_three (with_drive ring_four) w' D ∧
    node_at w' (RING sensor_cfg ++ [m]) = None ∧
    ∃ d', node_at w' (D ++ [m]) = Some (File d' t) ∧ (d' = d ∨ ∃ j, d' = bitrot (Env:=quiet) j d).
Proof.
  apply (main_moves_oldest (E:=quiet) sensor_cfg (with_drive ring_four) candidates_three).
  - done.
  - by_computation.
  - split_and!; by_computation.
  - reflexivity.
  - assert (first_qualifying (E:=quiet) (with_drive ring_four) (MIN_FREE_PCT sensor_cfg) candidates_three =
      Some "/mnt/seer_external") as Hq by (vm_compute; reflexivity).
    unfold room. rewrite Hq. apply room_drive. by_computation.
  - exists [ring ++ ["SEER-1.pcap"]; ring ++ ["SEER-2.pcap"]; ring ++ ["SEER-3.pcap"]; ring ++ ["SEER-4.pcap"]].
    split_and!; [by_computation| |by_computation].
    intros p Hp. repeat (apply elem_of_cons in Hp as [->|Hp]; [eexists _, _, _; split_and!; reflexivity|]).
    by apply elem_of_nil in Hp.
  - eexists (ring ++ ["SEER-1.pcap"]), _, _. split_and!;
      [eexists _, _, _; split_and!; reflexivity|reflexivity|]. intros k _. by_computation.
Defined.
