(* ===== verification/Hotswap.v ===== *)
(** * The hot-swap service: [Automation/SEER/seer_hotswap.py]

    It polls for an export drive; when one appears it moves the backlog to it,
    comparing SHA-256 digests before a source is deleted, and writes a manifest,
    a transfer log and a state file. *)
From S2P Require Import Prelude Text Os OsFacts OsQuiet PyNum Config Json Sha256.
From Stdlib Require Import SpecFloat.

Definition CONFIG_PATH : path := ["opt"; "seer"; "etc"; "seer.yml"].
Definition LOCK_FILE : path := ["var"; "log"; "seer"; "seer-hotswap.lock"].
Definition STATE_FILE : path := ["var"; "log"; "seer"; "hotswap_state.json"].
Definition LOG_FILE : path := ["var"; "log"; "seer"; "hotswap.log"].

Definition default_candidates : yval :=
  YList [YStr "/mnt/seer_external"; YStr "/mnt/SEER_EXT"; YStr "/media/seer_external"].

(** [log.info] and the like; the service logs from level INFO on.  A message is
    an event of the trace; the lines the file handler of [logging] appends to
    [LOG_FILE] are not in the model. *)
Definition info {E : Env} : string → prog unit := log_at "INFO".
Definition warning {E : Env} : string → prog unit := log_at "WARNING".
Definition error {E : Env} : string → prog unit := log_at "ERROR".

Section Hotswap.
Context {E : Env} {Y : Yaml}.

Definition read_config : prog yval :=
  try_except
    (b ← open_read CONFIG_PATH; v ← lift_res (safe_load b); mret (or_empty v))
    is_Exception
    (λ e, error ("Failed to read config " +:+ show_path CONFIG_PATH +:+ ": " +:+ exn_str e);;
          mret (YMap [])).

(** ** The lock *)

Definition read_lock : prog Z :=
  b ← open_read LOCK_FILE;
  match py_int (strip (decode b)) with
  | Some n => mret n
  | None => raise (ValueError "invalid literal for int()")
  end.

Definition acquire_lock : prog bool :=
  makedirs (parent LOCK_FILE);;
  held ← os_exists LOCK_FILE;
  busy ← (if (held : bool) then
            try_except
              (n ← read_lock;
               os_kill0 n;;
               error ("Another instance is running (PID " +:+ pretty n +:+ ")");;
               mret true)
              (λ e, is_OSError e || is_ValueError e)
              (λ _, unlink LOCK_FILE;; mret false)
          else mret false);
  if (busy : bool) then mret false
  else write_text LOCK_FILE (pretty pid);; mret true.

Definition release_lock : prog unit :=
  try_except (unlink LOCK_FILE) is_FileNotFoundError (λ _, mret tt).

(** ** Detection *)

(** The free bytes and the free share in per cent. *)
Definition free_space (bavail blocks frsize : Z) : res (Z * num) :=
  let free_bytes := (bavail * frsize)%Z in
  let total_bytes := (blocks * frsize)%Z in
  free_pct ← (if (0 <? total_bytes)%Z
              then f ← int_truediv free_bytes total_bytes;
                   mret (NFloat (float_mul f (float_of_Z 100)))
              else mret (NInt 0));
  mret (free_bytes, free_pct).

Fixpoint detect_loop (candidates : list yval) (min_free_pct : yval) : prog (option (string * Z)) :=
  match candidates with
  | [] => mret None
  | v :: rest =>
      candidate ← lift_res (ystr v);
      mounted ← os_ismount (Path_ candidate);
      if negb mounted then detect_loop rest min_free_pct else
      writable ← os_access_w (Path_ candidate);
      if negb writable then detect_loop rest min_free_pct else
      found ← try_except
        ('(bavail, blocks, frsize) ← os_statvfs (Path_ candidate);
         '(free_bytes, free_pct) ← lift_res (free_space bavail blocks frsize);
         min ← lift_res (ynum min_free_pct);
         mret (if num_ge free_pct min then Some (candidate, free_bytes) else None))
        is_Exception
        (λ e, warning ("Failed to stat " +:+ candidate +:+ ": " +:+ exn_str e);; mret None);
      match found with
      | Some x => mret (Some x)
      | None => detect_loop rest min_free_pct
      end
  end.

Definition detect_export_target (candidates min_free_pct : yval) : prog (option (string * Z)) :=
  l ← lift_res (yiter candidates); detect_loop l min_free_pct.

(** ** Files *)

Definition CHUNK : nat := Z.to_nat 8192.

(** [while chunk := f.read(8192): h.update(chunk)]; every chunk but the last
    empty one takes a byte, so the length of the file bounds the rounds. *)
Fixpoint hash_loop (fuel : nat) (rest : bytes) (h : sha) : prog sha :=
  match fuel with
  | O => mret h
  | S fuel' =>
      syscall None None;;
      match take CHUNK rest with
      | [] => mret h
      | chunk => hash_loop fuel' (drop CHUNK rest) (sha_update h chunk)
      end
  end.

Definition compute_sha256 (filepath : path) : prog string :=
  d ← open_read filepath;
  h ← hash_loop (S (length d)) d sha_init;
  mret (hexdigest h).

(** [age < limit] for an age in ticks and a double in seconds. *)
Definition age_lt (age : Z) (limit : spec_float) : bool :=
  let scaled := match limit with S754_finite s m e => S754_finite s m (e + 22) | f => f end in
  match compare_float_Z scaled age with Some Gt => true | _ => false end.

Definition one_and_half : spec_float := S754_finite false 6755399441055744 (-52).

(** [rotate_seconds * 1.5] *)
Definition quiet_limit (rotate_seconds : yval) : res spec_float :=
  n ← ynum rotate_seconds;
  mret (float_mul (match n with NInt z => float_of_Z z | NFloat f => f end) one_and_half).

Definition is_file_active (filepath : path) (rotate_seconds : yval) : prog bool :=
  try_except
    (n ← stat filepath;
     now ← time_time;
     limit ← lift_res (quiet_limit rotate_seconds);
     mret (age_lt (now - st_mtime n) limit))
    is_Exception (λ _, mret true).

Definition transfer_file (src dst_dir : path) (verify : bool)
    : prog (bool * option string * option string) :=
  try_except
    (makedirs dst_dir;;
     let dst := dst_dir ++ [basename src] in
     dev_src ← stat_dev src;
     dev_dst ← stat_dev dst_dir;
     if bool_decide (dev_src = dev_dst) then
       shutil_move src dst;;
       sha ← (if verify then s ← compute_sha256 dst; mret (Some s) else mret None);
       mret (true, sha, None)
     else
       copy2 src dst;;
       os_sync;;
       if verify then
         src_sha ← compute_sha256 src;
         dst_sha ← compute_sha256 dst;
         if bool_decide (src_sha ≠ dst_sha) then
           unlink dst;;
           mret (false, None, Some ("Checksum mismatch: " +:+ str_take 8 src_sha
                                    +:+ " != " +:+ str_take 8 dst_sha))
         else
           unlink src;;
           mret (true, Some src_sha, None)
       else
         unlink src;;
         mret (true, None, None))
    is_Exception (λ e, mret (false, None, Some (exn_str e))).

(** ** Records on the drive *)

Definition pair_leb (a b : string * string) : bool :=
  if bool_decide (a.1 = b.1) then String.leb a.2 b.2 else String.leb a.1 b.1.

Definition manifest_line (entry : string * string) : string :=
  entry.2 +:+ "  " +:+ entry.1 +:+ nl.

Definition manifest_text (now : tm) (files_with_hashes : list (string * string)) : string :=
  "# SEER PCAP Export Manifest" +:+ nl +:+
  "# Generated: " +:+ isoformat now +:+ nl +:+
  "# Format: sha256  filename" +:+ nl +:+ nl +:+
  join "" (manifest_line <$> sort_by pair_leb files_with_hashes).

Definition write_manifest (directory : path) (files_with_hashes : list (string * string)) : prog unit :=
  let manifest_path := directory ++ ["MANIFEST.txt"] in
  try_except
    (open_write false manifest_path;;
     now ← datetime_now;
     write_bytes manifest_path (encode (manifest_text now files_with_hashes));;
     info ("Wrote manifest: " +:+ show_path manifest_path +:+ " ("
           +:+ pretty (Z.of_nat (length files_with_hashes)) +:+ " files)"))
    is_Exception
    (λ e, error ("Failed to write manifest " +:+ show_path manifest_path +:+ ": " +:+ exn_str e)).

Definition append_transfer_log (drive_root : path) (entries : list json) : prog unit :=
  let log_path := drive_root ++ ["TRANSFER.LOG"] in
  try_except
    (append_text log_path (join "" ((λ e, dumps e +:+ nl) <$> entries)))
    is_Exception
    (λ e, error ("Failed to append to " +:+ show_path log_path +:+ ": " +:+ exn_str e)).

(** ** A batch *)

Record batch := Batch {
  success_count : Z;
  fail_count : Z;
  transferred : list (string * string);
  transfer_log_entries : list json;
}.

Definition opt_json (o : option string) : json :=
  match o with Some s => JStr s | None => JNull end.

Definition result_of (success : bool) (err : option string) : string :=
  if success then "OK"
  else if contains "mismatch" (default "" err) then "VERIFY_FAIL" else "IO_ERROR".

(** The transfer log entry of one file, made after the transfer. *)
Definition make_entry (pcap dest_dir : path) (success : bool) (sha err : option string) : prog json :=
  now ← datetime_now;
  there ← path_exists pcap;
  size ← (if (there : bool) then n ← stat pcap; mret (st_size n) else mret 0%Z);
  mret (JObj [
    ("ts", JStr (isoformat now));
    ("hostname", JStr nodename);
    ("src", JStr (show_path pcap));
    ("dst", JStr (show_path (dest_dir ++ [basename pcap])));
    ("size", JInt size);
    ("sha256", opt_json (match sha with
                         | Some s => if bool_decide (s = "") then None else Some (str_take 16 s)
                         | None => None
                         end));
    ("result", JStr (result_of success err))]).

Definition export_one (dest_dir : path) (rotate_seconds : yval) (b : batch) (pcap : path) : prog batch :=
  active ← is_file_active pcap rotate_seconds;
  if (active : bool) then mret b else
  '(success, sha, err) ← transfer_file pcap dest_dir true;
  entry ← make_entry pcap dest_dir success sha err;
  let entries := transfer_log_entries b ++ [entry] in
  if (success : bool) then
    match sha with
    | Some s =>
        info ("Exported " +:+ basename pcap +:+ " → " +:+ show_path dest_dir
              +:+ " (sha256=" +:+ str_take 8 s +:+ ")");;
        mret (Batch (success_count b + 1) (fail_count b)
                    (transferred b ++ [(basename pcap, s)]) entries)
    | None => raise (TypeError "'NoneType' object is not subscriptable")
    end
  else
    error ("Failed to export " +:+ basename pcap +:+ ": " +:+ default "None" err);;
    mret (Batch (success_count b) (fail_count b + 1) (transferred b) entries).

Fixpoint export_loop (dest_dir : path) (rotate_seconds : yval) (pcaps : list path) (b : batch) : prog batch :=
  match pcaps with
  | [] => mret b
  | pcap :: rest =>
      b' ← export_one dest_dir rotate_seconds b pcap;
      export_loop dest_dir rotate_seconds rest b'
  end.

(** The files of one directory compare by their names. *)
Definition path_leb (p q : path) : bool := String.leb (basename p) (basename q).

Definition export_batch (backlog_dir drive_root : path) (rotate_seconds : yval) : prog (Z * Z) :=
  found ← path_glob backlog_dir "*.pcap*";
  let pcaps := sort_by path_leb found in
  match pcaps with
  | [] => mret (0, 0)%Z
  | _ =>
      info ("Found " +:+ pretty (Z.of_nat (length pcaps)) +:+
            " PCAPs in backlog; starting export to " +:+ show_path drive_root);;
      now ← datetime_now;
      let dest_dir := drive_root ++ ["pcap"; fmt_ymd now] in
      b ← export_loop dest_dir rotate_seconds pcaps (Batch 0 0 [] []);
      (match transferred b with
       | [] => mret tt
       | l => write_manifest dest_dir l
       end);;
      (match transfer_log_entries b with
       | [] => mret tt
       | l => append_transfer_log drive_root l
       end);;
      mret (success_count b, fail_count b)
  end.

(** ** The state file *)

Definition state_json (drive_present : bool) (last_export_ts : option string) (total_exported : Z)
    (updated : string) : json :=
  JObj [("drive_present", JBool drive_present);
        ("last_export_ts", opt_json last_export_ts);
        ("total_exported", JInt total_exported);
        ("updated", JStr updated)].

Definition update_state (drive_present : bool) (last_export_ts : option string) (total_exported : Z)
    : prog unit :=
  now ← datetime_now;
  let state := state_json drive_present last_export_ts total_exported (isoformat now) in
  try_except
    (makedirs (parent STATE_FILE);;
     write_text STATE_FILE (dumps_indent 0 state))
    is_Exception
    (λ e, warning ("Failed to write state file " +:+ show_path STATE_FILE +:+ ": " +:+ exn_str e)).
End Hotswap.

(** ** The main loop

    The loop's variables outlive an exception of one round, so a round is a
    program over the variables and the machine. *)

Record settings := Settings {
  backlog_dir : yval;
  rotate_seconds : yval;
  mount_candidates : yval;
  min_free_pct : yval;
  poll_interval : yval;
}.

Record locals := Locals { total_exported : Z; last_drive_state : bool }.

Abbreviation loop_prog := (io (locals * world)).

Definition on_world {A} (m : prog A) : loop_prog A := λ '(l, w), let '(r, w') := m w in (r, (l, w')).
Definition get_locals : loop_prog locals := λ '(l, w), (Ok l, (l, w)).
Definition set_locals (f : locals → locals) : loop_prog unit := λ '(l, w), (Ok tt, (f l, w)).

Definition from_locals {A} (l : locals) (m : loop_prog A) : prog A := λ w,
  let '(r, (_, w')) := m (l, w) in (r, w').

Definition add_exported (n : Z) (l : locals) : locals :=
  Locals (total_exported l + n) (last_drive_state l).
Definition set_last (b : bool) (l : locals) : locals := Locals (total_exported l) b.

Section Loop.
Context {E : Env} {Y : Yaml}.

(** [time.sleep(v)] *)
Definition time_sleep (v : yval) : prog unit :=
  n ← lift_res (ynum v);
  if num_ge n (NInt 0) then
    if num_gt n (NInt 9223372036)
    then raise (OverflowError "timestamp too large to convert to C PyTime_t")
    else sleep
  else raise (ValueError "sleep length must be non-negative").

Definition load_settings (cfg : yval) : res settings :=
  backlog_dir ← yget cfg "backlog_dir" (YStr "/opt/seer/var/backlog");
  rotate_seconds ← yget2 cfg "capture" "rotate_seconds" (YInt 20);
  mount_candidates ← yget2 cfg "export" "mount_candidates" default_candidates;
  min_free_pct ← yget2 cfg "export" "min_free_pct" (YInt 2);
  poll_interval ← yget2 cfg "export" "poll_interval" (YInt 2);
  mret (Settings backlog_dir rotate_seconds mount_candidates min_free_pct poll_interval).

(** Absent to present: the backlog is drained. *)
Definition on_arrival (cf : settings) (drive_path : string) (free_bytes : Z) : loop_prog unit :=
  on_world (info ("Drive detected: " +:+ drive_path +:+ " (free: "
                  +:+ pretty (free_bytes / 1024 ^ 2)%Z +:+ " MB)"));;
  '(success, fail) ← on_world (
    backlog ← lift_res (ypath (backlog_dir cf));
    export_batch backlog (Path_ drive_path) (rotate_seconds cf));
  set_locals (add_exported success);;
  on_world (if (0 <? success)%Z
            then info ("Backlog drained: " +:+ pretty success +:+ " PCAPs exported, "
                       +:+ pretty fail +:+ " failed")
            else mret tt);;
  l ← get_locals;
  on_world (
    ts ← (if (0 <? success)%Z then now ← datetime_now; mret (Some (isoformat now)) else mret None);
    update_state true ts (total_exported l)).

Definition poll_body (cf : settings) : loop_prog unit :=
  target ← on_world (detect_export_target (mount_candidates cf) (min_free_pct cf));
  l ← get_locals;
  (match target, last_drive_state l with
   | Some (drive_path, free_bytes), false => on_arrival cf drive_path free_bytes
   | None, true =>
       on_world (info "Drive removed; mover will now stage to backlog";;
                 update_state false None (total_exported l))
   | Some _, true => on_world (update_state true None (total_exported l))
   | None, false => mret tt
   end);;
  set_locals (set_last (match target with Some _ => true | None => false end));;
  on_world (time_sleep (poll_interval cf)).

(** One round; the answer is whether the loop goes on. *)
Definition poll (cf : settings) : loop_prog bool :=
  try_except (poll_body cf;; mret true)
    (λ e, is_KeyboardInterrupt e || is_Exception e)
    (λ e, on_world (
      if is_KeyboardInterrupt e
      then info "Received interrupt; shutting down";; mret false
      else error ("Error in main loop: " +:+ exn_str e);;
           time_sleep (poll_interval cf);; mret true)).

(** The loop, observed for [fuel] rounds: after these the observation stops, as
    it does when the process is killed. *)
Fixpoint poll_loop (fuel : nat) (cf : settings) : loop_prog unit :=
  match fuel with
  | O => raise Killed
  | S fuel' => go ← poll cf; if (go : bool) then poll_loop fuel' cf else mret tt
  end.

Definition start_loop : prog settings :=
  cfg ← read_config;
  cf ← lift_res (load_settings cfg);
  info "SEER hotswap service started";;
  info ("  Backlog: " +:+ yshow (backlog_dir cf));;
  cands ← lift_res (yjoin ", " (mount_candidates cf));
  info ("  Mount candidates: " +:+ cands);;
  info ("  Poll interval: " +:+ yshow (poll_interval cf) +:+ "s");;
  mret cf.

Definition main_loop (fuel : nat) : prog unit :=
  cf ← start_loop;
  from_locals (Locals 0 false) (poll_loop fuel cf).

Definition main (fuel : nat) : prog unit :=
  locked ← acquire_lock;
  if negb locked then raise (SystemExit 1)
  else try_finally (main_loop fuel) release_lock.

(** The module: the directory of the logs, the file handler of [logging], which
    opens its file for appending, and [main]. *)
Definition program (fuel : nat) : prog unit :=
  makedirs (parent LOG_FILE);;
  open_write true LOG_FILE;;
  main fuel.
End Loop.
