(* ===== verification/HotswapFacts.v ===== *)
(** * Transfers of the hot-swap service

    The digest of a file, the integrity of a transfer under every schedule of
    failures, transfers in which nothing fails, files still being written. *)
From S2P Require Import Prelude Text Os OsFacts OsQuiet PyNum Config Json Sha256 Hotswap Scenario.
From Stdlib Require Import SpecFloat.

(** ** The digest of a file *)

Lemma CHUNK_pos : 0 < CHUNK.
Proof. unfold CHUNK. lia. Qed.

Section Digest.
Context {E : Env}.

Lemma hash_loop_same fuel rest h : only same_disk (hash_loop fuel rest h).
Proof. revert rest h. induction fuel as [|fuel IH]; intros rest h; cbn [hash_loop]; solve_only. Qed.

Lemma compute_sha256_same p : only same_disk (compute_sha256 p).
Proof.
  unfold compute_sha256. solve_only. apply hash_loop_same.
Qed.

(** One round takes a chunk off the front. *)
Lemma hash_step fuel rest h w :
  length rest < S fuel → sha_ok h →
  hash_loop (S fuel) rest h w =
    match syscall None None w with
    | (Ok _, w') => if bool_decide (rest = []) then (Ok h, w')
                    else hash_loop fuel (drop CHUNK rest) (sha_update h (take CHUNK rest)) w'
    | (Err e, w') => (Err e, w')
    end.
Proof.
  intros Hl Hh. cbn [hash_loop]. unfold mbind, io_bind.
  destruct (syscall None None w) as [[[]|e] w']; [|done].
  pose proof CHUNK_pos as Hc. destruct rest as [|b rest].
  - by rewrite take_nil.
  - rewrite bool_decide_false by done. by destruct CHUNK; [lia|].
Qed.

Lemma wp_hash_loop fuel rest h w :
  length rest < fuel → sha_ok h →
  wp (hash_loop fuel rest h) (λ r _, ∀ h', r = Ok h' → h' = sha_update h rest) w.
Proof.
  revert rest h w. induction fuel as [|fuel IH]; intros rest h w Hl Hh; [lia|].
  unfold wp. rewrite hash_step by done.
  destruct (syscall None None w) as [[[]|e] w']; [|done]. case_bool_decide as Hr.
  - subst. simpl. intros h' [= <-]. by rewrite sha_update_nil.
  - pose proof CHUNK_pos as Hc. intros h' Hh'.
    assert (length (drop CHUNK rest) < fuel) as Hd.
    { rewrite length_drop. destruct rest; [done|]. cbn [length] in *. lia. }
    pose proof (IH _ _ w' Hd (sha_update_ok h (take CHUNK rest)) h' Hh') as ->.
    by rewrite sha_update_app, take_drop.
Qed.

(** Whatever fails, a digest that is returned is that of the whole file. *)
Lemma wp_compute_sha256 p w :
  wp (compute_sha256 p) (λ r w', same_disk w w' ∧ ∀ s, r = Ok s →
     ∃ d t, node_at w p = Some (File d t) ∧ s = sha256 d) w.
Proof.
  split; [apply compute_sha256_same|].
  enough (wp (compute_sha256 p) (λ r _, ∀ s, r = Ok s →
    ∃ d t, node_at w p = Some (File d t) ∧ s = sha256 d) w) as Hw by exact Hw.
  unfold compute_sha256. apply wp_bind. eapply wp_mono; [apply wp_open_read|].
  intros [d|e] w1 [_ Hd]; [|done]. destruct (Hd d eq_refl) as [t Ht]. apply wp_bind.
  eapply wp_mono; [apply wp_hash_loop; [lia|apply sha_init_ok]|].
  intros [h|e] w2 Hh; [|done]. apply wp_ret. intros s [= <-].
  exists d, t. split; [done|]. unfold sha256. by rewrite (Hh h eq_refl).
Qed.

Lemma hash_loop_q (no_fault : ∀ n, fault n = None) fuel rest h w :
  length rest < fuel → sha_ok h → returns (hash_loop fuel rest h) w.
Proof.
  revert rest h w. induction fuel as [|fuel IH]; intros rest h w Hl Hh; [lia|].
  unfold returns. rewrite hash_step, syscall_q by done. case_bool_decide as Hr; [by eexists _, _|].
  apply IH; [|apply sha_update_ok]. rewrite length_drop. pose proof CHUNK_pos as Hc.
  destruct rest; [done|]. cbn [length] in *. lia.
Qed.

Lemma compute_sha256_q (no_fault : ∀ n, fault n = None) p d t w :
  node_at w p = Some (File d t) → ∃ w', compute_sha256 p w = (Ok (sha256 d), w') ∧ same_disk w w'.
Proof.
  intros Hp. assert (returns (compute_sha256 p) w) as (s & w' & Hs).
  { apply returns_bind; [eexists _, _; by eapply open_read_q|]. intros d' w1 _.
    apply returns_bind; [|intros; by eexists _, _]. apply hash_loop_q; [done|lia|apply sha_init_ok]. }
  destruct (wp_run _ _ _ _ _ Hs (wp_compute_sha256 p w)) as [Hsame Hd].
  destruct (Hd s eq_refl) as (d' & t' & Hn & ->). rewrite Hp in Hn. injection Hn as <- <-.
  by exists w'.
Qed.
End Digest.
#[export] Hint Resolve compute_sha256_same : io.

(** ** One transfer

    The copy is compared with the source before the source is deleted.  So for
    every schedule of failures, interrupts and kills, and whatever the drive
    does to what is written, a file is still in the backlog or the drive holds
    a file with its digest. *)

(** The destination of a transfer. *)
Definition dest (dst_dir src : path) : path := dst_dir ++ [basename src].

Definition cross_device (w : world) (src dst_dir : path) : Prop :=
  (locate (mounts w) src).1 ≠ (locate (mounts w) dst_dir).1.

(** The file system holds the file at [q], or a copy made by the system. *)
Definition holds {E : Env} (q : path) (d : bytes) (t : Z) (w : world) : Prop :=
  ∃ d', node_at w q = Some (File d' t) ∧ (d' = d ∨ ∃ n, d' = bitrot n d).

(** The outcome [r] of a transfer of the file [d] modified at [t]. *)
Definition transfer_post {E : Env} (src dst_dir : path) (d : bytes) (t : Z) (w : world)
    (r : res (bool * option string * option string)) (w' : world) : Prop :=
  match r with
  | Ok (true, sha, err) =>
      node_at w' src = None ∧ err = None ∧
      ∃ d', node_at w' (dest dst_dir src) = Some (File d' t) ∧ sha = Some (sha256 d') ∧
            (d' = d ∨ ∃ n, d' = bitrot n d) ∧
            (cross_device w src dst_dir → sha256 d' = sha256 d)
  | _ =>
      node_at w' src = Some (File d t) ∨
      (¬ cross_device w src dst_dir ∧ node_at w' src = None ∧
       ∃ q, q ∈ move_dests src (dest dst_dir src) ∧ holds q d t w')
  end.

Section Transfer.
Context {E : Env} (src dst_dir : path).

Lemma wp_stat_dev p w :
  wp (stat_dev p) (λ r w', same_disk w w' ∧ ∀ n, r = Ok n → n = (locate (mounts w) p).1) w.
Proof.
  split; [apply stat_dev_same|]. unfold stat_dev, mbind, io_bind, get.
  pose proof (stat_same p w) as Hs. destruct (stat p w) as [[n|e] w']; simpl in *; [|done].
  intros m [= <-]. by destruct Hs as [_ ->].
Qed.

(** The state of the disk at the start of the transfer proper. *)
Definition ready (d : bytes) (t : Z) (w : world) : Prop :=
  node_at w src = Some (File d t) ∧ plain_dir (mounts w) dst_dir ∧ apart (mounts w) src dst_dir.

Lemma ready_apart d t w q :
  ready d t w → q ∈ move_dests src (dest dst_dir src) → apart (mounts w) src q.
Proof.
  intros (_ & Hp & Ha). unfold move_dests, dest. rewrite !elem_of_cons, elem_of_nil.
  intros [->|[->|[->|[]]]]; rewrite <-?(assoc_L (++)); by apply apart_below.
Qed.

Lemma ready_same d t w w' : ready d t w → same_disk w w' → ready d t w'.
Proof.
  intros (Hn & Hp & Ha) Hs. unfold ready. rewrite (same_disk_node w w') by done.
  by destruct Hs as [_ ->].
Qed.

Lemma ready_writes d t w w' :
  ready d t w → writes (copy_dests src (dest dst_dir src)) w w' → ready d t w'.
Proof.
  intros Hr Hw. pose proof Hr as (Hn & Hp & Ha). unfold ready.
  rewrite (writes_node _ _ _ _ Hw); [by destruct Hw as [-> _]|].
  intros q Hq. apply (ready_apart d t w); [done|]. unfold copy_dests, move_dests in *. set_solver.
Qed.

(** The source and its directory of destination on one file system. *)
Definition move_branch : prog (bool * option string * option string) :=
  shutil_move src (dest dst_dir src);;
  sha ← (s ← compute_sha256 (dest dst_dir src); mret (Some s));
  mret (true, sha, None).

Lemma wp_move_branch d t w :
  ready d t w → ¬ cross_device w src dst_dir →
  wp move_branch
    (λ r w', writes (src :: move_dests src (dest dst_dir src)) w w' ∧
             transfer_post src dst_dir d t w r w') w.
Proof.
  intros Hready Hdev. pose proof Hready as (Hn & _ & _). unfold move_branch.
  set (dst := dest dst_dir src) in *. apply wp_bind.
  pose proof (shutil_move_stay src dst d t w Hn) as Hstay.
  assert (wp (shutil_move src dst) (λ r w', (writes (src :: move_dests src dst) w w' ∧
       (node_at w dst ≠ Some Dir → writes [src; dst] w w') ∧
       match r with
       | Ok _ => moved src dst d t w w'
       | Err _ => node_at w' src = Some (File d t)
       end) ∧ dirs_stay w w') w) as Hmove.
  { split; [|done]. apply wp_shutil_move; [done| |].
    - intros q Hq. by apply (ready_apart d t w).
    - intros q Hq p ->%list_elem_of_singleton. by apply (ready_apart d t w). }
  eapply wp_mono; [exact Hmove|]. clear Hmove Hstay. intros [[]|e] w1 [(Hw1 & _ & Hm) Hstay];
    [|split; [done|by left]].
  destruct Hm as (Hgone & q & d' & Hq & Hqd & Hnode & Hd').
  apply wp_bind, wp_bind. eapply wp_mono; [apply wp_compute_sha256|].
  intros [s|e] w2 [Hw2 Hs];
    (assert (writes (src :: move_dests src dst) w w2) as Hw12 by
      (etrans; [done|by apply same_disk_writes])).
  - destruct (Hs s eq_refl) as (d2 & t2 & Hd2 & ->). apply wp_ret. split; [done|].
    assert (q = dst) as ->.
    { apply Hqd. intros Hdir. apply (dirs_stay_node w w1) in Hdir; [congruence|done]. }
    rewrite Hnode in Hd2. injection Hd2 as <- <-. split_and!; [by rewrite (same_disk_node w1 w2)|done|].
    exists d'. rewrite (same_disk_node w1 w2) by done. by split_and!.
  - split; [done|]. right. split_and!; [done|by rewrite (same_disk_node w1 w2)|].
    exists q. split; [done|]. exists d'. by rewrite (same_disk_node w1 w2).
Qed.

(** Different file systems. *)
Definition copy_branch : prog (bool * option string * option string) :=
  copy2 src (dest dst_dir src);;
  os_sync;;
  src_sha ← compute_sha256 src;
  dst_sha ← compute_sha256 (dest dst_dir src);
  if bool_decide (src_sha ≠ dst_sha) then
    unlink (dest dst_dir src);;
    mret (false, None, Some ("Checksum mismatch: " +:+ str_take 8 src_sha
                             +:+ " != " +:+ str_take 8 dst_sha))
  else
    unlink src;;
    mret (true, Some src_sha, None).

Abbreviation dst := (dest dst_dir src).
Abbreviation transfer_paths := (src :: move_dests src dst).

(** As long as only the copy was written, the source is as it was. *)
Lemma copy_kept d t w w1 r :
  ready d t w → writes (copy_dests src dst) w w1 → (∀ b, r ≠ Ok (true, b.1, b.2)) →
  writes transfer_paths w w1 ∧ transfer_post src dst_dir d t w r w1.
Proof.
  intros Hready Hw1 Hr. split.
  - eapply writes_mono; [|exact Hw1]. unfold copy_dests, move_dests. set_solver.
  - destruct (ready_writes d t w w1 Hready Hw1) as (Hs & _ & _).
    destruct r as [[[[] x] y]|e]; [by destruct (Hr (x, y))|by left..].
Qed.

(** The source is deleted once the copy has its digest. *)
Lemma wp_delete_source d t w w1 n :
  ready d t w → writes (copy_dests src dst) w w1 → node_at w1 dst = Some (File (bitrot n d) t) →
  sha256 d = sha256 (bitrot n d) →
  wp (unlink src;; mret (true, Some (sha256 d), None))
    (λ r w', writes transfer_paths w w' ∧ transfer_post src dst_dir d t w r w') w1.
Proof.
  intros Hready Hw1 Hcopy Hsha. apply wp_bind. eapply wp_mono; [apply wp_unlink|]. intros r w2 [Hw2 Hu].
  assert (writes transfer_paths w w2) as Hw.
  { etrans; (eapply writes_mono; [|eassumption]); unfold copy_dests, move_dests; set_solver. }
  destruct r as [[]|e]; (split; [exact Hw|]).
  - split_and!; [done|done|]. exists (bitrot n d). split_and!; [|by rewrite Hsha|by eauto|done].
    rewrite (writes_node _ _ _ _ Hw2); [done|].
    apply outside_of_one. destruct Hw1 as [-> _]. apply (ready_apart d t w); [done|left].
  - left. rewrite Hu. by destruct (ready_writes d t w w1 Hready Hw1) as (? & _ & _).
Qed.

Lemma wp_copy_branch d t w :
  ready d t w → cross_device w src dst_dir →
  wp copy_branch (λ r w', writes transfer_paths w w' ∧ transfer_post src dst_dir d t w r w') w.
Proof.
  intros Hready Hdev. pose proof Hready as (Hn & _ & _). unfold copy_branch.
  apply wp_bind. eapply wp_mono.
  { apply (wp_and_only dirs_stay); [apply copy2_stay|]. apply wp_copy2; [exact Hn|]. intros q Hq.
    apply (ready_apart d t w); [done|]. unfold copy_dests, move_dests in *. set_solver. }
  intros [[]|e] w1 [(Hw1 & _ & Hc) Hstay]; [|by apply copy_kept].
  destruct (Hc eq_refl) as (q & n & Hq & Hcopied & Hqd).
  assert (∀ w2, same_disk w1 w2 → writes (copy_dests src dst) w w2) as Hsame
    by (intros w2 Hw2; etrans; [exact Hw1|by apply same_disk_writes]).
  apply wp_bind, (wp_only same_disk); [apply os_sync_same|]. intros [[]|e] w2 Hw2; [|by apply copy_kept; auto].
  apply wp_bind. eapply wp_mono; [apply wp_compute_sha256|]. intros [s1|e] w3 [Hw3 Hs1];
    (assert (same_disk w1 w3) as Hw13 by by etrans); [|by apply copy_kept; auto].
  apply wp_bind. eapply wp_mono; [apply wp_compute_sha256|]. intros [s2|e] w4 [Hw4 Hs2];
    (assert (same_disk w1 w4) as Hw14 by by etrans); [|by apply copy_kept; auto].
  case_bool_decide as Hsha.
  - apply wp_bind. eapply wp_mono; [apply wp_unlink|]. intros [[]|e] w5 [Hw5 _];
      apply copy_kept; try done; (etrans; [by apply Hsame|]); (eapply writes_mono; [|exact Hw5]);
      unfold copy_dests; set_solver.
  - destruct (Hs1 s1 eq_refl) as (d1 & t1 & Hd1 & ->), (Hs2 s2 eq_refl) as (d2 & t2 & Hd2 & ->).
    destruct (ready_writes d t w w2 Hready (Hsame w2 Hw2)) as (Hn2 & _ & _).
    rewrite Hn2 in Hd1. injection Hd1 as <- <-. rewrite (same_disk_node w1 w3) in Hd2 by done.
    assert (q = dst) as ->.
    { apply Hqd. intros Hdir. apply (dirs_stay_node w w1) in Hdir; [congruence|done]. }
    rewrite Hcopied in Hd2. injection Hd2 as <- <-.
    apply (wp_delete_source d t w w4 n); [done|by apply Hsame|by rewrite (same_disk_node w1 w4)|].
    by destruct (decide (sha256 d = sha256 (bitrot n d))); [|destruct Hsha].
Qed.
End Transfer.

(** What making the directory of destination does. *)
Definition making (D : path) : relation world := λ w w',
  touches [] w w' ∧ writes (prefixes D) w w' ∧ dirs_stay w w'.

#[global] Instance making_preorder D : PreOrder (making D).
Proof.
  split; [intros w; split_and!; reflexivity|].
  intros w1 w2 w3 (? & ? & ?) (? & ? & ?). split_and!; by etrans.
Qed.

Lemma same_disk_making D w w' : same_disk w w' → making D w w'.
Proof. intros Hs. split_and!; [by apply same_disk_touches|by apply same_disk_writes|by apply same_disk_stay]. Qed.

(** What a transfer may change. *)
Definition transferring (src dst_dir : path) : relation world := λ w w',
  let P := src :: move_dests src (dest dst_dir src) in
  touches P w w' ∧ writes (prefixes dst_dir ++ P) w w' ∧ dirs_stay w w'.

Section TransferFile.
Context {E : Env} (src dst_dir : path).

Lemma makedirs_making : only (making dst_dir) (makedirs dst_dir).
Proof. intros w. split_and!; [apply makedirs_touches|apply makedirs_writes|apply makedirs_stay]. Qed.

Lemma branches_stay d t w :
  ready src dst_dir d t w →
  dirs_stay w (move_branch src dst_dir w).2 ∧ dirs_stay w (copy_branch src dst_dir w).2.
Proof.
  intros (Hn & _ & _). split.
  - enough (wp (move_branch src dst_dir) (λ _ w', dirs_stay w w') w) as Hw by exact Hw.
    unfold move_branch. apply wp_bind. unfold wp at 1.
    pose proof (shutil_move_stay src (dest dst_dir src) d t w Hn) as Hs.
    destruct (shutil_move _ _ w) as [[[]|e] w1]; simpl in *; [|done].
    apply (wp_only same_disk); [solve_only|]. intros _ w2 Hw2. etrans; [done|by apply same_disk_stay].
  - assert (only dirs_stay (copy_branch src dst_dir)) as Ho; [|apply Ho]. unfold copy_branch. solve_only.
Qed.

Lemma making_ready d t w w1 :
  ready src dst_dir d t w → making dst_dir w w1 →
  ready src dst_dir d t w1 ∧ transferring src dst_dir w w1.
Proof.
  intros (Hn & Hp & Ha) (Ht & Hw & Hs). split.
  - split; [eapply touches_file; [exact Ht| |done]|by destruct Ht as [-> _]].
    intros q Hq. by apply not_elem_of_nil in Hq.
  - split_and!; [eapply touches_mono; [|exact Ht]; apply list_subseteq_nil| |done].
    eapply writes_mono; [|exact Hw]. by apply list_subseteq_app_l.
Qed.

Lemma wp_transfer_file d t w :
  ready src dst_dir d t w →
  wp (transfer_file src dst_dir true)
    (λ r w', transferring src dst_dir w w' ∧ transfer_post src dst_dir d t w r w') w.
Proof.
  intros Hready. unfold transfer_file. apply wp_try.
  apply (wp_mono _ (λ r w', transferring src dst_dir w w' ∧ transfer_post src dst_dir d t w r w')).
  2:{ intros [[[[] sha] err]|e] w' [Ht Hp]; [done|done|].
      destruct (is_Exception e); [apply wp_ret|]; done. }
  assert (∀ w1 e, making dst_dir w w1 →
    transferring src dst_dir w w1 ∧ transfer_post src dst_dir d t w (Err e) w1) as Herr.
  { intros w1 e Hw1. destruct (making_ready d t w w1 Hready Hw1) as [(Hn & _ & _) ?].
    split; [done|by left]. }
  apply wp_bind, (wp_only (making dst_dir)); [apply makedirs_making|].
  intros [[]|e] w1 Hw1; [|by apply Herr].
  cbv zeta. fold (dest dst_dir src).
  apply wp_bind. eapply wp_mono; [apply wp_stat_dev|]. intros [d1|e] w2 [Hw2 Hd1];
    (assert (making dst_dir w w2) as Hw02 by (etrans; [done|by apply same_disk_making])); [|by apply Herr].
  apply wp_bind. eapply wp_mono; [apply wp_stat_dev|]. intros [d2|e] w3 [Hw3 Hd2];
    (assert (making dst_dir w w3) as Hw03 by (etrans; [done|by apply same_disk_making])); [|by apply Herr].
  rewrite (Hd1 d1 eq_refl), (Hd2 d2 eq_refl).
  destruct (making_ready d t w w3 Hready Hw03) as [Hready3 HP3].
  assert (mounts w1 = mounts w ∧ mounts w2 = mounts w ∧ mounts w3 = mounts w) as (Hm1 & Hm2 & Hm3)
    by (destruct Hw1 as [[] _], Hw02 as [[] _], Hw03 as [[] _]; done). rewrite Hm1, Hm2.
  assert (∀ r w', (writes (src :: move_dests src (dest dst_dir src)) w3 w' ∧
      transfer_post src dst_dir d t w3 r w') ∧ dirs_stay w3 w' →
    transferring src dst_dir w w' ∧ transfer_post src dst_dir d t w r w') as Hdone.
  { intros r w' [[Hw' Hp] Hs']. destruct HP3 as (Ht3 & Hwr3 & Hs3). split.
    - split_and!; [etrans; [exact Ht3|by apply writes_touches]| |by etrans].
      etrans; [exact Hwr3|]. eapply writes_mono; [|exact Hw']. by apply list_subseteq_app_r.
    - unfold transfer_post, cross_device in *. by rewrite Hm3 in Hp. }
  destruct (branches_stay d t w3 Hready3) as [Hms Hcs].
  case_bool_decide as Hdev; (eapply wp_mono; [|exact Hdone]); split; try done;
    [apply wp_move_branch|apply wp_copy_branch]; try done; unfold cross_device; rewrite Hm3; tauto.
Qed.
End TransferFile.

(** C4.  A transfer to another file system, with any system call failing, being
    interrupted or killing the process, and with any corruption of what is
    written: unless it reports success the source is as it was, and when it
    reports success the destination holds a file with the digest of the source,
    which is the digest that is returned. *)
Theorem transfer_file_integrity {E : Env} (src dst_dir : path) d t w :
  node_at w src = Some (File d t) → plain_dir (mounts w) dst_dir → apart (mounts w) src dst_dir →
  cross_device w src dst_dir →
  match transfer_file src dst_dir true w with
  | (Ok (true, sha, _), w') =>
      sha = Some (sha256 d) ∧ node_at w' src = None ∧
      ∃ d', node_at w' (dst_dir ++ [basename src]) = Some (File d' t) ∧ sha256 d' = sha256 d
  | (_, w') => node_at w' src = Some (File d t)
  end.
Proof.
  intros Hn Hp Ha Hdev. destruct (wp_transfer_file src dst_dir d t w) as [_ Hpost]; [done|].
  destruct (transfer_file src dst_dir true w) as [[[[[] sha] err]|e] w']; simpl in Hpost.
  - destruct Hpost as (Hgone & _ & d' & Hd & -> & _ & Hsha). specialize (Hsha Hdev).
    split_and!; [congruence|done|]. by exists d'.
  - destruct Hpost as [?|[]]; [done|tauto].
  - destruct Hpost as [?|[]]; [done|tauto].
Qed.

(** ** Transfers in which nothing fails *)

Section TransferQuiet.
Context {E : Env} (no_fault : ∀ n, fault n = None) (src dst_dir : path).

Lemma os_sync_q w : os_sync w = (Ok tt, tick w).
Proof. unfold os_sync, try_except. by rewrite syscall_q. Qed.

Lemma stat_dev_q p n w :
  node_at w p = Some n → stat_dev p w = (Ok (locate (mounts w) p).1, tick w).
Proof. intros Hp. unfold stat_dev. by rewrite (bind_ok _ _ _ _ _ (stat_q_ok no_fault _ _ _ Hp)). Qed.

(** Up to the move or the copy. *)
Lemma transfer_starts d t w :
  ready src dst_dir d t w → one_mount (mounts w) →
  node_at w (dest dst_dir src) ≠ Some Dir →
  (∀ k d t, node_at w (take k dst_dir) ≠ Some (File d t)) →
  ∃ w', dir_ready w' dst_dir ∧ ready src dst_dir d t w' ∧
    node_at w' dst_dir = Some Dir ∧ node_at w' (dest dst_dir src) ≠ Some Dir ∧
    transfer_file src dst_dir true w =
      try_except (if bool_decide ((locate (mounts w) src).1 = (locate (mounts w) dst_dir).1)
                  then move_branch src dst_dir else copy_branch src dst_dir)
        is_Exception (λ e, mret (false, None, Some (exn_str e))) w'.
Proof.
  intros (Hn & Hp & Ha) Hone Hdst Hfree.
  destruct (makedirs_q no_fault dst_dir w Hfree) as [([] & w1 & Hw1) Hmade].
  pose proof (makedirs_touches [] dst_dir w) as Ht. rewrite Hw1 in Ht, Hmade. simpl in Ht, Hmade.
  pose proof (dir_ready_self _ _ Hmade) as Hdir.
  assert (node_at w1 (dest dst_dir src) = node_at w (dest dst_dir src)) as Hd1.
  { replace w1 with (makedirs dst_dir w).2 by (by rewrite Hw1). apply makedirs_node; [done|].
    unfold dest. intros Hk%prefix_length. rewrite length_app in Hk. simpl in Hk. lia. }
  assert (mounts w1 = mounts w) as Hm1 by apply Ht.
  assert (node_at w1 src = Some (File d t)) as Hn1.
  { eapply touches_file; [exact Ht| |done]. intros q Hq. by apply not_elem_of_nil in Hq. }
  exists (tick (tick w1)). split_and!; [done|..].
  - unfold ready. by rewrite !node_at_tick, Hn1; simpl; rewrite Hm1.
  - done.
  - by rewrite !node_at_tick, Hd1.
  - unfold transfer_file, try_except. rewrite (bind_ok _ _ _ _ _ Hw1). cbv zeta.
    rewrite (bind_ok _ _ _ _ _ (stat_dev_q src _ w1 Hn1)).
    rewrite (bind_ok _ _ _ _ _ (stat_dev_q dst_dir Dir (tick w1) Hdir)).
    change (mounts (tick w1)) with (mounts w1). rewrite Hm1. by case_bool_decide.
Qed.

Lemma ready_copy_dests d t w :
  ready src dst_dir d t w → outside_of (mounts w) (copy_dests src (dest dst_dir src)) (locate (mounts w) src).
Proof.
  intros Hr q Hq. apply (ready_apart src dst_dir d t w); [done|].
  unfold copy_dests, move_dests in *. set_solver.
Qed.

Lemma move_branch_q d t w :
  ready src dst_dir d t w → node_at w dst_dir = Some Dir → node_at w (dest dst_dir src) ≠ Some Dir →
  ∃ w' d', move_branch src dst_dir w = (Ok (true, Some (sha256 d'), None), w') ∧
    node_at w' src = None ∧ node_at w' (dest dst_dir src) = Some (File d' t) ∧
    (d' = d ∨ ∃ n, d' = bitrot n d).
Proof.
  intros Hr Hdir Hdst. pose proof Hr as (Hn & _ & _).
  destruct (shutil_move_q no_fault src (dest dst_dir src) d t w) as ([] & w1 & Hw1);
    [done|done|by unfold dest; rewrite parent_app|by apply (ready_copy_dests d t)|].
  destruct (wp_run _ _ _ _ _ Hw1 (wp_shutil_move src (dest dst_dir src) d t w Hn
    ltac:(intros q Hq; by apply (ready_apart src dst_dir d t w))
    ltac:(intros q Hq p ->%list_elem_of_singleton; by apply (ready_apart src dst_dir d t w))))
    as (_ & _ & Hgone & q & d' & _ & Hq & Hnode & Hd').
  rewrite (Hq Hdst) in Hnode.
  destruct (compute_sha256_q no_fault (dest dst_dir src) d' t w1 Hnode) as (w2 & Hw2 & Hs2).
  exists w2, d'. rewrite !(same_disk_node w1 w2) by done. split_and!; [|done..].
  unfold move_branch. rewrite (bind_ok _ _ _ _ _ Hw1). unfold mbind, io_bind. by rewrite Hw2.
Qed.

(** A copy to another file system that cannot fail: the digests decide. *)
Lemma copy_branch_q d t w :
  ready src dst_dir d t w → node_at w dst_dir = Some Dir → node_at w (dest dst_dir src) ≠ Some Dir →
  ∃ w' n r, copy_branch src dst_dir w = (Ok r, w') ∧
    if decide (sha256 d = sha256 (bitrot n d))
    then r = (true, Some (sha256 d), None) ∧ node_at w' src = None ∧
         node_at w' (dest dst_dir src) = Some (File (bitrot n d) t)
    else r = (false, None, Some ("Checksum mismatch: " +:+ str_take 8 (sha256 d) +:+ " != "
                                 +:+ str_take 8 (sha256 (bitrot n d)))) ∧
         node_at w' src = Some (File d t) ∧ node_at w' (dest dst_dir src) = None.
Proof.
  intros Hr Hdir Hdst. pose proof Hr as (Hn & _ & _). set (dst := dest dst_dir src) in *.
  pose proof (ready_copy_dests d t w Hr) as Hout. fold dst in Hout.
  destruct (copy2_q no_fault src dst d t w) as ([] & w1 & Hw1).
  { done. }
  { split; [done|]. intros _. unfold dst, dest. by rewrite parent_app. }
  { intros q ->%list_elem_of_singleton. apply Hout. unfold copy_dests. set_solver. }
  destruct (wp_run _ _ _ _ _ Hw1 (wp_copy2 src dst d t w Hn Hout)) as (Hwr & _ & Hc).
  destruct (Hc eq_refl) as (q & n & _ & Hcopy & Hq). rewrite (Hq Hdst) in Hcopy. clear Hc Hq.
  destruct (ready_writes src dst_dir d t w w1 Hr Hwr) as (Hn1 & Hp1 & Ha1).
  assert (apart (mounts w1) src dst) as Hapart by (by apply apart_below).
  destruct (compute_sha256_q no_fault src d t (tick w1) Hn1) as (w2 & Hw2 & Hs2).
  destruct (compute_sha256_q no_fault dst (bitrot n d) t w2) as (w3 & Hw3 & Hs3).
  { by rewrite (same_disk_node (tick w1) w2). }
  assert (same_disk w1 w3) as Hs by (etrans; [exact Hs2|exact Hs3]).
  rewrite <-(same_disk_node w1 w3) in Hn1, Hcopy by done.
  assert (mounts w3 = mounts w1) as Hm3 by apply Hs.
  unfold copy_branch. fold dst. rewrite (bind_ok _ _ _ _ _ Hw1), (bind_ok _ _ _ _ _ (os_sync_q w1)),
    (bind_ok _ _ _ _ _ Hw2), (bind_ok _ _ _ _ _ Hw3).
  destruct (decide (sha256 d = sha256 (bitrot n d))) as [Heq|Hne].
  - rewrite bool_decide_false by tauto. destruct (unlink_q no_fault src d t w3 Hn1) as ([] & w4 & Hw4).
    destruct (wp_run _ _ _ _ _ Hw4 (wp_unlink src w3)) as [Hwr4 Hgone].
    rewrite (bind_ok _ _ _ _ _ Hw4). eexists w4, n, _. split; [reflexivity|].
    rewrite decide_True by done. split_and!; [done|done|].
    rewrite (writes_node _ _ _ _ Hwr4); [done|]. rewrite Hm3. by apply outside_of_one.
  - rewrite bool_decide_true by done. destruct (unlink_q no_fault dst _ t w3 Hcopy) as ([] & w4 & Hw4).
    destruct (wp_run _ _ _ _ _ Hw4 (wp_unlink dst w3)) as [Hwr4 Hgone].
    rewrite (bind_ok _ _ _ _ _ Hw4). eexists w4, n, _. split; [reflexivity|].
    rewrite decide_False by done. split_and!; [done| |done].
    rewrite (writes_node _ _ _ _ Hwr4); [done|]. rewrite Hm3. by apply outside_of_one, apart_sym.
Qed.
End TransferQuiet.

(** The outcome of a transfer when nothing fails and the devices keep what is
    written. *)
Lemma transfer_file_q {E : Env} (src dst_dir : path) d t w :
  (∀ n, fault n = None) → (∀ n b, bitrot n b = b) →
  ready src dst_dir d t w → one_mount (mounts w) → node_at w (dest dst_dir src) ≠ Some Dir →
  (∀ k d t, node_at w (take k dst_dir) ≠ Some (File d t)) →
  ∃ w', transfer_file src dst_dir true w = (Ok (true, Some (sha256 d), None), w') ∧
    node_at w' src = None ∧ node_at w' (dest dst_dir src) = Some (File d t) ∧
    dir_ready w' dst_dir ∧ transferring src dst_dir w w'.
Proof.
  intros Hq Hb Hready Hone Hdst Hfree.
  destruct (transfer_starts Hq src dst_dir d t w) as (w1 & Hmade & Hr & Hdir & Hd1 & Heq); [done..|].
  pose proof (wp_transfer_file src dst_dir d t w Hready) as [Htr _].
  destruct (branches_stay src dst_dir d t w1 Hr) as [Hs1 Hs2].
  rewrite Heq in Htr |- *. unfold try_except in *. case_bool_decide.
  - destruct (move_branch_q Hq src dst_dir d t w1) as (w2 & d' & Hw2 & Hgone & Hnode & Hd'); [done..|].
    rewrite Hw2 in Htr, Hs1 |- *. simpl in Htr, Hs1.
    assert (d' = d) as -> by (destruct Hd' as [?|[n Hd']]; [done|by rewrite Hd', Hb]).
    exists w2. split_and!; try done. intros k. by eapply dirs_stay_node.
  - destruct (copy_branch_q Hq src dst_dir d t w1) as (w2 & n & r & Hw2 & Hc); [done..|].
    rewrite Hb in Hc. rewrite decide_True in Hc by done. destruct Hc as (-> & ? & ?).
    rewrite Hw2 in Htr, Hs2 |- *. simpl in Htr, Hs2.
    exists w2. split_and!; try done. intros k. by eapply dirs_stay_node.
Qed.

(** C5.  When no call fails and the devices keep what is written, a transfer
    succeeds, on one file system or across two: it returns the digest of the
    file, which is gone from the source and at the destination, unchanged and
    with its modification time. *)
Theorem transfer_file_succeeds {E : Env} (src dst_dir : path) d t w :
  (∀ n, fault n = None) → (∀ n b, bitrot n b = b) →
  node_at w src = Some (File d t) → plain_dir (mounts w) dst_dir → apart (mounts w) src dst_dir →
  one_mount (mounts w) → node_at w (dst_dir ++ [basename src]) ≠ Some Dir →
  (∀ k d t, node_at w (take k dst_dir) ≠ Some (File d t)) →
  ∃ w', transfer_file src dst_dir true w = (Ok (true, Some (sha256 d), None), w') ∧
    node_at w' src = None ∧ node_at w' (dst_dir ++ [basename src]) = Some (File d t).
Proof.
  intros Hq Hb Hn Hp Ha Hone Hdst Hfree.
  destruct (transfer_file_q src dst_dir d t w) as (w' & Hw' & Hgone & Hnode & _); [done..|].
  by exists w'.
Qed.

(** C6.  When no call fails but the drive corrupts what is written to it so that
    the digests differ, the transfer reports the mismatch, the source is as it
    was, and the corrupt copy is deleted. *)
Theorem transfer_file_rejects {E : Env} (src dst_dir : path) d t w :
  (∀ n, fault n = None) → (∀ n, sha256 (bitrot n d) ≠ sha256 d) →
  node_at w src = Some (File d t) → plain_dir (mounts w) dst_dir → apart (mounts w) src dst_dir →
  one_mount (mounts w) → cross_device w src dst_dir →
  node_at w (dst_dir ++ [basename src]) ≠ Some Dir →
  (∀ k d t, node_at w (take k dst_dir) ≠ Some (File d t)) →
  ∃ w' n, transfer_file src dst_dir true w =
      (Ok (false, None, Some ("Checksum mismatch: " +:+ str_take 8 (sha256 d) +:+ " != "
                              +:+ str_take 8 (sha256 (bitrot n d)))), w') ∧
    node_at w' src = Some (File d t) ∧ node_at w' (dst_dir ++ [basename src]) = None.
Proof.
  intros Hq Hb Hn Hp Ha Hone Hdev Hdst Hfree.
  destruct (transfer_starts Hq src dst_dir d t w) as (w1 & _ & Hr & Hdir & Hd1 & ->); [done..|].
  unfold try_except. rewrite bool_decide_false by done.
  destruct (copy_branch_q Hq src dst_dir d t w1) as (w2 & n & r & -> & Hc); [done..|].
  specialize (Hb n). rewrite decide_False in Hc by congruence. destruct Hc as (-> & ? & ?).
  by exists w2, n.
Qed.

(** ** Files still being written *)

(** The limit of the age is one and a half rotations, in ticks, exactly. *)
Definition exact_limit (r : Z) : bool :=
  match quiet_limit (YInt r) with
  | Ok (S754_finite false m e) =>
      (e + 22 <? 0)%Z && (Zpos m * 2 =? 3 * r * second * 2 ^ (- (e + 22)))%Z
  | _ => false
  end.

Definition MAX_ROTATE : Z := 86400.

Fixpoint exact_from (n : nat) (r : Z) : bool :=
  match n with O => true | S n' => exact_limit r && exact_from n' (r + 1)%Z end.

Lemma limits_exact : exact_from (Z.to_nat MAX_ROTATE) 1 = true.
Proof. vm_compute. reflexivity. Qed.

Lemma exact_from_all n r r' :
  exact_from n r = true → (r ≤ r' < r + Z.of_nat n)%Z → exact_limit r' = true.
Proof.
  revert r. induction n as [|n IH]; intros r Hn Hr; [lia|]. simpl in Hn.
  apply andb_true_iff in Hn as [H0 Hn]. destruct (decide (r' = r)) as [->|Hne]; [done|].
  eapply IH; [exact Hn|lia].
Qed.

Lemma limit_exact r : (0 < r ≤ MAX_ROTATE)%Z → exact_limit r = true.
Proof.
  intros Hr. eapply exact_from_all; [apply limits_exact|]. unfold MAX_ROTATE in *. lia.
Qed.

Lemma age_lt_exact r age limit :
  (0 < r ≤ MAX_ROTATE)%Z → quiet_limit (YInt r) = Ok limit →
  age_lt age limit = bool_decide (2 * age < 3 * r * second)%Z.
Proof.
  intros Hr Hl. pose proof (limit_exact r Hr) as Hex. unfold exact_limit in Hex. rewrite Hl in Hex.
  destruct limit as [| | |[] m e]; try done. apply andb_true_iff in Hex as [He Hm].
  apply Z.ltb_lt in He. apply Z.eqb_eq in Hm. unfold age_lt, compare_float_Z.
  replace (0 <=? e + 22)%Z with false by lia.
  set (k := (2 ^ (- (e + 22)))%Z) in *. assert (0 < k)%Z as Hk by (apply Z.pow_pos_nonneg; lia).
  destruct (Z.compare_spec (Zpos m) (age * k)) as [Hc|Hc|Hc]; symmetry;
    [apply bool_decide_eq_false|apply bool_decide_eq_false|apply bool_decide_eq_true]; nia.
Qed.

(** C7.  With a rotation of [r] whole seconds, up to a day, and no failing call,
    a file counts as still being written exactly when its age at the reading of
    the clock is less than one and a half rotations: the arithmetic on doubles
    is exact. *)
Theorem is_file_active_exact {E : Env} (p : path) (r : Z) d t w :
  (∀ n, fault n = None) → (0 < r ≤ MAX_ROTATE)%Z → node_at w p = Some (File d t) →
  (is_file_active p (YInt r) w).1 =
    Ok (bool_decide (2 * (clock (S (ticks w)) - t) < 3 * (r * second))%Z).
Proof.
  intros Hq Hr Hp. unfold is_file_active, try_except.
  rewrite (bind_ok _ _ _ _ _ (stat_q_ok Hq _ _ _ Hp)).
  rewrite (bind_ok time_time _ _ _ _ eq_refl).
  destruct (quiet_limit (YInt r)) as [limit|e] eqn:Hl; [|done].
  rewrite (bind_ok (lift_res (Ok limit)) _ _ _ _ eq_refl). simpl.
  rewrite (age_lt_exact r _ limit Hr Hl). f_equal. apply bool_decide_ext. lia.
Qed.

(** ** The theorems at work on a sensor *)

Definition day_dir : path := drive ++ ["pcap"; "20251014"].
Definition first_file : path := backlog ++ ["SEER-1.pcap"].
Definition stamp : Z := (noon - 81) * second.

(** The way to the directory of the day has no file on it. *)
Lemma day_way_free files day k d t :
  (∀ j, j ≤ 2 → ∀ d t, node_at (with_drive files) (take j drive) ≠ Some (File d t)) →
  node_at (with_drive files) (take k (drive ++ ["pcap"; day])) ≠ Some (File d t).
Proof.
  intros Hdrive. destruct (decide (k ≤ 2)) as [Hk|Hk].
  - rewrite take_app_le by done. by apply Hdrive.
  - rewrite take_app_ge by (simpl; lia). change (length drive) with 2.
    destruct (k - 2) as [|j] eqn:Hj; [lia|]. by rewrite firstn_cons, drive_node.
Qed.

Lemma drive_no_file k d t :
  k ≤ 2 → node_at (with_drive backlog_two) (take k drive) ≠ Some (File d t).
Proof. intros Hk. destruct k as [|[|[|k]]]; [vm_compute; done..|lia]. Qed.

Lemma transfer_file_integrity_witness :
  match transfer_file (E:=killed_at 13) first_file day_dir true (with_drive backlog_two) with
  | (Ok (true, sha, _), w') =>
      sha = Some (sha256 (encode "first")) ∧ node_at w' first_file = None ∧
      ∃ d', node_at w' (day_dir ++ [basename first_file]) = Some (File d' stamp) ∧
            sha256 d' = sha256 (encode "first")
  | (_, w') => node_at w' first_file = Some (File (encode "first") stamp)
  end.
Proof.
  apply (transfer_file_integrity (E:=killed_at 13)); [reflexivity|by_computation|by_computation|].
  unfold cross_device. vm_compute. lia.
Defined.

Lemma transfer_file_succeeds_witness :
  ∃ w', transfer_file (E:=quiet) first_file day_dir true (with_drive backlog_two) =
      (Ok (true, Some (sha256 (encode "first")), None), w') ∧
    node_at w' first_file = None ∧
    node_at w' (day_dir ++ [basename first_file]) = Some (File (encode "first") stamp).
Proof.
  apply (transfer_file_succeeds (E:=quiet)); [done|done|reflexivity|by_computation..| |].
  - vm_compute. done.
  - intros k d t. apply day_way_free. intros j Hj d0 t0. by apply drive_no_file.
Defined.

Lemma transfer_file_rejects_witness :
  ∃ w' n, transfer_file (E:=lossy) first_file day_dir true (with_drive backlog_two) =
      (Ok (false, None, Some ("Checksum mismatch: " +:+ str_take 8 (sha256 (encode "first")) +:+ " != "
                              +:+ str_take 8 (sha256 (bitrot (Env:=lossy) n (encode "first"))))), w') ∧
    node_at w' first_file = Some (File (encode "first") stamp) ∧
    node_at w' (day_dir ++ [basename first_file]) = None.
Proof.
  apply (transfer_file_rejects (E:=lossy)); [done| |reflexivity|by_computation..| | |].
  - intros n. vm_compute. done.
  - unfold cross_device. vm_compute. lia.
  - vm_compute. done.
  - intros k d t. apply day_way_free. intros j Hj d0 t0. by apply drive_no_file.
Defined.

(** Thirty seconds after the last write, with a rotation of twenty seconds, the
    file is no longer active. *)
Lemma is_file_active_exact_witness :
  (is_file_active (E:=quiet) first_file (YInt 20) (with_drive backlog_two)).1 = Ok false.
Proof.
  rewrite (is_file_active_exact (E:=quiet) first_file 20 (encode "first") stamp);
    [vm_compute; reflexivity|done|unfold MAX_ROTATE; lia|reflexivity].
Defined.
