(* ===== verification/HotswapBatch.v ===== *)
(** * Batches of the hot-swap service

    What the export of the backlog does with each of its files, and what it
    writes about them. *)
From S2P Require Import Prelude Text Os OsFacts OsQuiet PyNum Config Json Sha256 Hotswap.
From S2P Require Import HotswapFacts Scenario.

(** ** A batch: what it may touch *)

Section BatchFrames.
Context {E : Env}.

Lemma transfer_file_touches src dst_dir v :
  only (touches (src :: move_dests src (dest dst_dir src))) (transfer_file src dst_dir v).
Proof.
  set (P := src :: move_dests src (dest dst_dir src)). unfold transfer_file. cbv zeta.
  fold (dest dst_dir src).
  assert (src ∈ P) by left. assert (dest dst_dir src ∈ P) by (right; left).
  assert (dest dst_dir src ++ [basename src] ∈ P) by (right; right; left).
  assert (move_paths src (dest dst_dir src) ⊆ P) by (unfold P, move_paths, move_dests; done).
  solve_only.
Qed.

Lemma is_file_active_same p r : only same_disk (is_file_active p r).
Proof. unfold is_file_active. solve_only. Qed.

Lemma make_entry_same pcap D s sha err : only same_disk (make_entry pcap D s sha err).
Proof. unfold make_entry. solve_only. Qed.
#[local] Hint Resolve is_file_active_same make_entry_same : io.

(** What the export of the file [m] of the backlog [B] to [D] may touch. *)
Definition foot (B D : path) (m : string) : list path :=
  (B ++ [m]) :: move_dests (B ++ [m]) (D ++ [m]).

Lemma export_one_touches B D r b m : only (touches (foot B D m)) (export_one D r b (B ++ [m])).
Proof.
  pose proof (transfer_file_touches (B ++ [m]) D true) as Ht. unfold dest in Ht.
  rewrite basename_app in Ht. fold (foot B D m) in Ht.
  unfold export_one, info, error. cbv zeta. solve_only.
Qed.

Lemma export_loop_touches B D r names b :
  only (touches (mjoin (foot B D <$> names))) (export_loop D r ((λ n, B ++ [n]) <$> names) b).
Proof.
  revert b. induction names as [|m names IH]; intros b; simpl; [solve_only|].
  apply only_bind; [typeclasses eauto| |intros b'].
  - eapply only_touches_mono; [|apply export_one_touches]. intros q Hq. apply (elem_of_app (foot B D m)). by left.
  - eapply only_touches_mono; [|apply IH]. intros q Hq. apply (elem_of_app (foot B D m)). by right.
Qed.

Lemma write_manifest_touches P D l : D ++ ["MANIFEST.txt"] ∈ P → only (touches P) (write_manifest D l).
Proof. intros HP. unfold write_manifest, info, error. cbv zeta. solve_only. Qed.

Lemma append_transfer_log_touches P root l :
  root ++ ["TRANSFER.LOG"] ∈ P → only (touches P) (append_transfer_log root l).
Proof. intros HP. unfold append_transfer_log, error. cbv zeta. solve_only. Qed.

(** *** The batch only moves forward in time *)

Lemma is_file_active_later p r : only later (is_file_active p r).
Proof. unfold is_file_active. solve_only. Qed.
Lemma compute_sha256_later p : only later (compute_sha256 p).
Proof.
  unfold compute_sha256. apply only_bind; [typeclasses eauto|solve_only|]. intros d.
  apply only_bind; [typeclasses eauto| |intros; solve_only].
  generalize sha_init as h. generalize (S (length d)) as fuel. intros fuel. revert d.
  induction fuel as [|fuel IH]; intros rest h; cbn [hash_loop]; solve_only.
Qed.
Lemma transfer_file_later src D v : only later (transfer_file src D v).
Proof. pose proof compute_sha256_later. unfold transfer_file, os_sync. cbv zeta. solve_only. Qed.
Lemma make_entry_later pcap D s sha err : only later (make_entry pcap D s sha err).
Proof. unfold make_entry, path_exists. solve_only. Qed.
#[local] Hint Resolve is_file_active_later transfer_file_later make_entry_later : io.
Lemma export_one_later D r b p : only later (export_one D r b p).
Proof. unfold export_one, info, error. cbv zeta. solve_only. Qed.
Lemma export_loop_later D r ps b : only later (export_loop D r ps b).
Proof.
  revert b. induction ps as [|p ps IH]; intros b; cbn [export_loop]; [solve_only|].
  apply only_bind; [typeclasses eauto|apply export_one_later|intros b'; apply IH].
Qed.
Lemma write_manifest_later D l : only later (write_manifest D l).
Proof. unfold write_manifest, info, error. cbv zeta. solve_only. Qed.
Lemma append_transfer_log_later root l : only later (append_transfer_log root l).
Proof. unfold append_transfer_log, error. cbv zeta. solve_only. Qed.
End BatchFrames.
#[export] Hint Resolve is_file_active_later transfer_file_later make_entry_later export_one_later
  export_loop_later write_manifest_later append_transfer_log_later : io.
#[export] Hint Resolve transfer_file_touches is_file_active_same make_entry_same
  export_one_touches export_loop_touches write_manifest_touches append_transfer_log_touches : io.

(** ** Where things are

    The backlog and the drive do not overlap, and no file system is mounted
    below either. *)
Definition export_layout (mnt : gmap path mount) (B root : path) : Prop :=
  plain_dir mnt B ∧ plain_dir mnt root ∧ apart mnt B root.

#[global] Instance export_layout_dec mnt B root : Decision (export_layout mnt B root).
Proof. unfold export_layout. apply _. Defined.

Section Layout.
Context (mnt : gmap path mount) (B root D : path) (x : path).
Context (HL : export_layout mnt B root) (HD : D = root ++ x).

Lemma layout_dest_plain : plain_dir mnt D.
Proof using HL HD. subst. apply plain_dir_below, HL. Qed.

Lemma layout_apart y z : apart mnt (B ++ y) (D ++ z).
Proof using HL HD.
  subst. destruct HL as (HB & Hr & Ha). rewrite <-(assoc_L (++)).
  apply apart_below; [done|]. by apply apart_sym, apart_below, apart_sym.
Qed.

Lemma layout_ready w n d t :
  mounts w = mnt → node_at w (B ++ [n]) = Some (File d t) → ready (B ++ [n]) D d t w.
Proof using HL HD.
  intros Hm Hn. unfold ready. rewrite Hm. split_and!; [done|apply layout_dest_plain|].
  replace D with (D ++ []) by apply app_nil_r. apply layout_apart.
Qed.

Lemma foot_apart_dest n m y q :
  n ≠ m → q ∈ foot B D m → apart mnt q (D ++ n :: y).
Proof using HL HD.
  intros Hne Hq. replace (D ++ n :: y) with ((D ++ [n]) ++ y) by (by rewrite <-(assoc_L (++))).
  apply apart_below; [apply plain_dir_below, layout_dest_plain|].
  unfold foot, move_dests in Hq. rewrite basename_app in Hq.
  rewrite !elem_of_cons, elem_of_nil in Hq. destruct Hq as [->|Hq]; [apply layout_apart|].
  assert (∃ z, q = (D ++ [m]) ++ z) as [z ->].
  { destruct Hq as [->|[->|[->|[]]]]; [exists []; by rewrite app_nil_r|by exists [m]|exists [m; m]].
    by rewrite <-!(assoc_L (++)). }
  apply apart_sym, apart_below; [apply plain_dir_below, layout_dest_plain|].
  by apply apart_children; [apply layout_dest_plain|].
Qed.

Lemma foot_apart_src n m q : n ≠ m → q ∈ foot B D m → apart mnt q (B ++ [n]).
Proof using HL HD.
  intros Hne Hq. unfold foot, move_dests in Hq. rewrite basename_app in Hq.
  rewrite !elem_of_cons, elem_of_nil in Hq. destruct Hq as [->|Hq].
  { apply apart_children; [apply HL|done]. }
  assert (∃ z, q = D ++ z) as [z ->]; [|apply apart_sym, layout_apart].
  destruct Hq as [->|[->|[->|[]]]]; rewrite <-?(assoc_L (++)); by eexists.
Qed.

Lemma feet_outside names n :
  n ∉ names →
  outside_of mnt (mjoin (foot B D <$> names)) (locate mnt (B ++ [n])) ∧
  ∀ y, outside_of mnt (mjoin (foot B D <$> names)) (locate mnt (D ++ n :: y)).
Proof using HL HD.
  intros Hn. split; [|intros y]; intros q Hq;
    apply list_elem_of_join in Hq as (l & Hq & Hl); apply list_elem_of_fmap in Hl as (m & -> & Hm);
    (assert (n ≠ m) as Hne by (by intros ->)).
  - by apply (foot_apart_src n m q).
  - by apply (foot_apart_dest n m y q).
Qed.
End Layout.

(** ** No file of the backlog is lost *)

(** The file [n] of the backlog [B] is there, or has gone to [D] under its name:
    as itself or as the copy the system made of it, and across file systems
    with the same digest. *)
Definition exported_or_kept {E : Env} (B D : path) (n : string) (d : bytes) (t : Z) (w : world) : Prop :=
  node_at w (B ++ [n]) = Some (File d t) ∨
  ∃ y d', node_at w (D ++ n :: y) = Some (File d' t) ∧ (d' = d ∨ ∃ k, d' = bitrot k d) ∧
          (cross_device w B D → y = [] ∧ sha256 d' = sha256 d).

Section NoLoss.
Context {E : Env} (B root D x : path) (r : yval).
Context (HD : D = root ++ x).

Lemma cross_device_child w n :
  export_layout (mounts w) B root → cross_device w (B ++ [n]) D ↔ cross_device w B D.
Proof using.
  intros (HB & _ & _). unfold cross_device. by rewrite locate_below.
Qed.

Lemma transfer_post_kept w n d t res w' :
  export_layout (mounts w) B root → mounts w' = mounts w →
  transfer_post (B ++ [n]) D d t w res w' → exported_or_kept B D n d t w'.
Proof using HD.
  intros HL Hm Hp.
  assert (cross_device w' B D ↔ cross_device w (B ++ [n]) D) as Hcross.
  { rewrite cross_device_child by done. unfold cross_device. by rewrite Hm. }
  unfold exported_or_kept. setoid_rewrite Hcross. unfold transfer_post, dest in Hp. rewrite basename_app in Hp.
  assert (node_at w' (B ++ [n]) = Some (File d t) ∨
    (¬ cross_device w (B ++ [n]) D ∧ node_at w' (B ++ [n]) = None ∧
     ∃ q, q ∈ move_dests (B ++ [n]) (D ++ [n]) ∧ holds q d t w') →
    node_at w' (B ++ [n]) = Some (File d t) ∨
    ∃ y d', node_at w' (D ++ n :: y) = Some (File d' t) ∧ (d' = d ∨ ∃ k, d' = bitrot k d) ∧
            (cross_device w (B ++ [n]) D → y = [] ∧ sha256 d' = sha256 d)) as Hfail.
  { intros [Hs|(Hnc & _ & q & Hq & d' & Hd' & Hcopy)]; [by left|right].
    unfold move_dests in Hq. rewrite basename_app, !elem_of_cons, elem_of_nil in Hq.
    destruct Hq as [->|[->|[->|[]]]]; rewrite <-?(assoc_L (++)) in Hd'; by eexists _, d'. }
  destruct res as [[[[] sha] err]|e]; [|by apply Hfail..].
  destruct Hp as (_ & _ & d' & Hd' & _ & Hcopy & Hsha). right. exists [], d'. auto.
Qed.

Lemma wp_export_one_kept b m d t w :
  export_layout (mounts w) B root → node_at w (B ++ [m]) = Some (File d t) →
  wp (export_one D r b (B ++ [m])) (λ _ w', exported_or_kept B D m d t w') w.
Proof using HD.
  intros HL Hm. unfold export_one.
  apply wp_bind, (wp_only same_disk); [apply is_file_active_same|].
  intros [[]|e] w1 Hw1; [left; by rewrite (same_disk_node w w1)| |left; by rewrite (same_disk_node w w1)].
  apply wp_bind. rewrite <-(same_disk_node w w1) in Hm by done.
  assert (mounts w1 = mounts w) as Hm1 by apply Hw1.
  eapply wp_mono.
  { apply wp_transfer_file. by apply (layout_ready (mounts w) B root D x HL HD w1). }
  intros res w2 [Ht2 Hp]. apply transfer_post_kept in Hp; [|by rewrite Hm1|apply Ht2].
  assert (∀ w3, same_disk w2 w3 → exported_or_kept B D m d t w3) as Hsame.
  { intros w3 Hw3. assert (∀ p, node_at w3 p = node_at w2 p) as Hn3 by (intros; by apply same_disk_node).
    unfold exported_or_kept, cross_device in *. setoid_rewrite Hn3.
    by destruct Hw3 as [_ ->]. }
  destruct res as [[[success sha] err]|e]; [|by apply Hsame].
  match goal with |- wp ?prog _ _ => assert (only same_disk prog) as Ho end.
  { unfold info, error. cbv zeta. solve_only. }
  eapply wp_only; [exact Ho|]. intros _ w3 Hw3. by apply Hsame.
Qed.

(** What the later files of a batch do not undo. *)
Lemma kept_frame names n d t w w' :
  export_layout (mounts w) B root → n ∉ names → touches (mjoin (foot B D <$> names)) w w' →
  exported_or_kept B D n d t w → exported_or_kept B D n d t w'.
Proof using HD.
  intros HL Hn Ht. destruct (feet_outside (mounts w) B root D x HL HD names n Hn) as [Ho1 Ho2].
  intros [Hs|(y & d' & Hd' & Hc & Hsha)].
  - left. by eapply touches_file.
  - right. exists y, d'. split_and!; [by eapply touches_file|done|].
    unfold cross_device in *. by destruct Ht as [-> _].
Qed.

Lemma wp_export_loop_kept names b n d t w :
  export_layout (mounts w) B root → NoDup names → node_at w (B ++ [n]) = Some (File d t) →
  wp (export_loop D r ((λ n, B ++ [n]) <$> names) b) (λ _ w', exported_or_kept B D n d t w') w.
Proof using HD.
  revert b w. induction names as [|m names IH]; intros b w HL Hnd Hn; csimpl; [by left|].
  apply NoDup_cons in Hnd as [Hm Hnd]. apply wp_bind.
  destruct (decide (n = m)) as [->|Hne].
  - eapply wp_mono; [apply wp_and_only; [apply export_one_touches|by apply wp_export_one_kept]|].
    intros [b'|e] w1 [Hk Ht1]; [|done].
    eapply wp_only; [apply export_loop_touches|]. intros _ w2 Ht2.
    apply (kept_frame names m d t w1 w2); [by destruct Ht1 as [-> _]|done|exact Ht2|done].
  - apply (wp_only (touches (foot B D m))); [apply export_one_touches|]. intros res w1 Ht1.
    assert (node_at w1 (B ++ [n]) = Some (File d t)) as Hn1.
    { eapply touches_file; [exact Ht1| |done]. intros q Hq.
      by apply (foot_apart_src (mounts w) B root D x HL HD n m q). }
    destruct res as [b'|e]; [|by left]. apply IH; [by destruct Ht1 as [-> _]|done|done].
Qed.
End NoLoss.

(** ** The whole batch *)

Section BatchNames.
Context {E : Env}.

Lemma sorted_names B l :
  (∃ names, l = (λ n, B ++ [n]) <$> names ∧ NoDup names ∧ ∀ n, n ∈ names → fnmatch n "*.pcap*" = true) →
  ∃ names, sort_by path_leb l = (λ n, B ++ [n]) <$> names ∧ NoDup names ∧
           ∀ n, n ∈ names → fnmatch n "*.pcap*" = true.
Proof.
  intros (names & -> & Hnd & Hf).
  destruct (Permutation_map_inv _ _ (sort_by_perm path_leb ((λ n, B ++ [n]) <$> names)))
    as (names' & Heq & Hp).
  exists names'. split_and!; [exact Heq|by rewrite <-Hp|]. intros n Hn. apply Hf. by rewrite Hp.
Qed.

(** Writing the manifest and the log takes nothing back. *)
Lemma kept_records B root y n d t w w' :
  let D := root ++ ["pcap"; y] in
  export_layout (mounts w) B root → fnmatch n "*.pcap*" = true →
  touches [D ++ ["MANIFEST.txt"]; root ++ ["TRANSFER.LOG"]] w w' →
  exported_or_kept B D n d t w → exported_or_kept B D n d t w'.
Proof.
  intros D HL Hf Ht. pose proof HL as (HB & Hr & Ha).
  assert (plain_dir (mounts w) D) as HpD by (by apply plain_dir_below).
  intros [Hs|(z & d' & Hd' & Hc & Hsha)].
  - left. eapply touches_file; [exact Ht| |done]. apply outside_of_apart.
    repeat apply Forall_cons_2; [| |constructor]; apply apart_sym.
    + by apply (layout_apart (mounts w) B root D ["pcap"; y]).
    + by apply (layout_apart (mounts w) B root root []); [done|rewrite app_nil_r].
  - right. exists z, d'. split_and!; [|done|by unfold cross_device in *; destruct Ht as [-> _]].
    eapply touches_file; [exact Ht| |done]. apply outside_of_apart.
    replace (D ++ n :: z) with ((D ++ [n]) ++ z) by (by rewrite <-(assoc_L (++))).
    repeat apply Forall_cons_2; [| |constructor].
    + apply apart_below; [by apply plain_dir_below|]. apply apart_children; [done|].
      intros <-. by vm_compute in Hf.
    + replace ((D ++ [n]) ++ z) with ((root ++ ["pcap"]) ++ y :: n :: z)
        by (unfold D; by rewrite <-!(assoc_L (++))).
      apply apart_below; [by apply plain_dir_below|]. by apply apart_children.
Qed.

(** The transfers of a batch and the records of them. *)
Definition batch_work (D root : path) (r : yval) (pcaps : list path) : prog (Z * Z) :=
  b ← export_loop D r pcaps (Batch 0 0 [] []);
  (match transferred b with
   | [] => mret tt
   | l => write_manifest D l
   end);;
  (match transfer_log_entries b with
   | [] => mret tt
   | l => append_transfer_log root l
   end);;
  mret (success_count b, fail_count b).

Lemma batch_records_touch D root (b : batch) :
  only (touches [D ++ ["MANIFEST.txt"]; root ++ ["TRANSFER.LOG"]])
    ((match transferred b with [] => mret tt | l => write_manifest D l end);;
     (match transfer_log_entries b with [] => mret tt | l => append_transfer_log root l end);;
     mret (success_count b, fail_count b)).
Proof.
  assert (D ++ ["MANIFEST.txt"] ∈ [D ++ ["MANIFEST.txt"]; root ++ ["TRANSFER.LOG"]]) by left.
  assert (root ++ ["TRANSFER.LOG"] ∈ [D ++ ["MANIFEST.txt"]; root ++ ["TRANSFER.LOG"]]) by (right; left).
  solve_only.
Qed.

Lemma wp_batch_work_kept B root day r names n d t w :
  let D := root ++ ["pcap"; day] in
  export_layout (mounts w) B root → NoDup names → (∀ m, m ∈ names → fnmatch m "*.pcap*" = true) →
  node_at w (B ++ [n]) = Some (File d t) →
  wp (batch_work D root r ((λ n, B ++ [n]) <$> names))
    (λ _ w', mounts w' = mounts w ∧ exported_or_kept B D n d t w') w.
Proof.
  intros D HL Hnd Hf Hn. unfold batch_work. apply wp_bind.
  eapply wp_mono.
  { apply wp_and_only; [apply (export_loop_touches B)|].
    by apply (wp_export_loop_kept B root D ["pcap"; day]). }
  intros res w1 [Hk Ht1]. assert (mounts w1 = mounts w) as Hm1 by apply Ht1.
  destruct res as [b|e]; [|done].
  eapply wp_only; [apply batch_records_touch|]. intros _ w2 Ht2.
  split; [destruct Ht2; congruence|].
  destruct (decide (n ∈ names)) as [Hin|Hout].
  - apply (kept_records B root day n d t w1 w2); [by rewrite Hm1|by apply Hf|done|done].
  - left. destruct (feet_outside (mounts w) B root D ["pcap"; day] HL eq_refl names n Hout) as [Ho _].
    eapply touches_file; [exact Ht2| |by eapply touches_file]. apply outside_of_apart. rewrite Hm1.
    repeat apply Forall_cons_2; [| |constructor]; apply apart_sym.
    + by apply (layout_apart (mounts w) B root D ["pcap"; day]).
    + by apply (layout_apart (mounts w) B root root []); [done|rewrite app_nil_r].
Qed.
End BatchNames.

(** C8.  Whatever fails and whatever the drive does to what is written: after
    [export_batch] to a drive on another file system, a file of the backlog is
    there as it was, or the drive holds under its name, in the directory of a
    day, a file with its digest and its modification time. *)
Theorem export_batch_no_loss {E : Env} {Y : Yaml} (B root : path) (r : yval) n d t w :
  export_layout (mounts w) B root → cross_device w B root →
  node_at w (B ++ [n]) = Some (File d t) →
  let w' := (export_batch B root r w).2 in
  node_at w' (B ++ [n]) = Some (File d t) ∨
  ∃ day d', node_at w' (root ++ ["pcap"; day; n]) = Some (File d' t) ∧ sha256 d' = sha256 d.
Proof.
  intros HL Hdev Hn.
  enough (wp (export_batch B root r) (λ _ w', node_at w' (B ++ [n]) = Some (File d t) ∨
    ∃ day d', node_at w' (root ++ ["pcap"; day; n]) = Some (File d' t) ∧ sha256 d' = sha256 d) w)
    as Hwp by exact Hwp.
  assert (∀ w1, same_disk w w1 → node_at w1 (B ++ [n]) = Some (File d t)) as Hsame.
  { intros w1 Hw1. by rewrite (same_disk_node w w1). }
  unfold export_batch. apply wp_bind. eapply wp_mono; [apply wp_glob_names|].
  intros [l|e] w1 [Hw1 Hl]; [|left; by apply Hsame].
  destruct (sorted_names B l (Hl l eq_refl)) as (names & -> & Hnd & Hf). cbv zeta.
  destruct names as [|m names']; [left; by apply Hsame|]. set (names := m :: names') in *. csimpl.
  change ((B ++ [m]) :: ((λ n, B ++ [n]) <$> names')) with ((λ n, B ++ [n]) <$> names).
  apply wp_bind, (wp_only same_disk); [apply log_at_same|].
  intros [[]|e] w2 Hw2; (assert (same_disk w w2) as Hw02 by (by etrans)); [|left; by apply Hsame].
  apply wp_bind, (wp_only same_disk); [apply datetime_now_same|].
  intros [now|e] w3 Hw3; (assert (same_disk w w3) as Hw03 by (by etrans)); [|left; by apply Hsame].
  assert (mounts w3 = mounts w) as Hm3 by apply Hw03.
  eapply wp_mono.
  { apply (wp_batch_work_kept B root (fmt_ymd now) r names n d t w3); [by rewrite Hm3|done|done|].
    by apply Hsame. }
  intros res w4 [Hm4 [Hk|(y & d' & Hd' & _ & Hsha)]]; [by left|right].
  destruct Hsha as [-> Hsha].
  { unfold cross_device in *. rewrite Hm4, Hm3, locate_below by apply HL. done. }
  exists (fmt_ymd now), d'. by rewrite <-(assoc_L (++)) in Hd'.
Qed.

(** ** Batches in which nothing fails *)

Lemma is_file_active_q {E : Env} (p : path) (r : Z) d t w :
  (∀ n, fault n = None) → (0 < r ≤ MAX_ROTATE)%Z → node_at w p = Some (File d t) →
  is_file_active p (YInt r) w =
    (Ok (bool_decide (2 * (clock (S (ticks w)) - t) < 3 * (r * second))%Z), tick (tick w)).
Proof.
  intros Hq Hr Hp. unfold is_file_active, try_except.
  rewrite (bind_ok _ _ _ _ _ (stat_q_ok Hq _ _ _ Hp)).
  rewrite (bind_ok time_time _ _ _ _ eq_refl).
  destruct (quiet_limit (YInt r)) as [limit|e] eqn:Hl; [|done].
  rewrite (bind_ok (lift_res (Ok limit)) _ _ _ _ eq_refl). simpl.
  rewrite (age_lt_exact r _ limit Hr Hl). unfold mret, io_ret. do 2 f_equal. apply bool_decide_ext. lia.
Qed.

Lemma transferring_same src D w w1 w2 :
  transferring src D w w1 → same_disk w1 w2 → transferring src D w w2.
Proof.
  intros (? & ? & ?) Hs. split_and!; (etrans; [done|]);
    [by apply same_disk_touches|by apply same_disk_writes|by apply same_disk_stay].
Qed.

(** The transfer log entry of an exported file: its size is that of the source,
    which has gone. *)
Definition ok_entry {E : Env} (B D : path) (k : nat) (m : string) (d : bytes) : json :=
  JObj [("ts", JStr (isoformat (localtime (clock k)))); ("hostname", JStr nodename);
        ("src", JStr (show_path (B ++ [m]))); ("dst", JStr (show_path (D ++ [m])));
        ("size", JInt 0); ("sha256", JStr (str_take 16 (sha256 d))); ("result", JStr "OK")].

(** The files of a batch, with their contents and modification times. *)
Abbreviation files := (list (string * (bytes * Z))).

Definition digests (l : files) : list (string * string) := (λ f, (f.1, sha256 f.2.1)) <$> l.

Section Drain.
Context {E : Env} (no_fault : ∀ n, fault n = None) (faithful : ∀ n b, bitrot n b = b).
Context (B root D x : path) (r : Z) (Hr : (0 < r ≤ MAX_ROTATE)%Z) (HD : D = root ++ x).

(** A file last modified at [t] has not been written for one and a half rotations. *)
Definition settled (t : Z) : Prop := ∀ k, (3 * (r * second) ≤ 2 * (clock k - t))%Z.

(** It had been written less than that before a reading of the clock of the run
    from [w] to [w']. *)
Definition seen_active (w w' : world) (t : Z) : Prop :=
  ∃ k, during w w' k ∧ (2 * (clock k - t) < 3 * (r * second))%Z.

Lemma seen_active_mono w0 w w' w1 t :
  later w0 w → later w' w1 → seen_active w w' t → seen_active w0 w1 t.
Proof using. intros H0 H1 (k & Hk & Hc). exists k. split; [by eapply during_mono|done]. Qed.

Lemma settled_not_active w w' t : settled t → ¬ seen_active w w' t.
Proof using. intros Hs (k & _ & Hk). specialize (Hs k). lia. Qed.

(** The directories on the way to the destination are no files. *)
Definition way_free (w : world) : Prop := ∀ k d t, node_at w (take k D) ≠ Some (File d t).

Lemma dir_ready_free w : dir_ready w D → way_free w.
Proof using. intros Hd k d t. by rewrite Hd. Qed.

Lemma make_entry_q w m d :
  node_at w (B ++ [m]) = None →
  ∃ w' k, make_entry (B ++ [m]) D true (Some (sha256 d)) None w = (Ok (ok_entry B D k m d), w') ∧
          same_disk w w'.
Proof using no_fault.
  intros Hn. unfold make_entry. rewrite (bind_ok datetime_now _ _ _ _ eq_refl).
  rewrite (bind_ok _ _ _ _ _ (path_exists_q no_fault _ _)), node_at_tick, Hn.
  rewrite (bind_ok (mret 0%Z) _ _ _ _ eq_refl). exists (tick (tick w)), (ticks w). split; [|done].
  unfold ok_entry, opt_json. rewrite basename_app. case_bool_decide as He; [|done].
  pose proof (hexdigest_length (sha_update sha_init d)) as Hl. fold (sha256 d) in Hl. by rewrite He in Hl.
Qed.

Lemma export_one_q b m d t w :
  export_layout (mounts w) B root → one_mount (mounts w) →
  node_at w (B ++ [m]) = Some (File d t) → (3 * (r * second) ≤ 2 * (clock (S (ticks w)) - t))%Z →
  node_at w (D ++ [m]) ≠ Some Dir → way_free w →
  ∃ w' k, export_one D (YInt r) b (B ++ [m]) w =
      (Ok (Batch (success_count b + 1) (fail_count b) (transferred b ++ [(m, sha256 d)])
                 (transfer_log_entries b ++ [ok_entry B D k m d])), w') ∧
    node_at w' (B ++ [m]) = None ∧ node_at w' (D ++ [m]) = Some (File d t) ∧
    dir_ready w' D ∧ transferring (B ++ [m]) D w w'.
Proof using no_fault faithful Hr HD.
  intros HL Hone Hm Hold Hdst Hfree. set (w1 := tick (tick w)).
  assert (ready (B ++ [m]) D d t w1) as Hready.
  { by apply (layout_ready (mounts w) B root D x HL HD w1). }
  destruct (transfer_file_q (B ++ [m]) D d t w1) as (w2 & Hw2 & Hgone & Hnode & Hdir & Htr);
    [done..| |done|]; [unfold dest; by rewrite basename_app|].
  unfold dest in Hnode. rewrite basename_app in Hnode.
  destruct (make_entry_q w2 m d Hgone) as (w3 & k & Hw3 & Hs3).
  exists (emit_event (Logged "INFO" ("Exported " +:+ m +:+ " → " +:+ show_path D
              +:+ " (sha256=" +:+ str_take 8 (sha256 d) +:+ ")")) w3), k.
  assert (∀ p, node_at w3 p = node_at w2 p) as Hn3 by (intros p; by apply same_disk_node).
  split_and!.
  - unfold export_one. rewrite (bind_ok _ _ _ _ _ (is_file_active_q _ r d t w no_fault Hr Hm)).
    rewrite bool_decide_false by lia. fold w1. rewrite (bind_ok _ _ _ _ _ Hw2). cbv beta iota. rewrite (bind_ok _ _ _ _ _ Hw3). cbv zeta.
    rewrite basename_app. by rewrite (bind_ok (info _) _ w3 _ _ eq_refl).
  - change (node_at w3 (B ++ [m]) = None). by rewrite Hn3.
  - change (node_at w3 (D ++ [m]) = Some (File d t)). by rewrite Hn3.
  - intros j. change (node_at w3 (take j D) = Some Dir). rewrite Hn3. apply Hdir.
  - apply (transferring_same _ _ w w3); [|done]. by apply (transferring_same _ _ w w2).
Qed.

(** What the export of [m] leaves alone. *)
Lemma transferring_frame n m w w' :
  export_layout (mounts w) B root → one_mount (mounts w) → n ≠ m →
  transferring (B ++ [m]) D w w' →
  node_at w' (B ++ [n]) = node_at w (B ++ [n]) ∧ node_at w' (D ++ [n]) = node_at w (D ++ [n]).
Proof using HD.
  intros HL Hone Hne (_ & Hw & _). unfold dest in *. rewrite basename_app in *. fold (foot B D m) in *.
  assert (∀ p q : path, apart (mounts w) p q → locate (mounts w) p ≠ locate (mounts w) q) as Happ.
  { intros p q [Hu _] Heq. apply Hu. by rewrite Heq. }
  split; (eapply writes_node_ne; [exact Hw|]); intros q [Hq|Hq]%elem_of_app Heq.
  - apply elem_of_prefixes in Hq as [z Hq]. apply locate_inj in Heq as ->; [|done].
    apply (Happ (B ++ n :: z) (D ++ [])); [by apply (layout_apart (mounts w) B root D x)|].
    by rewrite app_nil_r, Hq, <-(assoc_L (++)).
  - revert Heq. apply Happ. by apply (foot_apart_src (mounts w) B root D x HL HD n m q).
  - apply elem_of_prefixes, prefix_length in Hq. apply locate_inj in Heq as ->; [|done].
    rewrite length_app in Hq. simpl in Hq. lia.
  - revert Heq. apply Happ. by apply (foot_apart_dest (mounts w) B root D x HL HD n m [] q).
Qed.

(** A file that is still active is left alone. *)
Lemma export_one_skips b m d t w :
  node_at w (B ++ [m]) = Some (File d t) → (2 * (clock (S (ticks w)) - t) < 3 * (r * second))%Z →
  export_one D (YInt r) b (B ++ [m]) w = (Ok b, tick (tick w)).
Proof using no_fault Hr.
  intros Hm Ht. unfold export_one. rewrite (bind_ok _ _ _ _ _ (is_file_active_q _ r d t w no_fault Hr Hm)).
  by rewrite bool_decide_true.
Qed.

Definition exportable (l : files) (w : world) : Prop :=
  ∀ n d t, (n, (d, t)) ∈ l → node_at w (B ++ [n]) = Some (File d t) ∧ node_at w (D ++ [n]) ≠ Some Dir.

(** The loop exports the files [l'] among [l] and skips the others, each of which
    it has found active. *)
Lemma export_loop_q l b w :
  export_layout (mounts w) B root → one_mount (mounts w) → NoDup l.*1 → exportable l w → way_free w →
  ∃ l' w' entries, l' `sublist_of` l ∧
    export_loop D (YInt r) ((λ n, B ++ [n]) <$> l.*1) b w =
      (Ok (Batch (success_count b + Z.of_nat (length l')) (fail_count b)
                 (transferred b ++ digests l') (transfer_log_entries b ++ entries)), w') ∧
    (∀ n d t, (n, (d, t)) ∈ l → (n, (d, t)) ∈ l' ∨ seen_active w w' t) ∧
    Forall2 (λ f e, ∃ k, e = ok_entry B D k f.1 f.2.1) l' entries ∧
    (∀ n d t, (n, (d, t)) ∈ l' → node_at w' (B ++ [n]) = None ∧ node_at w' (D ++ [n]) = Some (File d t)) ∧
    (l' ≠ [] → dir_ready w' D) ∧ dirs_stay w w' ∧
    (∀ n, n ∉ l'.*1 → node_at w' (B ++ [n]) = node_at w (B ++ [n]) ∧
                      node_at w' (D ++ [n]) = node_at w (D ++ [n])) ∧
    writes (prefixes D ++ mjoin (foot B D <$> l'.*1)) w w'.
Proof using no_fault faithful Hr HD.
  revert b w. induction l as [|[m [d t]] l IH]; intros b w HL Hone Hnd Hdr Hfree; csimpl.
  { exists [], w, []. rewrite Z.add_0_r, !app_nil_r. destruct b. split_and!; try done; by intros n d t ?%elem_of_nil. }
  apply NoDup_cons in Hnd as [Hm Hnd].
  destruct (Hdr m d t) as (Hmn & Hmd); [left|].
  destruct (decide (2 * (clock (S (ticks w)) - t) < 3 * (r * second))%Z) as [Hact|Hquiet].
  { edestruct (IH b (tick (tick w))) as (l' & w' & entries & Hsub & Hw' & Hcase & Hent & Hall & Hdir & Hst & Hrest & Hwr);
      [done..| |done|]; [intros n d' t' Hn; apply (Hdr n d' t'); by right|].
    pose proof (only_later _ _ _ _ (export_loop_later _ _ _ _) Hw') as Hlate. cbn [ticks tick] in Hlate.
    exists l', w', entries. rewrite (bind_ok _ _ _ _ _ (export_one_skips b m d t w Hmn Hact)), Hw'.
    split_and!; try done; [by apply sublist_cons|].
    intros n d' t' [[= -> -> ->]|Hn]%elem_of_cons.
    - right. exists (S (ticks w)). split; [unfold during; lia|done].
    - destruct (Hcase n d' t' Hn) as [?|Ha]; [by left|right].
      apply (seen_active_mono w (tick (tick w)) w' w'); [unfold later; simpl; lia|done|done]. }
  apply Z.nlt_ge in Hquiet.
  destruct (export_one_q b m d t w HL Hone Hmn Hquiet Hmd Hfree) as (w1 & k & Hw1 & Hgone & Hnode & Hdir & Htr).
  assert (mounts w1 = mounts w) as Hm1 by apply Htr.
  pose proof (only_later _ _ _ _ (export_one_later _ _ _ _) Hw1) as Hl1.
  assert (∀ n, n ≠ m → node_at w1 (B ++ [n]) = node_at w (B ++ [n]) ∧
                       node_at w1 (D ++ [n]) = node_at w (D ++ [n])) as Hfr.
  { intros n Hne. by apply (transferring_frame n m). }
  edestruct (IH (Batch (success_count b + 1) (fail_count b) (transferred b ++ [(m, sha256 d)])
    (transfer_log_entries b ++ [ok_entry B D k m d])) w1)
    as (l' & w' & entries & Hsub & Hw' & Hcase & Hent & Hall & _ & Hst & Hrest & Hwr).
  { by rewrite Hm1. } { by rewrite Hm1. } { done. }
  { intros n d' t' Hn. destruct (Hdr n d' t') as (? & ?); [by right|].
    destruct (Hfr n) as [-> ->]; [|done]. intros ->. apply Hm. apply list_elem_of_fmap. by exists (m, (d', t')). }
  { by apply dir_ready_free. }
  assert (m ∉ l'.*1) as Hm'.
  { intros Hin. apply Hm. apply list_elem_of_fmap in Hin as (f & -> & Hf). apply list_elem_of_fmap.
    exists f. split; [done|]. by eapply elem_of_submseteq, sublist_submseteq. }
  assert (writes (prefixes D ++ foot B D m ++ mjoin (foot B D <$> l'.*1)) w w') as Hwr_all.
  { destruct Htr as (_ & Hwr1 & _). unfold dest in Hwr1. rewrite basename_app in Hwr1.
    fold (foot B D m) in Hwr1. etrans; (eapply writes_mono; [|done]); intros q;
      rewrite !elem_of_app; tauto. }
  exists ((m, (d, t)) :: l'), w', (ok_entry B D k m d :: entries). rewrite (bind_ok _ _ _ _ _ Hw1), Hw'. simpl.
  destruct (Hrest m Hm') as [HrB HrD]. split_and!.
  - by apply sublist_skip.
  - do 2 f_equal. unfold digests. csimpl. rewrite <-!(assoc_L (++)). f_equal. lia.
  - intros n d' t' [Heq|Hn]%elem_of_cons; [left; rewrite Heq; left|].
    destruct (Hcase n d' t' Hn) as [?|Ha]; [left; by right|right]. by apply (seen_active_mono w w1 w' w').
  - constructor; [by exists k|done].
  - intros n d' t' [[= -> -> ->]|Hn]%elem_of_cons; [by rewrite HrB, HrD|by apply Hall].
  - intros _ j. eapply dirs_stay_node; [exact Hst|apply Hdir].
  - etrans; [apply Htr|exact Hst].
  - intros n [Hne Hn]%not_elem_of_cons. destruct (Hrest n Hn) as [-> ->]. by apply Hfr.
  - exact Hwr_all.
Qed.
End Drain.

(** ** The records of a batch *)

Section Records.
Context {E : Env} (no_fault : ∀ n, fault n = None).

Lemma write_manifest_q D l w :
  writable_at w (D ++ ["MANIFEST.txt"]) →
  ∃ w' now t, write_manifest D l w = (Ok tt, w') ∧ writes [D ++ ["MANIFEST.txt"]] w w' ∧
    node_at w' (D ++ ["MANIFEST.txt"]) = Some (File (encode (manifest_text now l)) t).
Proof using no_fault.
  intros Hp. set (p := D ++ ["MANIFEST.txt"]) in *. unfold write_manifest, try_except. cbv zeta. fold p.
  destruct (write_new_q no_fault p [] w w Hp (reflexivity w)) as (w1 & Hw1 & _ & _).
  destruct (write_new_q no_fault p (encode (manifest_text (localtime (clock (ticks w1))) l)) w w Hp
    (reflexivity w)) as (w1' & Hw1' & Hwr1 & Hwrite). rewrite Hw1 in Hw1'. injection Hw1' as <-.
  destruct (Hwrite (tick w1)) as (w3 & t & Hw3 & Hwr3 & Hn3); [done|].
  rewrite (bind_ok _ _ _ _ _ Hw1), (bind_ok datetime_now _ _ _ _ eq_refl), (bind_ok _ _ _ _ _ Hw3).
  eexists _, _, t. split_and!; [reflexivity|exact Hwr3|exact Hn3].
Qed.

Lemma append_transfer_log_q root l w :
  writable_at w (root ++ ["TRANSFER.LOG"]) →
  ∃ w' t, append_transfer_log root l w = (Ok tt, w') ∧ writes [root ++ ["TRANSFER.LOG"]] w w' ∧
    node_at w' (root ++ ["TRANSFER.LOG"]) =
      Some (File (contents w (root ++ ["TRANSFER.LOG"])
                  ++ encode (join "" ((λ e, dumps e +:+ nl) <$> l))) t).
Proof using no_fault.
  intros Hp. unfold append_transfer_log, try_except. cbv zeta.
  destruct (append_text_written no_fault _ (join "" ((λ e, dumps e +:+ nl) <$> l)) w Hp)
    as (w' & t & Hw' & Hwr & Hn). exists w', t. by rewrite Hw'.
Qed.
End Records.

(** ** Draining the backlog *)

Section Drained.
Context {E : Env} (no_fault : ∀ n, fault n = None) (faithful : ∀ n b, bitrot n b = b).
Context (B root : path) (r : Z) (Hr : (0 < r ≤ MAX_ROTATE)%Z).

(** Room for the files and the records on the drive. *)
Definition drive_ready (w : world) : Prop :=
  node_at w (root ++ ["TRANSFER.LOG"]) ≠ Some Dir ∧
  ∀ day, way_free (root ++ ["pcap"; day]) w ∧
         ∀ n, node_at w ((root ++ ["pcap"; day]) ++ [n]) ≠ Some Dir.

Lemma log_apart mnt day q n :
  export_layout mnt B root → one_mount mnt →
  q ∈ prefixes (root ++ ["pcap"; day]) ++ foot B (root ++ ["pcap"; day]) n →
  locate mnt q ≠ locate mnt (root ++ ["TRANSFER.LOG"]).
Proof using.
  intros HL Hone Hq Heq. apply locate_inj in Heq as ->; [|done]. apply elem_of_app in Hq as [Hq|Hq].
  - apply elem_of_prefixes, prefix_app_inv in Hq. by apply prefix_cons_inv_1 in Hq.
  - unfold foot, move_dests in Hq. rewrite !elem_of_cons, elem_of_nil in Hq.
    destruct Hq as [Hq|Hq].
    + apply (layout_apart mnt B root root [] HL (eq_sym (app_nil_r _)) [n] ["TRANSFER.LOG"]). by rewrite Hq.
    + destruct Hq as [Hq|[Hq|[Hq|[]]]]; rewrite <-!(assoc_L (++)) in Hq; by apply (inj (app root)) in Hq.
Qed.

(** The transfer log is apart from what is in the directory of a day. *)
Lemma log_apart_day mnt day y :
  export_layout mnt B root → apart mnt (root ++ ["TRANSFER.LOG"]) ((root ++ ["pcap"; day]) ++ y).
Proof using.
  intros HL. replace ((root ++ ["pcap"; day]) ++ y) with ((root ++ ["pcap"]) ++ day :: y) by (by rewrite <-!(assoc_L (++))).
  apply apart_below; [apply plain_dir_below, HL|]. apply apart_children; [apply HL|done].
Qed.

(** The manifest and the log are written, and nothing else changes. *)
Lemma records_q day dg (entries : list json) w :
  let D := root ++ ["pcap"; day] in
  export_layout (mounts w) B root → dir_ready w D →
  node_at w (D ++ ["MANIFEST.txt"]) ≠ Some Dir → node_at w (root ++ ["TRANSFER.LOG"]) ≠ Some Dir →
  ∃ w2 w3 now t t', write_manifest D dg w = (Ok tt, w2) ∧ append_transfer_log root entries w2 = (Ok tt, w3) ∧
    node_at w3 (D ++ ["MANIFEST.txt"]) = Some (File (encode (manifest_text now dg)) t) ∧
    node_at w3 (root ++ ["TRANSFER.LOG"]) = Some (File (contents w (root ++ ["TRANSFER.LOG"])
      ++ encode (join "" ((λ e, dumps e +:+ nl) <$> entries))) t') ∧
    ∀ p, apart (mounts w) (D ++ ["MANIFEST.txt"]) p → apart (mounts w) (root ++ ["TRANSFER.LOG"]) p →
      node_at w3 p = node_at w p.
Proof using no_fault.
  intros D HL Hdir Hman Hlog. pose proof (log_apart_day (mounts w) day ["MANIFEST.txt"] HL) as Hap. fold D in Hap.
  destruct (write_manifest_q no_fault D dg w) as (w2 & now & t & Hw2 & Hwr2 & Hn2).
  { split; [done|]. intros _. rewrite parent_app. by apply dir_ready_self. }
  assert (∀ p, apart (mounts w) (D ++ ["MANIFEST.txt"]) p → node_at w2 p = node_at w p) as Hfr2.
  { intros p Hp. apply (writes_node _ _ _ _ Hwr2). by apply outside_of_one. }
  assert (mounts w2 = mounts w) as Hm2 by apply Hwr2.
  assert (node_at w2 (root ++ ["TRANSFER.LOG"]) = node_at w (root ++ ["TRANSFER.LOG"])) as Hlog2
    by (apply Hfr2; by apply apart_sym).
  destruct (append_transfer_log_q no_fault root entries w2) as (w3 & t' & Hw3 & Hwr3 & Hn3).
  { split; [by rewrite Hlog2|]. intros _. rewrite parent_app. apply (dirs_stay_node w).
    - assert (only dirs_stay (write_manifest D dg)) as Ho
        by (unfold write_manifest, info, error; cbv zeta; solve_only). specialize (Ho w). by rewrite Hw2 in Ho.
    - specialize (Hdir (length root)). unfold D in Hdir. by rewrite take_app_length in Hdir. }
  assert (∀ p, apart (mounts w) (root ++ ["TRANSFER.LOG"]) p → node_at w3 p = node_at w2 p) as Hfr3.
  { intros p Hp. apply (writes_node _ _ _ _ Hwr3). rewrite Hm2. by apply outside_of_one. }
  exists w2, w3, now, t, t'. split_and!; [done|done|by rewrite Hfr3| |].
  - rewrite Hn3. unfold contents. by rewrite Hlog2.
  - intros p Hp1 Hp2. by rewrite Hfr3, Hfr2.
Qed.

Lemma batch_work_q day l w :
  let D := root ++ ["pcap"; day] in
  export_layout (mounts w) B root → one_mount (mounts w) → NoDup l.*1 →
  (∀ n, n ∈ l.*1 → fnmatch n "*.pcap*" = true) → exportable B D l w → drive_ready w →
  ∃ l' w', l' `sublist_of` l ∧ batch_work D root (YInt r) ((λ n, B ++ [n]) <$> l.*1) w =
      (Ok (Z.of_nat (length l'), 0%Z), w') ∧
    (∀ n d t, (n, (d, t)) ∈ l → (n, (d, t)) ∈ l' ∨ seen_active r w w' t) ∧
    (∀ n d t, (n, (d, t)) ∈ l' → node_at w' (B ++ [n]) = None ∧ node_at w' (D ++ [n]) = Some (File d t)) ∧
    (∀ n, n ∉ l'.*1 → node_at w' (B ++ [n]) = node_at w (B ++ [n])) ∧
    (l' ≠ [] → ∃ now t entries t',
       Forall2 (λ f e, ∃ k, e = ok_entry B D k f.1 f.2.1) l' entries ∧
       node_at w' (D ++ ["MANIFEST.txt"]) = Some (File (encode (manifest_text now (digests l'))) t) ∧
       node_at w' (root ++ ["TRANSFER.LOG"]) =
         Some (File (contents w (root ++ ["TRANSFER.LOG"])
                     ++ encode (join "" ((λ e, dumps e +:+ nl) <$> entries))) t')).
Proof using no_fault faithful Hr.
  intros D HL Hone Hnd Hf Hdr (Hlog & Hday). destruct (Hday day) as [Hfree Hnodir]. fold D in Hfree, Hnodir.
  destruct (export_loop_q no_fault faithful B root D ["pcap"; day] r Hr eq_refl l (Batch 0 0 [] []) w)
    as (l' & w1 & entries & Hsub & Hw1 & Hcase & Hent & Hall & Hdir & _ & Hrest & Hwr); [done..|].
  assert (mounts w1 = mounts w) as Hm1 by apply Hwr. exists l'.
  destruct (decide (l' = [])) as [->|Hne].
  { apply Forall2_nil_inv_l in Hent as ->. exists w1. split_and!; try done; [|by intros n Hn; apply Hrest].
    unfold batch_work. by rewrite (bind_ok _ _ _ _ _ Hw1). }
  assert (∀ n, n ∈ l'.*1 → n ∈ l.*1) as Hin.
  { intros n Hn. eapply elem_of_submseteq; [exact Hn|]. by apply sublist_submseteq, fmap_sublist. }
  assert (node_at w1 (root ++ ["TRANSFER.LOG"]) = node_at w (root ++ ["TRANSFER.LOG"])) as Hlog1.
  { eapply writes_node_ne; [exact Hwr|]. intros q [Hq|Hq]%elem_of_app.
    - apply (log_apart (mounts w) day q "" HL Hone). apply elem_of_app. by left.
    - apply list_elem_of_join in Hq as (fl & Hq & Hfl). apply list_elem_of_fmap in Hfl as (m & -> & _).
      apply (log_apart (mounts w) day q m HL Hone). apply elem_of_app. by right. }
  destruct (Hrest "MANIFEST.txt") as [_ Hman]; [intros Hn%Hin%Hf; by vm_compute in Hn|].
  destruct (records_q day (digests l') entries w1) as (w2 & w3 & now & t & t' & Hw2 & Hw3 & Hn2 & Hn3 & Hfr);
    [by rewrite Hm1|by apply Hdir|by fold D; rewrite Hman|by rewrite Hlog1|]. rewrite Hm1 in Hfr.
  assert (later w1 w3) as Hl3.
  { etrans; [exact (only_later _ _ _ _ (write_manifest_later _ _) Hw2)|].
    exact (only_later _ _ _ _ (append_transfer_log_later _ _) Hw3). }
  assert (∀ n, node_at w3 (B ++ [n]) = node_at w1 (B ++ [n])) as HB.
  { intros n. apply Hfr; apply apart_sym.
    - by apply (layout_apart (mounts w) B root D ["pcap"; day]).
    - by apply (layout_apart (mounts w) B root root [] HL (eq_sym (app_nil_r _))). }
  exists w3. split_and!; [done|..].
  - unfold batch_work. rewrite (bind_ok _ _ _ _ _ Hw1). cbn [transferred transfer_log_entries app].
    assert (digests l' ≠ [] ∧ entries ≠ []) as [Hdg Hen] by by destruct Hent.
    destruct (digests l') as [|g gs]; [done|]. rewrite (bind_ok _ _ _ _ _ Hw2).
    destruct entries as [|e es]; [done|]. by rewrite (bind_ok _ _ _ _ _ Hw3).
  - intros n d0 t0 Hn. destruct (Hcase n d0 t0 Hn) as [?|Ha]; [by left|right].
    by apply (seen_active_mono r w w w1 w3).
  - intros n d0 t0 Hn. destruct (Hall n d0 t0 Hn) as [HB0 HD].
    assert (n ≠ "MANIFEST.txt") as Hnm.
    { intros ->. assert ("MANIFEST.txt" ∈ l'.*1) as Hx%Hin%Hf; [|by vm_compute in Hx].
      apply list_elem_of_fmap. by eexists (_, _). }
    rewrite HB, Hfr; [done|by apply apart_children; [apply plain_dir_below, HL|]|by apply log_apart_day].
  - intros n Hn. rewrite HB. by apply Hrest.
  - intros _. exists now, t, entries, t'. split_and!; [done|exact Hn2|].
    rewrite Hn3. unfold contents. by rewrite Hlog1.
Qed.
End Drained.

(** The files of the backlog with a capture's name. *)
Definition backlog_files (B : path) (w : world) (names : list string) : files :=
  (λ n, (n, match node_at w (B ++ [n]) with Some (File d t) => (d, t) | _ => ([], 0%Z) end)) <$> names.

Lemma backlog_files_names B w names : (backlog_files B w names).*1 = names.
Proof. unfold backlog_files. induction names as [|n names IH]; csimpl; [done|]. by f_equal. Qed.

Lemma glob_sorted_q {E : Env} (no_fault : ∀ n, fault n = None) B w :
  plain_dir (mounts w) B → node_at w B = Some Dir →
  ∃ l w' names, path_glob B "*.pcap*" w = (Ok l, w') ∧ same_disk w w' ∧
    sort_by path_leb l = (λ n, B ++ [n]) <$> names ∧ NoDup names ∧
    ∀ n, n ∈ names ↔ fnmatch n "*.pcap*" = true ∧ is_Some (node_at w (B ++ [n])).
Proof.
  intros HB Hdir. rewrite (path_glob_q no_fault B _ w Hdir). set (w1 := tick (tick w)).
  set (found := List.filter _ _).
  assert (∀ n, n ∈ found ↔ fnmatch n "*.pcap*" = true ∧ is_Some (node_at w (B ++ [n]))) as Hin.
  { intros n. unfold found. rewrite list_elem_of_In, filter_In, <-list_elem_of_In, dir_order_perm.
    rewrite elem_of_children_node by done. by rewrite (and_comm (is_Some _)). }
  assert (NoDup found) as Hnd.
  { apply NoDup_ListNoDup, List.NoDup_filter, NoDup_ListNoDup. rewrite dir_order_perm. apply NoDup_children. }
  destruct (Permutation_map_inv _ _ (sort_by_perm path_leb ((λ n, B ++ [n]) <$> found)))
    as (names & Heq & Hp).
  exists ((λ n, B ++ [n]) <$> found), w1, names. split_and!; [done|done|exact Heq|by rewrite <-Hp|].
  intros n. by rewrite <-Hp.
Qed.

(** The whole batch, when no call fails: the files [l] are exported, the others
    were found active and are left where they are. *)
Lemma export_batch_mixed {E : Env} {Y : Yaml} (B root : path) (r : Z) w :
  (∀ n, fault n = None) → (∀ n b, bitrot n b = b) →
  export_layout (mounts w) B root → one_mount (mounts w) → node_at w B = Some Dir →
  (0 < r ≤ MAX_ROTATE)%Z →
  (∀ n, fnmatch n "*.pcap*" = true → node_at w (B ++ [n]) ≠ Some Dir) →
  drive_ready root w →
  ∃ w' l i, export_batch B root (YInt r) w = (Ok (Z.of_nat (length l), 0%Z), w') ∧
    NoDup l.*1 ∧ (l ≠ [] → during w w' i) ∧
    (∀ n d t, (n, (d, t)) ∈ l → fnmatch n "*.pcap*" = true ∧ node_at w (B ++ [n]) = Some (File d t)) ∧
    (∀ n d t, fnmatch n "*.pcap*" = true → node_at w (B ++ [n]) = Some (File d t) →
       (n, (d, t)) ∈ l ∨ seen_active r w w' t ∧ node_at w' (B ++ [n]) = Some (File d t)) ∧
    let D := root ++ ["pcap"; fmt_ymd (localtime (clock i))] in
    (∀ n d t, (n, (d, t)) ∈ l →
       node_at w' (B ++ [n]) = None ∧ node_at w' (D ++ [n]) = Some (File d t)) ∧
    (l ≠ [] → ∃ now t entries t',
       node_at w' (D ++ ["MANIFEST.txt"]) = Some (File (encode (manifest_text now (digests l))) t) ∧
       Forall2 (λ f e, ∃ k, e = ok_entry B D k f.1 f.2.1) l entries ∧
       node_at w' (root ++ ["TRANSFER.LOG"]) =
         Some (File (contents w (root ++ ["TRANSFER.LOG"])
                     ++ encode (join "" ((λ e, dumps e +:+ nl) <$> entries))) t')).
Proof.
  intros Hq Hb HL Hone Hdir Hr Hnodir Hdrive.
  destruct (glob_sorted_q Hq B w) as (fl & w1 & names & Hw1 & Hs1 & Hsort & Hnd & Hin); [apply HL|done|].
  set (l := backlog_files B w names).
  assert (l.*1 = names) as Hl by apply backlog_files_names.
  assert (∀ n d t, (n, (d, t)) ∈ l ↔ fnmatch n "*.pcap*" = true ∧ node_at w (B ++ [n]) = Some (File d t)) as Hfiles.
  { intros n d t. unfold l, backlog_files. rewrite list_elem_of_fmap. split.
    - intros (m & [= -> Hn] & [Hf [nd Hnd']]%Hin). split; [done|]. specialize (Hnodir m Hf).
      rewrite Hnd' in Hn, Hnodir |- *. destruct nd; [by simplify_eq|done].
    - intros [Hf Hn]. exists n. rewrite Hn. split; [done|]. apply Hin. by rewrite Hn. }
  pose proof (only_later _ _ _ _ (path_glob_later B "*.pcap*") Hw1) as Hl1.
  unfold export_batch. rewrite (bind_ok _ _ _ _ _ Hw1). cbv zeta. rewrite Hsort.
  destruct names as [|m names'].
  { exists w1, [], 0. split_and!; [done|constructor|done|by intros n d t ?%elem_of_nil| |by intros n d t ?%elem_of_nil|done].
    intros n d t Hf Hn. pose proof (proj2 (Hfiles n d t) (conj Hf Hn)) as []%elem_of_nil. }
  set (names := m :: names') in *. csimpl.
  change ((B ++ [m]) :: ((λ n, B ++ [n]) <$> names')) with ((λ n, B ++ [n]) <$> names).
  rewrite (bind_ok (info _) _ _ _ _ eq_refl), (bind_ok datetime_now _ _ _ _ eq_refl). cbv beta.
  match goal with |- context [localtime (clock ?n)] => set (i := n) end. set (now := localtime (clock i)).
  set (w2 := tick _).
  assert (∀ p, node_at w2 p = node_at w p) as Hn2 by (intros p; by apply (same_disk_node w w1)).
  assert (mounts w2 = mounts w) as Hm2 by apply Hs1.
  assert (ticks w ≤ i ∧ ticks w2 = S i) as [Hi Hi2] by done.
  destruct (batch_work_q Hq Hb B root r Hr (fmt_ymd now) l w2)
    as (l' & w' & Hsub & Hw' & Hcase & Hall & Hrest & Hrec).
  { by rewrite Hm2. } { by rewrite Hm2. } { by rewrite Hl. }
  { intros n. rewrite Hl. intros Hn%Hin. apply Hn. }
  { intros n d t [Hf Hn]%Hfiles. rewrite !Hn2. split_and!; [done|apply Hdrive]. }
  { destruct Hdrive as [Hd1 Hd2]. split; [by rewrite Hn2|]. intros day. destruct (Hd2 day) as [H1 H2].
    split; [intros k d t; rewrite Hn2; apply H1|intros n; rewrite Hn2; apply H2]. }
  rewrite Hl in Hw'. assert (later w2 w') as Hl2.
  { eapply only_later; [|exact Hw']. unfold batch_work. solve_only. }
  exists w', l', i. split_and!; [exact Hw'|..].
  - eapply sublist_NoDup; [|by apply fmap_sublist]. by rewrite Hl.
  - intros _. unfold during, later in *. lia.
  - intros n d t Hn. apply Hfiles. by eapply elem_of_submseteq, sublist_submseteq.
  - intros n d t Hf Hn. destruct (Hcase n d t) as [?|Ha]; [by apply Hfiles|by left|].
    destruct (decide ((n, (d, t)) ∈ l')) as [?|Hno]; [by left|right]. split.
    + apply (seen_active_mono r w w2 w' w'); [unfold later in *; lia|done|done].
    + rewrite Hrest, Hn2; [done|]. intros ([n' [d' t']] & -> & Hx)%list_elem_of_fmap. apply Hno.
      assert ((n', (d', t')) ∈ l) as [_ Hn']%Hfiles by (by eapply elem_of_submseteq, sublist_submseteq).
      cbn [fst] in *. congruence.
  - done.
  - intros Hne. destruct (Hrec Hne) as (now' & t & entries & t' & Hent & Hman & Hlog).
    exists now', t, entries, t'. split_and!; [done|done|]. rewrite Hlog. unfold contents. by rewrite Hn2.
Qed.

(** The whole batch, when all files are settled. *)
Lemma export_batch_q {E : Env} {Y : Yaml} (B root : path) (r : Z) w :
  (∀ n, fault n = None) → (∀ n b, bitrot n b = b) →
  export_layout (mounts w) B root → one_mount (mounts w) → node_at w B = Some Dir →
  (0 < r ≤ MAX_ROTATE)%Z →
  (∀ n, fnmatch n "*.pcap*" = true → node_at w (B ++ [n]) ≠ Some Dir) →
  (∀ n d t, node_at w (B ++ [n]) = Some (File d t) → settled r t) →
  drive_ready root w →
  ∃ w' l i, export_batch B root (YInt r) w = (Ok (Z.of_nat (length l), 0%Z), w') ∧
    NoDup l.*1 ∧
    (∀ n d t, (n, (d, t)) ∈ l ↔ fnmatch n "*.pcap*" = true ∧ node_at w (B ++ [n]) = Some (File d t)) ∧
    let D := root ++ ["pcap"; fmt_ymd (localtime (clock i))] in
    (∀ n d t, (n, (d, t)) ∈ l →
       node_at w' (B ++ [n]) = None ∧ node_at w' (D ++ [n]) = Some (File d t)) ∧
    (l ≠ [] → ∃ now t entries t',
       node_at w' (D ++ ["MANIFEST.txt"]) = Some (File (encode (manifest_text now (digests l))) t) ∧
       Forall2 (λ f e, ∃ k, e = ok_entry B D k f.1 f.2.1) l entries ∧
       node_at w' (root ++ ["TRANSFER.LOG"]) =
         Some (File (contents w (root ++ ["TRANSFER.LOG"])
                     ++ encode (join "" ((λ e, dumps e +:+ nl) <$> entries))) t')).
Proof.
  intros Hq Hb HL Hone Hdir Hr Hnodir Hset Hdrive.
  destruct (export_batch_mixed B root r w Hq Hb HL Hone Hdir Hr Hnodir Hdrive)
    as (w' & l & i & Hrun & Hnd & _ & Hin & Hout & Hrest).
  exists w', l, i. split; [done|]. split; [done|]. split; [|exact Hrest]. intros n d t. split; [apply Hin|].
  intros [Hf Hn]. destruct (Hout n d t Hf Hn) as [?|[Ha _]]; [done|].
  by destruct (settled_not_active r w w' t (Hset n d t Hn)).
Qed.

(** C9.  When no call fails, the devices keep what is written, and the capture
    files of the backlog have not been written for one and a half rotations,
    [export_batch] moves all of them: it returns their number and no failure,
    they are gone from the backlog and on the drive in the directory of the day,
    unchanged; the manifest there lists each with its digest, and the transfer
    log has grown by one entry for each. *)
Theorem export_batch_drains {E : Env} {Y : Yaml} (B root : path) (r : Z) w :
  (∀ n, fault n = None) → (∀ n b, bitrot n b = b) →
  export_layout (mounts w) B root → one_mount (mounts w) → node_at w B = Some Dir →
  (0 < r ≤ MAX_ROTATE)%Z →
  (∀ n, fnmatch n "*.pcap*" = true → node_at w (B ++ [n]) ≠ Some Dir) →
  (∀ n d t, node_at w (B ++ [n]) = Some (File d t) → settled r t) →
  drive_ready root w →
  ∃ w' l i, export_batch B root (YInt r) w = (Ok (Z.of_nat (length l), 0%Z), w') ∧
    NoDup l.*1 ∧
    (∀ n d t, (n, (d, t)) ∈ l ↔ fnmatch n "*.pcap*" = true ∧ node_at w (B ++ [n]) = Some (File d t)) ∧
    let D := root ++ ["pcap"; fmt_ymd (localtime (clock i))] in
    (∀ n d t, (n, (d, t)) ∈ l →
       node_at w' (B ++ [n]) = None ∧ node_at w' (D ++ [n]) = Some (File d t)) ∧
    (l ≠ [] → ∃ now t entries t',
       node_at w' (D ++ ["MANIFEST.txt"]) = Some (File (encode (manifest_text now (digests l))) t) ∧
       Forall2 (λ f e, ∃ k, e = ok_entry B D k f.1 f.2.1) l entries ∧
       node_at w' (root ++ ["TRANSFER.LOG"]) =
         Some (File (contents w (root ++ ["TRANSFER.LOG"])
                     ++ encode (join "" ((λ e, dumps e +:+ nl) <$> entries))) t')).
Proof. exact (export_batch_q B root r w). Qed.


(** ** The theorems at work on a sensor *)

Lemma export_batch_no_loss_witness :
  let w' := (export_batch (E:=killed_at 13) backlog drive (YInt 20) (with_drive backlog_two)).2 in
  node_at w' (backlog ++ ["SEER-1.pcap"]) = Some (File (encode "first") stamp) ∨
  ∃ day d', node_at w' (drive ++ ["pcap"; day; "SEER-1.pcap"]) = Some (File d' stamp) ∧
            sha256 d' = sha256 (encode "first").
Proof.
  apply (export_batch_no_loss (E:=killed_at 13)); [by_computation| |reflexivity].
  unfold cross_device. vm_compute. lia.
Defined.

(** What is in the backlog of the scenario. *)
Lemma backlog_two_nodes n nd :
  node_at (with_drive backlog_two) (backlog ++ [n]) = Some nd → nd = pcap "first" 81 ∨ nd = pcap "second" 61.
Proof.
  intros Hn. assert (n ∈ children (with_drive backlog_two) backlog) as Hin.
  { apply elem_of_children_node; [by_computation|by rewrite Hn]. }
  assert (Forall (λ m, m ∈ ["SEER-1.pcap"; "SEER-2.pcap"]) (children (with_drive backlog_two) backlog))
    as Hsub by by_computation.
  rewrite Forall_forall in Hsub.
  apply Hsub in Hin. repeat (apply elem_of_cons in Hin as [->|Hin]); [..|by apply elem_of_nil in Hin];
    vm_compute in Hn; injection Hn as <-; [left|right]; reflexivity.
Qed.

Lemma drive_ready_two : drive_ready drive (with_drive backlog_two).
Proof.
  split; [by rewrite drive_node|]. intros day. split.
  - intros k d t. apply day_way_free. intros j Hj d0 t0. by apply drive_no_file.
  - intros n. change ((drive ++ ["pcap"; day]) ++ [n]) with (drive ++ "pcap" :: [day; n]).
    by rewrite drive_node.
Qed.

Lemma export_batch_drains_witness :
  ∃ w' l i, export_batch (E:=quiet) backlog drive (YInt 20) (with_drive backlog_two) =
      (Ok (Z.of_nat (length l), 0%Z), w') ∧ NoDup l.*1 ∧
    (∀ n d t, (n, (d, t)) ∈ l ↔ fnmatch n "*.pcap*" = true ∧
       node_at (with_drive backlog_two) (backlog ++ [n]) = Some (File d t)) ∧
    let D := drive ++ ["pcap"; fmt_ymd (localtime (Env:=quiet) (clock (Env:=quiet) i))] in
    (∀ n d t, (n, (d, t)) ∈ l →
       node_at w' (backlog ++ [n]) = None ∧ node_at w' (D ++ [n]) = Some (File d t)) ∧
    (l ≠ [] → ∃ now t entries t',
       node_at w' (D ++ ["MANIFEST.txt"]) = Some (File (encode (manifest_text now (digests l))) t) ∧
       Forall2 (λ f e, ∃ k, e = ok_entry (E:=quiet) backlog D k f.1 f.2.1) l entries ∧
       node_at w' (drive ++ ["TRANSFER.LOG"]) =
         Some (File (contents (with_drive backlog_two) (drive ++ ["TRANSFER.LOG"])
                     ++ encode (join "" ((λ e, dumps e +:+ nl) <$> entries))) t')).
Proof.
  apply (export_batch_drains (E:=quiet)); [done|done|by_computation|by_computation|reflexivity
    |unfold MAX_ROTATE; lia| | |exact drive_ready_two].
  - intros n _ Hn. by destruct (backlog_two_nodes n Dir Hn) as [?|?].
  - intros n d t Hn k. destruct (backlog_two_nodes n _ Hn) as [Heq|Heq]; injection Heq as _ ->;
      vm_compute; done.
Defined.

(** A backlog of two settled files and one that is five seconds old. *)
Lemma backlog_mixed_file n nd : node_at (with_drive backlog_mixed) (backlog ++ [n]) = Some nd → nd ≠ Dir.
Proof.
  intros Hn ->. assert (n ∈ children (with_drive backlog_mixed) backlog) as Hin.
  { apply elem_of_children_node; [by_computation|by rewrite Hn]. }
  assert (forallb (λ m, match node_at (with_drive backlog_mixed) (backlog ++ [m]) with
    Some Dir => false | _ => true end) (children (with_drive backlog_mixed) backlog) = true) as Hall
    by (vm_compute; reflexivity).
  rewrite forallb_forall in Hall. apply list_elem_of_In, Hall in Hin. by rewrite Hn in Hin.
Qed.

Lemma drive_ready_mixed : drive_ready drive (with_drive backlog_mixed).
Proof.
  split; [by rewrite drive_node|]. intros day. split.
  - intros k d t. apply day_way_free. intros j Hj d0 t0. destruct j as [|[|[|j]]]; [vm_compute; done..|lia].
  - intros n. change ((drive ++ ["pcap"; day]) ++ [n]) with (drive ++ "pcap" :: [day; n]).
    by rewrite drive_node.
Qed.

