(* ===== verification/HotswapLoop.v ===== *)
(** * The rounds of the hot-swap service, its lock, its detection

    The loop refines an abstract machine that only knows whether a drive was
    present and how many files were exported, and that exports on the edge from
    absent to present and at no other time. *)
From S2P Require Import Prelude Text Os OsFacts OsQuiet PyNum Config Json Sha256 Mover Hotswap.
From S2P Require Import HotswapFacts HotswapBatch Scenario.
From Stdlib Require Import Ascii.

(** ** Programs over the variables of the loop *)

Section LoopRules.
Context {E : Env}.

(** [on_world m] keeps the variables and does what [m] does. *)
Lemma wp_on_world {A} (m : prog A) Q l w :
  wp m (λ r w', Q r (l, w')) w → wp (on_world m) Q (l, w).
Proof. unfold wp, on_world. by destruct (m w). Qed.

Lemma wp_get_locals Q l w : Q (Ok l) (l, w) → wp get_locals Q (l, w).
Proof. done. Qed.

Lemma wp_set_locals f Q l w : Q (Ok tt) (f l, w) → wp (set_locals f) Q (l, w).
Proof. done. Qed.
End LoopRules.

(** ** The abstract machine *)

Record abs := Abs { present : bool; exported : Z }.

Definition abs_of (l : locals) : abs := Abs (last_drive_state l) (total_exported l).

(** What a round meets: whether the detection sees a drive ([None] when it
    raises), how many files a batch started then exports, and whether the round
    gets as far as remembering what it saw. *)
Record round := Round { seen : option bool; batch_moves : Z; completed : bool }.

(** The abstract machine is deterministic.  Files are exported when a drive is
    seen and none was present before; what was seen is remembered when the round
    is completed. *)
Definition abs_round (i : round) (s : abs) : abs :=
  match seen i with
  | None => s
  | Some b =>
      Abs (if completed i then b else present s)
          (exported s + if b && negb (present s) then batch_moves i else 0)
  end.

Section Rounds.
Context {E : Env} {Y : Yaml}.

Lemma export_loop_counts D r pcaps b w :
  wp (export_loop D r pcaps b)
    (λ res _, ∀ b', res = Ok b' → (success_count b ≤ success_count b' ∧ fail_count b ≤ fail_count b' ∧
       success_count b' + fail_count b' ≤ success_count b + fail_count b + Z.of_nat (length pcaps))%Z) w.
Proof.
  revert b w. induction pcaps as [|p pcaps IH]; intros b w; cbn [export_loop length].
  { apply wp_ret. intros b' [= <-]. lia. }
  apply wp_bind.
  apply (wp_mono _ (λ res _, ∀ b', res = Ok b' → (success_count b ≤ success_count b' ∧
    fail_count b ≤ fail_count b' ∧
    success_count b' + fail_count b' ≤ success_count b + fail_count b + 1)%Z)).
  - unfold export_one. apply wp_bind, (wp_only (λ _ _, True)); [done|]. intros [[]|e] w1 _; [|..|done].
    { apply wp_ret. intros b' [= <-]. lia. }
    apply wp_bind, (wp_only (λ _ _, True)); [done|]. intros [[[success sha] err]|e] w2 _; [|done].
    apply wp_bind, (wp_only (λ _ _, True)); [done|]. intros [entry|e] w3 _; [|done]. cbv zeta.
    destruct success; [destruct sha; [|by apply wp_raise]|];
      (apply wp_bind, (wp_only (λ _ _, True)); [done|]); intros [[]|e] w4 _; try done;
      apply wp_ret; intros b' [= <-]; simpl; lia.
  - intros [b1|e] w1 Hb1; [|done]. eapply wp_mono; [apply IH|]. intros res w2 Hres b' ->.
    specialize (Hb1 b1 eq_refl). specialize (Hres b' eq_refl). lia.
Qed.

Lemma export_batch_counts B root r w :
  wp (export_batch B root r) (λ res _, ∀ s f, res = Ok (s, f) → (0 ≤ s ∧ 0 ≤ f)%Z) w.
Proof.
  unfold export_batch. apply wp_bind, (wp_only (λ _ _, True)); [done|]. intros [l|e] w1 _; [|done].
  cbv zeta. destruct (sort_by path_leb l) as [|p pcaps]; [apply wp_ret; intros s f [= <- <-]; lia|].
  apply wp_bind, (wp_only (λ _ _, True)); [done|]. intros [[]|e] w2 _; [|done].
  apply wp_bind, (wp_only (λ _ _, True)); [done|]. intros [now|e] w3 _; [|done].
  apply wp_bind. eapply wp_mono; [apply export_loop_counts|]. intros [b|e] w4 Hb; [|done].
  specialize (Hb b eq_refl). simpl in Hb.
  apply wp_bind, (wp_only (λ _ _, True)); [done|]. intros [[]|e] w5 _; [|done].
  apply wp_bind, (wp_only (λ _ _, True)); [done|]. intros [[]|e] w6 _; [|done].
  apply wp_ret. intros s f [= <- <-]. lia.
Qed.

(** The batch the arrival of the drive [s] starts. *)
Definition batch_on (cf : settings) (s : string) : prog (Z * Z) :=
  backlog ← lift_res (ypath (backlog_dir cf)); export_batch backlog (Path_ s) (rotate_seconds cf).

(** The part of a round between the detection and the update of the variable. *)
Definition react (cf : settings) (target : option (string * Z)) (l : locals) : loop_prog unit :=
  match target, last_drive_state l with
  | Some (drive_path, free_bytes), false => on_arrival cf drive_path free_bytes
  | None, true =>
      on_world (info "Drive removed; mover will now stage to backlog";;
                update_state false None (total_exported l))
  | Some _, true => on_world (update_state true None (total_exported l))
  | None, false => mret tt
  end.

(** The round the service meets in the state [w]. *)
Definition arrival_msg (s : string) (free : Z) : event :=
  Logged "INFO" ("Drive detected: " +:+ s +:+ " (free: " +:+ pretty (free / 1024 ^ 2)%Z +:+ " MB)").
Definition round_of (cf : settings) (l : locals) (w : world) : round :=
  match detect_export_target (mount_candidates cf) (min_free_pct cf) w with
  | (Err _, _) => Round None 0 false
  | (Ok target, w1) =>
      Round (Some (match target with Some _ => true | None => false end))
        (match target with
         | Some (s, free) =>
             match (batch_on cf s (emit_event (arrival_msg s free) w1)).1 with
             | Ok (n, _) => n
             | Err _ => 0
             end
         | None => 0
         end)
        (match (react cf target l (l, w1)).1 with Ok _ => true | Err _ => false end)
  end.

(** The rounds of the loop. *)
Fixpoint rounds_of (fuel : nat) (cf : settings) (st : locals * world) : list round :=
  match fuel with
  | O => []
  | S fuel' =>
      round_of cf st.1 st.2 ::
      match poll cf st with (Ok true, st') => rounds_of fuel' cf st' | _ => [] end
  end.

Lemma batch_moves_nonneg cf l w : (0 ≤ batch_moves (round_of cf l w))%Z.
Proof.
  unfold round_of. destruct (detect_export_target _ _ w) as [[target|e] w1]; simpl; [|lia].
  destruct target as [[s free]|]; [|lia].
  assert (wp (batch_on cf s) (λ res _, ∀ n f, res = Ok (n, f) → (0 ≤ n)%Z)
            (emit_event (arrival_msg s free) w1)) as Hw.
  { unfold batch_on. apply wp_bind, wp_lift. destruct (ypath _) as [B|e]; [|done].
    eapply wp_mono; [apply export_batch_counts|]. intros res w2 Hr n f ->. by destruct (Hr n f). }
  unfold wp in Hw. destruct (batch_on cf s _) as [[[n f]|e] w2]; simpl in *; [|lia]. by apply (Hw n f).
Qed.

(** The arrival of a drive: the count grows by what the batch exported, even
    when the round ends in an exception afterwards. *)
Lemma wp_on_arrival cf s free l w :
  wp (on_arrival cf s free)
    (λ _ '(l', _), last_drive_state l' = last_drive_state l ∧
       total_exported l' = (total_exported l +
         match (batch_on cf s (emit_event (arrival_msg s free) w)).1 with Ok (n, _) => n | Err _ => 0 end)%Z) (l, w).
Proof.
  set (w1 := emit_event (arrival_msg s free) w). unfold on_arrival.
  apply wp_bind, (wp_eq _ _ _ (Ok tt) (l, w1)); [done|]. apply wp_bind, wp_on_world.
  fold (batch_on cf s). destruct (batch_on cf s w1) as [r w2] eqn:Hb. apply (wp_eq _ _ _ _ _ Hb).
  destruct r as [[k f]|e]; cbn [fst]; [|split; [done|lia]].
  apply wp_bind, wp_set_locals.
  apply wp_bind, wp_on_world, (wp_only (λ _ _, True)); [done|]. intros [[]|e] w3 _; [|done].
  apply wp_bind, wp_get_locals, wp_on_world, (wp_only (λ _ _, True)); [done|]. done.
Qed.

(** The variables after a round, however it ends. *)
Lemma wp_poll_body cf l w :
  wp (poll_body cf) (λ _ '(l', _), abs_of l' = abs_round (round_of cf l w) (abs_of l)) (l, w).
Proof.
  unfold poll_body, round_of. apply wp_bind, wp_on_world.
  destruct (detect_export_target _ _ w) as [res0 w1] eqn:Hdet. apply (wp_eq _ _ _ _ _ Hdet).
  destruct res0 as [target|e]; [|done].
  apply wp_bind, wp_get_locals, wp_bind. fold (react cf target l).
  assert (wp (react cf target l) (λ _ '(l', _), last_drive_state l' = last_drive_state l ∧
    total_exported l' = (total_exported l +
      if (match target with Some _ => true | None => false end) && negb (last_drive_state l) then
        match target with
        | Some (s, free) =>
            match (batch_on cf s (emit_event (arrival_msg s free) w1)).1 with Ok (n, _) => n | Err _ => 0 end
        | None => 0
        end
      else 0)%Z) (l, w1)) as Hr.
  { unfold react. destruct target as [[s free]|], (last_drive_state l) eqn:Hl; cbn [andb negb].
    - apply wp_on_world, (wp_only (λ _ _, True)); [done|]. intros _ w' _. split; [done|lia].
    - rewrite <-Hl. apply wp_on_arrival.
    - apply wp_on_world, (wp_only (λ _ _, True)); [done|]. intros _ w' _. split; [done|lia].
    - apply wp_ret. split; [done|lia]. }
  destruct (react cf target l (l, w1)) as [res [l' w2]] eqn:Hreact. apply (wp_eq _ _ _ _ _ Hreact).
  apply (wp_run _ _ _ _ _ Hreact) in Hr as [Hlast Htot]. cbn [fst].
  unfold abs_round, abs_of. cbn [seen completed batch_moves present exported].
  destruct res as [[]|e]; [|by rewrite Hlast, Htot].
  apply wp_bind, wp_set_locals, wp_on_world, (wp_only (λ _ _, True)); [done|]. intros r w3 _.
  cbn. by rewrite Htot.
Qed.

Lemma wp_poll cf l w :
  wp (poll cf) (λ _ '(l', _), abs_of l' = abs_round (round_of cf l w) (abs_of l)) (l, w).
Proof.
  unfold poll. apply wp_try, wp_bind. eapply wp_mono; [apply wp_poll_body|].
  intros [[]|e] [l' w'] Hs; [by apply wp_ret|].
  destruct (_ || _); [|done]. apply wp_on_world, (wp_only (λ _ _, True)); [done|]. done.
Qed.

Lemma poll_loop_abs cf fuel st :
  abs_of (poll_loop fuel cf st).2.1 = foldl (λ s i, abs_round i s) (abs_of st.1) (rounds_of fuel cf st).
Proof.
  revert st. induction fuel as [|fuel IH]; intros [l w]; [done|]. cbn [poll_loop rounds_of foldl fst snd].
  pose proof (wp_poll cf l w) as Hp. unfold wp in Hp. unfold mbind, io_bind.
  destruct (poll cf (l, w)) as [[go|e] [l' w']]; cbn [fst snd] in *; [|done].
  destruct go; [|done]. rewrite IH. cbn [fst]. by rewrite Hp.
Qed.
End Rounds.

(** C10.  The loop refines the abstract machine: whatever fails and whatever the
    other processes do while it sleeps, after any number of rounds its variables
    are those of the machine after the rounds the service met.  So files are
    exported in a round that sees a drive where the last completed round saw
    none, as many as its batch reports, and in no other round; a round that
    fails before its end does not change what is remembered.  The count never
    decreases. *)
Theorem poll_loop_refines {E : Env} {Y : Yaml} (cf : settings) (fuel : nat) l w :
  abs_of (poll_loop fuel cf (l, w)).2.1 =
    foldl (λ s i, abs_round i s) (abs_of l) (rounds_of fuel cf (l, w)) ∧
  Forall (λ i, (0 ≤ batch_moves i)%Z) (rounds_of fuel cf (l, w)).
Proof.
  split; [apply (poll_loop_abs cf fuel (l, w))|].
  generalize (l, w). induction fuel as [|fuel IH]; intros st; [constructor|]. cbn [rounds_of].
  constructor; [apply batch_moves_nonneg|]. destruct (poll cf st) as [[[]|e] st']; [apply IH|constructor..].
Qed.

(** ** Rounds without an arrival *)

Section Idle.
Context {E : Env} {Y : Yaml}.

Lemma detect_export_target_same c m : only same_disk (detect_export_target c m).
Proof.
  unfold detect_export_target. apply only_bind; [typeclasses eauto|solve_only|]. intros l.
  induction l as [|v l IH]; cbn [detect_loop]; unfold warning; solve_only.
Qed.

Lemma update_state_touches P b ts n : STATE_FILE ∈ P → only (touches P) (update_state b ts n).
Proof. intros HP. unfold update_state, warning. cbv zeta. solve_only. Qed.

Context (R : relation world) `{!PreOrder R}.
Context (HR : ∀ w w', touches [STATE_FILE] w w' → R w w') (Hout : ∀ n w, R w (outside n w)).

Lemma time_sleep_R v : only R (time_sleep v).
Proof using All.
  unfold time_sleep. apply only_bind; [done|apply only_lift; apply _|]. intros n.
  assert (∀ A (m : prog A), only same_disk m → only R m) as Hs.
  { intros A m Hm w. apply HR, same_disk_touches, Hm. }
  destruct (num_ge n (NInt 0)); [|apply Hs; solve_only].
  destruct (num_gt n (NInt 9223372036)); [apply Hs; solve_only|].
  intros w. unfold sleep. pose proof (syscall_same None None w) as Hsc.
  destruct (syscall None None w) as [[[]|e] w']; simpl in *; [|by apply HR, same_disk_touches].
  etrans; [by apply HR, same_disk_touches|apply Hout].
Qed.

Lemma poll_body_idle cf l w :
  last_drive_state l = true ∨
    (∀ s f, (detect_export_target (mount_candidates cf) (min_free_pct cf) w).1 ≠ Ok (Some (s, f))) →
  wp (poll_body cf) (λ _ '(_, w'), R w w') (l, w).
Proof using All.
  intros Hcase.
  assert (∀ A (m : prog A), only (touches [STATE_FILE]) m → only R m) as Ht.
  { intros A m Hm w1. apply HR, Hm. }
  unfold poll_body. apply wp_bind, wp_on_world.
  eapply wp_mono.
  { apply (wp_and_only R _ w (λ r _, (detect_export_target (mount_candidates cf) (min_free_pct cf) w).1 = r));
      [apply Ht, only_same_touches, detect_export_target_same|done]. }
  intros [target|e] w1 [Hd HR1]; [|done]. apply wp_bind, wp_get_locals, wp_bind.
  fold (react cf target l).
  apply (wp_mono _ (λ _ '(_, w'), R w w')).
  - unfold react.
    destruct target as [[s f]|], (last_drive_state l) eqn:Hl.
    + apply wp_on_world, (wp_only R); [apply Ht, update_state_touches; left|]. intros _ w2 ?. by etrans.
    + exfalso. destruct Hcase as [?|Hno]; [done|]. by apply (Hno s f).
    + apply wp_on_world, (wp_only R).
      { apply Ht. pose proof (update_state_touches [STATE_FILE] false None (total_exported l)
          (list_elem_of_here _ _)). unfold info. solve_only. }
      intros _ w2 ?. by etrans.
    + by apply wp_ret.
  - intros [[]|e] [l' w2] HR2; [|done]. apply wp_bind, wp_set_locals, wp_on_world.
    apply (wp_only R); [apply time_sleep_R|]. intros _ w3 ?. by etrans.
Qed.
End Idle.

(** C11.  A round that begins with a drive present, or in which none is found,
    exports nothing: apart from the state file, and from what other processes do
    while the service sleeps, the disk stays as it is.  ([R] is any preorder
    that allows writing the state file and what the other processes do.) *)
Theorem poll_idle {E : Env} {Y : Yaml} (cf : settings) (R : relation world) l w :
  PreOrder R → (∀ w w', touches [STATE_FILE] w w' → R w w') → (∀ n w, R w (outside n w)) →
  last_drive_state l = true ∨
    (∀ s f, (detect_export_target (mount_candidates cf) (min_free_pct cf) w).1 ≠ Ok (Some (s, f))) →
  R w (poll cf (l, w)).2.2.
Proof.
  intros Hpre HR Hout Hcase.
  enough (wp (poll cf) (λ _ '(_, w'), R w w') (l, w)) as Hw.
  { unfold wp in Hw. by destruct (poll cf (l, w)) as [r [l' w']]. }
  unfold poll. apply wp_try, wp_bind. eapply wp_mono.
  { by apply (poll_body_idle R HR Hout cf l w). }
  intros [[]|e] [l' w1] Hw1; [by apply wp_ret|]. destruct (_ || _); [|done].
  apply wp_on_world, (wp_only R); [|intros _ w2 ?; by etrans].
  assert (∀ A (m : prog A), only same_disk m → only R m) as Hs.
  { intros A m Hm w2. apply HR, same_disk_touches, Hm. }
  destruct (is_KeyboardInterrupt e); [apply Hs; unfold info; solve_only|].
  apply only_bind; [done|apply Hs; apply log_at_same|intros _].
  apply only_bind; [done|by apply time_sleep_R|intros _]. apply only_ret. done.
Qed.

(** ** The theorem at work on a sensor *)

Definition default_settings : settings :=
  Settings (YStr "/opt/seer/var/backlog") (YInt 20) Hotswap.default_candidates (YInt 2) (YInt 2).

(** With the drive present since an earlier round, the backlog is left alone. *)
Lemma poll_idle_witness :
  touches [STATE_FILE] (with_drive backlog_two)
    (poll (E:=quiet) default_settings (Locals 0 true, with_drive backlog_two)).2.2.
Proof.
  apply (poll_idle (E:=quiet) default_settings (touches [STATE_FILE]) (Locals 0 true)
    (with_drive backlog_two)); [apply _|done|intros n w; reflexivity|by left].
Defined.
