(* ===== verification/HotswapLock.v ===== *)
(** * The lock and the detection of the hot-swap service

    A running instance keeps a second one out; the service and the mover find
    the same drive. *)
From S2P Require Import Prelude Text Os TextFacts OsFacts OsQuiet PyNum Config Json Mover Hotswap.
From S2P Require Import HotswapFacts Scenario.

(** ** The lock *)

Section Lock.
Context {E : Env} {Y : Yaml}.

Lemma read_lock_same : only same_disk read_lock.
Proof. unfold read_lock. solve_only. Qed.

(** Whatever fails, a lock that was taken names this process. *)
Lemma wp_acquire_lock w :
  wp acquire_lock
    (λ r w', touches [LOCK_FILE] w w' ∧
       (r = Ok true → ∃ t, node_at w' LOCK_FILE = Some (File (encode (pretty pid)) t))) w.
Proof.
  split.
  { assert (LOCK_FILE ∈ [LOCK_FILE]) by left. pose proof read_lock_same.
    assert (only (touches [LOCK_FILE]) acquire_lock) as Ho; [|apply Ho].
    unfold acquire_lock, error. solve_only. }
  enough (wp acquire_lock (λ r w', r = Ok true →
    ∃ t, node_at w' LOCK_FILE = Some (File (encode (pretty pid)) t)) w) as Hw by exact Hw.
  unfold acquire_lock. apply wp_bind, (wp_only (λ _ _, True)); [done|]. intros [[]|e] w1 _; [|done].
  apply wp_bind, (wp_only (λ _ _, True)); [done|]. intros [held|e] w2 _; [|done].
  apply wp_bind, (wp_only (λ _ _, True)); [done|]. intros [[]|e] w3 _; [done| |done].
  apply wp_bind, wp_bind. eapply wp_mono; [apply wp_open_write|]. intros [[]|e] w4 [_ Ho]; [|done].
  destruct (Ho eq_refl) as [t Ht]. eapply wp_mono; [eapply wp_write_bytes; exact Ht|].
  intros [[]|e] w5 [_ Hw]; [|done]. apply wp_ret. intros _. by apply Hw.
Qed.

Lemma acquire_lock_busy (no_fault : ∀ n, fault n = None) n t w :
  dir_ready w (parent LOCK_FILE) → node_at w LOCK_FILE = Some (File (encode (pretty n)) t) →
  (- 2 ^ 31 ≤ n < 2 ^ 31)%Z → (∀ k, kill0 k n = None) →
  ∃ w', acquire_lock w = (Ok false, w') ∧ same_disk w w'.
Proof.
  intros Hdir Hlock Hn Halive. unfold acquire_lock.
  destruct (makedirs_ready no_fault _ _ Hdir) as (w1 & Hw1 & Hs1).
  rewrite (bind_ok _ _ _ _ _ Hw1), (bind_ok _ _ _ _ _ (os_exists_q no_fault _ _)).
  rewrite (same_disk_node w w1), Hlock by done.
  assert (read_lock (tick w1) = (Ok n, tick (tick w1))) as Hr.
  { unfold read_lock. rewrite <-(same_disk_node w (tick w1)) in Hlock by done.
    rewrite (bind_ok _ _ _ _ _ (open_read_q no_fault _ _ _ _ Hlock)).
    by rewrite decode_encode, py_int_strip_pretty. }
  assert (os_kill0 n (tick (tick w1)) = (Ok tt, tick (tick (tick w1)))) as Hk.
  { unfold os_kill0. rewrite bool_decide_true by done.
    rewrite (bind_ok _ _ _ _ _ (syscall_q no_fault _ _ _)).
    rewrite (bind_ok get _ _ _ _ eq_refl). by rewrite Halive. }
  eexists. split.
  - etrans; [eapply bind_ok|].
    + unfold try_except. rewrite (bind_ok _ _ _ _ _ Hr), (bind_ok _ _ _ _ _ Hk).
      by rewrite (bind_ok (error _) _ _ _ _ eq_refl).
    + reflexivity.
  - done.
Qed.
(** A lock that no living process holds: no number, or the number of a process
    that [os.kill] does not find. *)
Definition stale (b : bytes) : Prop :=
  match py_int (strip (decode b)) with
  | Some n => (- 2 ^ 31 ≤ n < 2 ^ 31)%Z ∧ ∀ k, is_Some (kill0 k n)
  | None => True
  end.

Lemma read_stale (no_fault : ∀ n, fault n = None) b t w :
  node_at w LOCK_FILE = Some (File b t) → stale b →
  ∃ e w', (n ← read_lock; os_kill0 n;; error ("Another instance is running (PID " +:+ pretty n +:+ ")");; mret true) w
    = (Err e, w') ∧ is_OSError e || is_ValueError e = true ∧ same_disk w w'.
Proof.
  intros Hlock Hstale. unfold stale in Hstale.
  assert (read_lock w = (match py_int (strip (decode b)) with
    | Some n => Ok n | None => Err (ValueError "invalid literal for int()") end, tick w)) as Hr.
  { unfold read_lock. rewrite (bind_ok _ _ _ _ _ (open_read_q no_fault _ _ _ _ Hlock)). by destruct (py_int _). }
  destruct (py_int (strip (decode b))) as [n|].
  - destruct Hstale as [Hn Hdead]. rewrite (bind_ok _ _ _ _ _ Hr).
    unfold os_kill0. rewrite bool_decide_true by done. unfold mbind, io_bind, get. rewrite (syscall_q no_fault).
    destruct (Hdead (ticks (tick (tick w)))) as [e ->]. by eexists _, _.
  - rewrite (bind_err _ _ _ _ _ Hr). by eexists _, _.
Qed.

Lemma acquire_stale (no_fault : ∀ n, fault n = None) b t w :
  dir_ready w (parent LOCK_FILE) → node_at w LOCK_FILE = Some (File b t) → stale b →
  ∃ w' t', acquire_lock w = (Ok true, w') ∧ node_at w' LOCK_FILE = Some (File (encode (pretty pid)) t').
Proof.
  intros Hdir Hlock Hstale. destruct (makedirs_ready no_fault _ _ Hdir) as (w1 & Hw1 & Hs1).
  assert (node_at w1 LOCK_FILE = Some (File b t)) as Hexists by (by rewrite (same_disk_node w w1)).
  rewrite <-(same_disk_node w (tick w1)) in Hlock by done.
  destruct (read_stale no_fault b t (tick w1) Hlock Hstale) as (e & w2 & Hrun & He & Hs2).
  rewrite <-(same_disk_node (tick w1) w2) in Hlock by done.
  destruct (unlink_q no_fault _ _ _ _ Hlock) as ([] & w3 & Hw3).
  assert (writable_at w3 LOCK_FILE) as Hw.
  { destruct (wp_run _ _ _ _ _ Hw3 (wp_unlink LOCK_FILE w2)) as [_ Hgone]. split; [by rewrite Hgone|]. intros _.
    pose proof (unlink_stay LOCK_FILE w2) as Hst. rewrite Hw3 in Hst. eapply dirs_stay_node; [exact Hst|].
    rewrite (same_disk_node w w2) by (by etrans; [|exact Hs2]). by apply dir_ready_self. }
  destruct (write_text_q no_fault LOCK_FILE (pretty pid) w3 Hw) as ([] & w4 & Hw4).
  assert (acquire_lock w = (Ok true, w4)) as Hrun'.
  { unfold acquire_lock. rewrite (bind_ok _ _ _ _ _ Hw1), (bind_ok _ _ _ _ _ (os_exists_q no_fault _ _)).
    rewrite Hexists. rewrite (bind_ok _ _ _ false w3); [by rewrite (bind_ok _ _ _ _ _ Hw4)|].
    unfold try_except. rewrite Hrun, He. by rewrite (bind_ok _ _ _ _ _ Hw3). }
  destruct (wp_run _ _ _ _ _ Hrun' (wp_acquire_lock w)) as [_ Hown]. destruct (Hown eq_refl) as [t' Ht'].
  by exists w4, t'.
Qed.
End Lock.

(** C12.  Two instances: once one has taken the lock, under any failures, and
    while its process lives and the lock file stays, a second one (in an
    environment of its own, in which nothing fails) exits with status 1 and
    leaves the disk as it is. *)
Theorem second_instance_exits (E1 E2 : Env) (Y : Yaml) w1 w1' w2 fuel :
  acquire_lock (E:=E1) w1 = (Ok true, w1') →
  node_at w2 LOCK_FILE = node_at w1' LOCK_FILE → dir_ready w2 (parent LOCK_FILE) →
  (∀ n, fault (Env:=E2) n = None) →
  (- 2 ^ 31 ≤ pid (Env:=E1) < 2 ^ 31)%Z → (∀ k, kill0 (Env:=E2) k (pid (Env:=E1)) = None) →
  ∃ w2', main (E:=E2) fuel w2 = (Err (SystemExit 1), w2') ∧ same_disk w2 w2'.
Proof.
  intros H1 Hlock Hdir Hq Hpid Halive.
  destruct (wp_run _ _ _ _ _ H1 (wp_acquire_lock w1)) as [_ Hw1].
  destruct (Hw1 eq_refl) as [t Ht]. rewrite Ht in Hlock.
  destruct (acquire_lock_busy (E:=E2) Hq _ _ _ Hdir Hlock Hpid Halive) as (w2' & Hw2 & Hs).
  exists w2'. split; [|done]. unfold main. by rewrite (bind_ok _ _ _ _ _ Hw2).
Qed.

(** C31.  A crash does not keep the service out: whatever an instance that is no
    longer alive has left in the lock file (its PID, a PID cut short, nothing),
    the next instance, when no call fails, takes the lock with its own PID, and
    touches nothing but the lock file. *)
Theorem stale_lock_taken {E : Env} b t w :
  (∀ n, fault n = None) → dir_ready w (parent LOCK_FILE) →
  node_at w LOCK_FILE = Some (File b t) → stale b →
  ∃ w' t', acquire_lock w = (Ok true, w') ∧ touches [LOCK_FILE] w w' ∧
    node_at w' LOCK_FILE = Some (File (encode (pretty pid)) t').
Proof.
  intros Hq Hdir Hlock Hstale. destruct (acquire_stale Hq b t w Hdir Hlock Hstale) as (w' & t' & Hrun & Hown).
  exists w', t'. split_and!; [done| |done].
  by destruct (wp_run _ _ _ _ _ Hrun (wp_acquire_lock w)) as [Ht _].
Qed.

(** ** Detection *)

Section Detection.
Context {E : Env} {Y : Yaml} (no_fault : ∀ n, fault n = None).

Lemma free_space_percent bavail blocks frsize :
  free_space bavail blocks frsize =
    f ← free_percent bavail blocks frsize; mret ((bavail * frsize)%Z, f).
Proof.
  unfold free_space, free_percent. destruct (0 <? blocks * frsize)%Z; [|done].
  by destruct (int_truediv _ _).
Qed.

(** The statistics of one candidate. *)
Definition stat_candidate (candidate : string) (min_free_pct : yval) : prog (option (string * Z)) :=
  try_except
    ('(bavail, blocks, frsize) ← os_statvfs (Path_ candidate);
     '(free_bytes, free_pct) ← lift_res (free_space bavail blocks frsize);
     min ← lift_res (ynum min_free_pct);
     mret (if num_ge free_pct min then Some (candidate, free_bytes) else None))
    is_Exception
    (λ e, warning ("Failed to stat " +:+ candidate +:+ ": " +:+ exn_str e);; mret None).

Lemma stat_candidate_q s min w :
  is_Some (node_at w (Path_ s)) →
  ∃ w' free, same_disk w w' ∧ stat_candidate s min w =
    (Ok (if enough_free w min (Path_ s) then Some (s, free) else None), w').
Proof using no_fault.
  intros Hn. unfold stat_candidate, enough_free, try_except.
  rewrite (bind_ok _ _ _ _ _ (os_statvfs_q no_fault _ _ Hn)). cbv zeta beta iota.
  rewrite free_space_percent. unfold mbind, io_bind, lift_res, res_bind.
  destruct (free_percent _ _ _) as [f|e] eqn:Hf; simpl.
  - destruct (ynum min) as [n|e] eqn:Hy; simpl.
    + destruct (num_ge f n); [eexists _, _|eexists _, 0%Z]; by (split; [|reflexivity]).
    + destruct min; simplify_eq/=; eexists _, 0%Z; by (split; [|reflexivity]).
  - assert (is_Exception e = true) as ->; [|eexists _, 0%Z; by (split; [|reflexivity])].
    revert Hf. unfold free_percent, int_truediv, mbind, res_bind.
    repeat case_match; intros; simplify_eq; done.
Qed.

Lemma detect_loop_target_q w l min w1 :
  same_disk w w1 →
  ∃ w' free, same_disk w w' ∧ Hotswap.detect_loop (YStr <$> l) min w1 =
    (Ok ((λ s, (s, free)) <$> first_qualifying w min l), w').
Proof using no_fault.
  revert w1. induction l as [|s l IH]; intros w1 Hs1; [by exists w1, 0%Z|]. csimpl.
  rewrite (bind_ok (lift_res (Ok s)) _ _ _ _ eq_refl).
  destruct (os_ismount_q no_fault (Path_ s) w1) as (w2 & Hw2 & Hs2).
  assert (same_disk w w2) as Hs02 by (by etrans).
  rewrite (bind_ok _ _ _ _ _ Hw2), (mounted_same w w1) by done. unfold qualifies.
  destruct (mounted w (Path_ s)) eqn:Hm; simpl; [|by apply IH].
  assert (is_Some (node_at w2 (Path_ s))) as Hn.
  { rewrite (same_disk_node w w2) by done. by apply mounted_node. }
  rewrite (bind_ok _ _ _ _ _ (os_access_w_q no_fault _ _ Hn)).
  assert (mounts w2 = mounts w) as Hmm by apply Hs02. rewrite Hmm.
  destruct (m_writable _); simpl; [|by apply IH].
  destruct (stat_candidate_q s min (tick w2)) as (w3 & free & Hs3 & Hw3); [done|].
  unfold stat_candidate in Hw3. rewrite (bind_ok _ _ _ _ _ Hw3). unfold enough_free. simpl. rewrite Hmm.
  fold (enough_free w min (Path_ s)).
  destruct (enough_free w min (Path_ s)); simpl.
  - eexists _, _. split; [|reflexivity]. etrans; [exact Hs02|exact Hs3].
  - apply IH. etrans; [exact Hs02|exact Hs3].
Qed.

Lemma detect_target_q w c min l :
  candidate_strings c = Some l →
  ∃ w' free, same_disk w w' ∧ detect_export_target c min w =
    (Ok ((λ s, (s, free)) <$> first_qualifying w min l), w').
Proof using no_fault.
  intros Hc. unfold detect_export_target. rewrite (candidate_strings_yiter _ _ Hc).
  rewrite (bind_ok (lift_res (Ok _)) _ _ _ _ eq_refl). by apply detect_loop_target_q.
Qed.
End Detection.

(** C13.  When no call fails, the service and the mover, given the same
    candidates and the same minimum, find the same drive: the first candidate
    that is a mount point, writable, and has the minimal share of free space. *)
Theorem detections_agree {E : Env} {Y : Yaml} (C : cfg) w l :
  (∀ n, fault n = None) → candidate_strings (MOUNT_CANDIDATES C) = Some l →
  ∃ k free,
    (detect_export_target (MOUNT_CANDIDATES C) (MIN_FREE_PCT C) w).1 =
      Ok ((λ s, (s, free)) <$> first_qualifying w (MIN_FREE_PCT C) l) ∧
    (detect_export_drive C w).1 =
      Ok ((λ s, (s, Path_ s ++ ["pcap"; fmt_ymd (localtime (clock k))]))
            <$> first_qualifying w (MIN_FREE_PCT C) l).
Proof.
  intros Hq Hc.
  destruct (detect_target_q Hq w _ (MIN_FREE_PCT C) l Hc) as (w1 & free & _ & H1).
  destruct (detect_q C Hq w l w Hc (reflexivity w)) as (w2 & k & _ & _ & H2).
  exists k, free. by rewrite H1, H2.
Qed.

(** ** The theorems at work on a sensor *)

(** Another process, which sees the first one alive. *)
Definition second_process : Env := {|
  root_mount := root_vfs;
  clock := λ _, (noon * second)%Z;
  fault := λ _, None;
  short_write := λ _, 0;
  bitrot := λ _ d, d;
  dir_order := λ _ l, l;
  dir_order_perm := λ _ l, reflexivity l;
  localtime := λ _, noon_tm;
  kill0 := λ _ n, if bool_decide (n = 4711%Z) then None else Some ESRCH;
  pid := 4712;
  nodename := "seer-sensor-01";
  outside := λ _ w, w;
  exec := λ _ _ w, (Proc 0 "" "", w);
  stdin := λ _, Some "";
  cpu_count := Some 4%Z;
  which := λ _, true;
|}.

Lemma second_instance_exits_witness :
  ∃ w2', main (E:=second_process) (Y:=yaml_of_scenario) 5
      (acquire_lock (E:=quiet) (no_drive [])).2 = (Err (SystemExit 1), w2') ∧
    same_disk (acquire_lock (E:=quiet) (no_drive [])).2 w2'.
Proof.
  apply (second_instance_exits quiet second_process yaml_of_scenario (no_drive [])
    (acquire_lock (E:=quiet) (no_drive [])).2).
  - vm_compute. reflexivity.
  - reflexivity.
  - by_computation.
  - done.
  - simpl. lia.
  - intros k. reflexivity.
Defined.

(** The first instance is killed while it writes its PID 4711: it leaves ["47"],
    and no process has that number. *)
Lemma stale_lock_taken_witness :
  ∃ w' t', acquire_lock (E:=second_process) (no_drive [(LOCK_FILE, File (encode "47") 0)]) = (Ok true, w') ∧
    touches [LOCK_FILE] (no_drive [(LOCK_FILE, File (encode "47") 0)]) w' ∧
    node_at w' LOCK_FILE = Some (File (encode (pretty (pid (Env:=second_process)))) t').
Proof.
  apply (stale_lock_taken (E:=second_process) (encode "47") 0 (no_drive [(LOCK_FILE, File (encode "47") 0)])).
  - done.
  - by_computation.
  - vm_compute. reflexivity.
  - unfold stale. replace (py_int _) with (Some 47%Z) by (vm_compute; reflexivity).
    split; [lia|]. intros k. eexists. reflexivity.
Defined.

Lemma detections_agree_witness :
  ∃ k free,
    (detect_export_target (E:=quiet) (MOUNT_CANDIDATES sensor_cfg) (MIN_FREE_PCT sensor_cfg)
       (with_drive [])).1 = Ok (Some ("/mnt/seer_external", free)) ∧
    (detect_export_drive (E:=quiet) sensor_cfg (with_drive [])).1 =
      Ok (Some ("/mnt/seer_external",
                drive ++ ["pcap"; fmt_ymd (localtime (Env:=quiet) (clock (Env:=quiet) k))])).
Proof.
  assert (first_qualifying (E:=quiet) (with_drive []) (MIN_FREE_PCT sensor_cfg)
    ["/mnt/seer_external"; "/mnt/SEER_EXT"; "/media/seer_external"] = Some "/mnt/seer_external") as Hf
    by (vm_compute; reflexivity).
  destruct (detections_agree (E:=quiet) (Y:=yaml_of_scenario) sensor_cfg (with_drive [])
    ["/mnt/seer_external"; "/mnt/SEER_EXT"; "/media/seer_external"] ltac:(done) ltac:(reflexivity))
    as (k & free & H1 & H2).
  rewrite Hf in H1, H2. exists k, free. split; [exact H1|exact H2].
Defined.
