(* ===== verification/HotswapLive.v ===== *)
(** * The hot-swap service makes progress

    The round in which a drive appears drains the backlog of all files that are
    settled, however many rounds the service has waited for it; and a capture
    file that the mover has staged to the backlog is on the drive after that
    round unless the round found it active. *)
From S2P Require Import Prelude Text TextFacts Os OsFacts OsQuiet PyNum Config Json Sha256 Scenario.
From S2P Require Import Mover Hotswap HotswapFacts HotswapBatch HotswapLoop HotswapLock.

(** Nothing is mounted or unmounted. *)
Definition mounts_stay : relation world := λ w w', mounts w' = mounts w.
#[global] Instance mounts_stay_preorder : PreOrder mounts_stay.
Proof. split; [done|]. intros w1 w2 w3 H1 H2. unfold mounts_stay in *. congruence. Qed.

Lemma only_touches_stay {A} P (m : prog A) : only (touches P) m → only mounts_stay m.
Proof. apply only_weaken. by intros w w' [Hm _]. Qed.

Section Stay.
Context {E : Env} {Y : Yaml}.

Lemma only_same_mounts {A} (m : prog A) : only same_disk m → only mounts_stay m.
Proof. intros Hm. by apply (only_touches_stay []), only_same_touches. Qed.
#[local] Hint Extern 2 (only mounts_stay _) => apply only_same_mounts; solve [eauto with io nocore] : io.

Lemma export_batch_mounts B root r : only mounts_stay (export_batch B root r).
Proof.
  unfold export_batch. apply only_bind; [typeclasses eauto|solve_only|]. intros l. cbv zeta.
  destruct (sort_by path_leb l) as [|p pcaps]; [solve_only|].
  apply only_bind; [typeclasses eauto|solve_only|]. intros _.
  apply only_bind; [typeclasses eauto|solve_only|]. intros now.
  set (D := root ++ ["pcap"; fmt_ymd now]). generalize (p :: pcaps). intros ps.
  apply only_bind; [typeclasses eauto| |].
  - generalize (Batch 0 0 [] []). induction ps as [|q ps IH]; intros b; cbn [export_loop]; [solve_only|].
    apply only_bind; [typeclasses eauto| |intros b'; apply IH]. unfold export_one.
    apply only_bind; [typeclasses eauto|solve_only|]. intros []; [solve_only|].
    apply only_bind; [typeclasses eauto|eapply only_touches_stay, transfer_file_touches|].
    intros [[s sha] err]. solve_only.
  - intros b. apply only_bind; [typeclasses eauto| |intros _].
    { destruct (transferred b); [solve_only|]. apply (only_touches_stay [D ++ ["MANIFEST.txt"]]), write_manifest_touches. left. }
    apply only_bind; [typeclasses eauto| |intros _; solve_only].
    destruct (transfer_log_entries b); [solve_only|]. apply (only_touches_stay [root ++ ["TRANSFER.LOG"]]), append_transfer_log_touches. left.
Qed.
End Stay.

Section Time.
Context {E : Env}.

Lemma detect_export_target_later c m : only later (detect_export_target c m).
Proof.
  unfold detect_export_target. apply only_bind; [typeclasses eauto|solve_only|]. intros l.
  induction l as [|v l IH]; cbn [Hotswap.detect_loop]; unfold warning; solve_only.
Qed.
Lemma update_state_later b ts n : only later (update_state b ts n).
Proof. unfold update_state, warning. cbv zeta. solve_only. Qed.
End Time.

(** ** The rounds *)

Section Live.
Context {E : Env} {Y : Yaml} (no_fault : ∀ n, fault n = None) (faithful : ∀ n b, bitrot n b = b).
Context (cf : settings) (b : string) (r p : Z) (cs : list string).
Context (Hb : backlog_dir cf = YStr b) (Hr : rotate_seconds cf = YInt r) (Hp : poll_interval cf = YInt p).
Context (r_bounds : (0 < r ≤ MAX_ROTATE)%Z) (p_bounds : (0 ≤ p ≤ 9223372036)%Z).
Context (Hcs : candidate_strings (mount_candidates cf) = Some cs).

Abbreviation B := (Path_ b).
Abbreviation drive_in w := (first_qualifying w (min_free_pct cf) cs).

Lemma time_sleep_q w : time_sleep (poll_interval cf) w = (Ok tt, outside (ticks w) (tick w)).
Proof.
  unfold time_sleep. rewrite Hp, (bind_ok (lift_res (ynum (YInt p))) _ w (NInt p) w eq_refl).
  rewrite num_ge_int. replace (0 <=? p)%Z with true by (symmetry; lia).
  unfold num_gt. rewrite num_lt_int. replace (9223372036 <? p)%Z with false by (symmetry; lia).
  unfold sleep. by rewrite (syscall_q no_fault).
Qed.

(** Only an [Exception] comes out of a call. *)
Abbreviation tame := (never (λ e, negb (is_Exception e))).

Lemma syscall_tame f1 f2 : tame (syscall f1 f2).
Proof. intros w e. by rewrite (syscall_q no_fault). Qed.
Lemma os_error_tame {A} n q : tame (os_error (A:=A) n q).
Proof. by apply never_raise. Qed.
Lemma open_write_tame a q : tame (open_write a q).
Proof.
  apply never_bind; [apply syscall_tame|]. intros _. apply never_bind; [apply never_get|]. intros w.
  repeat case_match; auto using never_ret, never_modify, os_error_tame.
Qed.
Lemma write_bytes_tame q d : tame (write_bytes q d).
Proof. intros w e. unfold write_bytes. by rewrite (syscall_q no_fault). Qed.
Lemma mkdir_ok_tame q : tame (mkdir_ok q).
Proof.
  apply never_try_again.
  - apply never_bind; [apply syscall_tame|]. intros _. apply never_bind; [apply never_get|]. intros w.
    repeat case_match; auto using never_ret, never_modify, os_error_tame.
  - intros e He. apply never_bind; [intros w e'; by rewrite (os_isdir_q no_fault)|].
    intros []; [apply never_ret|by apply never_raise].
Qed.

(** Writing the state never ends the round. *)
Lemma update_state_q present ts n w :
  ∃ w', update_state present ts n w = (Ok tt, w') ∧ touches [STATE_FILE] w w'.
Proof.
  pose proof (update_state_touches [STATE_FILE] present ts n (list_elem_of_here _ _) w) as Ht.
  enough (never (λ _, true) (update_state present ts n)) as Hok.
  { specialize (Hok w). destruct (update_state present ts n w) as [[[]|e] w']; [by eexists|].
    by specialize (Hok e eq_refl). }
  apply never_bind; [by intros w0 e|]. intros now. apply never_try_all; [|intros; apply never_modify].
  enough (tame (makedirs (parent STATE_FILE);; write_text STATE_FILE (dumps_indent 0 (state_json present ts n
    (isoformat now))))) as Hm by (intros w0 e He; apply Hm in He; by apply negb_false_iff in He).
  apply never_bind.
  - unfold makedirs. generalize (@nil string). induction (parent STATE_FILE) as [|c q IH]; intros d; cbn [makedirs_from].
    + apply never_ret.
    + apply never_bind; [apply mkdir_ok_tame|]. intros _. apply IH.
  - intros _. apply never_bind; [apply open_write_tame|]. intros _. apply write_bytes_tame.
Qed.

(** A round without a drive: the service waits. *)
Lemma poll_waits l w :
  last_drive_state l = false → drive_in w = None →
  ∃ w1, poll cf (l, w) = (Ok true, (set_last false l, outside (ticks w1) (tick w1))) ∧ same_disk w w1.
Proof.
  intros Hl Hd. destruct (detect_target_q no_fault w _ (min_free_pct cf) cs Hcs) as (w1 & free & Hs & Hdet).
  exists w1. split; [|done]. unfold poll, try_except, poll_body, mbind, io_bind, on_world, get_locals, set_locals.
  rewrite Hdet, Hd. cbn [fmap option_fmap option_map]. rewrite Hl. cbn. by rewrite time_sleep_q.
Qed.

(** What the backlog and the drive must be like when the drive appears. *)
Record export_ready (w : world) (root : path) : Prop := {
  er_layout : export_layout (mounts w) B root;
  er_one : one_mount (mounts w);
  er_dir : node_at w B = Some Dir;
  er_files : ∀ n, fnmatch n "*.pcap*" = true → node_at w (B ++ [n]) ≠ Some Dir;
  er_drive : drive_ready root w;
  er_state : apart (mounts w) STATE_FILE B ∧ apart (mounts w) STATE_FILE root;
}.

(** Between [w] and [w'] the capture files [names] of the backlog have gone to
    the directory of a day that was read meanwhile; every other one was found
    active meanwhile, and is still in the backlog as it was. *)
Definition drained (names : list string) (w w' : world) (root : path) : Prop :=
  (∃ k, (names ≠ [] → during w w' k) ∧ ∀ n, n ∈ names → ∃ d t,
     fnmatch n "*.pcap*" = true ∧ node_at w (B ++ [n]) = Some (File d t) ∧
     node_at w' ((root ++ ["pcap"; fmt_ymd (localtime (clock k))]) ++ [n]) = Some (File d t) ∧
     ∀ d' t', node_at w' (B ++ [n]) ≠ Some (File d' t')) ∧
  ∀ n d t, fnmatch n "*.pcap*" = true → node_at w (B ++ [n]) = Some (File d t) → n ∉ names →
    seen_active r w w' t ∧ node_at w' (B ++ [n]) = Some (File d t).

(** What a batch has done from [w] to [w1]. *)
Definition batch_done (names : list string) (w w1 : world) (root : path) : Prop :=
  (∃ k, (names ≠ [] → during w w1 k) ∧ ∀ n, n ∈ names → ∃ d t,
     fnmatch n "*.pcap*" = true ∧ node_at w (B ++ [n]) = Some (File d t) ∧
     node_at w1 (B ++ [n]) = None ∧
     node_at w1 ((root ++ ["pcap"; fmt_ymd (localtime (clock k))]) ++ [n]) = Some (File d t)) ∧
  ∀ n d t, fnmatch n "*.pcap*" = true → node_at w (B ++ [n]) = Some (File d t) → n ∉ names →
    seen_active r w w1 t ∧ node_at w1 (B ++ [n]) = Some (File d t).

(** Then the state file is written: what is on the drive, what has left the
    backlog and what has stayed there remains so. *)
Lemma drained_after_state names w0 w w1 w2 w3 root :
  export_layout (mounts w) B root → mounts w2 = mounts w →
  apart (mounts w) STATE_FILE B ∧ apart (mounts w) STATE_FILE root →
  same_disk w0 w → later w0 w → batch_done names w w1 root →
  same_disk w1 w2 → later w1 w2 → touches [STATE_FILE] w2 w3 → later w2 w3 → drained names w0 w3 root.
Proof.
  intros (HB & Hroot & _) Hm [HsB Hsr] Hs0 Hl0 [(k & Hk & Hdone) Hstay] Hs2 Hl2 Ht Hl3.
  assert (∀ y z, (z = B ∨ z = root) → outside_of (mounts w2) [STATE_FILE] (locate (mounts w2) (z ++ y))) as Hout.
  { intros y z Hz. rewrite Hm. apply outside_of_one. by destruct Hz as [->| ->]; apply apart_below. }
  assert (later w1 w3) as Hl13 by (by etrans). split.
  - exists k. split; [intros Hne; apply (during_mono w0 w w1 w3); auto|]. intros n Hn.
    destruct (Hdone n Hn) as (d & t & Hf & Hnode & Hgone & Hthere). exists d, t.
    split_and!; [done|by rewrite <-(same_disk_node w0 w)|..].
    + eapply touches_file; [exact Ht| |by rewrite (same_disk_node w1 w2)].
      rewrite <-(assoc_L (++)). apply Hout. by right.
    + intros d' t' Hf'. eapply touches_file_inv in Hf'; [|exact Ht|apply Hout; by left].
      rewrite (same_disk_node w1 w2) in Hf' by done. congruence.
  - intros n d t Hf Hnode Hn. rewrite <-(same_disk_node w0 w) in Hnode by done.
    destruct (Hstay n d t Hf Hnode Hn) as [Ha Hn1]. split; [by apply (seen_active_mono r w0 w w1 w3)|].
    eapply touches_file; [exact Ht|apply Hout; by left|by rewrite (same_disk_node w1 w2)].
Qed.

Lemma export_ready_same w w' root : same_disk w w' → export_ready w root → export_ready w' root.
Proof.
  intros Hs [HL Hone Hdir Hnodir Hdrive Hst]. pose proof Hs as [_ Hm].
  assert (∀ q, node_at w' q = node_at w q) as Hn by (intros q; by apply same_disk_node).
  split; rewrite ?Hm, ?Hn; try done.
  - intros n. rewrite Hn. apply Hnodir.
  - destruct Hdrive as [Hlog Hday]. split; [by rewrite Hn|]. intros day. destruct (Hday day) as [Hw Hd].
    split; [intros k d t; rewrite Hn; apply Hw|intros n; rewrite Hn; apply Hd].
Qed.

(** The batch of a drive that has just appeared, with its count. *)
Lemma arrival_batch w root :
  export_ready w root →
  ∃ w' names, export_batch B root (YInt r) w = (Ok (Z.of_nat (length names), 0%Z), w') ∧ mounts w' = mounts w ∧
    NoDup names ∧ batch_done names w w' root.
Proof.
  intros [HL Hone Hdir Hnodir Hdrive _].
  destruct (export_batch_mixed B root r w no_fault faithful HL Hone Hdir r_bounds Hnodir Hdrive)
    as (w' & fl & i & Hbatch & Hnd & Hi & Hin & Hout & Hdone & _).
  exists w', fl.*1. split_and!; [by rewrite length_fmap| |done|].
  - pose proof (export_batch_mounts B root (YInt r) w) as Hm. by rewrite Hbatch in Hm.
  - split.
    + exists i. split; [intros Hne; apply Hi; by intros ->|].
      intros n ([m [d t]] & -> & Hf)%list_elem_of_fmap. exists d, t. destruct (Hin m d t Hf), (Hdone m d t Hf). done.
    + intros n d t Hf Hn Hno. destruct (Hout n d t Hf Hn) as [Hx|?]; [|done].
      destruct Hno. apply list_elem_of_fmap. by exists (n, (d, t)).
Qed.

Lemma on_world_ok {A} (m : prog A) l w a w' :
  m w = (Ok a, w') → on_world m (l, w) = (Ok a, (l, w')).
Proof. unfold on_world. by intros ->. Qed.

(** The round in which the drive appears. *)
Lemma poll_arrives l w s :
  last_drive_state l = false → drive_in w = Some s → export_ready w (Path_ s) →
  ∃ w1 names, poll cf (l, w) =
      (Ok true, (Locals (total_exported l + Z.of_nat (length names)) true, outside (ticks w1) (tick w1))) ∧
    drained names w w1 (Path_ s) ∧ NoDup names.
Proof.
  intros Hl Hd Hready.
  destruct (detect_target_q no_fault w _ (min_free_pct cf) cs Hcs) as (w1 & free & Hs1 & Hdet).
  rewrite Hd in Hdet. cbn [fmap option_fmap option_map] in Hdet.
  set (msg := "Drive detected: " +:+ s +:+ " (free: " +:+ pretty (free / 1024 ^ 2)%Z +:+ " MB)").
  set (w2 := emit_event (Logged "INFO" msg) w1). assert (same_disk w w2) as Hs2 by exact Hs1.
  destruct (arrival_batch w2 (Path_ s) (export_ready_same w w2 _ Hs2 Hready))
    as (w3 & names & Hbatch & Hm3 & Hnd & Hdone).
  pose proof (only_later _ _ _ _ (detect_export_target_later _ _) Hdet) as Hl1.
  set (l1 := add_exported (Z.of_nat (length names)) l).
  set (w4 := if (0 <? Z.of_nat (length names))%Z then emit_event (Logged "INFO" ("Backlog drained: "
    +:+ pretty (Z.of_nat (length names)) +:+ " PCAPs exported, " +:+ pretty 0%Z +:+ " failed")) w3 else w3).
  assert (same_disk w3 w4) as Hs4 by (unfold w4; by case_match).
  assert (∃ ts w5, same_disk w4 w5 ∧ later w4 w5 ∧
    (if (0 <? Z.of_nat (length names))%Z then now ← datetime_now; mret (Some (isoformat now)) else mret None) w4
      = (Ok ts, w5)) as (ts & w5 & Hs5 & Hl5 & Hts)
    by (case_match; eexists _, _; split_and!; [| |done| | |done]; try done; unfold later; simpl; lia).
  assert (later w3 w4) as Hl4 by (unfold w4; case_match; apply Nat.le_refl).
  destruct (update_state_q true ts (total_exported l1) w5) as (w6 & Hw6 & Ht6).
  exists w6, names. split_and!; [| |done].
  - unfold poll, try_except.
    rewrite (bind_ok (poll_body cf) _ (l, w) tt (set_last true l1, outside (ticks w6) (tick w6))); [done|].
    unfold poll_body. rewrite (bind_ok _ _ _ _ _ (on_world_ok _ l _ _ _ Hdet)).
    rewrite (bind_ok get_locals _ (l, w1) l (l, w1) eq_refl). cbv iota beta. rewrite Hl.
    rewrite (bind_ok (on_arrival cf s free) _ (l, w1) tt (l1, w6)).
    { rewrite (bind_ok (set_locals (set_last true)) _ (l1, w6) tt (set_last true l1, w6) eq_refl).
      by rewrite (on_world_ok _ _ _ _ _ (time_sleep_q w6)). }
    unfold on_arrival. rewrite (bind_ok (on_world (info msg)) _ (l, w1) tt (l, w2) eq_refl).
    rewrite (bind_ok (on_world _) _ (l, w2) (Z.of_nat (length names), 0%Z) (l, w3)).
    2: { apply on_world_ok. rewrite Hb, Hr. exact Hbatch. }
    cbv iota beta. rewrite (bind_ok (set_locals (add_exported (Z.of_nat (length names)))) _ (l, w3) tt (l1, w3) eq_refl).
    rewrite (bind_ok (on_world _) _ (l1, w3) tt (l1, w4)).
    2: { apply on_world_ok. unfold w4. by case_match. }
    rewrite (bind_ok get_locals _ (l1, w4) l1 (l1, w4) eq_refl). apply on_world_ok.
    by rewrite (bind_ok _ _ _ _ _ Hts).
  - eapply (drained_after_state names w w2 w3 w5 w6); try done.
    + apply (export_ready_same w w2 _ Hs2 Hready).
    + destruct Hs5 as [_ ->], Hs4 as [_ ->]. exact Hm3.
    + apply (export_ready_same w w2 _ Hs2 Hready).
    + by etrans.
    + by etrans.
    + exact (only_later _ _ _ _ (update_state_later _ _ _) Hw6).
Qed.

(** The variables and the machine after [n] rounds. *)
Definition rounds (n : nat) (st : locals * world) : locals * world := Nat.iter n (λ st, (poll cf st).2) st.

Lemma rounds_wait n l w :
  last_drive_state l = false → (∀ i, i < n → drive_in (rounds i (l, w)).2 = None) →
  (rounds n (l, w)).1 = l ∧ ∀ m, poll_loop (n + m) cf (l, w) = poll_loop m cf (rounds n (l, w)).
Proof.
  intros Hl. induction n as [|n IH]; intros Hn; [done|].
  destruct IH as [Hloc Hloop]; [intros i Hi; apply Hn; lia|].
  destruct (rounds n (l, w)) as [l0 w0] eqn:Hst. cbn [fst] in Hloc. subst l0.
  destruct (poll_waits l w0 Hl) as (w1 & Hw1 & _); [specialize (Hn n); rewrite Hst in Hn; apply Hn; lia|].
  assert (rounds (S n) (l, w) = (set_last false l, outside (ticks w1) (tick w1))) as Hnext.
  { change (rounds (S n) (l, w)) with (poll cf (rounds n (l, w))).2. by rewrite Hst, Hw1. }
  assert (set_last false l = l) as Hsame by (destruct l; cbn in *; by subst).
  rewrite Hnext, Hsame. split; [done|]. intros m. rewrite Nat.add_succ_comm, Hloop. cbn [poll_loop].
  rewrite (bind_ok _ _ _ _ _ Hw1). by rewrite Hsame.
Qed.
End Live.

(** C28.  However long the service has waited: when no call fails, no drive is
    there for [n] rounds and then one qualifies, the next round drains the
    backlog.  The capture files [names] are on the drive, unchanged, in the
    directory of a day the round has read, and no longer in the backlog.  Every
    capture file that has been settled for one and a half rotations is one of
    them; any other that is not was found active by this round and is still in
    the backlog as it was.  The count of the service has grown by the number of
    [names], and the loop goes on from there. *)
Theorem backlog_eventually_drained {E : Env} {Y : Yaml} (cf : settings) b r p cs n s l w :
  (∀ n, fault n = None) → (∀ n b, bitrot n b = b) →
  backlog_dir cf = YStr b → rotate_seconds cf = YInt r → poll_interval cf = YInt p →
  (0 < r ≤ MAX_ROTATE)%Z → (0 ≤ p ≤ 9223372036)%Z →
  candidate_strings (mount_candidates cf) = Some cs → last_drive_state l = false →
  (∀ i, i < n → first_qualifying (rounds cf i (l, w)).2 (min_free_pct cf) cs = None) →
  first_qualifying (rounds cf n (l, w)).2 (min_free_pct cf) cs = Some s →
  export_ready b (rounds cf n (l, w)).2 (Path_ s) →
  ∃ w1 names,
    rounds cf (S n) (l, w) =
      (Locals (total_exported l + Z.of_nat (length names)) true, outside (ticks w1) (tick w1)) ∧
    drained b r names (rounds cf n (l, w)).2 w1 (Path_ s) ∧ NoDup names ∧
    (∀ m d t, fnmatch m "*.pcap*" = true → settled r t →
       node_at (rounds cf n (l, w)).2 (Path_ b ++ [m]) = Some (File d t) → m ∈ names) ∧
    ∀ m, poll_loop (S n + m) cf (l, w) = poll_loop m cf (rounds cf (S n) (l, w)).
Proof.
  intros Hq Hbit Hb Hr Hp Hrb Hpb Hcs Hl Hwait Hs Hready.
  destruct (rounds_wait Hq cf p cs Hp Hpb Hcs n l w Hl Hwait) as [Hloc Hloop].
  destruct (rounds cf n (l, w)) as [l0 w0] eqn:Hst. cbn [fst snd] in *. subst l0.
  destruct (poll_arrives Hq Hbit cf b r p cs Hb Hr Hp Hrb Hpb Hcs l w0 s Hl Hs Hready)
    as (w1 & names & Hpoll & Hdr & Hnd).
  exists w1, names. change (rounds cf (S n) (l, w)) with (poll cf (rounds cf n (l, w))).2.
  rewrite Hst, Hpoll. split_and!; [done|done|done| |].
  - intros m d t Hf Hset Hm. destruct (decide (m ∈ names)) as [?|Hno]; [done|].
    destruct (proj2 Hdr m d t Hf Hm Hno) as [Ha _]. by destruct (settled_not_active r _ _ t Hset Ha).
  - intros m. replace (S n + m) with (n + S m) by lia. rewrite Hloop. cbn [poll_loop].
    by rewrite (bind_ok _ _ _ _ _ Hpoll).
Qed.

(** ** From the ring to the drive *)

(** C29.  The two programs together.  With no drive the mover stages the oldest
    closed capture file of the ring to the backlog; later, when a drive has been
    mounted (which leaves the backlog as it is), the first round of the service
    exports it: the file that was captured is on the drive, byte for byte and
    with its time, and is neither in the ring nor in the backlog.  The mover asks
    for three quiet seconds and the service for one and a half rotations, so a
    file may be too young: then the round has found it active at a reading of the
    clock, and it is still in the backlog as it was. *)
Theorem capture_reaches_drive (E1 E2 : Env) {Y : Yaml} (C : cfg) (cf : settings) b r p l1 cs s lv w w2 :
  (∀ n, fault (Env:=E1) n = None) → (∀ n d, bitrot (Env:=E1) n d = d) →
  (∀ n, fault (Env:=E2) n = None) → (∀ n d, bitrot (Env:=E2) n d = d) →
  layout C (mounts w) → installed C w → candidate_strings (MOUNT_CANDIDATES C) = Some l1 →
  first_qualifying (E:=E1) w (MIN_FREE_PCT C) l1 = None →
  (∀ n, node_at w (BACKLOG C ++ [n]) ≠ Some Dir) →
  (∃ files, NoDup files ∧ (∀ q, q ∈ files → ring_pcap C w q) ∧ (THRESH C ≤ Z.of_nat (length files))%Z) →
  (∃ q d t, ring_pcap C w q ∧ node_at w q = Some (File d t) ∧ ∀ k, ticks w ≤ k → closed_at (E:=E1) k t) →
  (∀ n, node_at w2 (BACKLOG C ++ [n]) = node_at (Mover.main (E:=E1) C w).2 (BACKLOG C ++ [n])) →
  Path_ b = BACKLOG C → backlog_dir cf = YStr b → rotate_seconds cf = YInt r → poll_interval cf = YInt p →
  (0 < r ≤ MAX_ROTATE)%Z → (0 ≤ p ≤ 9223372036)%Z →
  candidate_strings (mount_candidates cf) = Some cs → last_drive_state lv = false →
  first_qualifying (E:=E2) w2 (min_free_pct cf) cs = Some s → export_ready b w2 (Path_ s) →
  ∃ m d t w3,
    oldest_closed (E:=E1) C w (Mover.main (E:=E1) C w).2 (RING C ++ [m]) d t ∧
    node_at (Mover.main (E:=E1) C w).2 (RING C ++ [m]) = None ∧
    (poll (E:=E2) cf (lv, w2)).2.2 = outside (Env:=E2) (ticks w3) (tick w3) ∧
    ((∃ day, node_at w3 ((Path_ s ++ ["pcap"; day]) ++ [m]) = Some (File d t) ∧
             ∀ d' t', node_at w3 (BACKLOG C ++ [m]) ≠ Some (File d' t')) ∨
     (seen_active (E:=E2) r w2 w3 t ∧ node_at w3 (BACKLOG C ++ [m]) = Some (File d t))).
Proof.
  intros Hq1 Hb1 Hq2 Hb2 HL Hinst Hl1 Hnone Hnodir Hcount Hclosed Hkeep HB Hb Hr Hp Hrb Hpb Hcs Hl Hs Hready.
  destruct (main_moves_q (E:=E1) C w l1 Hq1 HL Hinst Hl1)
    as (w1 & m & d & t & D & Hmain & Hold & HD & Hgone & d' & Hd' & Hdd); [|done|done|].
  { unfold room. by rewrite Hnone. }
  unfold goes_to in HD. rewrite Hnone in HD. subst D.
  assert (d' = d) as -> by (destruct Hdd as [->|[j ->]]; [done|by rewrite Hb1]).
  destruct (poll_arrives (E:=E2) Hq2 Hb2 cf b r p cs Hb Hr Hp Hrb Hpb Hcs lv w2 s Hl Hs Hready)
    as (w3 & names & Hpoll & [(k & _ & Hdone) Hstay] & _). rewrite HB in Hdone, Hstay.
  rewrite Hmain in Hkeep |- *. cbn [snd] in *.
  assert (fnmatch m "*.pcap*" = true) as Hf.
  { destruct Hold as [(m' & ? & ? & Heq & Hf & _) _]. apply app_inj_2 in Heq as [_ [= <-]]; [|done].
    by apply fnmatch_pcap. }
  rewrite <-Hkeep in Hd'. exists m, d, t, w3. split_and!; [done|done|by rewrite Hpoll|].
  destruct (decide (m ∈ names)) as [Hm|Hno]; [left|right; by apply (Hstay m d t)].
  destruct (Hdone m Hm) as (d1 & t1 & _ & Hn1 & Hon & Hoff). rewrite Hd' in Hn1. injection Hn1 as <- <-.
  by eexists.
Qed.

(** ** The theorems at work on a sensor *)

(** A machine with an empty drive, and only files in the backlog. *)
Definition file_in (w : world) (n : string) : bool :=
  match node_at w (backlog ++ [n]) with Some (File _ _) => true | _ => false end.
Definition ready_check (w : world) : bool :=
  bool_decide (map_Forall (λ k _, k.1 = 0) (fs w)) &&
  forallb (λ k, match node_at w (take k drive) with Some (File _ _) => false | _ => true end)
    (seq 0 (S (length drive))) &&
  bool_decide (node_at w backlog = Some Dir) && forallb (file_in w) (children w backlog).

Lemma drive_node_empty w x y :
  mounts w = {[ drive := drive_vfs ]} → map_Forall (λ k _, k.1 = 0) (fs w) → node_at w (drive ++ x :: y) = None.
Proof.
  intros Hm Hk. unfold node_at. rewrite Hm, (locate_below _ drive) by apply (drive_plain []).
  change (locate {[drive := drive_vfs]} drive) with (7, @nil string). cbn.
  destruct (fs w !! (7, x :: y)) eqn:Hl; [|done]. by apply Hk in Hl.
Qed.

Lemma ready_by_check w :
  mounts w = {[ drive := drive_vfs ]} → ready_check w = true →
  export_ready "/opt/seer/var/backlog" w drive.
Proof.
  intros Hm Hc. unfold ready_check in Hc. rewrite !andb_true_iff in Hc. destruct Hc as [[[Hk Hway] Hdir] Hold].
  apply bool_decide_eq_true in Hk, Hdir.
  pose proof (way_check w drive Hway) as Hwaydrive.
  assert (∀ n nd, node_at w (backlog ++ [n]) = Some nd → file_in w n = true) as Hfiles.
  { intros n nd Hn. rewrite forallb_forall in Hold. apply Hold, list_elem_of_In.
    apply elem_of_children_node; [rewrite Hm; by_computation|by rewrite Hn]. }
  split; rewrite ?Hm; try by_computation; [done|..].
  - intros n _ Hn. change (Path_ "/opt/seer/var/backlog") with backlog in Hn. pose proof (Hfiles n _ Hn) as Hf. unfold file_in in Hf. by rewrite Hn in Hf.
  - split; [by rewrite drive_node_empty|]. intros day. split.
    + intros k d t. destruct (decide (k ≤ 2)) as [Hk2|Hk2]; [rewrite take_app_le by done; apply Hwaydrive|].
      rewrite take_app_ge by (cbn; lia). change (length drive) with 2.
      destruct (k - 2) as [|j] eqn:Hj; [lia|]. by rewrite firstn_cons, drive_node_empty.
    + intros n. change ((drive ++ ["pcap"; day]) ++ [n]) with (drive ++ "pcap" :: [day; n]).
      by rewrite drive_node_empty.
Qed.

Definition three_candidates : list string := ["/mnt/seer_external"; "/mnt/SEER_EXT"; "/media/seer_external"].

(** The service waits for one round; during its sleep the drive is mounted. *)
Abbreviation run_rounds := (rounds (E:=operator_mounts) default_settings).

Lemma backlog_eventually_drained_witness :
  ∃ w1 names,
    run_rounds 2 (Locals 0 false, no_drive backlog_mixed) =
      (Locals (total_exported (Locals 0 false) + Z.of_nat (length names)) true,
       outside (Env:=operator_mounts) (ticks w1) (tick w1)) ∧
    drained (E:=operator_mounts) "/opt/seer/var/backlog" 20 names
      (run_rounds 1 (Locals 0 false, no_drive backlog_mixed)).2 w1 (Path_ "/mnt/seer_external") ∧ NoDup names ∧
    (∀ m d t, fnmatch m "*.pcap*" = true → settled (E:=operator_mounts) 20 t →
       node_at (run_rounds 1 (Locals 0 false, no_drive backlog_mixed)).2
         (Path_ "/opt/seer/var/backlog" ++ [m]) = Some (File d t) → m ∈ names) ∧
    ∀ m, poll_loop (E:=operator_mounts) (2 + m) default_settings (Locals 0 false, no_drive backlog_mixed) =
         poll_loop (E:=operator_mounts) m default_settings (run_rounds 2 (Locals 0 false, no_drive backlog_mixed)).
Proof.
  refine (backlog_eventually_drained (E:=operator_mounts) default_settings "/opt/seer/var/backlog" 20 2
    three_candidates 1 "/mnt/seer_external" (Locals 0 false) (no_drive backlog_mixed)
    (λ n, eq_refl) (λ n d, eq_refl) eq_refl eq_refl eq_refl _ _ eq_refl eq_refl _ _ _).
  - done.
  - done.
  - intros [|i] Hi; [vm_compute; reflexivity|lia].
  - vm_compute; reflexivity.
  - apply ready_by_check; vm_compute; reflexivity.
Defined.

(** Mounting the drive leaves the backlog as it is. *)
Lemma backlog_kept w n : mounts w = ∅ → node_at (mount_drive w) (backlog ++ [n]) = node_at w (backlog ++ [n]).
Proof.
  intros Hm. unfold node_at. cbn [mounts fs mount_drive]. rewrite Hm.
  rewrite !(locate_below _ backlog) by by_computation. reflexivity.
Qed.

(** The mover stages the oldest of four files; the drive is mounted; the
    service exports it. *)
Abbreviation staged_world := (Mover.main (E:=quiet) sensor_cfg (no_drive ring_four)).2.

Lemma capture_reaches_drive_witness :
  ∃ m d t w3,
    oldest_closed (E:=quiet) sensor_cfg (no_drive ring_four) staged_world (RING sensor_cfg ++ [m]) d t ∧
    node_at staged_world (RING sensor_cfg ++ [m]) = None ∧
    (poll (E:=quiet) default_settings (Locals 0 false, mount_drive staged_world)).2.2 =
      outside (Env:=quiet) (ticks w3) (tick w3) ∧
    ((∃ day, node_at w3 ((Path_ "/mnt/seer_external" ++ ["pcap"; day]) ++ [m]) = Some (File d t) ∧
             ∀ d' t', node_at w3 (BACKLOG sensor_cfg ++ [m]) ≠ Some (File d' t')) ∨
     (seen_active (E:=quiet) 20 (mount_drive staged_world) w3 t ∧
      node_at w3 (BACKLOG sensor_cfg ++ [m]) = Some (File d t))).
Proof.
  refine (capture_reaches_drive quiet quiet sensor_cfg default_settings "/opt/seer/var/backlog" 20 2
    three_candidates three_candidates "/mnt/seer_external" (Locals 0 false) (no_drive ring_four)
    (mount_drive staged_world) (λ n, eq_refl) (λ n d, eq_refl) (λ n, eq_refl) (λ n d, eq_refl)
    _ _ eq_refl _ _ _ _ _ eq_refl eq_refl eq_refl eq_refl _ _ eq_refl eq_refl _ _).
  - by_computation.
  - split_and!; by_computation.
  - vm_compute; reflexivity.
  - apply backlog_no_dir.
  - exists [ring ++ ["SEER-1.pcap"]; ring ++ ["SEER-2.pcap"]; ring ++ ["SEER-3.pcap"]; ring ++ ["SEER-4.pcap"]].
    split_and!; [by_computation| |by_computation].
    intros q Hq. repeat (apply elem_of_cons in Hq as [->|Hq]; [eexists _, _, _; split_and!; reflexivity|]).
    by apply elem_of_nil in Hq.
  - eexists (ring ++ ["SEER-1.pcap"]), _, _. split_and!;
      [eexists _, _, _; split_and!; reflexivity|reflexivity|]. intros k _. by_computation.
  - intros n. apply backlog_kept. vm_compute. reflexivity.
  - done.
  - done.
  - vm_compute; reflexivity.
  - apply ready_by_check; vm_compute; reflexivity.
Defined.
