(* ===== verification/HotswapService.v ===== *)
(** * The hot-swap service over its life

    A file of the backlog is accounted for over any number of rounds: with
    drives coming and going, with any call failing or killing the process, and
    with any corruption of what is written. *)
From S2P Require Import Prelude Text Os OsFacts OsQuiet PyNum Config Json Sha256 Mover Hotswap.
From S2P Require Import HotswapFacts HotswapBatch HotswapLoop HotswapLock HotswapLive Scenario.

(** A directory on which a file system is mounted, as [os.path.ismount] tells. *)
Definition crosses (mnt : gmap path mount) (p : path) : Prop :=
  (locate mnt p).1 ≠ (locate mnt (parent p)).1 ∨ locate mnt p = locate mnt (parent p).
#[global] Instance crosses_dec mnt p : Decision (crosses mnt p).
Proof. unfold crosses. apply _. Defined.

Lemma crosses_root mnt p : crosses mnt p → (locate mnt p).2 = [].
Proof.
  intros Hc. destruct (decide (p = [])) as [->|Hp]; [done|]. rewrite (path_snoc p Hp) in Hc |- *.
  destruct (mnt !! (parent p ++ [basename p])) as [m|] eqn:Hm.
  - unfold locate. rewrite length_app, Nat.add_comm. simpl.
    rewrite take_ge by (rewrite length_app; simpl; lia). rewrite Hm. simpl.
    by rewrite drop_ge by (rewrite length_app; simpl; lia).
  - unfold crosses in Hc. rewrite parent_app, locate_child in Hc by done. simpl in Hc.
    destruct Hc as [Hc|Hc]; [done|]. apply (f_equal snd), (f_equal length) in Hc. simpl in Hc.
    rewrite length_app in Hc. simpl in Hc. lia.
Qed.

Section Detected.
Context {E : Env} {Y : Yaml}.

Lemma wp_os_ismount p w :
  wp (os_ismount p) (λ r w', same_disk w w' ∧ (r = Ok true → crosses (mounts w) p)) w.
Proof.
  split; [apply os_ismount_same|].
  enough (wp (os_ismount p) (λ r _, r = Ok true → crosses (mounts w) p) w) as Hw by exact Hw.
  unfold os_ismount. apply wp_try, wp_bind. eapply wp_mono; [apply wp_stat_dev|].
  intros [d1|e] w1 [Hw1 H1]; [|by destruct (is_OSError e)].
  apply wp_bind. eapply wp_mono; [apply wp_stat_dev|].
  intros [d2|e] w2 [Hw2 H2]; [|by destruct (is_OSError e)]. apply wp_bind, wp_get, wp_ret.
  rewrite (H1 d1 eq_refl), (H2 d2 eq_refl). destruct Hw2 as [_ ->], Hw1 as [_ ->].
  intros [= Hor]. apply orb_true_iff in Hor as [Hd|Hd]; [left|right].
  - apply negb_true_iff in Hd. by apply bool_decide_eq_false in Hd.
  - by apply bool_decide_eq_true in Hd.
Qed.

(** Whatever fails, a drive that is found is a listed candidate on which a file
    system is mounted. *)
Lemma wp_detect_target l m w :
  wp (Hotswap.detect_loop l m) (λ r w', same_disk w w' ∧
    ∀ s f, r = Ok (Some (s, f)) → YStr s ∈ l ∧ crosses (mounts w) (Path_ s)) w.
Proof.
  revert w. induction l as [|v l IH]; intros w; cbn [Hotswap.detect_loop]; [by apply wp_ret|].
  assert (∀ w1, same_disk w w1 → wp (Hotswap.detect_loop l m) (λ r w', same_disk w w' ∧
    ∀ s f, r = Ok (Some (s, f)) → YStr s ∈ v :: l ∧ crosses (mounts w) (Path_ s)) w1) as Hrest.
  { intros w1 Hw1. eapply wp_mono; [apply IH|]. intros r w2 [Hw2 Hr]. split; [by etrans|].
    intros s f Hs. destruct (Hr s f Hs) as [Hin Hc]. split; [by right|]. by destruct Hw1 as [_ <-]. }
  apply wp_bind, wp_lift. destruct (ystr v) as [s|e] eqn:Hv; [|by split].
  apply wp_bind. eapply wp_mono; [apply wp_os_ismount|].
  intros [[]|e] w1 [Hw1 Hc]; [|by apply Hrest|by split]. cbn [negb].
  apply wp_bind, (wp_only same_disk); [apply os_access_w_same|].
  intros [[]|e] w2 Hw2; (assert (same_disk w w2) as Hw02 by by etrans); [|by apply Hrest|by split]. cbn [negb].
  match goal with |- wp (?found ≫= _) _ _ => assert (only same_disk found) as Hsame end.
  { unfold warning. solve_only. }
  assert (∀ x, ∀ w3 w4, (try_except
        ('(bavail, blocks, frsize) ← os_statvfs (Path_ s);
         '(free_bytes, free_pct) ← lift_res (free_space bavail blocks frsize);
         min ← lift_res (ynum m);
         mret (if num_ge free_pct min then Some (s, free_bytes) else None))
        is_Exception
        (λ e, warning ("Failed to stat " +:+ s +:+ ": " +:+ exn_str e);; mret None)) w3 = (Ok (Some x), w4) → x.1 = s)
    as Hname.
  { intros x w3 w4. unfold try_except, mbind, io_bind, lift_res. clear.
    destruct (os_statvfs (Path_ s) w3) as [[[[? ?] ?]|e] w5]; [|by destruct (is_Exception e)].
    destruct (free_space _ _ _) as [[? ?]|e]; [|by destruct (is_Exception e)].
    destruct (ynum m) as [?|e]; [|by destruct (is_Exception e)].
    destruct (num_ge _ _); [|done]. by intros [= <- <-]. }
  apply wp_bind. unfold wp at 1. specialize (Hsame w2). specialize (Hname).
  destruct (try_except _ _ _ w2) as [[[[s' f']|]|e] w3] eqn:Hrun; simpl in Hsame;
    (assert (same_disk w w3) as Hw03 by by etrans); [|by apply Hrest|by split].
  apply Hname in Hrun. simpl in Hrun. subst s'. apply wp_ret. split; [done|]. intros s0 f0 [= <- <-].
  split; [|by apply Hc]. destruct v; try done. injection Hv as ->. left.
Qed.
End Detected.

(** ** A file and the places it may be in *)

Section Tracked.
Context (B : path) (n : string) (home : key) (d : bytes) (t : Z) (candidates : yval).
Context (n_pcap : fnmatch n "*.pcap*" = true).

Definition listed (s : string) : Prop := ∃ l, yiter candidates = Ok l ∧ YStr s ∈ l.

(** The backlog holds the file [n] at [home]; no file system is mounted inside
    it or on the state file, which is elsewhere; every candidate that has a
    file system mounted has one of another device, with none below. *)
Record seated (mnt : gmap path mount) : Prop := {
  se_home : locate mnt (B ++ [n]) = home;
  se_plain : plain_dir mnt B;
  se_state : mnt !! STATE_FILE = None ∧ apart mnt STATE_FILE B;
  se_drives : ∀ s, listed s → crosses mnt (Path_ s) →
    plain_dir mnt (Path_ s) ∧ (locate mnt (Path_ s)).1 ≠ home.1;
}.

(** The file is in the backlog as it was, or it has left the backlog and a
    device, mounted at the moment or not, has a file of its name, digest and
    time in the directory of a day. *)
Definition accounted (w : world) : Prop :=
  kget (fs w) home = Some (File d t) ∨
  ((∀ d' t', kget (fs w) home ≠ Some (File d' t')) ∧
   ∃ dev day d', dev ≠ home.1 ∧ kget (fs w) (dev, ["pcap"; day; n]) = Some (File d' t) ∧
     sha256 d' = sha256 d).

(** The places of the file are none that [P] touches. *)
Definition clear_of (mnt : gmap path mount) (P : list path) : Prop :=
  outside_of mnt P home ∧ ∀ dev day, dev ≠ home.1 → outside_of mnt P (dev, ["pcap"; day; n]).

Lemma accounted_touches P w w' :
  touches P w w' → clear_of (mounts w) P → accounted w → accounted w'.
Proof.
  intros [_ Hk] [Hhome Hsent] [Hs|(Hno & dev & day & d' & Hdev & Hd' & Hsha)].
  - left. destruct (Hk home Hhome) as [->|[? _]]; congruence.
  - right. split.
    + intros d1 t1. destruct (Hk home Hhome) as [->|[_ ->]]; [apply Hno|done].
    + exists dev, day, d'. split_and!; [done| |done].
      destruct (Hk _ (Hsent dev day Hdev)) as [->|[? _]]; congruence.
Qed.

Lemma accounted_same w w' : same_disk w w' → accounted w → accounted w'.
Proof. intros [Hf _]. unfold accounted. by rewrite Hf. Qed.

Lemma clear_of_cons mnt p P : clear_of mnt [p] → clear_of mnt P → clear_of mnt (p :: P).
Proof.
  intros [H1 H2] [H3 H4]. split; [|intros dev day Hdev];
    intros q [->|Hq]%elem_of_cons; [apply H1; left|by apply H3|by apply (H2 dev day Hdev); left|by apply (H4 dev day Hdev)].
Qed.

Lemma clear_of_nil mnt : clear_of mnt [].
Proof. split; [|intros ? ? _]; intros q Hq; by apply not_elem_of_nil in Hq. Qed.

Lemma clear_of_all mnt P : Forall (λ p, clear_of mnt [p]) P → clear_of mnt P.
Proof. induction 1; [apply clear_of_nil|by apply clear_of_cons]. Qed.

(** A place is clear of [p] when [p] is on the device of the backlog and apart
    from the file, or on a drive and no directory above the file. *)
Lemma clear_of_backlog mnt m : seated mnt → m ≠ n → clear_of mnt [B ++ [m]].
Proof.
  intros Hse Hm. assert ((locate mnt (B ++ [m])).1 = home.1) as Hdev.
  { rewrite <-(se_home _ Hse), !locate_below by apply Hse. done. }
  split.
  - rewrite <-(se_home _ Hse). apply outside_of_one, apart_children; [apply Hse|done].
  - intros dev day Hne q ->%list_elem_of_singleton [Hu _]. rewrite Hdev in Hu. by destruct Hne.
Qed.

Lemma clear_of_drive mnt root x :
  plain_dir mnt root → (locate mnt root).2 = [] → (locate mnt root).1 ≠ home.1 →
  (∀ day, ¬ x `prefix_of` ["pcap"; day; n]) → clear_of mnt [root ++ x].
Proof.
  intros Hp Hr Hne Hx.
  split; [|intros dev day _]; intros q ->%list_elem_of_singleton [Hd Hu];
    rewrite locate_below in Hd, Hu by done; cbn [fst snd] in *; [by destruct Hne|].
  rewrite Hr in Hu. by apply (Hx day).
Qed.

Lemma clear_of_state mnt : seated mnt → clear_of mnt [STATE_FILE].
Proof.
  intros Hse. destruct (se_state _ Hse) as [Hst Hap]. split.
  - rewrite <-(se_home _ Hse). apply outside_of_one, apart_below; [apply Hse|done].
  - intros dev day _ q ->%list_elem_of_singleton [_ Hu].
    destruct (locate_split mnt STATE_FILE) as (p0 & Hp0 & Hcase).
    assert (p0 ≠ STATE_FILE) as Hne by (intros ->; destruct Hcase as [[Hc _]|(m & Hc & _)]; [discriminate Hc|congruence]).
    destruct (locate mnt STATE_FILE).2 as [|c rest]; [by rewrite app_nil_r in Hp0|].
    apply prefix_cons_inv_1 in Hu as ->.
    assert ("pcap" ∈ STATE_FILE) as Hin by (rewrite Hp0; apply elem_of_app; right; left).
    unfold STATE_FILE in Hin. repeat (apply elem_of_cons in Hin as [?|Hin]; [done|]). by apply elem_of_nil in Hin.
Qed.
End Tracked.

(** ** A batch *)

Section BatchTracked.
Context {E : Env} {Y : Yaml} (B : path) (n : string) (home : key) (d : bytes) (t : Z) (candidates : yval).
Context (n_pcap : fnmatch n "*.pcap*" = true).

Abbreviation seat := (seated B n home candidates).
Abbreviation acc := (accounted n home d t).

(** What is not a file is not copied: nothing but directories is made. *)
Lemma wp_transfer_no_file src D w :
  cross_device w src D → (∀ d' t', node_at w src ≠ Some (File d' t')) →
  wp (transfer_file src D true) (λ _ w', touches [] w w') w.
Proof.
  intros Hdev Hno. unfold transfer_file. apply wp_try.
  apply (wp_mono _ (λ _ w', touches [] w w')).
  2:{ intros [[[s sha] err]|e] w' Ht; [done|]. destruct (is_Exception e); [by apply wp_ret|done]. }
  assert (∀ w1 w2, touches [] w w1 → same_disk w1 w2 → touches [] w w2) as Htrans.
  { intros w1 w2 H1 H2. etrans; [exact H1|by apply same_disk_touches]. }
  apply wp_bind, (wp_only (touches [])); [apply makedirs_touches|]. intros [[]|e] w1 Hw1; [|done]. cbv zeta.
  assert (mounts w1 = mounts w) as Hm1 by apply Hw1.
  apply wp_bind. eapply wp_mono; [apply wp_stat_dev|]. intros [d1|e] w2 [Hw2 Hd1]; [|by eapply Htrans].
  assert (mounts w2 = mounts w) as Hm2 by (destruct Hw2; congruence).
  apply wp_bind. eapply wp_mono; [apply wp_stat_dev|]. intros [d2|e] w3 [Hw3 Hd2];
    (assert (same_disk w1 w3) as Hw13 by by etrans); [|by eapply Htrans].
  rewrite bool_decide_false by (rewrite (Hd1 d1 eq_refl), (Hd2 d2 eq_refl), Hm1, Hm2; exact Hdev).
  apply wp_bind. unfold copy2.
  apply wp_bind, (wp_only same_disk); [apply os_isdir_same|]. intros [b|e] w4 Hw4;
    (assert (same_disk w1 w4) as Hw14 by by etrans); [|by eapply Htrans].
  apply wp_bind, wp_get. case_bool_decide; [by eapply Htrans|].
  apply wp_bind. eapply wp_mono; [apply wp_open_read|]. intros [d'|e] w5 [Hw5 Hd']; [|by eapply Htrans, transitivity].
  destruct (Hd' d' eq_refl) as [t' Ht']. rewrite (same_disk_node w1 w4) in Ht' by done.
  eapply touches_file_inv in Ht'; [|exact Hw1|intros q Hq; by apply not_elem_of_nil in Hq].
  by destruct (Hno d' t').
Qed.

Section Drive.
Context (root : path) (day : string) (r : yval).
Abbreviation D := (root ++ ["pcap"; day]).

(** [root] is a drive with the file systems [mnt]. *)
Definition drive_seat (mnt : gmap path mount) : Prop :=
  plain_dir mnt root ∧ (locate mnt root).2 = [] ∧ (locate mnt root).1 ≠ home.1.

Lemma seat_layout mnt : seat mnt → drive_seat mnt → export_layout mnt B root.
Proof.
  intros Hse (Hp & Hr & Hne). split_and!; [apply Hse|done|].
  assert ((locate mnt B).1 = home.1) as Hd by (rewrite <-(se_home _ _ _ _ _ Hse), locate_below; [done|apply Hse]).
  split; intros [Hu _]; rewrite Hd in Hu; congruence.
Qed.

Lemma seat_cross w m : seat (mounts w) → drive_seat (mounts w) → cross_device w (B ++ [m]) D.
Proof.
  intros Hse (Hp & _ & Hne). unfold cross_device.
  rewrite !locate_below by (done || apply Hse). cbn [fst].
  assert ((locate (mounts w) B).1 = home.1) as ->; [|done].
  by rewrite <-(se_home _ _ _ _ _ Hse), locate_below by apply Hse.
Qed.

Lemma prefix_third a b c (m k : string) y : [a; b] ++ m :: y `prefix_of` [a; c; k] → m = k.
Proof. intros Hp. do 2 apply prefix_cons_inv_2 in Hp. by apply prefix_cons_inv_1 in Hp. Qed.

Lemma clear_of_foot mnt m : seat mnt → drive_seat mnt → m ≠ n → clear_of n home mnt (foot B D m).
Proof.
  intros Hse (Hp & Hr & Hne) Hm. unfold foot, move_dests. rewrite basename_app.
  apply clear_of_cons; [by eapply clear_of_backlog|].
  rewrite <-!(assoc_L (++)).
  apply clear_of_all; repeat apply Forall_cons_2; [..|constructor]; apply clear_of_drive; try done;
    intros day' Hpre; by apply prefix_third in Hpre.
Qed.

Lemma clear_of_records mnt :
  drive_seat mnt → clear_of n home mnt [D ++ ["MANIFEST.txt"]; root ++ ["TRANSFER.LOG"]].
Proof using n_pcap.
  intros (Hp & Hr & Hne). rewrite <-(assoc_L (++)).
  apply clear_of_all; repeat apply Forall_cons_2; [..|constructor]; apply clear_of_drive; try done; intros day' Hpre.
  - do 2 apply prefix_cons_inv_2 in Hpre. apply prefix_cons_inv_1 in Hpre. subst n. by vm_compute in n_pcap.
  - by apply prefix_cons_inv_1 in Hpre.
Qed.

(** The transfer of the file itself. *)
Lemma wp_transfer_acc w :
  seat (mounts w) → drive_seat (mounts w) → acc w →
  wp (transfer_file (B ++ [n]) D true) (λ _ w', acc w') w.
Proof.
  intros Hse Hdr Hacc. pose proof (seat_cross w n Hse Hdr) as Hdev. destruct Hacc as [Hs|Hsent].
  - eapply wp_mono.
    { apply (wp_transfer_file _ _ d t).
      apply (layout_ready (mounts w) B root D ["pcap"; day]); [by apply seat_layout|done|done|].
      unfold node_at. by rewrite (se_home _ _ _ _ _ Hse). }
    intros res w2 [(Hw2 & _) Hpost].
    assert (locate (mounts w2) (B ++ [n]) = home) as Hh2 by (destruct Hw2 as [-> _]; apply Hse).
    unfold transfer_post, dest, node_at in Hpost. rewrite basename_app, Hh2 in Hpost.
    destruct res as [[[[] sha] err]|e]; [|left; by destruct Hpost as [?|[]]..].
    destruct Hpost as (Hgone & _ & d' & Hd' & _ & _ & Hsha). right. split; [by rewrite Hgone|].
    destruct Hdr as (Hp & Hr & Hne). exists (locate (mounts w) root).1, day, d'. split_and!; [done| |by apply Hsha].
    destruct Hw2 as [Hm2 _]. rewrite Hm2, <-(assoc_L (++)), locate_below, Hr in Hd' by done. done.
  - apply (wp_mono _ (λ _ w', touches [] w w')).
    + apply wp_transfer_no_file; [done|]. intros d' t'. unfold node_at.
      rewrite (se_home _ _ _ _ _ Hse). apply Hsent.
    + intros res w2 Ht. eapply accounted_touches; [exact Ht|apply clear_of_nil|by right].
Qed.

Lemma wp_export_one_acc b m w :
  seat (mounts w) → drive_seat (mounts w) → acc w →
  wp (export_one D r b (B ++ [m])) (λ _ w', acc w') w.
Proof.
  intros Hse Hdr Hacc. destruct (decide (m = n)) as [->|Hne].
  2:{ eapply wp_only; [apply export_one_touches|]. intros res w' Ht.
      eapply accounted_touches; [exact Ht|by apply clear_of_foot|done]. }
  unfold export_one. apply wp_bind, (wp_only same_disk); [apply is_file_active_same|].
  intros [[]|e] w1 Hw1; [by eapply accounted_same| |by eapply accounted_same].
  assert (acc w1) as Hacc1 by by eapply accounted_same. apply wp_bind, (wp_mono _ (λ _ w', acc w')).
  { apply wp_transfer_acc; [..|done]; by destruct Hw1 as [_ ->]. }
  intros res w2 Hacc2. destruct res as [[[success sha] err]|e]; [|done].
  match goal with |- wp ?prog _ _ => assert (only same_disk prog) as Ho end.
  { unfold info, error. cbv zeta. solve_only. }
  eapply wp_only; [exact Ho|]. intros res w3 Hw3. by eapply accounted_same.
Qed.

Lemma wp_export_loop_acc names b w :
  seat (mounts w) → drive_seat (mounts w) → acc w →
  wp (export_loop D r ((λ m, B ++ [m]) <$> names) b) (λ _ w', acc w') w.
Proof.
  revert b w. induction names as [|m names IH]; intros b w Hse Hdr Hacc; csimpl; [done|].
  apply wp_bind. eapply wp_mono.
  { apply (wp_and_only (touches (foot B D m))); [apply export_one_touches|by apply wp_export_one_acc]. }
  intros [b'|e] w1 [Hacc1 [Hm1 _]]; [|done]. apply IH; by rewrite ?Hm1.
Qed.

Lemma wp_batch_work_acc names w :
  seat (mounts w) → drive_seat (mounts w) → acc w →
  wp (batch_work D root r ((λ m, B ++ [m]) <$> names)) (λ _ w', acc w') w.
Proof using n_pcap.
  intros Hse Hdr Hacc. unfold batch_work. apply wp_bind. eapply wp_mono.
  { apply wp_and_only; [apply (export_loop_touches B)|by apply wp_export_loop_acc]. }
  intros [b|e] w1 [Hacc1 [Hm1 _]]; [|done]. eapply wp_only; [apply batch_records_touch|].
  intros res w2 Ht. eapply accounted_touches; [exact Ht|apply clear_of_records; by rewrite Hm1|done].
Qed.
End Drive.

Lemma wp_export_batch_acc root r w :
  seat (mounts w) → drive_seat root (mounts w) → acc w →
  wp (export_batch B root r) (λ _ w', acc w') w.
Proof using n_pcap.
  intros Hse Hdr Hacc. unfold export_batch. apply wp_bind. eapply wp_mono; [apply wp_glob_names|].
  intros [l|e] w1 [Hw1 Hl]; [|by eapply accounted_same].
  destruct (sorted_names B l (Hl l eq_refl)) as (names & -> & _). cbv zeta.
  destruct names as [|m names']; [by eapply accounted_same|]. csimpl.
  change ((B ++ [m]) :: ((λ n, B ++ [n]) <$> names')) with ((λ n, B ++ [n]) <$> (m :: names')).
  apply wp_bind, (wp_only same_disk); [apply log_at_same|].
  intros [[]|e] w2 Hw2; (assert (same_disk w w2) as Hw02 by (by etrans)); [|by eapply accounted_same].
  apply wp_bind, (wp_only same_disk); [apply datetime_now_same|].
  intros [now|e] w3 Hw3; (assert (same_disk w w3) as Hw03 by (by etrans)); [|by eapply accounted_same].
  apply (wp_batch_work_acc root (fmt_ymd now) r (m :: names') w3); [..|by eapply accounted_same];
    by destruct Hw03 as [_ ->].
Qed.
End BatchTracked.

(** ** The rounds *)

Section Rounds.
Context {E : Env} {Y : Yaml} (cf : settings) (b n : string) (home : key) (d : bytes) (t : Z).
Context (n_pcap : fnmatch n "*.pcap*" = true) (Hb : backlog_dir cf = YStr b).

Definition safe (w : world) : Prop :=
  seated (Path_ b) n home (mount_candidates cf) (mounts w) ∧ accounted n home d t w.

(** The other processes leave the files of this name alone, and mount and
    unmount file systems as [seated] says. *)
Definition leaves_alone (w w' : world) : Prop :=
  (seated (Path_ b) n home (mount_candidates cf) (mounts w) →
   seated (Path_ b) n home (mount_candidates cf) (mounts w')) ∧
  ∀ k, last k.2 = Some n → kget (fs w') k = kget (fs w) k.

Context (Hout : ∀ i w, leaves_alone w (outside i w)).

Definition safely : relation world := λ w w', safe w → safe w'.
#[local] Instance safely_preorder : PreOrder safely.
Proof. split; [by intros w Hw|]. intros w1 w2 w3 H1 H2 Hw. by apply H2, H1. Qed.

Lemma touches_safely w w' : touches [STATE_FILE] w w' → safely w w'.
Proof.
  intros Ht [Hse Hacc]. split; [by destruct Ht as [-> _]|].
  eapply accounted_touches; [exact Ht|by eapply clear_of_state|done].
Qed.

Lemma outside_safely i w : safely w (outside i w).
Proof using Y Hout.
  intros [Hse Hacc]. destruct (Hout i w) as [Hm Hk]. split; [by apply Hm|].
  assert (last home.2 = Some n) as Hn.
  { rewrite <-(se_home _ _ _ _ _ Hse), locate_below by apply Hse. cbn [snd]. apply last_snoc. }
  unfold accounted. rewrite (Hk home Hn). destruct Hacc as [Hs|(Hno & dev & day & d' & ? & Hd' & ?)]; [by left|right].
  split; [done|]. exists dev, day, d'. by rewrite Hk.
Qed.

Lemma only_same_safely {A} (m : prog A) : only same_disk m → only safely m.
Proof. apply only_weaken. intros w w' Hs. by apply touches_safely, same_disk_touches. Qed.

Lemma wp_safely {A} (m : prog A) l w :
  only safely m → safe w → wp (on_world m) (λ _ '(_, w'), safe w') (l, w).
Proof. intros Hm Hw. apply wp_on_world, (wp_only safely); [done|]. intros r w' HR. by apply HR. Qed.

Lemma update_state_safely p ts k : only safely (update_state p ts k).
Proof. eapply only_weaken; [apply touches_safely|]. apply update_state_touches. left. Qed.

Lemma sleep_safely : only safely (time_sleep (poll_interval cf)).
Proof using Y Hout. apply (time_sleep_R safely touches_safely outside_safely). Qed.

Lemma info_safely m : only safely (info m).
Proof. apply only_same_safely, log_at_same. Qed.

Lemma wp_on_arrival_safe s free l w :
  safe w → drive_seat home (Path_ s) (mounts w) → wp (on_arrival cf s free) (λ _ '(_, w'), safe w') (l, w).
Proof using Y n_pcap Hb.
  intros Hw Hdr. unfold on_arrival. apply wp_bind, wp_on_world, (wp_only same_disk); [apply log_at_same|].
  intros res w1 Hw1. assert (safe w1) as Hs1 by (by eapply touches_safely; [apply same_disk_touches|]).
  destruct res as [[]|e]; [|done]. rewrite Hb.
  apply wp_bind, wp_on_world, wp_bind, wp_lift. cbn [ypath]. eapply wp_mono.
  { apply wp_and_only; [apply export_batch_mounts|]. destruct Hs1 as [Hse1 Hacc1].
    apply (wp_export_batch_acc (Path_ b) n home d t (mount_candidates cf) n_pcap); [done| |done].
    by destruct Hw1 as [_ ->]. }
  intros res w2 [Hacc2 Hm2]. assert (safe w2) as Hs2 by (split; [rewrite Hm2; apply Hs1|done]).
  destruct res as [[k f]|e]; [|done]. apply wp_bind, wp_set_locals.
  apply wp_bind. eapply wp_mono; [apply wp_safely; [|exact Hs2]|].
  { apply only_same_safely. unfold info. solve_only. }
  intros [[]|e] [l3 w3] Hs3; [|done]. apply wp_bind, wp_get_locals, wp_safely; [|done].
  apply only_bind; [typeclasses eauto|apply only_same_safely; solve_only|]. intros ts. apply update_state_safely.
Qed.

Lemma wp_poll_body_safe l w : safe w → wp (poll_body cf) (λ _ '(_, w'), safe w') (l, w).
Proof using Y n_pcap Hb Hout.
  intros Hw. unfold poll_body. apply wp_bind, wp_on_world. unfold detect_export_target.
  apply wp_bind, wp_lift. destruct (yiter (mount_candidates cf)) as [cs|e] eqn:Hcs; [|done].
  eapply wp_mono; [apply wp_detect_target|]. intros res w1 [Hw1 Hdet].
  assert (safe w1) as Hs1 by (by eapply touches_safely; [apply same_disk_touches|]).
  destruct res as [target|e]; [|done]. apply wp_bind, wp_get_locals, wp_bind. fold (react cf target l).
  apply (wp_mono _ (λ _ '(_, w'), safe w')).
  - unfold react. destruct target as [[s free]|], (last_drive_state l).
    + apply wp_safely; [apply update_state_safely|done].
    + apply wp_on_arrival_safe; [done|]. destruct (Hdet s free eq_refl) as [Hin Hc].
      replace (mounts w1) with (mounts w) by (by destruct Hw1 as [_ ->]).
      destruct (se_drives _ _ _ _ _ (proj1 Hw) s) as [Hp Hne]; [by exists cs|done|].
      split_and!; [done|by apply crosses_root|done].
    + apply wp_safely; [|done]. apply only_bind; [typeclasses eauto|apply info_safely|]. intros _. apply update_state_safely.
    + by apply wp_ret.
  - intros [[]|e] [l2 w2] Hs2; [|done]. apply wp_bind, wp_set_locals, wp_safely; [apply sleep_safely|done].
Qed.

Lemma wp_poll_loop_safe fuel l w : safe w → wp (poll_loop fuel cf) (λ _ '(_, w'), safe w') (l, w).
Proof using Y n_pcap Hb Hout.
  revert l w. induction fuel as [|fuel IH]; intros l w Hw; cbn [poll_loop]; [done|].
  apply wp_bind, (wp_mono _ (λ _ '(_, w'), safe w')).
  - unfold poll. apply wp_try, wp_bind. eapply wp_mono; [by apply wp_poll_body_safe|].
    intros [[]|e] [l' w'] Hs; [done|]. destruct (_ || _); [|done]. apply wp_safely; [|done].
    destruct (is_KeyboardInterrupt e); (apply only_bind; [typeclasses eauto|apply info_safely || apply only_same_safely, log_at_same|intros _]).
    + apply only_ret. typeclasses eauto.
    + apply only_bind; [typeclasses eauto|apply sleep_safely|intros _]. apply only_ret. typeclasses eauto.
  - intros [[]|e] [l' w'] Hs; [by apply IH|done..].
Qed.
End Rounds.

(** C30.  The service over its life: for any number of rounds, whatever call
    fails, is interrupted or kills the service, whatever the drives do to what
    is written, and whichever drives the operator mounts and unmounts between
    the rounds, a capture file that was in the backlog is there as it was, or it
    has left the backlog and a drive, mounted at the moment or not, holds a file
    of its name, digest and time.  (The other processes are assumed to leave the
    files of this name alone, and not to mount anything inside the backlog or
    the file system of the backlog as a drive.) *)
Theorem service_keeps_captures {E : Env} {Y : Yaml} (cf : settings) b n home d t fuel l w :
  backlog_dir cf = YStr b → fnmatch n "*.pcap*" = true →
  (∀ i w, leaves_alone cf b n home w (outside i w)) →
  seated (Path_ b) n home (mount_candidates cf) (mounts w) →
  node_at w (Path_ b ++ [n]) = Some (File d t) →
  accounted n home d t (poll_loop fuel cf (l, w)).2.2.
Proof.
  intros Hb Hn Hout Hse Hd. pose proof (wp_poll_loop_safe cf b n home d t Hn Hb Hout fuel l w) as Hw.
  unfold wp in Hw. destruct (poll_loop fuel cf (l, w)) as [r [l' w']]. apply Hw. split; [done|].
  left. unfold node_at in Hd. by rewrite (se_home _ _ _ _ _ Hse) in Hd.
Qed.

(** ** The theorem at work on a sensor *)

(** The operator plugs and unplugs the drive; the service is killed by its
    hundredth call. *)
Definition swaps (i : nat) (w : world) : world :=
  World (fs w) (if Nat.even i then ∅ else {[ drive := drive_vfs ]}) (ticks w) (trace w).
Definition swapped_drives : Env :=
  env_full (λ i, if i =? 100 then Some Kill else None) (λ _ d, d) (λ _ _ w, (Proc 0 "" "", w)) swaps.

Definition first_home : key := (0, backlog ++ ["SEER-1.pcap"]).

Lemma seated_swapped i :
  seated backlog "SEER-1.pcap" first_home Hotswap.default_candidates
    (if Nat.even i then ∅ else {[ drive := drive_vfs ]}).
Proof.
  assert (∀ s, listed Hotswap.default_candidates s →
    s ∈ ["/mnt/seer_external"; "/mnt/SEER_EXT"; "/media/seer_external"]) as Hlisted.
  { intros s (l & Hl & Hin). vm_compute in Hl. injection Hl as <-. apply list_elem_of_In in Hin. apply list_elem_of_In. simpl in *. naive_solver. }
  destruct (Nat.even i); split; try by_computation; intros s Hs%Hlisted;
    rewrite !elem_of_cons, elem_of_nil in Hs; destruct Hs as [->|[->|[->|[]]]];
    intros Hc; try (exfalso; revert Hc; by_computation); split; by_computation.
Qed.

Lemma service_keeps_captures_witness :
  accounted "SEER-1.pcap" first_home (encode "first") stamp
    (poll_loop (E:=swapped_drives) 6 default_settings (Locals 0 false, no_drive backlog_two)).2.2.
Proof.
  apply (service_keeps_captures (E:=swapped_drives) default_settings "/opt/seer/var/backlog" "SEER-1.pcap"
    first_home (encode "first") stamp 6 (Locals 0 false) (no_drive backlog_two)).
  - reflexivity.
  - vm_compute; reflexivity.
  - intros i w. split; [intros _; apply (seated_swapped i)|intros k _; reflexivity].
  - apply (seated_swapped 0).
  - vm_compute; reflexivity.
Defined.
