(* ===== verification/HotswapTypes.v ===== *)
(** * The types of the configuration

    Python checks types when it runs.  With settings of the right types a round
    of the service ends in no exception but those of the system; with a rotation
    time that is no number it exports nothing and says nothing. *)
From S2P Require Import Prelude Text Os OsFacts PyNum Config Json Mover Hotswap.
From S2P Require Import HotswapFacts HotswapBatch HotswapLoop Scenario.

(** Exceptions that are the program's own: not an [OSError] and not from outside. *)
Definition ill_typed (e : exn) : bool := is_Exception e && negb (is_OSError e).

(** Settings of the right types, with an interval [time.sleep] accepts. *)
Record typed (cf : settings) : Prop := {
  ty_backlog : ∃ b, backlog_dir cf = YStr b;
  ty_candidates : ∃ l, candidate_strings (mount_candidates cf) = Some l;
  ty_poll : ∃ n, ynum (poll_interval cf) = Ok n ∧ num_ge n (NInt 0) = true ∧ num_gt n (NInt 9223372036) = false;
}.

Section Typed.
Context {E : Env} {Y : Yaml}.

Abbreviation sound := (never (W:=world) ill_typed).

Lemma sound_catch {A} (m : prog A) h : (∀ e, sound (h e)) → sound (try_except m is_Exception h).
Proof. apply never_try. intros e He. unfold ill_typed. by rewrite He. Qed.

Lemma syscall_sound f1 f2 : sound (syscall f1 f2).
Proof. intros w e. unfold syscall. destruct (fault (ticks w)) as [[]|]; by intros [= <-]. Qed.
Lemma stat_sound p : sound (stat p).
Proof.
  apply never_bind; [apply syscall_sound|]. intros _. apply never_bind; [apply never_get|].
  intros w. destruct (node_at w p); [apply never_ret|by apply never_raise].
Qed.
Lemma stat_dev_sound p : sound (stat_dev p).
Proof. apply never_bind; [apply stat_sound|]. intros n. auto with calm. Qed.
Lemma os_ismount_sound p : sound (os_ismount p).
Proof.
  apply never_try_inner; [|intros e; apply never_ret].
  repeat (apply never_bind; [apply stat_dev_sound || apply never_get|intros ?]). apply never_ret.
Qed.
Lemma os_access_w_sound p : sound (os_access_w p).
Proof.
  apply never_try_inner; [|intros e; apply never_ret].
  apply never_bind; [apply stat_sound|]. intros _. auto with calm.
Qed.
Lemma log_at_sound l m : sound (log_at l m).
Proof. apply never_modify. Qed.
Lemma datetime_now_sound : sound datetime_now.
Proof. by intros w e. Qed.
Lemma path_glob_sound p pat : sound (path_glob p pat).
Proof.
  apply never_bind.
  { apply never_try_inner; [|intros e; apply never_ret]. apply never_bind; [apply stat_sound|]. intros n. apply never_ret. }
  intros []; [|apply never_ret]. apply never_bind; [|intros l; apply never_ret].
  apply never_try_inner; [|intros e; apply never_ret]. apply never_bind; [apply stat_sound|].
  intros []; [by apply never_raise|]. auto with calm.
Qed.
Lemma path_exists_sound p : sound (path_exists p).
Proof.
  apply never_try_inner; [|intros e; apply never_ret]. apply never_bind; [apply stat_sound|]. intros n. apply never_ret.
Qed.

Lemma detect_sound c m l : candidate_strings c = Some l → sound (detect_export_target c m).
Proof.
  intros Hc. enough (sound (Hotswap.detect_loop (YStr <$> l) m)) as Hl.
  { unfold detect_export_target. rewrite (candidate_strings_yiter _ _ Hc). exact Hl. }
  clear Hc. induction l as [|s l IH]; cbn [Hotswap.detect_loop fmap list_fmap]; [apply never_ret|].
  apply (never_bind _ (lift_res (Ok s))); [by apply never_lift|]. intros s'.
  apply never_bind; [apply os_ismount_sound|]. intros []; [|exact IH].
  apply never_bind; [apply os_access_w_sound|]. intros []; [|exact IH].
  apply never_bind; [|intros [x|]; [apply never_ret|exact IH]].
  apply sound_catch. intros e. apply never_bind; [apply log_at_sound|]. intros _. apply never_ret.
Qed.

Lemma make_entry_sound p D ok sha err : sound (make_entry p D ok sha err).
Proof.
  apply never_bind; [apply datetime_now_sound|]. intros now. apply never_bind; [apply path_exists_sound|]. intros there.
  apply never_bind; [|intros size; apply never_ret].
  destruct there; [|apply never_ret]. apply never_bind; [apply stat_sound|]. intros n. apply never_ret.
Qed.

(** A transfer that reports success has a digest. *)
Lemma transfer_digest src D w x w' :
  transfer_file src D true w = (Ok x, w') → x.1.1 = true → is_Some x.1.2.
Proof.
  enough (wp (transfer_file src D true) (λ r _, ∀ x, r = Ok x → x.1.1 = true → is_Some x.1.2) w) as Hw
    by (intros Hrun; by apply (wp_run _ _ _ _ _ Hrun Hw)).
  unfold transfer_file. apply wp_try.
  apply (wp_mono _ (λ r _, ∀ x, r = Ok x → x.1.1 = true → is_Some x.1.2)).
  2:{ intros [y|e] w1 Hy; [done|]. destruct (is_Exception e); [|done]. by apply wp_ret; intros y [= <-]. }
  do 3 (apply wp_bind, (wp_only (λ _ _, True)); [done|]; intros [?|?] ? _; [|done]). cbv zeta.
  case_bool_decide.
  - apply wp_bind, (wp_only (λ _ _, True)); [done|]. intros [?|?] ? _; [|done].
    apply wp_bind, wp_bind, (wp_only (λ _ _, True)); [done|]. intros [sha|?] ? _; [|done].
    do 2 apply wp_ret. by intros y [= <-].
  - do 4 (apply wp_bind, (wp_only (λ _ _, True)); [done|]; intros [?|?] ? _; [|done]).
    case_bool_decide; (apply wp_bind, (wp_only (λ _ _, True)); [done|]; intros [?|?] ? _; [|done]);
      apply wp_ret; by intros y [= <-].
Qed.

Lemma export_one_sound D r b p : sound (export_one D r b p).
Proof.
  unfold export_one. apply never_bind; [apply sound_catch; intros e; apply never_ret|]. intros []; [apply never_ret|].
  apply (never_bind_post _ (λ x : bool * option string * option string, x.1.1 = true → is_Some x.1.2)).
  - apply sound_catch. intros e. apply never_ret.
  - intros w x w'. apply transfer_digest.
  - intros [[ok sha] err] Hsha. apply never_bind; [apply make_entry_sound|]. intros entry. cbv zeta.
    destruct ok; [destruct sha as [s|]; [|by destruct (Hsha eq_refl)]|];
      (apply never_bind; [apply log_at_sound|]; intros _; apply never_ret).
Qed.

Lemma export_batch_sound B root r : sound (export_batch B root r).
Proof.
  unfold export_batch. apply never_bind; [apply path_glob_sound|]. intros l. cbv zeta.
  destruct (sort_by path_leb l) as [|p ps]; [apply never_ret|]. generalize (p :: ps). intros pcaps.
  apply never_bind; [apply log_at_sound|]. intros _. apply never_bind; [apply datetime_now_sound|]. intros now.
  apply never_bind.
  - generalize (Batch 0 0 [] []). induction pcaps as [|q qs IH]; intros b; cbn [export_loop]; [apply never_ret|].
    apply never_bind; [apply export_one_sound|]. apply IH.
  - intros b. apply never_bind; [|intros _; apply never_bind; [|intros _; apply never_ret]].
    + destruct (transferred b); [apply never_ret|]. apply sound_catch. intros e. apply log_at_sound.
    + destruct (transfer_log_entries b); [apply never_ret|]. apply sound_catch. intros e. apply log_at_sound.
Qed.

Lemma update_state_sound p ts n : sound (update_state p ts n).
Proof.
  apply never_bind; [apply datetime_now_sound|]. intros now. apply sound_catch. intros e. apply log_at_sound.
Qed.

Lemma time_sleep_sound v n :
  ynum v = Ok n → num_ge n (NInt 0) = true → num_gt n (NInt 9223372036) = false → sound (time_sleep v).
Proof.
  intros Hn H0 H1. unfold time_sleep. rewrite Hn. apply (never_bind_post _ (λ m, m = n)); [by apply never_lift| |].
  - by intros w a w' [= <- _].
  - intros m ->. rewrite H0, H1. intros w e. unfold sleep. pose proof (syscall_sound None None w) as Hs.
    destruct (syscall None None w) as [[[]|e'] w']; [done|]. cbn. intros [= <-]. by apply Hs.
Qed.

(** ** Rounds *)

Abbreviation sound_round := (never (W:=locals * world) ill_typed).

Lemma on_world_sound {A} (m : prog A) : sound m → sound_round (on_world m).
Proof. intros Hm [l w] e. unfold on_world. specialize (Hm w). destruct (m w) as [r w']. apply Hm. Qed.
Lemma locals_sound : sound_round get_locals ∧ ∀ f, sound_round (set_locals f).
Proof. by split; [intros [l w] e|intros f [l w] e]. Qed.

Lemma on_arrival_sound cf s free : typed cf → sound_round (on_arrival cf s free).
Proof.
  intros [[b Hb] _ _]. destruct locals_sound as [Hget Hset]. unfold on_arrival. rewrite Hb.
  apply never_bind; [apply on_world_sound, log_at_sound|]. intros _.
  apply never_bind; [apply on_world_sound, never_bind; [by apply never_lift|intros B; apply export_batch_sound]|].
  intros [ok fail]. apply never_bind; [apply Hset|]. intros _.
  apply never_bind; [apply on_world_sound, never_if; [apply log_at_sound|apply never_ret]|]. intros _.
  apply never_bind; [apply Hget|]. intros l. apply on_world_sound, never_bind; [|intros ts; apply update_state_sound].
  apply never_if; [|apply never_ret]. apply never_bind; [apply datetime_now_sound|]. intros now. apply never_ret.
Qed.

Lemma poll_body_sound cf : typed cf → sound_round (poll_body cf).
Proof.
  intros Hcf. pose proof Hcf as [_ [l Hl] (n & Hn & H0 & H1)]. destruct locals_sound as [Hget Hset]. unfold poll_body.
  apply never_bind; [apply on_world_sound; by eapply detect_sound|]. intros target.
  apply never_bind; [apply Hget|]. intros v. apply never_bind.
  - destruct target as [[s free]|], (last_drive_state v).
    + apply on_world_sound, update_state_sound.
    + by apply on_arrival_sound.
    + apply on_world_sound, never_bind; [apply log_at_sound|]. intros _. apply update_state_sound.
    + apply never_ret.
  - intros _. apply never_bind; [apply Hset|]. intros _. apply on_world_sound. by eapply time_sleep_sound.
Qed.

(** C35.  Well-typed settings do not go wrong: when the backlog is a string, the
    candidates are strings and the poll interval is a number that [time.sleep]
    accepts, then in every environment nothing but an [OSError], an interrupt or
    a kill ends the body of a round or the loop; no [TypeError],
    [AttributeError], [ValueError] or other exception of the program's own.
    (Neither the rotation time nor the free percentage matters here: the code
    catches what they cause.) *)
Theorem typed_settings_sound cf fuel l w e :
  typed cf →
  ((poll_body cf (l, w)).1 = Err e → ill_typed e = false) ∧
  ((poll_loop fuel cf (l, w)).1 = Err e → ill_typed e = false).
Proof.
  intros Hcf. split; [by apply poll_body_sound|]. revert e. generalize (l, w). clear l w.
  change (sound_round (poll_loop fuel cf)). induction fuel as [|fuel IH]; cbn [poll_loop]; [by apply never_raise|].
  apply never_bind; [|intros []; [exact IH|apply never_ret]]. unfold poll.
  apply never_try_inner; [apply never_bind; [by apply poll_body_sound|]; intros _; apply never_ret|].
  intros e. apply on_world_sound, never_if; (apply never_bind; [apply log_at_sound|]; intros _); [apply never_ret|].
  destruct Hcf as [_ _ (n & Hn & H0 & H1)]. apply never_bind; [by eapply time_sleep_sound|]. intros _. apply never_ret.
Qed.
End Typed.

(** ** A rotation time that is no number *)

Section NoNumber.
Context {E : Env} {Y : Yaml} (r : yval) (err : exn) (r_no_number : ynum r = Err err).

Lemma active_anyway p w : wp (is_file_active p r) (λ res w', same_disk w w' ∧ ∀ b, res = Ok b → b = true) w.
Proof using r_no_number.
  split; [apply is_file_active_same|].
  enough (wp (is_file_active p r) (λ res _, ∀ b, res = Ok b → b = true) w) as Hw by exact Hw.
  unfold is_file_active. apply wp_try. apply wp_bind, (wp_only (λ _ _, True)); [done|].
  intros [n|e] w1 _; [|by destruct (is_Exception e); [apply wp_ret; intros b [= <-]|]].
  apply wp_bind, (wp_only (λ _ _, True)); [done|].
  intros [now|e] w2 _; [|by destruct (is_Exception e); [apply wp_ret; intros b [= <-]|]].
  apply wp_bind, wp_lift. unfold quiet_limit. rewrite r_no_number. cbn.
  destruct (is_Exception err); [by apply wp_ret; intros b [= <-]|done].
Qed.

(** C25.  A rotation time that is no number (the string ["20"], say) stops the
    export without a word: in every environment the batch takes each file for
    one that is being written, moves none, and reports neither a success nor a
    failure. *)
Theorem no_number_no_export B root w :
  same_disk w (export_batch B root r w).2 ∧
  ∀ ok fail, (export_batch B root r w).1 = Ok (ok, fail) → ok = 0%Z ∧ fail = 0%Z.
Proof using r_no_number.
  enough (wp (export_batch B root r) (λ res w', same_disk w w' ∧
    ∀ ok fail, res = Ok (ok, fail) → ok = 0%Z ∧ fail = 0%Z) w) as Hw by exact Hw.
  assert (∀ D ps w0, same_disk w w0 → wp (export_loop D r ps (Batch 0 0 [] []))
    (λ res w', same_disk w w' ∧ ∀ b, res = Ok b → b = Batch 0 0 [] []) w0) as Hloop.
  { intros D ps. induction ps as [|p ps IH]; intros w0 Hw0; cbn [export_loop].
    - apply wp_ret. split; [done|]. by intros b [= <-].
    - apply wp_bind. unfold export_one. apply wp_bind. eapply wp_mono; [apply active_anyway|].
      intros [act|e] w1 [Hw1 Hact]; (assert (same_disk w w1) as Hw01 by by etrans); [|by split].
      rewrite (Hact act eq_refl). by apply wp_ret, IH. }
  unfold export_batch. apply wp_bind, (wp_only same_disk); [apply path_glob_same|].
  intros [l|e] w1 Hw1; [|by split]. cbv zeta. destruct (sort_by path_leb l) as [|p ps].
  { apply wp_ret. split; [done|]. by intros ok fail [= <- <-]. }
  generalize (p :: ps). intros pcaps.
  apply wp_bind, (wp_only same_disk); [apply log_at_same|]. intros [[]|e] w2 Hw2;
    (assert (same_disk w w2) as Hw02 by by etrans); [|by split].
  apply wp_bind, (wp_only same_disk); [apply datetime_now_same|]. intros [now|e] w3 Hw3;
    (assert (same_disk w w3) as Hw03 by by etrans); [|by split].
  apply wp_bind. eapply wp_mono; [by apply Hloop|]. intros [b|e] w4 [Hw4 Hb]; [|by split].
  rewrite (Hb b eq_refl). cbn. split; [done|]. by intros ok fail [= <- <-].
Qed.
End NoNumber.

(** ** The theorems at work on a sensor *)

Lemma typed_settings_sound_witness :
  typed default_settings ∧
  ((poll_body (E:=killed_at 13) default_settings (Locals 0 false, with_drive backlog_two)).1 =
     Err (TypeError "unsupported operand") → ill_typed (TypeError "unsupported operand") = false) ∧
  ((poll_loop (E:=killed_at 13) 3 default_settings (Locals 0 false, with_drive backlog_two)).1 =
     Err (TypeError "unsupported operand") → ill_typed (TypeError "unsupported operand") = false).
Proof.
  assert (typed default_settings) as Hty by (split; [by eexists|by eexists|by exists (NInt 2)]).
  split; [exact Hty|]. exact (typed_settings_sound (E:=killed_at 13) default_settings 3 (Locals 0 false)
    (with_drive backlog_two) (TypeError "unsupported operand") Hty).
Defined.

Lemma no_number_no_export_witness :
  same_disk (with_drive backlog_two) (export_batch (E:=quiet) backlog drive (YStr "20") (with_drive backlog_two)).2 ∧
  ∀ ok fail, (export_batch (E:=quiet) backlog drive (YStr "20") (with_drive backlog_two)).1 = Ok (ok, fail) →
    ok = 0%Z ∧ fail = 0%Z.
Proof.
  exact (no_number_no_export (E:=quiet) (YStr "20") _ eq_refl backlog drive (with_drive backlog_two)).
Defined.
