(* ===== verification/Wizard.v ===== *)
(** * The setup wizard: [Automation/SEER/setup_wizard.py]

    It asks for the parameters of the sensor (or takes the defaults), makes the
    directories, backs up an existing configuration and writes [seer.yml], from
    which the mover, the hot-swap service and the console read. *)
From S2P Require Import Prelude Text Os PyNum Config.
From Stdlib Require Import SpecFloat Ascii.

(** ** The dictionaries

    [DEFAULTS.copy()] copies the outer dictionary only: the inner ones stay
    shared, so they live in a heap and the outer dictionaries hold references. *)

Inductive dval := Scalar (v : yval) | Ref (addr : nat).

Abbreviation dict := (list (string * yval)).
Abbreviation heap := (gmap nat (list (string * yval))).
Abbreviation outer := (list (string * dval)).

Definition CAPTURE : nat := 0.
Definition EXPORT : nat := 1.

Definition capture_defaults : dict :=
  [("snaplen", YInt 128); ("rotate_seconds", YInt 20);
   ("disk_soft_pct", YInt 80); ("disk_hard_pct", YInt 90)].

Definition export_defaults : dict :=
  [("mount_candidates", YList [YStr "/mnt/seer_external"; YStr "/mnt/SEER_EXT"; YStr "/media/seer_external"]);
   ("min_free_pct", YInt 2); ("poll_interval", YInt 2)].

Definition DEFAULTS : outer := [
  ("interface", Scalar (YStr "enp2s0"));
  ("fanout_id", Scalar (YInt 42));
  ("zeek_workers", Scalar (YInt 2));
  ("refresh_interval", Scalar (YFloat (flit "0.5")));
  ("buffer_threshold", Scalar (YInt 4));
  ("ring_dir", Scalar (YStr "/var/seer/pcap_ring"));
  ("dest_dir", Scalar (YStr "/opt/seer/var/queue"));
  ("backlog_dir", Scalar (YStr "/opt/seer/var/backlog"));
  ("json_spool", Scalar (YStr "/var/seer/json_spool"));
  ("mover_log", Scalar (YStr "/var/log/seer/mover.log"));
  ("capture", Ref CAPTURE);
  ("export", Ref EXPORT);
  ("wait_link_timeout", Scalar (YInt 60))].

Definition heap0 : heap := <[CAPTURE := capture_defaults]> {[ EXPORT := export_defaults ]}.

(** [d.copy()] is shallow: a new dictionary with the same keys and the same
    values, so that where a value is a reference the copy refers to the very same
    inner dictionary.  Nothing is allocated. *)
Definition dict_copy (d : outer) : outer := (λ kv, (kv.1, kv.2)) <$> d.

(** The value of an outer dictionary. *)
Definition resolve (h : heap) (d : outer) : yval :=
  YMap ((λ kv, (kv.1, match kv.2 with Scalar v => v | Ref a => YMap (default [] (h !! a)) end)) <$> d).

Definition set_key (k : string) (v : yval) (d : outer) : outer := assoc_set k (Scalar v) d.
Definition set_inner (a : nat) (k : string) (v : yval) (h : heap) : heap :=
  <[a := assoc_set k v (default [] (h !! a))]> h.

(** [cfg[k]] and [cfg["capture"][k]] where the value is of a known type. *)
Definition get_str (k : string) (d : outer) : res string :=
  match assoc k d with
  | Some (Scalar (YStr s)) => Ok s
  | Some _ => Err (TypeError "expected a string")
  | None => Err (KeyError k)
  end.
Definition get_int (k : string) (d : outer) : res Z :=
  match assoc k d with
  | Some (Scalar (YInt z)) => Ok z
  | Some _ => Err (TypeError "expected an integer")
  | None => Err (KeyError k)
  end.
Definition get_float (k : string) (d : outer) : res spec_float :=
  match assoc k d with
  | Some (Scalar (YFloat f)) => Ok f
  | Some _ => Err (TypeError "expected a float")
  | None => Err (KeyError k)
  end.
Definition get_inner (a : nat) (k : string) (h : heap) : res Z :=
  match assoc k (default [] (h !! a)) with
  | Some (YInt z) => Ok z
  | Some _ => Err (TypeError "expected an integer")
  | None => Err (KeyError k)
  end.

Definition YAML_PATH : path := ["opt"; "seer"; "etc"; "seer.yml"].

Definition REQUIRED_DIRS : list string :=
  ["/opt/seer/bin"; "/opt/seer/etc"; "/opt/seer/var/queue"; "/opt/seer/var/backlog";
   "/var/seer/pcap_ring"; "/var/seer/json_spool"; "/var/log/seer"].

Section Wizard.
Context {E : Env} {Y : Yaml}.

(** ** Questions *)

Definition prompt_str (label dflt : string) : prog string :=
  line ← input (label +:+ " [" +:+ dflt +:+ "]: ");
  let value := strip line in
  mret (if bool_decide (value = "") then dflt else value).

(** [int(s)] within the bounds, or [ValueError]. *)
Definition checked_int (lo hi : option Z) (s : string) : option Z :=
  match py_int s with
  | None => None
  | Some n =>
      if match lo with Some l => (n <? l)%Z | None => false end then None
      else if match hi with Some u => (u <? n)%Z | None => false end then None
      else Some n
  end.

Definition range_hint (lo hi : option Z) : string :=
  match lo, hi with
  | Some l, Some u => ">=" +:+ pretty l +:+ " and <=" +:+ pretty u
  | Some l, None => ">=" +:+ pretty l
  | None, Some u => "<=" +:+ pretty u
  | None, None => ""
  end.

(** The loop asks again until the answer is an integer within the bounds; the
    observation stops after [fuel] answers. *)
Fixpoint prompt_int (fuel : nat) (label : string) (dflt : Z) (lo hi : option Z) : prog Z :=
  match fuel with
  | O => raise Killed
  | S fuel' =>
      line ← input (label +:+ " [" +:+ pretty dflt +:+ "]: ");
      let s := if bool_decide (strip line = "") then pretty dflt else strip line in
      match checked_int lo hi s with
      | Some n => mret n
      | None =>
          print ("  Enter an integer " +:+ range_hint lo hi);;
          prompt_int fuel' label dflt lo hi
      end
  end.

Definition checked_float (lo hi : option spec_float) (s : string) : option spec_float :=
  match py_float s with
  | None => None
  | Some n =>
      if match lo with Some l => num_lt (NFloat n) (NFloat l) | None => false end then None
      else if match hi with Some u => num_gt (NFloat n) (NFloat u) | None => false end then None
      else Some n
  end.

Fixpoint prompt_float (fuel : nat) (label : string) (dflt : spec_float) (lo hi : option spec_float)
    : prog spec_float :=
  match fuel with
  | O => raise Killed
  | S fuel' =>
      line ← input (label +:+ " [" +:+ yshow (YFloat dflt) +:+ "]: ");
      let s := if bool_decide (strip line = "") then yshow (YFloat dflt) else strip line in
      match checked_float lo hi s with
      | Some n => mret n
      | None => print "  Enter a number.";; prompt_float fuel' label dflt lo hi
      end
  end.

Definition NET : path := ["sys"; "class"; "net"].

Definition iface_exists (name : string) : prog bool :=
  if bool_decide (name = "lo") then mret false
  else path_exists (Path_ ("/sys/class/net/" +:+ name)).

(** ** Work *)

Definition ensure_seer_user : prog unit :=
  os_system "getent group seer >/dev/null 2>&1 || sudo groupadd -r seer";;
  os_system "id -u seer >/dev/null 2>&1 || sudo useradd -r -g seer -s /usr/sbin/nologin seer";;
  mret tt.

Definition ensure_dirs : prog unit :=
  forM_io (λ d, makedirs (Path_ d)) REQUIRED_DIRS;;
  os_system "sudo chown -R seer:seer /opt/seer /var/seer /var/log/seer >/dev/null 2>&1 || true";;
  os_system ("sudo chmod 0755 /opt/seer /opt/seer/bin /opt/seer/etc /opt/seer/var " +:+
             "/var/seer /var/seer/* /var/log/seer >/dev/null 2>&1 || true");;
  mret tt.

(** [time.strftime("%Y%m%d-%H%M%S")] *)
Definition stamp_of (t : tm) : string :=
  fmt_ymd t +:+ "-" +:+ zpad 2 (tm_hour t) +:+ zpad 2 (tm_min t) +:+ zpad 2 (tm_sec t).

Definition backup_name (t : tm) : path := parent YAML_PATH ++ ["seer.yml.bak-" +:+ stamp_of t].

Definition backup_yaml : prog unit :=
  there ← path_exists YAML_PATH;
  if (there : bool) then
    now ← datetime_now;
    copy2 YAML_PATH (backup_name now);;
    print ("Backed up existing YAML to " +:+ show_path (backup_name now))
  else mret tt.

Definition write_yaml (cfg : yval) : prog unit :=
  makedirs (parent YAML_PATH);;
  open_write false YAML_PATH;;
  write_bytes YAML_PATH (safe_dump cfg);;
  os_system "sudo chown seer:seer /opt/seer/etc/seer.yml";;
  os_system "sudo chmod 0644 /opt/seer/etc/seer.yml";;
  print ("Wrote " +:+ show_path YAML_PATH).

(** [Path(p).parents[k]] *)
Definition path_parents (p : path) (k : nat) : res path :=
  if bool_decide (k < length p) then Ok (take (length p - S k) p) else Err (IndexError (pretty k)).

(** The timeout of an existing configuration; any problem leaves the default. *)
Definition read_timeout : prog Z :=
  try_except
    (there ← path_exists YAML_PATH;
     if (there : bool) then
       b ← open_read YAML_PATH;
       v ← lift_res (safe_load b);
       lift_res (t ← yget (or_empty v) "wait_link_timeout" (YInt 60); yint t)
     else mret 60%Z)
    is_Exception (λ _, mret 60%Z).

Definition drop_in (timeout : Z) : string :=
  "[Unit]" +:+ nl +:+ "Description=Wait for link before starting capture" +:+ nl +:+
  "Before=seer-capture@%i.service" +:+ nl +:+ nl +:+ "[Service]" +:+ nl +:+
  "ExecStartPre=/usr/local/bin/seer-wait-link.sh %i " +:+ pretty timeout +:+ nl.

Definition install_wait_helper (this_file : path) (iface : string) : prog unit :=
  try_except
    (root ← lift_res (path_parents this_file 2);
     let src := root ++ ["bin"; "seer-wait-link.sh"] in
     let dst := "/usr/local/bin/seer-wait-link.sh" in
     let drop_dir := "/etc/systemd/system/seer-capture@.service.d" in
     let drop_file := drop_dir +:+ "/wait-link.conf" in
     there ← path_exists src;
     (if (there : bool) then
        print ("Installing wait helper to " +:+ dst);;
        os_system ("sudo install -m 0755 " +:+ shlex_quote (show_path src) +:+ " "
                   +:+ shlex_quote dst +:+ " || true");;
        os_system ("sudo chown root:root " +:+ shlex_quote dst +:+ " || true");;
        mret tt
      else
        print "Warning: wait helper source not found; skipping installation of helper script.");;
     timeout ← read_timeout;
     os_system ("sudo mkdir -p " +:+ shlex_quote drop_dir +:+ " || true");;
     os_system ("echo " +:+ shlex_quote (drop_in timeout) +:+ " | sudo tee "
                +:+ shlex_quote drop_file +:+ " >/dev/null");;
     os_system "sudo systemctl daemon-reload || true";;
     os_system ("sudo systemctl enable --now seer-capture@" +:+ iface +:+ ".service || true");;
     mret tt)
    is_Exception (λ e, print ("Failed to install wait helper: " +:+ exn_str e)).

Definition configure_monitor_iface (iface : string) : prog unit :=
  invalid ← (if bool_decide (iface = "" ∨ iface = "lo") then mret true
             else b ← iface_exists iface; mret (negb b));
  if (invalid : bool) then
    print ("Skipping NIC setup: invalid interface '" +:+ iface +:+ "'.")
  else
    print ("Configuring monitor port: " +:+ iface +:+ " (UP, PROMISC on, offloads off)");;
    os_system ("sudo ip link set dev " +:+ iface +:+ " up >/dev/null 2>&1");;
    os_system ("sudo ip link set dev " +:+ iface +:+ " promisc on >/dev/null 2>&1");;
    (if which "ethtool"
     then os_system ("sudo ethtool -K " +:+ iface
                     +:+ " gro off lro off tso off gso off >/dev/null 2>&1 || true");; mret tt
     else mret tt);;
    os_system ("ip -d link show " +:+ iface +:+ " | sed -n '1p' || true");;
    mret tt.

(** The interface is found, or asked for again. *)
Fixpoint prompt_iface (fuel : nat) (dflt : string) : prog string :=
  match fuel with
  | O => raise Killed
  | S fuel' =>
      iface ← prompt_str "Network interface" dflt;
      found ← iface_exists iface;
      if (found : bool) then mret iface
      else print "  Interface not found. (Tip: run `ip link` to list names.)";;
           prompt_iface fuel' dflt
  end.

Fixpoint first_iface (names : list string) : prog (option string) :=
  match names with
  | [] => mret None
  | n :: names' =>
      ok ← (if bool_decide (n = "lo") then mret false else iface_exists n);
      if (ok : bool) then mret (Some n) else first_iface names'
  end.

(** The non-interactive choice of the interface. *)
Definition default_iface (cfg : outer) : prog outer :=
  dflt ← lift_res (get_str "interface" cfg);
  found ← iface_exists dflt;
  if (found : bool) then mret (set_key "interface" (YStr dflt) cfg)
  else
    names ← scandir NET;
    n ← first_iface names;
    mret (match n with Some n => set_key "interface" (YStr n) cfg | None => cfg end).

(** The questions, in order; the dictionaries as they are after each answer. *)
Definition ask_capture (fuel : nat) (h : heap) : prog heap :=
  d ← lift_res (get_inner CAPTURE "snaplen" h);
  snaplen ← prompt_int fuel "tcpdump snaplen (bytes)" d (Some 64%Z) (Some 65535%Z);
  let h := set_inner CAPTURE "snaplen" (YInt snaplen) h in
  d ← lift_res (get_inner CAPTURE "rotate_seconds" h);
  rotate ← prompt_int fuel "Rotation interval (seconds)" d (Some 5%Z) (Some 300%Z);
  mret (set_inner CAPTURE "rotate_seconds" (YInt rotate) h).

Definition ask_outer (fuel : nat) (cfg : outer) : prog outer :=
  d ← lift_res (get_int "zeek_workers" cfg);
  let cpus := match cpu_count with
              | Some n => if bool_decide (n = 0%Z) then 1%Z else n
              | None => 1%Z
              end in
  workers ← prompt_int fuel "Zeek workers" d (Some 1%Z) (Some cpus);
  let cfg := set_key "zeek_workers" (YInt workers) cfg in
  d ← lift_res (get_int "fanout_id" cfg);
  fanout ← prompt_int fuel "AF_PACKET fanout ID" d (Some 1%Z) (Some 65535%Z);
  let cfg := set_key "fanout_id" (YInt fanout) cfg in
  f ← lift_res (get_float "refresh_interval" cfg);
  refresh ← prompt_float fuel "UI refresh interval (seconds)" f (Some (flit "0.1")) (Some (flit "5.0"));
  let cfg := set_key "refresh_interval" (YFloat refresh) cfg in
  d ← lift_res (get_int "buffer_threshold" cfg);
  threshold ← prompt_int fuel "Mover threshold (# files before moving)" d (Some 2%Z) (Some 999%Z);
  mret (set_key "buffer_threshold" (YInt threshold) cfg).

Definition PATH_KEYS : list string := ["ring_dir"; "dest_dir"; "backlog_dir"; "json_spool"; "mover_log"].

Fixpoint ask_paths (keys : list string) (cfg : outer) : prog outer :=
  match keys with
  | [] => mret cfg
  | k :: keys' =>
      d ← lift_res (get_str k cfg);
      v ← prompt_str (k +:+ " path") d;
      ask_paths keys' (set_key k (YStr v) cfg)
  end.

Definition ask_limits (fuel : nat) (h : heap) : prog heap :=
  d ← lift_res (get_inner CAPTURE "disk_soft_pct" h);
  soft ← prompt_int fuel "Disk soft limit %" d (Some 1%Z) (Some 99%Z);
  d ← lift_res (get_inner CAPTURE "disk_hard_pct" h);
  hard ← prompt_int fuel "Disk hard limit %" d (Some 1%Z) (Some 99%Z);
  soft ← (if bool_decide (hard ≤ soft)%Z
          then print "  soft% must be < hard%; adjusting soft = hard-1.";; mret (hard - 1)%Z
          else mret soft);
  mret (set_inner CAPTURE "disk_hard_pct" (YInt hard)
          (set_inner CAPTURE "disk_soft_pct" (YInt soft) h)).

(** All the questions: from the dictionaries at the start to those at the end. *)
Definition ask (fuel : nat) (h : heap) (cfg : outer) : prog (heap * outer) :=
  d ← lift_res (get_str "interface" cfg);
  iface ← prompt_iface fuel d;
  let cfg := set_key "interface" (YStr iface) cfg in
  h ← ask_capture fuel h;
  cfg ← ask_outer fuel cfg;
  cfg ← ask_paths PATH_KEYS cfg;
  h ← ask_limits fuel h;
  mret (h, cfg).

(** The part both modes share, once the configuration is there. *)
Definition install (this_file : path) (h : heap) (cfg : outer) : prog unit :=
  ensure_seer_user;;
  ensure_dirs;;
  backup_yaml;;
  write_yaml (resolve h cfg);;
  try_except (iface ← lift_res (get_str "interface" cfg); configure_monitor_iface iface)
    is_Exception
    (λ _, print ("Warning: NIC monitor configuration step failed (non-fatal). "
                 +:+ "You can configure later with ip/ethtool."));;
  try_except (iface ← lift_res (get_str "interface" cfg); install_wait_helper this_file iface)
    is_Exception (λ _, print "Warning: failed to install wait-for-link helper (non-fatal)");;
  print "Done. Next: install/start capture and mover services.".

(** [main]; the result is the heap, in which [DEFAULTS] lives on. *)
Definition main (fuel : nat) (this_file : path) (non_interactive : bool) (h : heap) : prog heap :=
  print "== SEER Setup Wizard ==";;
  let cfg := dict_copy DEFAULTS in
  if non_interactive then
    cfg ← default_iface cfg;
    install this_file h cfg;;
    mret h
  else
    '(h, cfg) ← ask fuel h cfg;
    install this_file h cfg;;
    mret h.

Definition cli_main (fuel : nat) (this_file : path) (yes : bool) : prog heap :=
  try_except (main fuel this_file yes heap0) is_KeyboardInterrupt
    (λ _, print (nl +:+ "Aborted.");; raise (SystemExit 1)).
End Wizard.
