(* ===== verification/WizardFacts.v ===== *)
(** * Correctness of the setup wizard

    The bounds of the answers, the configuration that results, what the mover
    and the hot-swap service make of it, and the backup of the old one. *)
From S2P Require Import Prelude Text Os OsFacts OsQuiet PyNum Config Scenario Mover Hotswap Wizard.
From Stdlib Require Import SpecFloat Ascii.

(** ** The questions *)

Definition in_bounds (lo hi : option Z) (n : Z) : Prop :=
  (∀ l, lo = Some l → (l ≤ n)%Z) ∧ (∀ u, hi = Some u → (n ≤ u)%Z).

Lemma checked_int_bounds lo hi s n : checked_int lo hi s = Some n → in_bounds lo hi n.
Proof.
  unfold checked_int, in_bounds. destruct (py_int s) as [m|]; [|done].
  destruct lo as [l|], hi as [u|]; repeat case_match; intros [= ->]; split; intros; simplify_eq; lia.
Qed.

(** The answer that counts: an empty line stands for the default. *)
Definition answer (dflt : Z) (line : string) : string :=
  if bool_decide (strip line = "") then pretty dflt else strip line.

Section Questions.
Context {E : Env} {Y : Yaml}.

Lemma wp_prompt_int fuel label dflt lo hi w :
  wp (prompt_int fuel label dflt lo hi) (λ r _, ∀ n, r = Ok n → in_bounds lo hi n) w.
Proof.
  revert w. induction fuel as [|fuel IH]; intros w; cbn [prompt_int]; [by apply wp_raise|].
  apply wp_bind, (wp_only (λ _ _, True)); [done|]. intros [line|e] w1 _; [|done]. cbv zeta.
  destruct (checked_int lo hi _) as [n|] eqn:Hc.
  - apply wp_ret. intros n' [= <-]. by eapply checked_int_bounds.
  - apply wp_bind, (wp_only (λ _ _, True)); [done|]. intros [[]|e] w2 _; [apply IH|done].
Qed.

Lemma input_q (no_fault : ∀ n, fault n = None) p w line :
  stdin (ticks w) = Some line →
  input p w = (Ok line, tick (emit_event (Printed p) w)).
Proof.
  intros Hs. unfold input. rewrite (bind_ok (print p) _ w _ _ eq_refl).
  rewrite (bind_ok get _ _ _ _ eq_refl), (bind_ok _ _ _ _ _ (syscall_q no_fault _ _ _)).
  simpl. by rewrite Hs.
Qed.
End Questions.

(** C14.  An integer the wizard gets from the operator is within the bounds of
    the question, whatever the operator types and whatever fails. *)
Theorem prompt_int_in_bounds {E : Env} fuel label dflt lo hi w n w' :
  prompt_int fuel label dflt lo hi w = (Ok n, w') → in_bounds lo hi n.
Proof. intros Hp. by eapply (wp_run _ _ _ _ _ Hp (wp_prompt_int fuel label dflt lo hi w)). Qed.

(** C15.  The question is asked until it is answered: if the answer after [j]
    others is the first that counts as an integer within the bounds, it is what
    [prompt_int] returns. *)
Theorem prompt_int_answered {E : Env} (fuel j : nat) label dflt lo hi line n w :
  (∀ k, fault k = None) →
  (∀ i, i < j → ∃ l, stdin (ticks w + i) = Some l ∧ checked_int lo hi (answer dflt l) = None) →
  stdin (ticks w + j) = Some line → checked_int lo hi (answer dflt line) = Some n → j < fuel →
  ∃ w', prompt_int fuel label dflt lo hi w = (Ok n, w').
Proof.
  intros Hq. revert j w. induction fuel as [|fuel IH]; intros j w Hbad Hline Hn Hj; [lia|].
  cbn [prompt_int]. destruct j as [|j].
  - rewrite Nat.add_0_r in Hline. rewrite (bind_ok _ _ _ _ _ (input_q Hq _ _ _ Hline)). cbv zeta.
    fold (answer dflt line). rewrite Hn. by eexists.
  - destruct (Hbad 0) as (l & Hl & Hc); [lia|]. rewrite Nat.add_0_r in Hl.
    rewrite (bind_ok _ _ _ _ _ (input_q Hq _ _ _ Hl)). cbv zeta. fold (answer dflt l). rewrite Hc.
    rewrite (bind_ok (print _) _ _ _ _ eq_refl). eapply (IH j); [| |done|lia]; simpl.
    + intros i Hi. destruct (Hbad (S i)) as (l' & Hl' & Hc'); [lia|].
      replace (S (ticks w + i)) with (ticks w + S i) by lia. eauto.
    + by replace (S (ticks w + j)) with (ticks w + S j) by lia.
Qed.

(** ** What the operator types

    The lines typed in a part of the run, and the answer to a question as a
    function of the lines that follow it. *)

(** From [w] to [w'] the run has read the lines [lines], and made no other call. *)
Definition reads {E : Env} (w w' : world) (lines : list string) : Prop :=
  ticks w' = ticks w + length lines ∧ ∀ i l, lines !! i = Some l → stdin (ticks w + i) = Some l.

(** The first line that is an acceptable answer, and the lines after it. *)
Fixpoint first_answer {A} (f : string → option A) (lines : list string) : option (A * list string) :=
  match lines with
  | [] => None
  | l :: ls => match f l with Some a => Some (a, ls) | None => first_answer f ls end
  end.

Definition int_line (dflt lo hi : Z) (line : string) : option Z :=
  checked_int (Some lo) (Some hi) (answer dflt line).
Definition float_line {Y : Yaml} (dflt lo hi : spec_float) (line : string) : option spec_float :=
  checked_float (Some lo) (Some hi) (if bool_decide (strip line = "") then yshow (YFloat dflt) else strip line).
Definition str_line (dflt line : string) : string :=
  if bool_decide (strip line = "") then dflt else strip line.

(** Exactly the lines [lines] lead to the answer [a]. *)
Definition answered {A} (f : string → option A) (a : A) (lines : list string) : Prop :=
  ∀ rest, first_answer f (lines ++ rest) = Some (a, rest).

Section Typed.
Context {E : Env} {Y : Yaml}.

Lemma reads_nil w : reads w w [].
Proof. split; [simpl; lia|done]. Qed.

Lemma reads_app w w1 w2 l1 l2 : reads w w1 l1 → reads w1 w2 l2 → reads w w2 (l1 ++ l2).
Proof.
  intros [Ht1 H1] [Ht2 H2]. split; [rewrite length_app; lia|]. intros i l Hl.
  destruct (decide (i < length l1)) as [Hi|Hi].
  - apply H1. by rewrite lookup_app_l in Hl.
  - rewrite lookup_app_r in Hl by lia. apply H2 in Hl. rewrite Ht1 in Hl.
    by replace (ticks w + length l1 + (i - length l1)) with (ticks w + i) in Hl by lia.
Qed.

(** What the operator typed at a question that has been answered. *)
Lemma wp_input s w : wp (input s) (λ r w', ∀ l, r = Ok l → reads w w' [l]) w.
Proof.
  unfold input. apply wp_bind, (wp_eq _ _ _ (Ok tt) (emit_event (Printed s) w)); [done|].
  apply wp_bind, wp_get, wp_bind. unfold wp at 1, syscall. cbn [ticks emit_event].
  destruct (fault (ticks w)) as [[]|]; try done. cbn [fst snd].
  destruct (stdin (ticks w)) as [line|] eqn:Hl; [|by apply wp_raise]. apply wp_ret. intros l [= ->].
  split; [simpl; lia|]. intros [|i] l'; [intros [= <-]; by rewrite Nat.add_0_r|done].
Qed.

Lemma reads_same_ticks w w1 w' l : ticks w1 = ticks w → reads w1 w' l → reads w w' l.
Proof. unfold reads. by intros ->. Qed.

Lemma answered_here {A} (f : string → option A) a l : f l = Some a → answered f a [l].
Proof. intros Hl rest. simpl. by rewrite Hl. Qed.
Lemma answered_later {A} (f : string → option A) a l ls : f l = None → answered f a ls → answered f a (l :: ls).
Proof. intros Hl Hls rest. simpl. by rewrite Hl. Qed.

Lemma wp_prompt_int_typed fuel label dflt lo hi w :
  wp (prompt_int fuel label dflt (Some lo) (Some hi))
    (λ r w', ∀ n, r = Ok n → ∃ lines, reads w w' lines ∧ answered (int_line dflt lo hi) n lines) w.
Proof.
  revert w. induction fuel as [|fuel IH]; intros w; cbn [prompt_int]; [by apply wp_raise|].
  apply wp_bind. eapply wp_mono; [apply wp_input|]. intros [line|e] w1 Hr; [|done]. cbv zeta.
  specialize (Hr line eq_refl). fold (answer dflt line). fold (int_line dflt lo hi line).
  destruct (int_line dflt lo hi line) as [n|] eqn:Hc.
  - apply wp_ret. intros n' [= <-]. exists [line]. split; [done|by apply answered_here].
  - apply wp_bind. eapply wp_eq; [reflexivity|]. eapply wp_mono; [apply IH|].
    intros r w2 Hr2 n Hn. destruct (Hr2 n Hn) as (ls & Hls & Ha). exists (line :: ls).
    split; [|by apply answered_later]. apply (reads_app w w1 w2 [line]); [done|].
    by eapply reads_same_ticks; [|exact Hls].
Qed.

Lemma wp_prompt_float_typed fuel label dflt lo hi w :
  wp (prompt_float fuel label dflt (Some lo) (Some hi))
    (λ r w', ∀ n, r = Ok n → ∃ lines, reads w w' lines ∧ answered (float_line dflt lo hi) n lines) w.
Proof.
  revert w. induction fuel as [|fuel IH]; intros w; cbn [prompt_float]; [by apply wp_raise|].
  apply wp_bind. eapply wp_mono; [apply wp_input|]. intros [line|e] w1 Hr; [|done]. cbv zeta.
  specialize (Hr line eq_refl). fold (float_line dflt lo hi line).
  destruct (float_line dflt lo hi line) as [n|] eqn:Hc.
  - apply wp_ret. intros n' [= <-]. exists [line]. split; [done|by apply answered_here].
  - apply wp_bind. eapply wp_eq; [reflexivity|]. eapply wp_mono; [apply IH|].
    intros r w2 Hr2 n Hn. destruct (Hr2 n Hn) as (ls & Hls & Ha). exists (line :: ls).
    split; [|by apply answered_later]. apply (reads_app w w1 w2 [line]); [done|].
    by eapply reads_same_ticks; [|exact Hls].
Qed.

Lemma wp_prompt_str_typed label dflt w :
  wp (prompt_str label dflt) (λ r w', ∀ s, r = Ok s → ∃ line, reads w w' [line] ∧ s = str_line dflt line) w.
Proof.
  unfold prompt_str. apply wp_bind. eapply wp_mono; [apply wp_input|]. intros [line|e] w1 Hr; [|done].
  apply wp_ret. intros s [= <-]. exists line. split; [by apply Hr|done].
Qed.
End Typed.

(** ** The configuration *)

(** What the operator chose. *)
Record answers := Answers {
  a_iface : string; a_snaplen : Z; a_rotate : Z; a_workers : Z; a_fanout : Z;
  a_refresh : spec_float; a_threshold : Z;
  a_ring : string; a_dest : string; a_backlog : string; a_spool : string; a_log : string;
  a_soft : Z; a_hard : Z;
}.

Definition capture_of (a : answers) : dict :=
  [("snaplen", YInt (a_snaplen a)); ("rotate_seconds", YInt (a_rotate a));
   ("disk_soft_pct", YInt (a_soft a)); ("disk_hard_pct", YInt (a_hard a))].

Definition config_of (a : answers) : yval := YMap [
  ("interface", YStr (a_iface a)); ("fanout_id", YInt (a_fanout a));
  ("zeek_workers", YInt (a_workers a)); ("refresh_interval", YFloat (a_refresh a));
  ("buffer_threshold", YInt (a_threshold a));
  ("ring_dir", YStr (a_ring a)); ("dest_dir", YStr (a_dest a)); ("backlog_dir", YStr (a_backlog a));
  ("json_spool", YStr (a_spool a)); ("mover_log", YStr (a_log a));
  ("capture", YMap (capture_of a)); ("export", YMap export_defaults); ("wait_link_timeout", YInt 60)].

(** [os.cpu_count() or 1] *)
Definition cpus {E : Env} : Z :=
  match cpu_count with Some n => if bool_decide (n = 0%Z) then 1%Z else n | None => 1%Z end.

(** The answers as a function of the lines typed after the interface: each
    question with its default and its bounds, in the order of the questions; a
    soft limit that is not below the hard one becomes [hard - 1]. *)
Definition dialogue {E : Env} {Y : Yaml} (iface : string) (ls : list string) : option (answers * list string) :=
  '(snaplen, ls) ← first_answer (int_line 128 64 65535) ls;
  '(rotate, ls) ← first_answer (int_line 20 5 300) ls;
  '(workers, ls) ← first_answer (int_line 2 1 cpus) ls;
  '(fanout, ls) ← first_answer (int_line 42 1 65535) ls;
  '(refresh, ls) ← first_answer (float_line (flit "0.5") (flit "0.1") (flit "5.0")) ls;
  '(threshold, ls) ← first_answer (int_line 4 2 999) ls;
  '(ring, ls) ← first_answer (Some ∘ str_line "/var/seer/pcap_ring") ls;
  '(dest, ls) ← first_answer (Some ∘ str_line "/opt/seer/var/queue") ls;
  '(backlog, ls) ← first_answer (Some ∘ str_line "/opt/seer/var/backlog") ls;
  '(spool, ls) ← first_answer (Some ∘ str_line "/var/seer/json_spool") ls;
  '(log, ls) ← first_answer (Some ∘ str_line "/var/log/seer/mover.log") ls;
  '(soft, ls) ← first_answer (int_line 80 1 99) ls;
  '(hard, ls) ← first_answer (int_line 90 1 99) ls;
  Some (Answers iface snaplen rotate workers fanout refresh threshold ring dest backlog spool log
          (if bool_decide (hard ≤ soft)%Z then hard - 1 else soft) hard, ls).

(** The interface is one that was typed (or the default, for an empty line) at
    one of the run's readings, and that is there. *)
Definition iface_typed {E : Env} (w w' : world) (iface : string) : Prop :=
  (∃ k line, during w w' k ∧ stdin k = Some line ∧ iface = str_line "enp2s0" line) ∧
  iface ≠ "lo" ∧ is_Some (node_at w (Path_ ("/sys/class/net/" +:+ iface))).

(** The answers [a] are what the operator typed from [w] to [w']. *)
Definition operator_said {E : Env} {Y : Yaml} (w w' : world) (a : answers) : Prop :=
  ∃ w1 lines, iface_typed w w1 (a_iface a) ∧ reads w1 w' lines ∧ dialogue (a_iface a) lines = Some (a, []).

(** The values the questions allow.  The refresh interval is neither below 0.1
    nor above 5.0; the soft limit is 0 when the hard one is 1. *)
Definition sensible {E : Env} (a : answers) : Prop :=
  (64 ≤ a_snaplen a ≤ 65535)%Z ∧ (5 ≤ a_rotate a ≤ 300)%Z ∧ (1 ≤ a_workers a ≤ cpus)%Z ∧
  (1 ≤ a_fanout a ≤ 65535)%Z ∧ (2 ≤ a_threshold a ≤ 999)%Z ∧
  num_lt (NFloat (a_refresh a)) (NFloat (flit "0.1")) = false ∧
  num_gt (NFloat (a_refresh a)) (NFloat (flit "5.0")) = false ∧
  a_iface a ≠ "" ∧ a_ring a ≠ "" ∧ a_dest a ≠ "" ∧ a_backlog a ≠ "" ∧ a_spool a ≠ "" ∧ a_log a ≠ "" ∧
  (0 ≤ a_soft a < a_hard a)%Z ∧ (1 ≤ a_hard a ≤ 99)%Z.

Section Sensible.
Context {E : Env} {Y : Yaml}.

Lemma first_answer_post {A} (f : string → option A) (P : A → Prop) ls a rest :
  (∀ l a, f l = Some a → P a) → first_answer f ls = Some (a, rest) → P a.
Proof.
  intros Hf. induction ls as [|l ls IH]; simpl; [done|].
  destruct (f l) as [b|] eqn:Hl; [|done]. intros [= -> _]. by eapply Hf.
Qed.

Lemma int_line_post dflt lo hi ls n rest :
  first_answer (int_line dflt lo hi) ls = Some (n, rest) → (lo ≤ n ≤ hi)%Z.
Proof.
  apply (first_answer_post _ (λ n, (lo ≤ n ≤ hi)%Z)). intros l m Hm. apply checked_int_bounds in Hm as [H1 H2]. auto.
Qed.

Lemma str_line_post dflt ls s rest :
  dflt ≠ "" → first_answer (Some ∘ str_line dflt) ls = Some (s, rest) → s ≠ "".
Proof.
  intros Hd. apply (first_answer_post _ (λ s, s ≠ "")). intros l m [= <-]. unfold str_line. by case_bool_decide.
Qed.

Lemma float_line_post dflt lo hi ls f rest :
  first_answer (float_line dflt lo hi) ls = Some (f, rest) →
  num_lt (NFloat f) (NFloat lo) = false ∧ num_gt (NFloat f) (NFloat hi) = false.
Proof.
  apply (first_answer_post _ (λ f, num_lt (NFloat f) (NFloat lo) = false ∧ num_gt (NFloat f) (NFloat hi) = false)).
  intros l m. unfold float_line, checked_float. destruct (py_float _) as [n|]; [|done].
  destruct (num_lt _ _) eqn:H1; [done|]. destruct (num_gt _ _) eqn:H2; [done|]. by intros [= ->].
Qed.

Lemma dialogue_sensible iface ls a rest :
  iface ≠ "" → dialogue iface ls = Some (a, rest) → sensible a.
Proof.
  intros Hi Hd. unfold dialogue in Hd.
  repeat (apply bind_Some in Hd as ([? ?] & ? & Hd)). injection Hd as <- _.
  repeat match goal with
  | H : first_answer (int_line _ _ _) _ = Some _ |- _ => apply int_line_post in H
  | H : first_answer (float_line _ _ _) _ = Some _ |- _ => apply float_line_post in H as [? ?]
  | H : first_answer (Some ∘ str_line _) _ = Some _ |- _ => apply str_line_post in H; [|done]
  end.
  unfold sensible. cbn. split_and!; try done; try case_bool_decide; lia.
Qed.
End Sensible.

Section Ask.
Context {E : Env} {Y : Yaml}.

Lemma wp_iface_exists s w :
  wp (iface_exists s) (λ r w', same_disk w w' ∧ later w w' ∧ (r = Ok true → s ≠ "lo" ∧
    is_Some (node_at w (Path_ ("/sys/class/net/" +:+ s))))) w.
Proof.
  unfold iface_exists. case_bool_decide; [by apply wp_ret|].
  unfold path_exists. apply wp_try, wp_bind. eapply wp_mono.
  { apply (wp_and_only later); [apply stat_later|apply wp_stat]. }
  intros [n|e] w1 [[Hs Hn] Hl].
  - apply wp_ret. split_and!; [done|done|]. intros _. split; [done|]. by rewrite (Hn n eq_refl).
  - destruct (ignore_error e); [|done]. by apply wp_ret.
Qed.

Lemma wp_prompt_iface fuel w0 w :
  same_disk w0 w → later w0 w →
  wp (prompt_iface fuel "enp2s0") (λ r w', ∀ s, r = Ok s → iface_typed w0 w' s) w.
Proof.
  revert w. induction fuel as [|fuel IH]; intros w Hs0 Hl0; cbn [prompt_iface]; [by apply wp_raise|].
  apply wp_bind. eapply wp_mono.
  { apply (wp_and_only same_disk); [unfold prompt_str; solve_only|apply wp_prompt_str_typed]. }
  intros [iface|e] w1 [Hi Hs1]; [|done]. destruct (Hi iface eq_refl) as (line & [Ht Hline] & Hif).
  cbn [length] in Ht. assert (same_disk w0 w1) as Hs01 by (by etrans).
  assert (later w0 w1) as Hl01 by (unfold later in *; lia).
  apply wp_bind. eapply wp_mono; [apply wp_iface_exists|]. intros [[]|e] w2 (Hs2 & Hl2 & Hf); [|..|done].
  - apply wp_ret. intros s [= <-]. destruct (Hf eq_refl) as [Hlo Hn]. split_and!; [|done|].
    + exists (ticks w), line. split_and!; [unfold during, later in *; lia| |done].
      specialize (Hline 0 line eq_refl). by rewrite Nat.add_0_r in Hline.
    + by rewrite (same_disk_node w0 w1) in Hn.
  - apply wp_bind. eapply wp_eq; [reflexivity|]. apply IH; [|unfold later in *; simpl; lia].
    etrans; [exact Hs01|exact Hs2].
Qed.

(** A question, and what follows it. *)
Lemma wp_ask_int {A} (k : Z → prog A) (Q : res A → world → Prop) fuel label dflt lo hi w :
  (∀ e w', Q (Err e) w') →
  (∀ n w' ls, reads w w' ls → answered (int_line dflt lo hi) n ls → wp (k n) Q w') →
  wp (n ← prompt_int fuel label dflt (Some lo) (Some hi); k n) Q w.
Proof.
  intros Herr Hk. apply wp_bind. eapply wp_mono; [apply wp_prompt_int_typed|].
  intros [n|e] w' Hn; [|done]. destruct (Hn n eq_refl) as (ls & H1 & H2). by eapply Hk.
Qed.

Lemma wp_ask_float {A} (k : spec_float → prog A) (Q : res A → world → Prop) fuel label dflt lo hi w :
  (∀ e w', Q (Err e) w') →
  (∀ n w' ls, reads w w' ls → answered (float_line dflt lo hi) n ls → wp (k n) Q w') →
  wp (n ← prompt_float fuel label dflt (Some lo) (Some hi); k n) Q w.
Proof.
  intros Herr Hk. apply wp_bind. eapply wp_mono; [apply wp_prompt_float_typed|].
  intros [n|e] w' Hn; [|done]. destruct (Hn n eq_refl) as (ls & H1 & H2). by eapply Hk.
Qed.

Lemma wp_ask_capture fuel w :
  wp (ask_capture fuel heap0)
    (λ r w', ∀ h, r = Ok h → ∃ s t l1 l2, reads w w' (l1 ++ l2) ∧
       answered (int_line 128 64 65535) s l1 ∧ answered (int_line 20 5 300) t l2 ∧
       h = set_inner CAPTURE "rotate_seconds" (YInt t) (set_inner CAPTURE "snaplen" (YInt s) heap0)) w.
Proof.
  unfold ask_capture. apply wp_bind, wp_lift. cbn.
  apply wp_ask_int; [done|]. intros s w1 l1 Hr1 Ha1. cbv zeta.
  apply wp_bind, wp_lift.
  change (get_inner CAPTURE "rotate_seconds" (set_inner CAPTURE "snaplen" (YInt s) heap0)) with (Ok 20%Z).
  apply wp_ask_int; [done|]. intros t w2 l2 Hr2 Ha2. apply wp_ret. intros h [= <-].
  exists s, t, l1, l2. split_and!; [by eapply reads_app|done..].
Qed.

(** The outer dictionary after the interface was set. *)
Definition cfg_iface (iface : string) : outer := set_key "interface" (YStr iface) (dict_copy DEFAULTS).

Lemma wp_ask_outer fuel iface w :
  wp (ask_outer fuel (cfg_iface iface))
    (λ r w', ∀ c, r = Ok c → ∃ wk fo rf th l1 l2 l3 l4, reads w w' (l1 ++ l2 ++ l3 ++ l4) ∧
       answered (int_line 2 1 cpus) wk l1 ∧ answered (int_line 42 1 65535) fo l2 ∧
       answered (float_line (flit "0.5") (flit "0.1") (flit "5.0")) rf l3 ∧ answered (int_line 4 2 999) th l4 ∧
       c = set_key "buffer_threshold" (YInt th) (set_key "refresh_interval" (YFloat rf)
             (set_key "fanout_id" (YInt fo) (set_key "zeek_workers" (YInt wk) (cfg_iface iface))))) w.
Proof.
  unfold ask_outer. apply wp_bind, wp_lift.
  change (get_int "zeek_workers" (cfg_iface iface)) with (Ok 2%Z). cbv zeta. fold cpus.
  apply wp_ask_int; [done|]. intros wk w1 l1 Hr1 Ha1.
  apply wp_bind, wp_lift. set (c1 := set_key "zeek_workers" _ _).
  change (get_int "fanout_id" c1) with (Ok 42%Z).
  apply wp_ask_int; [done|]. intros fo w2 l2 Hr2 Ha2.
  apply wp_bind, wp_lift. set (c2 := set_key "fanout_id" _ _).
  change (get_float "refresh_interval" c2) with (Ok (flit "0.5")).
  apply wp_ask_float; [done|]. intros rf w3 l3 Hr3 Ha3.
  apply wp_bind, wp_lift. set (c3 := set_key "refresh_interval" _ _).
  change (get_int "buffer_threshold" c3) with (Ok 4%Z).
  apply wp_ask_int; [done|]. intros th w4 l4 Hr4 Ha4.
  apply wp_ret. intros c [= <-]. exists wk, fo, rf, th, l1, l2, l3, l4. split_and!; try done.
  by repeat (eapply reads_app; [done|]).
Qed.

(** Each path question replaces one value of the outer dictionary. *)
Lemma wp_ask_paths keys ds c w :
  Forall2 (λ k d, get_str k c = Ok d) keys ds → NoDup keys →
  wp (ask_paths keys c)
    (λ r w', ∀ c', r = Ok c' → ∃ ls, reads w w' ls ∧ length ls = length keys ∧
       c' = foldl (λ c kv, set_key kv.1 (YStr kv.2) c) c (zip keys (zip_with str_line ds ls))) w.
Proof.
  revert ds c w. induction keys as [|k keys IH]; intros ds c w Hk Hnd; cbn [ask_paths].
  { apply wp_ret. intros c' [= <-]. exists []. split_and!; [apply reads_nil|done|done]. }
  apply Forall2_cons_inv_l in Hk as (d & ds' & Hd & Hk & ->). apply NoDup_cons in Hnd as [Hnin Hnd].
  apply wp_bind, wp_lift. rewrite Hd. apply wp_bind. eapply wp_mono; [apply wp_prompt_str_typed|].
  intros [v|e] w1 Hv; [|done]. destruct (Hv v eq_refl) as (line & Hr & ->).
  eapply wp_mono; [apply (IH ds'); [|done]|].
  - clear -Hk Hnin. induction Hk as [|k' d' keys ds Hd' Hk IH]; constructor.
    + unfold get_str, set_key in *. rewrite assoc_set_ne; [done|]. intros ->. apply Hnin. left.
    + apply IH. intros Hin. apply Hnin. by right.
  - intros r w2 Hr2 c' ->. destruct (Hr2 c' eq_refl) as (ls & Hls & Hlen & ->).
    exists (line :: ls). split_and!; [by apply (reads_app w w1 w2 [line])|by simpl; rewrite Hlen|done].
Qed.

Lemma wp_ask_limits fuel h w :
  get_inner CAPTURE "disk_soft_pct" h = Ok 80%Z → get_inner CAPTURE "disk_hard_pct" h = Ok 90%Z →
  wp (ask_limits fuel h)
    (λ r w', ∀ h', r = Ok h' → ∃ s d l1 l2, reads w w' (l1 ++ l2) ∧
       answered (int_line 80 1 99) s l1 ∧ answered (int_line 90 1 99) d l2 ∧
       h' = set_inner CAPTURE "disk_hard_pct" (YInt d)
              (set_inner CAPTURE "disk_soft_pct" (YInt (if bool_decide (d ≤ s)%Z then d - 1 else s)) h)) w.
Proof.
  intros H1 H2. unfold ask_limits. apply wp_bind, wp_lift. rewrite H1.
  apply wp_ask_int; [done|]. intros s w1 l1 Hr1 Ha1. apply wp_bind, wp_lift. rewrite H2.
  apply wp_ask_int; [done|]. intros d w2 l2 Hr2 Ha2.
  assert (reads w w2 (l1 ++ l2)) as Hr by (by eapply reads_app).
  case_bool_decide.
  - apply wp_bind, wp_bind. eapply wp_eq; [reflexivity|]. apply wp_ret, wp_ret. intros h' [= <-].
    exists s, d, l1, l2. by rewrite bool_decide_true.
  - apply wp_bind, wp_ret, wp_ret. intros h' [= <-]. exists s, d, l1, l2. by rewrite bool_decide_false.
Qed.
End Ask.

Section AskAll.
Context {E : Env} {Y : Yaml}.

Lemma first_str_line dflt l ls : first_answer (Some ∘ str_line dflt) (l :: ls) = Some (str_line dflt l, ls).
Proof. done. Qed.

(** All the questions. *)
Lemma wp_ask fuel w :
  wp (ask fuel heap0 (dict_copy DEFAULTS))
    (λ r w', ∀ h c, r = Ok (h, c) → ∃ a, operator_said w w' a ∧ resolve h c = config_of a ∧
       h = set_inner CAPTURE "disk_hard_pct" (YInt (a_hard a)) (set_inner CAPTURE "disk_soft_pct" (YInt (a_soft a))
             (set_inner CAPTURE "rotate_seconds" (YInt (a_rotate a))
               (set_inner CAPTURE "snaplen" (YInt (a_snaplen a)) heap0)))) w.
Proof.
  unfold ask. apply wp_bind, wp_lift. change (get_str "interface" (dict_copy DEFAULTS)) with (Ok "enp2s0").
  apply wp_bind. eapply wp_mono; [by apply (wp_prompt_iface fuel w w)|]. intros [iface|e] w1 Hi; [|done].
  specialize (Hi iface eq_refl). cbv zeta. fold (cfg_iface iface).
  apply wp_bind. eapply wp_mono; [apply wp_ask_capture|]. intros [h1|e] w2 Hh1; [|done].
  destruct (Hh1 h1 eq_refl) as (sn & ro & l1 & l2 & Hr2 & Hsn & Hro & ->). clear Hh1.
  apply wp_bind. eapply wp_mono; [apply wp_ask_outer|]. intros [c1|e] w3 Hc1; [|done].
  destruct (Hc1 c1 eq_refl) as (wk & fo & rf & th & l3 & l4 & l5 & l6 & Hr3 & Hwk & Hfo & Hrf & Hth & ->). clear Hc1.
  apply wp_bind. eapply wp_mono.
  { apply (wp_ask_paths PATH_KEYS ["/var/seer/pcap_ring"; "/opt/seer/var/queue"; "/opt/seer/var/backlog";
      "/var/seer/json_spool"; "/var/log/seer/mover.log"]); [|by_computation].
    repeat (apply Forall2_cons; split; [reflexivity|]). constructor. }
  intros [c2|e] w4 Hc2; [|done]. destruct (Hc2 c2 eq_refl) as (ls & Hr4 & Hl & ->). clear Hc2.
  destruct ls as [|v1 [|v2 [|v3 [|v4 [|v5 [|]]]]]]; try discriminate Hl.
  apply wp_bind. eapply wp_mono; [apply wp_ask_limits; reflexivity|]. intros [h2|e] w5 Hh2; [|done].
  destruct (Hh2 h2 eq_refl) as (so & ha & l7 & l8 & Hr5 & Hso & Hha & ->). clear Hh2.
  apply wp_ret. intros h c [= <- <-].
  exists (Answers iface sn ro wk fo rf th (str_line "/var/seer/pcap_ring" v1) (str_line "/opt/seer/var/queue" v2)
    (str_line "/opt/seer/var/backlog" v3) (str_line "/var/seer/json_spool" v4)
    (str_line "/var/log/seer/mover.log" v5) (if bool_decide (ha ≤ so)%Z then (ha - 1)%Z else so) ha).
  split_and!; [|reflexivity|reflexivity].
  exists w1, ((l1 ++ l2) ++ (l3 ++ l4 ++ l5 ++ l6) ++ [v1; v2; v3; v4; v5] ++ (l7 ++ l8)). split_and!; [done| |].
  - by repeat (eapply reads_app; [done|]).
  - unfold dialogue. rewrite <-!(assoc_L (++)). cbn [a_iface].
    rewrite Hsn. cbn [mbind option_bind]. rewrite Hro. cbn [mbind option_bind]. rewrite Hwk.
    cbn [mbind option_bind]. rewrite Hfo. cbn [mbind option_bind]. rewrite Hrf.
    cbn [mbind option_bind]. rewrite Hth. cbn [app]. do 5 (cbn [mbind option_bind]; rewrite first_str_line).
    cbn [mbind option_bind]. rewrite Hso. cbn [mbind option_bind]. by rewrite <-(app_nil_r l8), Hha.
Qed.
End AskAll.

Lemma operator_said_sensible {E : Env} {Y : Yaml} w w' a : operator_said w w' a → sensible a.
Proof.
  intros (w1 & ls & ((k & line & _ & _ & Hi) & _) & _ & Hd). eapply dialogue_sensible; [|exact Hd].
  rewrite Hi. unfold str_line. by case_bool_decide.
Qed.

(** C16.  When the questions have been answered, the configuration to be written
    is that of the answers the operator typed in this run: the interface is one
    that was typed (or the default for an empty line) and is there, and each
    other value is the first acceptable one among the lines typed at its
    question, with the default of the question for an empty line; these lines
    are all that was read.  Every value is within the bounds of its question,
    the soft disk limit is below the hard one, and the mover and the hot-swap
    service accept the configuration and get the values of the answers. *)
Theorem ask_configures {E : Env} {Y : Yaml} fuel w h c w' :
  ask fuel heap0 (dict_copy DEFAULTS) w = (Ok (h, c), w') →
  ∃ a, operator_said w w' a ∧ sensible a ∧ resolve h c = config_of a ∧
    load_cfg (resolve h c) =
      Ok (Cfg (Path_ (a_ring a)) (Path_ (a_backlog a)) (a_threshold a) (Path_ (a_log a))
              Mover.default_candidates (YInt 2)) ∧
    load_settings (resolve h c) =
      Ok (Settings (YStr (a_backlog a)) (YInt (a_rotate a)) Hotswap.default_candidates (YInt 2) (YInt 2)).
Proof.
  intros Ha. destruct (wp_run _ _ _ _ _ Ha (wp_ask fuel w) h c eq_refl) as (a & Hs & Heq & _).
  exists a. rewrite Heq. split_and!; [done|by eapply operator_said_sensible|done..].
Qed.


(** ** Installing the configuration *)

(** The directory of the configuration, what is above it and what is in it. *)
Definition ETC : path := ["opt"; "seer"; "etc"].
Definition config_path (p : path) : Prop := p `prefix_of` ETC ∨ ETC `prefix_of` p.

(** What is below the directory itself. *)
Definition in_etc (p : path) : Prop := ETC `prefix_of` p ∧ p ≠ ETC.

(** No regular file is in the way of a directory the sensor needs. *)
Definition no_file_in_way (w : world) : Prop :=
  ∀ d k b t, d ∈ REQUIRED_DIRS → node_at w (take k (Path_ d)) ≠ Some (File b t).

(** The shell commands the wizard runs create the user, set owners and modes,
    configure the network interface and start the capture service, which writes
    to the ring: they mount nothing, leave the configuration directory alone and
    put no regular file in the place of a directory of the sensor. *)
Definition exec_spares_config {E : Env} : Prop :=
  ∀ n cmd w, let w' := (exec n ["sh"; "-c"; cmd] w).2 in
    mounts w' = mounts w ∧ later w w' ∧
    (∀ p, config_path p → node_at w' p = node_at w p) ∧
    (no_file_in_way w → no_file_in_way w').

Definition config_kept : relation world := λ w w',
  mounts w' = mounts w ∧ ∀ p, config_path p → node_at w' p = node_at w p.
#[global] Instance config_kept_preorder : PreOrder config_kept.
Proof.
  split; [done|]. intros w1 w2 w3 [Hm1 H1] [Hm2 H2]. split; [congruence|].
  intros p Hp. rewrite H2, H1; done.
Qed.

Lemma same_disk_config w w' : same_disk w w' → config_kept w w'.
Proof. intros Hs. split; [apply Hs|]. intros p _. by apply same_disk_node. Qed.

Lemma only_same_config {A} (m : prog A) : only same_disk m → only config_kept m.
Proof. apply only_weaken, same_disk_config. Qed.
#[local] Hint Extern 2 (only config_kept _) => apply only_same_config; solve [eauto with io nocore] : io.

Definition etc_kept : relation world := λ w w',
  mounts w' = mounts w ∧ ∀ p, in_etc p → node_at w' p = node_at w p.
#[global] Instance etc_kept_preorder : PreOrder etc_kept.
Proof.
  split; [done|]. intros w1 w2 w3 [Hm1 H1] [Hm2 H2]. split; [congruence|].
  intros p Hp. rewrite H2, H1; done.
Qed.

Lemma config_kept_etc w w' : config_kept w w' → etc_kept w w'.
Proof. intros [Hm Hk]. split; [done|]. intros p [Hp _]. apply Hk. by right. Qed.

Lemma config_kept_ready w w' : config_kept w w' → dir_ready w ETC → dir_ready w' ETC.
Proof.
  intros [_ Hk] Hp k. rewrite Hk; [apply Hp|]. left. exists (drop k ETC). by rewrite take_drop.
Qed.

(** No directory of the sensor is inside the configuration directory. *)
Lemma required_not_etc d p : d ∈ REQUIRED_DIRS → in_etc p → ¬ p `prefix_of` Path_ d.
Proof.
  intros Hd [He Hne] Hp. assert (ETC `prefix_of` Path_ d) as Hpre by (by etrans).
  assert (Forall (λ d, ETC `prefix_of` Path_ d → Path_ d = ETC) REQUIRED_DIRS) as Hall.
  { repeat (apply Forall_cons_2; [by_computation|]). constructor. }
  rewrite Forall_forall in Hall. specialize (Hall d Hd Hpre). rewrite Hall in Hp.
  apply Hne. apply (anti_symm prefix); done.
Qed.

Section Install.
Context {E : Env} {Y : Yaml} (no_fault : ∀ n, fault n = None) (spares : exec_spares_config).

Lemma os_system_run cmd w :
  ∃ r, os_system cmd w = (Ok r, tick (exec (ticks w) ["sh"; "-c"; cmd] (emit_event (Ran ["sh"; "-c"; cmd]) w)).2).
Proof using.
  unfold os_system, exec_proc. rewrite (bind_ok (emit _) _ w tt _ eq_refl).
  unfold mbind, io_bind. cbn [ticks emit_event]. destruct (exec _ _ _) as [r w1]. by eexists.
Qed.

Lemma os_system_q cmd w : returns (os_system cmd) w.
Proof using. destruct (os_system_run cmd w) as [r Hr]. by eexists _, _. Qed.

Lemma os_system_config cmd : only config_kept (os_system cmd).
Proof using spares.
  intros w. destruct (os_system_run cmd w) as [r ->]. cbn [snd].
  destruct (spares (ticks w) cmd (emit_event (Ran ["sh"; "-c"; cmd]) w)) as (Hm & _ & Hk & _). by split.
Qed.
Lemma os_system_later cmd : only later (os_system cmd).
Proof using spares.
  intros w. destruct (os_system_run cmd w) as [r ->]. cbn [snd].
  destruct (spares (ticks w) cmd (emit_event (Ran ["sh"; "-c"; cmd]) w)) as (_ & Hl & _ & _).
  unfold later in *. simpl in *. lia.
Qed.
Lemma os_system_way cmd w : no_file_in_way w → no_file_in_way (os_system cmd w).2.
Proof using spares.
  intros Hw. destruct (os_system_run cmd w) as [r ->]. cbn [snd].
  destruct (spares (ticks w) cmd (emit_event (Ran ["sh"; "-c"; cmd]) w)) as (_ & _ & _ & Hf). by apply Hf.
Qed.
#[local] Hint Resolve os_system_config os_system_later : io.

Lemma os_system_step cmd w :
  no_file_in_way w →
  ∃ r w', os_system cmd w = (Ok r, w') ∧ config_kept w w' ∧ later w w' ∧ no_file_in_way w'.
Proof using spares.
  intros Hf. destruct (os_system_q cmd w) as (r & w' & Hw'). exists r, w'.
  pose proof (os_system_way cmd w Hf) as Hf'. pose proof (os_system_config cmd w) as Hk.
  pose proof (os_system_later cmd w) as Hl. by rewrite Hw' in Hf', Hk, Hl.
Qed.

Lemma path_exists_later p : only later (path_exists p).
Proof using. unfold path_exists. solve_only. Qed.
#[local] Hint Resolve path_exists_later : io.
Lemma iface_exists_same n : only same_disk (iface_exists n).
Proof using. unfold iface_exists. solve_only. Qed.
Lemma iface_exists_later n : only later (iface_exists n).
Proof using. unfold iface_exists. solve_only. Qed.
#[local] Hint Resolve iface_exists_same iface_exists_later : io.

(** The steps after the configuration has been written. *)
Definition finish (this_file : path) (c : outer) : prog unit :=
  try_except (iface ← lift_res (get_str "interface" c); configure_monitor_iface iface)
    is_Exception
    (λ _, print ("Warning: NIC monitor configuration step failed (non-fatal). "
                 +:+ "You can configure later with ip/ethtool."));;
  try_except (iface ← lift_res (get_str "interface" c); install_wait_helper this_file iface)
    is_Exception (λ _, print "Warning: failed to install wait-for-link helper (non-fatal)");;
  print "Done. Next: install/start capture and mover services.".

Lemma finish_config this_file c : only config_kept (finish this_file c).
Proof using spares.
  unfold finish, configure_monitor_iface, install_wait_helper, read_timeout. cbv zeta. solve_only.
Qed.
Lemma finish_later this_file c : only later (finish this_file c).
Proof using spares.
  unfold finish, configure_monitor_iface, install_wait_helper, read_timeout. cbv zeta. solve_only.
Qed.

(** *** They return *)

Abbreviation calm := (never (λ _, true)).
Abbreviation tame := (never (λ e, negb (is_Exception e))).

Lemma calm_tame {A} (m : prog A) : calm m → tame m.
Proof using. apply never_mono. done. Qed.
Lemma calm_returns {A} (m : prog A) w : calm m → returns m w.
Proof using. intros Hm. specialize (Hm w). destruct (m w) as [[a|e] w'] eqn:Hw; [by eexists _, _|]. by specialize (Hm e eq_refl). Qed.
Lemma os_system_calm cmd : calm (os_system cmd).
Proof using. intros w e. by destruct (os_system_run cmd w) as [r ->]. Qed.
Lemma print_calm s : calm (print s).
Proof using. apply never_modify. Qed.
Lemma path_exists_calm p : calm (path_exists p).
Proof using no_fault. intros w e. by rewrite (path_exists_q no_fault). Qed.
Lemma iface_exists_calm n : calm (iface_exists n).
Proof using no_fault. unfold iface_exists. case_bool_decide; [apply never_ret|apply path_exists_calm]. Qed.
Lemma guarded_calm {A} (m : prog A) h : tame m → (∀ e, calm (h e)) → calm (try_except m is_Exception h).
Proof using.
  intros Hm Hh. apply never_try_all; [|done]. intros w e He. apply Hm in He. by apply negb_false_iff in He.
Qed.
Lemma stat_tame p : tame (stat p).
Proof using no_fault. intros w e. rewrite (stat_q no_fault). destruct (node_at w p); [done|]. by intros [= <-]. Qed.
Lemma yint_tame v e : yint v = Err e → is_Exception e = true.
Proof using.
  destruct v as [| | |f|s| |]; cbn; try by intros [= <-].
  - destruct f as [| | |]; cbn; [done|by intros [= <-]..|done].
  - destruct (py_int s); [done|]. by intros [= <-].
Qed.
Lemma get_str_tame k (c : outer) : never (W:=world) (λ e, negb (is_Exception e)) (lift_res (get_str k c)).
Proof using.
  apply never_lift. intros e. unfold get_str. destruct (assoc k c) as [[[]|]|]; try done; by intros [= <-].
Qed.

Context (yaml_errors : ∀ b e, safe_load b = Err e → is_Exception e = true).

Lemma read_timeout_calm : calm read_timeout.
Proof using no_fault yaml_errors.
  apply guarded_calm; [|intros; apply never_ret].
  apply never_bind; [apply calm_tame, path_exists_calm|]. intros []; [|apply never_ret].
  apply never_bind.
  { apply never_bind; [apply stat_tame|]. intros []; [apply never_ret|by apply never_raise]. }
  intros b. apply never_bind; [apply never_lift; intros e He; by rewrite (yaml_errors b e He)|].
  intros v. apply never_lift. intros e. unfold mbind, res_bind. destruct (yget _ _ _) as [t|e'] eqn:Hg.
  - intros He. by rewrite (yint_tame t e He).
  - intros [= <-]. unfold yget in Hg. destruct (or_empty v); simplify_eq; done.
Qed.

Lemma finish_calm this_file c : calm (finish this_file c).
Proof using no_fault yaml_errors.
  unfold finish.
  assert (∀ cmd (k : Z → prog unit), (∀ z, calm (k z)) → calm (z ← os_system cmd; k z)) as Hos.
  { intros cmd k Hk. apply never_bind; [apply os_system_calm|done]. }
  assert (∀ s (k : unit → prog unit), (∀ z, calm (k z)) → calm (z ← print s; k z)) as Hpr.
  { intros cmd k Hk. apply never_bind; [apply print_calm|done]. }
  apply never_bind; [|intros _; apply never_bind; [|intros; apply print_calm]].
  - apply guarded_calm; [|intros; apply print_calm].
    apply never_bind; [apply get_str_tame|]. intros iface. apply calm_tame. unfold configure_monitor_iface.
    apply never_bind.
    { case_bool_decide; [apply never_ret|]. apply never_bind; [apply iface_exists_calm|intros; apply never_ret]. }
    intros []; [apply print_calm|]. apply Hpr. intros _. do 2 (apply Hos; intros _).
    apply never_bind; [|intros _; apply Hos; intros; apply never_ret].
    destruct (which "ethtool"); [apply Hos; intros|]; apply never_ret.
  - apply guarded_calm; [|intros; apply print_calm].
    apply never_bind; [apply get_str_tame|]. intros iface. apply calm_tame. unfold install_wait_helper.
    apply guarded_calm; [|intros; apply print_calm]. apply never_bind.
    { apply never_lift. intros e. unfold path_parents. case_bool_decide; [done|]. by intros [= <-]. }
    intros root. cbv zeta. apply calm_tame. apply never_bind; [apply path_exists_calm|]. intros there.
    apply never_bind.
    { destruct there; [|apply print_calm]. apply Hpr. intros _. do 2 (apply Hos; intros _). apply never_ret. }
    intros _. apply never_bind; [apply read_timeout_calm|]. intros timeout.
    do 4 (apply Hos; intros _). apply never_ret.
Qed.

(** *** The directories *)

Lemma ensure_dirs_q l w :
  one_mount (mounts w) → (∀ d, d ∈ l → d ∈ REQUIRED_DIRS) → no_file_in_way w →
  ∃ w', forM_io (λ d, makedirs (Path_ d)) l w = (Ok tt, w') ∧ etc_kept w w' ∧ later w w' ∧
    dirs_stay w w' ∧ ∀ d, d ∈ l → dir_ready w' (Path_ d).
Proof using no_fault.
  revert w. induction l as [|d l IH]; intros w Hone Hl Hfree; cbn [forM_io].
  { exists w. split_and!; try done. intros d Hd. by apply elem_of_nil in Hd. }
  assert (d ∈ REQUIRED_DIRS) as Hd by (apply Hl; left).
  destruct (makedirs_q no_fault (Path_ d) w) as [([] & w1 & Hw1) Hready]; [intros; by apply Hfree|].
  pose proof (makedirs_touches [] (Path_ d) w) as Ht. pose proof (makedirs_stay (Path_ d) w) as Hst.
  pose proof (λ q, makedirs_node (Path_ d) q w Hone) as Hnode.
  pose proof (only_later _ _ _ _ (makedirs_later _) Hw1) as Hl1.
  rewrite Hw1 in Hready, Ht, Hst, Hnode. cbn [snd] in *. assert (mounts w1 = mounts w) as Hm by apply Ht.
  destruct (IH w1) as (w' & Hw' & Hk & Hl' & Hst' & Hall).
  { by rewrite Hm. } { intros d' Hd'. apply Hl. by right. }
  { intros d' k b t Hd' Hf. eapply touches_file_inv in Hf; [by eapply Hfree|exact Ht|].
    intros q Hq. by apply not_elem_of_nil in Hq. }
  exists w'. rewrite (bind_ok _ _ _ _ _ Hw1). split_and!; [done| |by etrans|by etrans|].
  - etrans; [|exact Hk]. split; [done|]. intros p Hp. apply Hnode. by apply required_not_etc.
  - intros d' [->|Hd']%elem_of_cons; [|by apply Hall]. intros k. by eapply dirs_stay_node.
Qed.

Lemma ensure_q w :
  one_mount (mounts w) → no_file_in_way w →
  ∃ w1 w2, ensure_seer_user w = (Ok tt, w1) ∧ ensure_dirs w1 = (Ok tt, w2) ∧
    etc_kept w w2 ∧ later w w2 ∧ dir_ready w2 ETC.
Proof using no_fault spares.
  intros Hone Hfree.
  assert (∃ w1, ensure_seer_user w = (Ok tt, w1) ∧ config_kept w w1 ∧ later w w1 ∧ no_file_in_way w1)
    as (w1 & Hw1 & Hk1 & Hl1 & Hf1).
  { unfold ensure_seer_user.
    destruct (os_system_step "getent group seer >/dev/null 2>&1 || sudo groupadd -r seer" w Hfree)
      as (r & w1 & Hw1 & Hk1 & Hl1 & Hf1). rewrite (bind_ok _ _ _ _ _ Hw1).
    destruct (os_system_step "id -u seer >/dev/null 2>&1 || sudo useradd -r -g seer -s /usr/sbin/nologin seer" w1 Hf1)
      as (r2 & w2 & Hw2 & Hk2 & Hl2 & Hf2). rewrite (bind_ok _ _ _ _ _ Hw2).
    exists w2. split_and!; [done|by etrans|by etrans|done]. }
  assert (mounts w1 = mounts w) as Hm1 by apply Hk1.
  destruct (ensure_dirs_q REQUIRED_DIRS w1) as (w2 & Hw2 & Hk2 & Hl2 & _ & Hready); [by rewrite Hm1|done|done|].
  exists w1. unfold ensure_dirs.
  match goal with |- ∃ w2, _ ∧ (_ ;; ?k) w1 = _ ∧ _ =>
    assert (only config_kept k ∧ only later k ∧ calm k) as (Hk & Hl & Hc) end.
  { split_and!; [solve_only|solve_only|]. apply never_bind; [apply os_system_calm|intros _].
    apply never_bind; [apply os_system_calm|intros _]. apply never_ret. }
  destruct (calm_returns _ w2 Hc) as ([] & w3 & Hw3). specialize (Hk w2). specialize (Hl w2).
  rewrite Hw3 in Hk, Hl. cbn [snd] in *.
  exists w3. split_and!; [done|by rewrite (bind_ok _ _ _ _ _ Hw2)| | |].
  - etrans; [by apply config_kept_etc|]. etrans; [exact Hk2|by apply config_kept_etc].
  - etrans; [exact Hl1|]. by etrans.
  - eapply config_kept_ready; [exact Hk|]. apply (Hready "/opt/seer/etc"). right. left.
Qed.

(** The backup of an existing configuration. *)
Lemma backup_yaml_q old t w :
  plain_dir (mounts w) (parent YAML_PATH) → dir_ready w (parent YAML_PATH) →
  node_at w YAML_PATH = Some (File old t) →
  (∀ now, node_at w (backup_name now) ≠ Some Dir) →
  ∃ w' i k, backup_yaml w = (Ok tt, w') ∧ during w w' i ∧
    writes [backup_name (localtime (clock i))] w w' ∧
    node_at w' (backup_name (localtime (clock i))) = Some (File (bitrot k old) t).
Proof using no_fault.
  intros Hplain Hdir Hy Hnodir. unfold backup_yaml.
  rewrite (bind_ok _ _ _ _ _ (path_exists_q no_fault _ _)), Hy. cbv iota.
  rewrite (bind_ok datetime_now _ _ _ _ eq_refl). set (w1 := tick (tick w)).
  match goal with |- context [localtime (clock ?n)] => set (i := n) end.
  set (now := localtime (clock i)). set (bak := backup_name now).
  assert (∀ y, apart (mounts w) YAML_PATH (bak ++ y)) as Hap.
  { intros y. apply apart_below.
    - intros q m Hq [Hpre Hne]. apply (Hplain q m Hq). split.
      + etrans; [|exact Hpre]. unfold bak, backup_name. by apply prefix_app_r.
      + intros ->. apply prefix_length in Hpre. unfold bak, backup_name in Hpre. rewrite length_app in Hpre.
        simpl in Hpre. lia.
    - unfold bak, backup_name. change YAML_PATH with (parent YAML_PATH ++ ["seer.yml"]) at 1.
      by apply apart_children. }
  assert (outside_of (mounts w) (copy_dests YAML_PATH bak) (locate (mounts w) YAML_PATH)) as Hout.
  { apply outside_of_apart. unfold copy_dests. repeat apply Forall_cons_2; [| |constructor]; apply apart_sym.
    - rewrite <-(app_nil_r bak). apply Hap.
    - apply Hap. }
  destruct (copy2_q no_fault YAML_PATH bak old t w1) as ([] & w2 & Hw2).
  { done. }
  { split; [apply Hnodir|]. intros _. unfold bak, backup_name. rewrite parent_app. by apply dir_ready_self. }
  { intros q ->%list_elem_of_singleton. apply Hout. left. }
  destruct (wp_run _ _ _ _ _ Hw2 (wp_copy2 YAML_PATH bak old t w1 Hy Hout)) as (_ & Hwr & Hc).
  specialize (Hwr (Hnodir now)). destruct (Hc eq_refl) as (q & k & _ & Hk & Hq).
  rewrite (Hq (Hnodir now)) in Hk. rewrite (bind_ok _ _ _ _ _ Hw2).
  pose proof (only_later _ _ _ _ (copy2_later _ _) Hw2) as Hl2. cbn in Hl2.
  eexists _, i, k. split_and!; [reflexivity|unfold during, i; cbn; lia|exact Hwr|exact Hk].
Qed.

Lemma write_yaml_q v w :
  dir_ready w (parent YAML_PATH) → node_at w YAML_PATH ≠ Some Dir →
  ∃ w1 w' t, write_yaml v w = (Ok tt, w') ∧ writes [YAML_PATH] w w1 ∧
    node_at w1 YAML_PATH = Some (File (safe_dump v) t) ∧ config_kept w1 w' ∧ later w w'.
Proof using no_fault spares.
  intros Hdir Hn. unfold write_yaml.
  destruct (makedirs_ready no_fault _ _ Hdir) as (w0 & Hw0 & Hs0). rewrite (bind_ok _ _ _ _ _ Hw0).
  destruct (write_new_q no_fault YAML_PATH (safe_dump v) w w0) as (w1 & Hw1 & _ & Hwrite).
  { split; [done|]. intros _. by apply dir_ready_self. } { done. }
  destruct (Hwrite w1 (reflexivity w1)) as (w2 & t & Hw2 & Hwr2 & Hn2).
  rewrite (bind_ok _ _ _ _ _ Hw1), (bind_ok _ _ _ _ _ Hw2).
  destruct (os_system_q "sudo chown seer:seer /opt/seer/etc/seer.yml" w2) as (r3 & w3 & Hw3).
  destruct (os_system_q "sudo chmod 0644 /opt/seer/etc/seer.yml" w3) as (r4 & w4 & Hw4).
  pose proof (os_system_config "sudo chown seer:seer /opt/seer/etc/seer.yml" w2) as Ho3. rewrite Hw3 in Ho3.
  pose proof (os_system_config "sudo chmod 0644 /opt/seer/etc/seer.yml" w3) as Ho4. rewrite Hw4 in Ho4.
  rewrite (bind_ok _ _ _ _ _ Hw3), (bind_ok _ _ _ _ _ Hw4).
  eexists w2, _, t. split_and!; [reflexivity|done|done|..].
  - etrans; [exact Ho3|]. etrans; [exact Ho4|]. done.
  - pose proof (only_later _ _ _ _ (makedirs_later _) Hw0). pose proof (only_later _ _ _ _ (open_write_later _ _) Hw1).
    pose proof (only_later _ _ _ _ (write_bytes_later _ _) Hw2). pose proof (only_later _ _ _ _ (os_system_later _) Hw3).
    pose proof (only_later _ _ _ _ (os_system_later _) Hw4). unfold later. cbn. lia.
Qed.
End Install.

(** C18.  Running the wizard's installation again, when no call fails, the device
    keeps what is written, the commands leave the configuration directory alone,
    and no regular file is where the sensor needs a directory: the installation
    returns, having made the missing directories; the configuration file holds
    the new configuration, and the one it replaces, with its modification time,
    is in a backup beside it, named after a reading of the clock by this run. *)
Theorem install_backs_up {E : Env} {Y : Yaml} this_file h c old t w :
  (∀ n, fault n = None) → (∀ n b, bitrot n b = b) → exec_spares_config →
  (∀ b e, safe_load b = Err e → is_Exception e = true) →
  one_mount (mounts w) → plain_dir (mounts w) ETC → no_file_in_way w →
  node_at w YAML_PATH = Some (File old t) → (∀ now, node_at w (backup_name now) ≠ Some Dir) →
  ∃ w', install this_file h c w = (Ok tt, w') ∧
    (∃ t', node_at w' YAML_PATH = Some (File (safe_dump (resolve h c)) t')) ∧
    ∃ i, during w w' i ∧ node_at w' (backup_name (localtime (clock i))) = Some (File old t).
Proof.
  intros Hq Hb Hspare Hyaml Hone Hplain Hfree Hold Hnodir.
  assert (∀ now, in_etc (backup_name now)) as Hbak by (intros now; split; [by exists ["seer.yml.bak-" +:+ stamp_of now]|done]).
  assert (in_etc YAML_PATH) as Hyp by (split; [by exists ["seer.yml"]|done]).
  destruct (ensure_q Hq Hspare w Hone Hfree) as (w1 & w2 & Hw1 & Hw2 & [Hm2 Hk2] & Hl2 & Hdir2).
  destruct (backup_yaml_q Hq old t w2) as (w3 & i & k & Hw3 & Hi & Hwr3 & Hbak3).
  { by rewrite Hm2. } { done. } { by rewrite Hk2. } { intros now. by rewrite Hk2. }
  set (now := localtime (clock i)) in *.
  rewrite Hb in Hbak3. assert (mounts w3 = mounts w) as Hm3 by (destruct Hwr3; congruence).
  assert (apart (mounts w) YAML_PATH (backup_name now)) as Hap.
  { change YAML_PATH with (ETC ++ ["seer.yml"]). by apply apart_children. }
  assert (node_at w3 YAML_PATH = Some (File old t)) as Hold3.
  { rewrite (writes_node _ _ _ _ Hwr3); [by rewrite Hk2|]. rewrite Hm2. by apply outside_of_one, apart_sym. }
  assert (dir_ready w3 (parent YAML_PATH)) as Hdir3.
  { assert (only dirs_stay backup_yaml) as Hst by (unfold backup_yaml; solve_only).
    specialize (Hst w2). rewrite Hw3 in Hst. intros j. by eapply dirs_stay_node. }
  destruct (write_yaml_q Hq Hspare (resolve h c) w3) as (w4 & w5 & t' & Hw5 & Hwr4 & Hn4 & Hk5 & Hl5);
    [done|congruence|].
  assert (node_at w4 (backup_name now) = Some (File old t)) as Hbak4.
  { rewrite (writes_node _ _ _ _ Hwr4); [done|]. rewrite Hm3. by apply outside_of_one. }
  destruct (calm_returns _ w5 (finish_calm Hq Hyaml this_file c)) as ([] & w6 & Hw6).
  pose proof (finish_config Hspare this_file c w5) as Hk6. pose proof (finish_later Hspare this_file c w5) as Hl6.
  rewrite Hw6 in Hk6, Hl6. cbn [snd] in *.
  assert (etc_kept w4 w6) as [_ Hk] by (apply config_kept_etc; by etrans).
  exists w6. split_and!.
  - unfold install. rewrite (bind_ok _ _ _ _ _ Hw1), (bind_ok _ _ _ _ _ Hw2), (bind_ok _ _ _ _ _ Hw3),
      (bind_ok _ _ _ _ _ Hw5). exact Hw6.
  - exists t'. by rewrite Hk.
  - exists i. split; [|by rewrite Hk]. apply (during_mono w w2 w3 w6); [done|by etrans|done].
Qed.

(** ** The theorems at work on a sensor *)

Lemma prompt_int_in_bounds_witness : in_bounds (Some 5%Z) (Some 300%Z) 20.
Proof.
  apply (prompt_int_in_bounds (E:=quiet) 3 "Rotation interval (seconds)" 20 (Some 5%Z) (Some 300%Z)
    (no_drive []) 20
    (prompt_int (E:=quiet) 3 "Rotation interval (seconds)" 20 (Some 5%Z) (Some 300%Z) (no_drive [])).2).
  vm_compute. reflexivity.
Defined.

(** A word, a number out of range, then 45. *)
Lemma prompt_int_answered_witness :
  ∃ w', prompt_int (E:=typing ["soon"; "3600"; " 45 "]) 3 "Rotation interval (seconds)" 20
          (Some 5%Z) (Some 300%Z) (no_drive []) = (Ok 45%Z, w').
Proof.
  apply (prompt_int_answered (E:=typing ["soon"; "3600"; " 45 "]) 3 2 _ _ _ _ " 45 ").
  - done.
  - intros i Hi. destruct i as [|[|i]]; [exists "soon"|exists "3600"|lia]; by split.
  - reflexivity.
  - reflexivity.
  - lia.
Defined.

(** The interface of the defaults is there; every question is answered with an
    empty line. *)
Definition with_iface : world := no_drive [(["sys"; "class"; "net"; "enp2s0"], Dir)].

Lemma defaults_answered :
  match (ask (E:=quiet) 1 heap0 (dict_copy DEFAULTS) with_iface).1 with Ok _ => True | Err _ => False end.
Proof. vm_compute. exact I. Qed.

Lemma ask_configures_witness :
  ∃ h c w', ask (E:=quiet) 1 heap0 (dict_copy DEFAULTS) with_iface = (Ok (h, c), w') ∧
    ∃ a, operator_said (E:=quiet) with_iface w' a ∧ sensible (E:=quiet) a ∧ resolve h c = config_of a ∧
      load_cfg (resolve h c) =
        Ok (Cfg (Path_ (a_ring a)) (Path_ (a_backlog a)) (a_threshold a) (Path_ (a_log a))
                Mover.default_candidates (YInt 2)) ∧
      load_settings (resolve h c) =
        Ok (Settings (YStr (a_backlog a)) (YInt (a_rotate a)) Hotswap.default_candidates (YInt 2) (YInt 2)).
Proof.
  pose proof defaults_answered as Hok.
  destruct (ask (E:=quiet) 1 heap0 (dict_copy DEFAULTS) with_iface) as [[[h c]|e] w'] eqn:Ha; [|done].
  exists h, c, w'. split; [done|]. exact (ask_configures (E:=quiet) 1 with_iface h c w' Ha).
Defined.

Definition wizard_file : path := ["root"; "SEER"; "Automation"; "SEER"; "setup_wizard.py"].

(** The operator types a snaplen, after a word and one that is out of bounds. *)
Definition typing_snaplen : Env := typing [""; ""; "many"; "9"; "96"; ""; ""; ""; ""; ""; ""; ""; ""; ""; ""; ""; ""].

Abbreviation typed_run := (Wizard.main (E:=typing_snaplen) 3 wizard_file false heap0 with_iface).

Definition snaplen_of (r : res heap) : option Z :=
  match r with
  | Ok h => match get_inner CAPTURE "snaplen" h with Ok z => Some z | Err _ => None end
  | Err _ => None
  end.
Lemma snaplen_typed : snaplen_of typed_run.1 = Some 96%Z.
Proof. vm_compute. reflexivity. Qed.


(** A sensor that was set up before, by hand: some directories are missing. *)
Definition set_up_before : world := no_drive [
  (["opt"; "seer"; "bin"], Dir); (["opt"; "seer"; "etc"], Dir); (YAML_PATH, pcap "interface: eth1" 1000)].

Lemma no_backup_dir now : node_at set_up_before (backup_name now) ≠ Some Dir.
Proof.
  intros Hn. assert ("seer.yml.bak-" +:+ stamp_of now ∈ children set_up_before (parent YAML_PATH)) as Hin.
  { apply elem_of_children_node; [by_computation|]. fold (backup_name now). by rewrite Hn. }
  assert (Forall (λ m, m = "seer.yml") (children set_up_before (parent YAML_PATH))) as Hall by by_computation.
  rewrite Forall_forall in Hall. by apply Hall in Hin.
Qed.

(** The commands change nothing on the disk, but for the one that starts the
    capture, which opens a file of the ring. *)
Definition starts_capture (argv : list string) : bool :=
  match argv with [_; _; cmd] => contains "systemctl enable" cmd | _ => false end.
Definition capturing : Env := env_exec (λ _, None) (λ _ d, d) (λ n argv w,
  (Proc 0 "" "", if starts_capture argv then
                   match map_to_list (mounts w) with
                   | [] => set_node (ring ++ ["SEER-5.pcap"]) (pcap "" 0) w
                   | _ => w
                   end
                 else w)).

Lemma capturing_spares : exec_spares_config (E:=capturing).
Proof.
  intros n cmd w. cbn [exec capturing env_exec env_full snd]. destruct (starts_capture _); [|done].
  destruct (map_to_list (mounts w)) eqn:Hm; [|done]. apply map_to_list_empty_iff in Hm.
  assert (∀ q, q ≠ ring ++ ["SEER-5.pcap"] →
    node_at (set_node (ring ++ ["SEER-5.pcap"]) (pcap "" 0) w) q = node_at w q) as Hne.
  { intros q Hq. unfold node_at, set_node. cbn [fs mounts set_fs]. rewrite Hm.
    assert (∀ p, locate ∅ p = (0, p)) as Hloc.
    { intros p. unfold locate. generalize (length p) as k. induction k as [|k IH]; cbn [locate_from]; [done|].
      by rewrite lookup_empty. }
    rewrite !Hloc, kget_insert by done. case_decide; [by simplify_eq|done]. }
  split_and!; [done|apply Nat.le_refl|..].
  - intros p [Hp|Hp]; apply Hne; intros ->; revert Hp; by_computation.
  - intros Hf d k b t Hd. rewrite Hne; [by apply Hf|]. intros Heq.
    assert (Forall (λ d, ¬ ring ++ ["SEER-5.pcap"] `prefix_of` Path_ d) REQUIRED_DIRS) as Hall by by_computation.
    rewrite Forall_forall in Hall. apply (Hall d Hd). rewrite <-Heq. exists (drop k (Path_ d)). by rewrite take_drop.
Qed.

Lemma set_up_before_free : no_file_in_way set_up_before.
Proof.
  intros d k b t Hd. revert k b t.
  assert (forallb (λ d, forallb (λ k, match node_at set_up_before (take k (Path_ d)) with
    Some (File _ _) => false | _ => true end) (seq 0 (S (length (Path_ d))))) REQUIRED_DIRS = true) as Hall
    by (vm_compute; reflexivity).
  rewrite forallb_forall in Hall. apply (way_check set_up_before), Hall, list_elem_of_In, Hd.
Qed.

Lemma install_backs_up_witness :
  ∃ w', install (E:=capturing) wizard_file
          heap0 DEFAULTS set_up_before = (Ok tt, w') ∧
  (∃ t', node_at w' YAML_PATH = Some (File (safe_dump (resolve heap0 DEFAULTS)) t')) ∧
  ∃ i, during set_up_before w' i ∧
    node_at w' (backup_name (localtime (Env:=capturing) (clock (Env:=capturing) i))) =
      Some (File (encode "interface: eth1") ((noon - 1000) * second)).
Proof.
  apply (install_backs_up (E:=capturing)); [done|done|exact capturing_spares|done|by_computation|by_computation
    |exact set_up_before_free|reflexivity|exact no_backup_dir].
Defined.
