(* ===== verification/Console.v ===== *)
(** * The console: [Automation/bin/seer_console.py], without the screen

    What the console reads (services, directories, the state file of the
    hot-swap service), what it does (stop, start, clear, mount and unmount) and
    its one-shot report.  The screen and the keys are in [Screen]. *)
From S2P Require Import Prelude Text Os PyNum Config Json.
From Stdlib Require Import SpecFloat Ascii.

(** ** Formatting *)

(** An exact value [v * 2 ^ e], times ten, rounded to an integer, ties to even. *)
Definition round_ratio (a b : Z) : Z :=
  let q := (a / b)%Z in
  let r := (2 * (a mod b))%Z in
  match (r ?= b)%Z with
  | Lt => q
  | Gt => (q + 1)%Z
  | Eq => if Z.even q then q else (q + 1)%Z
  end.
Definition tenths (m : positive) (e : Z) : Z :=
  if (0 <=? e)%Z then (10 * Zpos m * 2 ^ e)%Z else round_ratio (10 * Zpos m) (2 ^ (- e)).

(** [f"{f:.1f}"] *)
Definition fmt_fixed1 (f : spec_float) : string :=
  let digits s t := (if (s : bool) then "-" else "") +:+ pretty (t / 10)%Z +:+ "." +:+ pretty (t mod 10)%Z in
  match f with
  | S754_nan => "nan"
  | S754_infinity s => if s then "-inf" else "inf"
  | S754_zero s => digits s 0%Z
  | S754_finite s m e => digits s (tenths m e)
  end.

(** [round(f, 1)] *)
Definition round1 (f : spec_float) : spec_float :=
  match f with
  | S754_finite s m e =>
      let r := match int_truediv (tenths m e) 10 with Ok r => r | Err _ => f end in
      if s then SFopp r else r
  | f => f
  end.

Definition to_float (n : num) : spec_float :=
  match n with NInt z => float_of_Z z | NFloat f => f end.

(** [v /= 1024] until the value is below 1024 or the units end. *)
Fixpoint scale_unit (v : spec_float) (unit : string) (units : list string) : spec_float * string :=
  match units with
  | [] => (v, unit)
  | u :: units' =>
      if num_ge (NFloat v) (NInt 1024) then scale_unit (float_div v (float_of_Z 1024)) u units'
      else (v, unit)
  end.

Definition human_bytes (n : num) : string :=
  let '(v, u) := scale_unit (to_float n) "B" ["KB"; "MB"; "GB"; "TB"; "PB"] in
  fmt_fixed1 v +:+ " " +:+ u.

Definition badge_text (state : string) : string * Z :=
  let s := lower state in
  if bool_decide (s = "active") then ("active", 2%Z)
  else if bool_decide (s = "failed") then ("FAILED", 1%Z)
  else if bool_decide (s = "inactive" ∨ s = "dead") then ("stopped", 3%Z)
  else if startswith "activat" s then ("starting", 3%Z)
  else (if bool_decide (s = "") then "n/a" else s, 3%Z).

Section Console.
Context {E : Env} {Y : Yaml} {S : Shell}.

(** [os.environ.get(k, dflt)] *)
Definition getenv (k dflt : string) : string := default dflt (environ k).

(** A path, from the working directory when it is relative. *)
Definition to_path (s : string) : path :=
  if startswith "/" s then Path_ s else cwd ++ Path_ s.
Definition ystr_path (v : yval) : res path := s ← ystr v; mret (to_path s).

Definition human_ago (epoch_ts : Z) : prog string :=
  if bool_decide (epoch_ts = 0%Z) then mret "n/a" else
  now ← time_time;
  let dt := Z.max 0 (now - epoch_ts) in
  mret (if (dt <? second)%Z then "<1s"
        else if (dt <? 60 * second)%Z then pretty (dt / second)%Z +:+ "s"
        else
          let m := (dt / second / 60)%Z in
          let s := ((dt / second) mod 60)%Z in
          if (m <? 60)%Z then pretty m +:+ "m " +:+ pretty s +:+ "s"
          else pretty (m / 60)%Z +:+ "h " +:+ pretty (m mod 60)%Z +:+ "m").

(** ** Start *)

Definition CFG_PATH : path := ["opt"; "seer"; "etc"; "seer.yml"].

Definition read_cfg : prog yval :=
  try_except
    (b ← open_read CFG_PATH; v ← lift_res (safe_load b); mret (or_empty v))
    is_Exception (λ _, mret (YMap [])).

(** The globals of the module. *)
Record globals := Globals {
  REFRESH0 : spec_float;
  CAPTURE_SERVICE : string;
  JSON_SPOOL : yval;
  IFACE_BOOT : option yval;
  NO_COLORS : bool;
}.
Definition MOVER_SERVICE : string := getenv "MOVER_SERVICE" "seer-move-oldest.service".
Definition MOVER_TIMER : string := getenv "MOVER_TIMER" "seer-move-oldest.timer".
Definition BUFF_DIR : string := getenv "BUFF_DIR" "/var/seer/pcap_ring".
Definition SHIPPER_SERVICE : string := getenv "SHIPPER_SERVICE" "seer-shipper.service".
Definition HOTSWAP_SERVICE : string := getenv "HOTSWAP_SERVICE" "seer-hotswap.service".
Definition HOTSWAP_STATE : string := getenv "HOTSWAP_STATE" "/var/log/seer/hotswap_state.json".

Definition capture_service (cfg : yval) : string :=
  let env := getenv "CAPTURE_SERVICE" "" in
  let dflt := if bool_decide (env = "") then "seer-capture@enp1s0.service" else env in
  match cfg with
  | YMap l =>
      if bool_decide (env = "")
      then "seer-capture@" +:+ yshow (default (YStr "enp2s0") (assoc "interface" l)) +:+ ".service"
      else dflt
  | _ => dflt
  end.

Definition json_spool (cfg : yval) : yval :=
  let dflt := YStr (getenv "JSON_SPOOL" "/var/seer/json_spool") in
  match cfg with
  | YMap l => let v := default dflt (assoc "json_spool" l) in if truthy v then v else dflt
  | _ => dflt
  end.

Definition iface_boot (cfg : yval) : option yval :=
  match cfg with YMap l => Some (default (YStr "enp2s0") (assoc "interface" l)) | _ => None end.

Definition boot : prog globals :=
  refresh ← lift_res (match py_float (getenv "REFRESH" "0.5") with
                      | Some f => Ok f
                      | None => Err (ValueError "could not convert string to float")
                      end);
  cfg ← read_cfg;
  mret (Globals refresh (capture_service cfg) (json_spool cfg) (iface_boot cfg)
         (arg_no_colors || bool_decide (getenv "NO_COLORS" "0" ∈ ["1"; "true"; "True"]))).

(** ** What it reads *)

Definition systemctl_is_active (unit : string) : prog string :=
  if bool_decide (unit = "") then mret "inactive" else
  r ← run ["systemctl"; "is-active"; unit];
  let s := strip (if bool_decide (stdout r = "") then stderr r else stdout r) in
  mret (if bool_decide (s = "") then "inactive" else s).

Definition count_pcaps (path : yval) : prog Z :=
  try_except
    (p ← lift_res (ystr_path path);
     l ← glob_glob p "*.pcap*";
     mret (Z.of_nat (length l)))
    is_Exception (λ _, mret 0%Z).

(** Text is decoded as UTF-8: a byte that is not is an error. *)
Definition read_text (b : bytes) : res string :=
  let s := decode b in
  if existsb (λ u, bool_decide (56448 ≤ u ∧ u ≤ 56575)%Z) (utf8_decode (chars s))
  then Err (ValueError "'utf-8' codec can't decode byte")
  else Ok s.

Definition read_hotswap_state : prog yval :=
  try_except
    (b ← open_read (to_path HOTSWAP_STATE);
     s ← lift_res (read_text b);
     lift_res (loads s))
    is_Exception (λ _, mret (YMap [])).

(** The files seen, the sum of their sizes and the latest time. *)
Record jstats := JStats { seen : list path; total : Z; last_m : Z }.

Definition json_file (st : jstats) (p : path) : prog jstats :=
  d ← os_isdir p;
  if (d : bool) || bool_decide (p ∈ seen st) then mret st else
  let st := JStats (p :: seen st) (total st) (last_m st) in
  try_except
    (n ← stat p;
     mret (JStats (seen st) (total st + st_size n) (Z.max (last_m st) (st_mtime n))))
    is_FileNotFoundError (λ _, mret st).

Fixpoint json_files (l : list path) (st : jstats) : prog jstats :=
  match l with
  | [] => mret st
  | p :: l' => st' ← json_file st p; json_files l' st'
  end.

Fixpoint json_patterns (p : path) (pats : list string) (st : jstats) : prog jstats :=
  match pats with
  | [] => mret st
  | pat :: pats' => l ← glob_rec p pat; st' ← json_files l st; json_patterns p pats' st'
  end.

Definition json_stats (path : yval) : prog (Z * Z * Z) :=
  try_except
    (p ← lift_res (ystr_path path);
     st ← json_patterns p ["*.json*"; "*.log"; "*.log.json*"] (JStats [] 0 0);
     mret (Z.of_nat (length (seen st)), total st, last_m st))
    is_Exception (λ _, mret (0, 0, 0)%Z).

(** ** Services *)

Definition act_stop (g : globals) : prog unit :=
  run (["systemctl"; "stop"; CAPTURE_SERVICE g; MOVER_SERVICE]
       ++ (if bool_decide (MOVER_TIMER = "") then [] else [MOVER_TIMER])
       ++ (if bool_decide (HOTSWAP_SERVICE = "") then [] else [HOTSWAP_SERVICE]));;
  mret tt.

(** A unit is restarted, or started when that fails. *)
Definition restart (u : string) : prog unit :=
  if bool_decide (u = "") then mret tt else
  r ← run ["systemctl"; "restart"; u];
  if bool_decide (returncode r = 0%Z) then mret tt
  else run ["systemctl"; "start"; u];; mret tt.

Definition act_start (g : globals) : prog unit :=
  run ["systemctl"; "daemon-reload"];;
  restart (CAPTURE_SERVICE g);;
  restart MOVER_TIMER;;
  restart HOTSWAP_SERVICE.

(** ** Clearing *)

Definition clear_dir (v : yval) : prog unit :=
  d ← lift_res (ystr_path v);
  makedirs d;;
  l ← glob_glob d "*.pcap*";
  forM_io (λ p, try_except (unlink p) is_Exception (λ _, mret tt)) l.

Definition act_clear (buff_dir : string) : prog unit :=
  makedirs (to_path buff_dir);;
  cfg ← read_cfg;
  dest ← lift_res (yget cfg "dest_dir" (YStr "/opt/seer/var/queue"));
  back ← lift_res (yget cfg "backlog_dir" (YStr "/opt/seer/var/backlog"));
  forM_io clear_dir [YStr buff_dir; dest; back].

(** ** The export drive *)

(** [cfg.get("export", {}).get("mount_candidates", ["/mnt/seer_external"])] *)
Definition candidates_of (cfg : yval) : res yval :=
  yget2 cfg "export" "mount_candidates" (YList [YStr "/mnt/seer_external"]).

(** [v[0]] *)
Definition yfirst (v : yval) : res yval :=
  match v with
  | YList (x :: _) => Ok x
  | YList [] => Err (IndexError "list index out of range")
  | YStr s => match chars s with c :: _ => Ok (YStr (of_chars [c])) | [] => Err (IndexError "string index out of range") end
  | YMap _ => Err (KeyError "0")
  | _ => Err (TypeError "object is not subscriptable")
  end.

Definition FSTYPES : list string :=
  ["ext4"; "ext3"; "ext2"; "xfs"; "btrfs"; "ntfs"; "vfat"; "exfat"; "fat32"].

Record dev := Dev { priority : Z; size_ : Z; dev_name : string; dev_type : string }.

(** The mount point and the file system type: without a mount point the type
    moves to the left. *)
Definition mount_fields (parts : list string) : string * string :=
  match parts !! 4 with
  | None => ("", "")
  | Some f =>
      if bool_decide (f ∈ FSTYPES) then ("", f) else (f, default "" (parts !! 5))
  end.

Definition priority_of (name removable fstype : string) (size : Z) : Z :=
  if startswith "sdb" name then 10
  else if bool_decide (removable = "1") then 5
  else if negb (bool_decide (fstype = "")) && (1000000000 <? size)%Z then 3
  else if (1000000000 <? size)%Z then 1
  else 0.

(** One line of [lsblk -nrbo NAME,SIZE,TYPE,RM,MOUNTPOINT,FSTYPE]. *)
Definition parse_dev (line : string) : option dev :=
  let parts := split_ws line in
  match parts with
  | name :: sz :: ty :: removable :: _ =>
      let size := if isdigit sz then default 0%Z (py_int sz) else 0%Z in
      let '(mountpoint, fstype) := mount_fields parts in
      if negb (bool_decide (mountpoint = "")) then None
      else if startswith "sda" name then None
      else if negb (bool_decide (ty = "disk")) then None
      else
        let prio := priority_of name removable fstype size in
        if (0 <? prio)%Z then Some (Dev prio size name ty) else None
  | _ => None
  end.

Definition find_devs (out : string) : list dev := omap parse_dev (splitlines out).

(** [sort(key=lambda x: (x[0], x[1]), reverse=True)]: stable, best first. *)
Definition better (a b : dev) : bool :=
  (priority b <? priority a)%Z || (bool_decide (priority a = priority b) && (size_ b <=? size_ a)%Z).

Definition unmount (target : string) : prog string :=
  run ["sync"];;
  r ← run ["sudo"; "umount"; target];
  if bool_decide (returncode r = 0%Z) then mret ("✓ Unmounted " +:+ target) else
  lazy ← (if contains "busy" (lower (stderr r)) then
            r2 ← run ["sudo"; "umount"; "-l"; target];
            mret (bool_decide (returncode r2 = 0%Z))
          else mret false);
  mret (if (lazy : bool)
        then "✓ Unmounted " +:+ target +:+ " (lazy - will complete when files close)"
        else "✗ Failed to unmount " +:+ target +:+ ": " +:+ strip (stderr r)).

Definition size_info (r : proc) : string :=
  if bool_decide (returncode r = 0%Z) then
    match split_lines (strip (stdout r)) with
    | _ :: line :: _ =>
        match split_ws line with
        | _ :: total :: _ => " (" +:+ total +:+ " total)"
        | _ => ""
        end
    | _ => ""
    end
  else "".

Definition mount_error (device_path error_msg : string) : string :=
  let low := lower error_msg in
  if contains "already mounted" low then "✗ " +:+ device_path +:+ " is already mounted elsewhere"
  else if contains "special device" low then "✗ Device " +:+ device_path +:+ " not found or not accessible"
  else if contains "wrong fs type" low
       then "✗ Filesystem type not recognized. Try: sudo blkid " +:+ device_path
  else "✗ Mount failed: " +:+ (if bool_decide (error_msg = "") then "unknown error" else error_msg).

Definition mount_device (device_path target : string) : prog string :=
  makedirs (to_path target);;
  there ← os_exists (Path_ device_path);
  if negb there then mret ("✗ Device " +:+ device_path +:+ " not found") else
  blkid ← run ["sudo"; "blkid"; device_path];
  if negb (bool_decide (returncode blkid = 0%Z))
  then mret ("✗ No filesystem detected on " +:+ device_path +:+ ". Use: sudo mkfs.ext4 " +:+ device_path) else
  r ← run ["sudo"; "mount"; device_path; target];
  if bool_decide (returncode r = 0%Z) then
    run ["sudo"; "chown"; "seer:seer"; target];;
    run ["sudo"; "chmod"; "755"; target];;
    df ← run ["df"; "-h"; target];
    mret ("✓ Mounted " +:+ device_path +:+ " at " +:+ target +:+ size_info df)
  else mret (mount_error device_path (strip (stderr r))).

(** The mount point, and whether something is mounted there. *)
Definition mount_target : prog (string * bool) :=
  cfg ← read_cfg;
  candidates ← lift_res (candidates_of cfg);
  target ← lift_res (v ← (if truthy candidates then yfirst candidates
                          else mret (YStr "/mnt/seer_external")); ystr v);
  mounted ← os_ismount (to_path target);
  mret (target, mounted).

Definition act_toggle_mount : prog string :=
  '(target, mounted) ← mount_target;
  if (mounted : bool) then unmount target else
  r ← run ["lsblk"; "-nrbo"; "NAME,SIZE,TYPE,RM,MOUNTPOINT,FSTYPE"];
  match sort_by better (find_devs (stdout r)) with
  | [] =>
      debug ← run ["lsblk"; "-o"; "NAME,SIZE,TYPE,RM,FSTYPE,MOUNTPOINT"];
      mret ("✗ No suitable drive found" +:+ nl +:+ nl +:+ "Available devices:" +:+ nl +:+ stdout debug)
  | best :: _ => mount_device ("/dev/" +:+ dev_name best) target
  end.

(** ** The report *)

Record status := Status {
  cap_state : string; mov_state : string; tim_state : string; zeek_state : string; hot_state : string;
  ring_dir : yval; dest_dir : yval; backlog_dir : yval;
  buff_count : Z; dest_count : Z; back_count : Z;
  j_count : Z; j_bytes : Z; j_last : Z;
  drive_present : yval; last_export_ts : yval; total_exported : yval;
}.

Definition timer_state : prog string :=
  if bool_decide (MOVER_TIMER = "") then mret "n/a" else systemctl_is_active MOVER_TIMER.

(** The interface of [collect_status]: an empty one counts as none. *)
Definition status_iface (g : globals) : string :=
  match IFACE_BOOT g with
  | Some v => if truthy v then yshow v else getenv "IFACE" "enp2s0"
  | None => getenv "IFACE" "enp2s0"
  end.

Definition collect_status (g : globals) : prog status :=
  cap_state ← systemctl_is_active (CAPTURE_SERVICE g);
  mov_state ← systemctl_is_active MOVER_SERVICE;
  tim_state ← timer_state;
  hot_state ← systemctl_is_active HOTSWAP_SERVICE;
  zeek_state ← systemctl_is_active ("seer-zeek@" +:+ status_iface g +:+ ".service");
  cfg ← read_cfg;
  ring_dir ← lift_res (yget cfg "ring_dir" (YStr "/var/seer/pcap_ring"));
  dest_dir ← lift_res (yget cfg "dest_dir" (YStr "/opt/seer/var/queue"));
  backlog_dir ← lift_res (yget cfg "backlog_dir" (YStr "/opt/seer/var/backlog"));
  buff_count ← count_pcaps ring_dir;
  dest_count ← count_pcaps dest_dir;
  back_count ← count_pcaps backlog_dir;
  '(j_count, j_bytes, j_last) ← json_stats (JSON_SPOOL g);
  hs_state ← read_hotswap_state;
  drive_present ← lift_res (yget hs_state "drive_present" (YBool false));
  last_export ← lift_res (yget hs_state "last_export_ts" YNull);
  total_exported ← lift_res (yget hs_state "total_exported" (YInt 0));
  mret (Status cap_state mov_state tim_state zeek_state hot_state ring_dir dest_dir backlog_dir
          buff_count dest_count back_count j_count j_bytes j_last
          drive_present last_export total_exported).

(** The first candidate that is a mount point, or ["drive"]. *)
Fixpoint active_mount (candidates : list yval) : prog string :=
  match candidates with
  | [] => mret "drive"
  | v :: rest =>
      candidate ← lift_res (ystr v);
      m ← os_ismount (to_path candidate);
      if (m : bool) then mret candidate else active_mount rest
  end.

Definition mount_of_cfg (cfg : yval) : prog string :=
  v ← lift_res (candidates_of cfg);
  l ← lift_res (yiter v);
  active_mount l.

(** [--once] *)
Definition report (g : globals) : prog unit :=
  s ← collect_status g;
  now ← datetime_now;
  print ("SEER STATUS  host=" +:+ nodename +:+ "  time=" +:+ fmt_date now +:+ " " +:+ fmt_hms now);;
  print ("  CAPTURE : " +:+ cap_state s +:+ "    MOVER: " +:+ mov_state s +:+ "   TIMER: "
         +:+ tim_state s +:+ "   ZEEK: " +:+ zeek_state s +:+ "   HOTSWAP: " +:+ hot_state s);;
  print ("  RING    : " +:+ yshow (ring_dir s) +:+ "  count=" +:+ pretty (buff_count s));;
  print ("  BACKLOG : " +:+ yshow (backlog_dir s) +:+ "  count=" +:+ pretty (back_count s));;
  (if truthy (drive_present s) then
     cfg ← read_cfg;
     m ← mount_of_cfg cfg;
     print ("  DRIVE   : CONNECTED at " +:+ m);;
     try_except
       (l ← path_rglob (to_path m) "*.pcap*";
        print ("  ON DRIVE: " +:+ pretty (Z.of_nat (length l)) +:+ " files"))
       is_OSError (λ _, print "  ON DRIVE: (unable to count)")
   else print "  DRIVE   : not connected");;
  print ("  JSON captured: " +:+ human_bytes (NInt (j_bytes s))).
End Console.
