(* ===== verification/WizardLink.v ===== *)
(** * From the wizard to the programs it configures

    The configuration the wizard writes is the one the mover and the hot-swap
    service start with and the console reads. *)
From S2P Require Import Prelude Text Os OsFacts OsQuiet PyNum Config Scenario Mover Hotswap Wizard WizardFacts Console.

Section Link.
Context {E : Env} {Y : Yaml} (spares : exec_spares_config).

Lemma yaml_config : config_path YAML_PATH.
Proof using. right. by exists ["seer.yml"]. Qed.

(** Whatever fails, an installation that returns has written the file. *)
Lemma wp_write_yaml v w :
  wp (write_yaml v) (λ r w', r = Ok tt → ∃ t, node_at w' YAML_PATH = Some (File (safe_dump v) t)) w.
Proof using spares.
  unfold write_yaml. apply wp_bind, (wp_only (λ _ _, True)); [done|]. intros [[]|e] w1 _; [|done].
  apply wp_bind. eapply wp_mono; [apply wp_open_write|]. intros [[]|e] w2 [_ Ho]; [|done].
  destruct (Ho eq_refl) as [t Ht]. apply wp_bind. eapply wp_mono; [eapply wp_write_bytes; exact Ht|].
  intros [[]|e] w3 [_ Hw3]; [|done]. destruct (Hw3 eq_refl) as [t' Ht'].
  match goal with |- wp ?m _ _ => assert (only config_kept m) as Ho' end.
  { pose proof (os_system_config spares). apply only_bind; [apply _|done|intros _].
    apply only_bind; [apply _|done|intros _]. apply only_same_config. solve_only. }
  eapply wp_only; [exact Ho'|]. intros r w4 [_ Hk] _. exists t'. rewrite Hk; [|apply yaml_config]. exact Ht'.
Qed.

Lemma wp_install this_file h c w :
  wp (install this_file h c)
    (λ r w', r = Ok tt → ∃ t, node_at w' YAML_PATH = Some (File (safe_dump (resolve h c)) t)) w.
Proof using spares.
  unfold install. do 3 (apply wp_bind, (wp_only (λ _ _, True)); [done|]; intros [[]|?] ? _; [|done]).
  apply wp_bind. eapply wp_mono; [apply wp_write_yaml|]. intros [[]|e] w1 Hw1; [|done].
  destruct (Hw1 eq_refl) as [t Ht]. fold (finish this_file c).
  eapply wp_only; [exact (finish_config spares this_file c)|]. intros r w2 [_ Hk] _.
  exists t. by rewrite Hk; [|apply yaml_config].
Qed.
End Link.

Section Readers.
Context {E : Env} {Y : Yaml} (no_fault : ∀ n, fault n = None).

Lemma mover_start_q b t v C w :
  node_at w YAML_PATH = Some (File b t) → safe_load b = Ok v → load_cfg v = Ok C →
  start w = (Ok C, tick w).
Proof using no_fault.
  intros Hn Hl Hc. unfold start. change CONFIG_FILE with YAML_PATH.
  rewrite (bind_ok _ _ _ _ _ (open_read_q no_fault _ _ _ _ Hn)), Hl.
  rewrite (bind_ok (lift_res (Ok v)) _ _ v _ eq_refl). by rewrite Hc.
Qed.

Lemma read_cfg_q b t v w :
  node_at w YAML_PATH = Some (File b t) → safe_load b = Ok v → truthy v = true →
  read_config w = (Ok v, tick w) ∧ read_cfg w = (Ok v, tick w).
Proof using no_fault.
  intros Hn Hl Ht. split; [unfold read_config, try_except; change CONFIG_PATH with YAML_PATH
    |unfold read_cfg, try_except; change CFG_PATH with YAML_PATH];
  rewrite (bind_ok _ _ _ _ _ (open_read_q no_fault _ _ _ _ Hn)), Hl;
  rewrite (bind_ok (lift_res (Ok v)) _ _ v _ eq_refl); unfold or_empty; by rewrite Ht.
Qed.

Lemma start_loop_q v cf l w :
  read_config w = (Ok v, tick w) → load_settings v = Ok cf → yjoin ", " (mount_candidates cf) = Ok l →
  ∃ w', start_loop w = (Ok cf, w') ∧ same_disk w w'.
Proof using.
  intros Hr Hs Hj. unfold start_loop. rewrite (bind_ok _ _ _ _ _ Hr), Hs.
  rewrite (bind_ok (lift_res (Ok cf)) _ _ cf _ eq_refl).
  do 2 rewrite (bind_ok (info _) _ _ tt _ eq_refl).
  rewrite Hj, (bind_ok (lift_res (Ok l)) _ _ l _ eq_refl).
  do 2 rewrite (bind_ok (info _) _ _ tt _ eq_refl). by eexists.
Qed.
End Readers.

(** C32.  The wizard and the programs it configures.  When the operator has
    answered and the installation has returned, whatever calls failed on the
    way, and the YAML library reads what it wrote: the mover starts with the
    ring, the backlog, the threshold and the log the operator typed in that run,
    the hot-swap service with the backlog and the rotation time, which are within
    the bounds of the questions, and the console reads the same configuration. *)
Theorem wizard_configures_service (E1 E2 : Env) {Y : Yaml} {S : Shell} fuel this_file h c w0 w1 w2 w3 :
  exec_spares_config (E:=E1) → (∀ n, fault (Env:=E2) n = None) →
  ask (E:=E1) fuel heap0 (dict_copy DEFAULTS) w0 = (Ok (h, c), w1) →
  install (E:=E1) this_file h c w1 = (Ok tt, w2) →
  safe_load (safe_dump (resolve h c)) = Ok (resolve h c) →
  node_at w3 YAML_PATH = node_at w2 YAML_PATH →
  ∃ a w4 w5, operator_said (E:=E1) w0 w1 a ∧ sensible (E:=E1) a ∧
    start (E:=E2) w3 =
      (Ok (Cfg (Path_ (a_ring a)) (Path_ (a_backlog a)) (a_threshold a) (Path_ (a_log a))
               Mover.default_candidates (YInt 2)), w4) ∧
    start_loop (E:=E2) w3 =
      (Ok (Settings (YStr (a_backlog a)) (YInt (a_rotate a)) Hotswap.default_candidates (YInt 2) (YInt 2)), w5) ∧
    same_disk w3 w4 ∧ same_disk w3 w5 ∧ (read_cfg (E:=E2) w3).1 = Ok (config_of a).
Proof.
  intros Hspare Hq Ha Hi Hyaml Hsame.
  destruct (wp_run _ _ _ _ _ Ha (wp_ask fuel w0) h c eq_refl) as (a & Hs & Heq & _).
  destruct (wp_run _ _ _ _ _ Hi (wp_install Hspare this_file h c w1) eq_refl) as [t Ht].
  rewrite Heq in Hyaml, Ht. rewrite <-Hsame in Ht.
  destruct (read_cfg_q Hq _ t (config_of a) w3 Ht Hyaml eq_refl) as [Hr1 Hr2].
  destruct (start_loop_q (config_of a) (Settings (YStr (a_backlog a)) (YInt (a_rotate a))
    Hotswap.default_candidates (YInt 2) (YInt 2)) "/mnt/seer_external, /mnt/SEER_EXT, /media/seer_external" w3 Hr1
    eq_refl eq_refl) as (w5 & Hw5 & Hs5).
  exists a, (tick w3), w5. split_and!; [done|by eapply operator_said_sensible| |done|done|done|by rewrite Hr2].
  exact (mover_start_q Hq _ t (config_of a) _ w3 Ht Hyaml eq_refl).
Qed.

(** ** The theorem at work on a sensor *)

(** A new sensor; every question is answered with an empty line; the YAML
    library reads the configuration it wrote. *)
Definition default_config : yval :=
  match (ask (E:=quiet) (Y:=yaml_of_scenario) 1 heap0 (dict_copy DEFAULTS) with_iface).1 with
  | Ok (h, c) => resolve h c
  | Err _ => YNull
  end.
Definition remembering_yaml : Yaml := {|
  safe_load := λ b, if bool_decide (b = encode "interface: enp2s0") then Ok default_config else Ok YNull;
  safe_dump := λ _, encode "interface: enp2s0";
  show_other := λ _, "0.5";
|}.

Definition set_up : Prop :=
  match ask (E:=quiet) (Y:=remembering_yaml) 1 heap0 (dict_copy DEFAULTS) with_iface with
  | (Ok (h, c), w1) =>
      match install (E:=quiet) (Y:=remembering_yaml)
              wizard_file h c w1 with
      | (Ok _, _) => default_config = resolve h c
      | _ => False
      end
  | _ => False
  end.
Lemma new_sensor_set_up : set_up.
Proof. vm_compute. reflexivity. Qed.

Lemma quiet_spares : exec_spares_config (E:=quiet).
Proof. intros n cmd w. split_and!; [done|apply Nat.le_refl|done|done]. Qed.

Lemma wizard_configures_service_witness :
  ∃ h c w1 w2, ask (E:=quiet) (Y:=remembering_yaml) 1 heap0 (dict_copy DEFAULTS) with_iface = (Ok (h, c), w1) ∧
    install (E:=quiet) (Y:=remembering_yaml) wizard_file h c w1
      = (Ok tt, w2) ∧
    ∃ a w4 w5, operator_said (E:=quiet) (Y:=remembering_yaml) with_iface w1 a ∧ sensible (E:=quiet) a ∧
      start (E:=quiet) (Y:=remembering_yaml) w2 =
        (Ok (Cfg (Path_ (a_ring a)) (Path_ (a_backlog a)) (a_threshold a) (Path_ (a_log a))
                 Mover.default_candidates (YInt 2)), w4) ∧
      start_loop (E:=quiet) (Y:=remembering_yaml) w2 =
        (Ok (Settings (YStr (a_backlog a)) (YInt (a_rotate a)) Hotswap.default_candidates (YInt 2) (YInt 2)), w5) ∧
      same_disk w2 w4 ∧ same_disk w2 w5 ∧ (read_cfg (E:=quiet) (Y:=remembering_yaml) w2).1 = Ok (config_of a).
Proof.
  pose proof new_sensor_set_up as Hrun. unfold set_up in Hrun.
  destruct (ask (E:=quiet) (Y:=remembering_yaml) 1 heap0 (dict_copy DEFAULTS) with_iface) as [[[h c]|e] w1] eqn:Ha; [|done].
  destruct (install (E:=quiet) (Y:=remembering_yaml) _ h c w1) as [[[]|e] w2] eqn:Hi; [|done].
  exists h, c, w1, w2. split_and!; [done|exact Hi|].
  apply (wizard_configures_service quiet quiet (Y:=remembering_yaml) 1 _ h c with_iface w1 w2 w2
    quiet_spares (λ _, eq_refl) Ha Hi); [|reflexivity].
  cbn [safe_load safe_dump remembering_yaml]. rewrite bool_decide_true by done. by rewrite Hrun.
Defined.
