(* ===== verification/ConsoleFacts.v ===== *)
(** * Theorems about the console

    The state file of the hot-swap service is read back as it was written; the
    console mounts only what may be mounted. *)
From S2P Require Import Prelude Text Os TextFacts OsFacts OsQuiet PyNum Config Json JsonFacts Scenario.
From S2P Require Import Traces Hotswap Console.
From Stdlib Require Import SpecFloat Ascii.

(** ** The state file *)

Definition ascii_text (s : string) : Prop := Forall (λ c, (code c < 128)%Z) (chars s).

Lemma utf8_decode_ascii l : Forall (λ c, (code c < 128)%Z) l → utf8_decode l = code <$> l.
Proof.
  induction 1 as [|c l Hc Hl IH]; [done|]. cbn [utf8_decode fmap list_fmap].
  rewrite (proj2 (Z.ltb_lt _ _) Hc). by rewrite IH.
Qed.

Lemma read_text_ascii s : ascii_text s → read_text (encode s) = Ok s.
Proof.
  intros Hs. unfold read_text. rewrite decode_encode, utf8_decode_ascii by done.
  replace (existsb _ _) with false; [done|]. symmetry. apply not_true_is_false. intros Hex.
  apply existsb_exists in Hex as (u & Hin & Hu). apply bool_decide_eq_true in Hu.
  apply list_elem_of_In, list_elem_of_fmap in Hin as (c & -> & Hc).
  eapply Forall_forall in Hs; [|exact Hc]. lia.
Qed.

Lemma digit_plain l :
  Forall (λ c, is_digit c = true ∧ is_space c = false) l → Forall (λ c, plain_char c = true) l.
Proof.
  assert (∀ c, implb (is_digit c) (plain_char c) = true) as Hall
    by (apply all_chars; vm_compute; reflexivity).
  intros Hl. eapply Forall_impl; [exact Hl|]. intros c [Hc _]. specialize (Hall c).
  by rewrite Hc in Hall.
Qed.

Lemma plain_pretty (z : Z) : plain (pretty z).
Proof.
  destruct z as [|p|p]; [by repeat constructor|..].
  - destruct (pretty_N_digits (N.pos p)) as (_ & H2 & _). by apply digit_plain.
  - unfold plain. change (chars (pretty (Z.neg p))) with ("-"%char :: chars (pretty (N.pos p))).
    constructor; [done|]. destruct (pretty_N_digits (N.pos p)) as (_ & H2 & _). by apply digit_plain.
Qed.

Lemma plain_app s1 s2 : plain s1 → plain s2 → plain (s1 +:+ s2).
Proof. unfold plain. rewrite chars_app. intros. by apply Forall_app. Qed.

Lemma plain_zpad n z : plain (zpad n z).
Proof.
  apply plain_app; [|apply plain_pretty]. unfold plain. rewrite chars_of_chars.
  by apply Forall_replicate.
Qed.

Lemma plain_isoformat t : plain (isoformat t).
Proof.
  unfold isoformat, fmt_date, fmt_hms.
  assert (plain "-" ∧ plain ":" ∧ plain "T" ∧ plain "." ∧ plain "") as (?&?&?&?&?) by by repeat constructor.
  repeat match goal with
  | |- plain (String.append _ _) => apply plain_app
  | |- plain (zpad _ _) => apply plain_zpad
  | |- plain (if _ then _ else _) => case_bool_decide
  end; done.
Qed.

(** Texts over a set of characters that has the printable ones. *)
Section Over.
Context (P : ascii → Prop) (HP : ∀ c, (32 ≤ code c ∧ code c ≤ 126)%Z → P c).
Definition over (s : string) : Prop := Forall P (chars s).

Lemma over_app s1 s2 : over (s1 +:+ s2) ↔ over s1 ∧ over s2.
Proof using. unfold over. by rewrite chars_app, Forall_app. Qed.

Lemma plain_over s : plain s → over s.
Proof using HP.
  intros Hs. eapply Forall_impl; [exact Hs|]. intros c Hc. apply HP. unfold plain_char in Hc. cbv beta in Hc.
  rewrite !andb_true_iff in Hc. destruct Hc as [[Hc _] _]. by apply bool_decide_eq_true in Hc.
Qed.

Lemma over_json_str s : plain s → over (json_str s).
Proof using HP.
  intros Hs. unfold over. rewrite chars_json_str by done. constructor; [by apply HP|].
  apply Forall_app. split; [by apply plain_over|]. repeat constructor. by apply HP.
Qed.

Lemma over_member kv : plain kv.1 → flat kv.2 → over (member kv).
Proof using HP.
  assert (over "null" ∧ over "true" ∧ over "false" ∧ over ": ") as (? & ? & ? & ?)
    by (split_and!; repeat (constructor; [by apply HP|]); constructor).
  intros Hk Hv. unfold member. rewrite !over_app. split_and!; [by apply over_json_str|done|].
  destruct kv.2 as [|[]| | |]; [done|done|done|apply plain_over, plain_pretty|by apply over_json_str|done].
Qed.

Lemma over_dict_text open sep close l :
  over open → over sep → over close → flat_members l → over (dict_text open sep close l).
Proof using HP.
  assert (over "{" ∧ over "}" ∧ over "," ∧ over "") as (? & ? & ? & ?)
    by (split_and!; repeat (constructor; [by apply HP|]); constructor).
  intros Ho Hs Hc Hl. unfold dict_text. rewrite !over_app. split_and!; try done.
  unfold members_text. induction Hl as [|kv l [Hk Hv] Hl IH]; [done|].
  destruct l as [|kv2 l]; [by apply over_member|].
  change (join ("," +:+ sep) (member <$> kv :: kv2 :: l)) with
    (member kv +:+ ("," +:+ sep) +:+ join ("," +:+ sep) (member <$> kv2 :: l)).
  rewrite !over_app. split_and!; [by apply over_member|done|done|done].
Qed.
End Over.

(** The members of the state file. *)
Definition state_members (b : bool) (ts : option tm) (n : Z) (now : tm) : list (string * json) :=
  [("drive_present", JBool b); ("last_export_ts", opt_json (isoformat <$> ts));
   ("total_exported", JInt n); ("updated", JStr (isoformat now))].

Lemma state_members_flat b ts n now : flat_members (state_members b ts n now).
Proof.
  assert (plain "drive_present" ∧ plain "last_export_ts" ∧ plain "total_exported" ∧ plain "updated")
    as (? & ? & ? & ?) by by repeat constructor.
  assert (flat (opt_json (isoformat <$> ts))) by (destruct ts; [apply plain_isoformat|done]).
  assert (flat (JStr (isoformat now))) by apply plain_isoformat.
  by repeat (apply Forall_cons; split; [by split|]).
Qed.

Section State.
Context {E : Env} {Y : Yaml} {Sh : Shell} (no_fault : ∀ n, fault n = None).

(** [open(p, "w")] and one write, when nothing fails. *)
Lemma write_text_written p s w :
  writable_at w p → ∃ w' t, write_text p s w = (Ok tt, w') ∧ node_at w' p = Some (File (encode s) t).
Proof.
  intros Hp. destruct (write_new_q no_fault p (encode s) w w Hp (reflexivity w)) as (w1 & Hw1 & _ & Hwr).
  destruct (Hwr w1 (reflexivity w1)) as (w2 & t & Hw2 & _ & Hn). exists w2, t.
  split; [|done]. unfold write_text. by rewrite (bind_ok _ _ _ _ _ Hw1).
Qed.

Lemma update_state_written b ts n w :
  one_mount (mounts w) →
  (∀ k d t, node_at w (take k (parent STATE_FILE)) ≠ Some (File d t)) → node_at w STATE_FILE ≠ Some Dir →
  ∃ w' t, update_state b (isoformat <$> ts) n w = (Ok tt, w') ∧
    node_at w' STATE_FILE = Some (File (encode (dumps_indent 0 (JObj
      (state_members b ts n (localtime (clock (ticks w))))))) t).
Proof.
  intros Hone Hdirs Hfile. unfold update_state.
  rewrite (bind_ok datetime_now _ w (localtime (clock (ticks w))) (tick w) eq_refl). cbv zeta.
  destruct (makedirs_q no_fault (parent STATE_FILE) (tick w) Hdirs) as [([] & w1 & Hw1) Hready].
  rewrite Hw1 in Hready. cbn [snd] in Hready.
  assert (writable_at w1 STATE_FILE) as Hwa.
  { split; [|intros _; by apply dir_ready_self].
    intros Hd. apply Hfile. rewrite <-node_at_tick.
    pose proof (makedirs_node (parent STATE_FILE) STATE_FILE (tick w) Hone) as Hm.
    rewrite Hw1 in Hm. rewrite <-Hm; [done|]. by apply (bool_decide_unpack _). }
  destruct (write_text_written STATE_FILE (dumps_indent 0 (state_json b (isoformat <$> ts) n
    (isoformat (localtime (clock (ticks w)))))) w1 Hwa) as (w2 & t & Hw2 & Hn).
  exists w2, t. split; [|exact Hn]. unfold try_except. rewrite (bind_ok _ _ _ _ _ Hw1). by rewrite Hw2.
Qed.

(** C19: what the hot-swap service writes to its state file, the console reads:
    when no call fails and no other kind of node is in the way, the dictionary
    [read_hotswap_state] returns after [update_state] has the four keys with
    the values that were stored. *)
Theorem state_round_trip b ts n w :
  environ "HOTSWAP_STATE" = None → one_mount (mounts w) →
  (∀ k d t, node_at w (take k (parent STATE_FILE)) ≠ Some (File d t)) → node_at w STATE_FILE ≠ Some Dir →
  (read_hotswap_state (update_state b (isoformat <$> ts) n w).2).1 =
    Ok (YMap [("drive_present", YBool b);
              ("last_export_ts", match ts with Some t => YStr (isoformat t) | None => YNull end);
              ("total_exported", YInt n);
              ("updated", YStr (isoformat (localtime (clock (ticks w)))))]).
Proof.
  intros Henv Hone Hdirs Hfile.
  destruct (update_state_written b ts n w Hone Hdirs Hfile) as (w' & t & -> & Hn). cbn [snd].
  unfold read_hotswap_state, HOTSWAP_STATE, getenv. rewrite Henv. cbn [default].
  change (to_path "/var/log/seer/hotswap_state.json") with STATE_FILE. unfold try_except.
  rewrite (bind_ok _ _ _ _ _ (open_read_q no_fault _ _ _ _ Hn)).
  rewrite dumps_indent_text by (apply state_members_flat || done).
  rewrite read_text_ascii.
  2: { apply over_dict_text; [intros c; lia|by repeat constructor..|apply state_members_flat]. }
  rewrite <-dumps_indent_text by (apply state_members_flat || done).
  unfold mbind, io_bind, lift_res. rewrite loads_dumps_indent; [|apply state_members_flat| |done].
  - cbn. by destruct ts.
  - by apply (bool_decide_unpack _).
Qed.
End State.

(** ** Mounting *)

(** A line of the block device listing that may be mounted: a whole disk that
    is not the system disk and is not mounted. *)
Record mountable (line : string) (d : dev) : Prop := {
  m_fields : ∃ sz rm rest, split_ws line = dev_name d :: sz :: "disk" :: rm :: rest;
  m_not_system : startswith "sda" (dev_name d) = false;
  m_not_mounted : (mount_fields (split_ws line)).1 = "";
  m_priority : (0 < priority d)%Z;
}.

Lemma parse_dev_mountable line d : parse_dev line = Some d → mountable line d.
Proof.
  unfold parse_dev. intros Hp. destruct (split_ws line) as [|name [|sz [|ty [|rm rest]]]] eqn:Hs; try done.
  rewrite <-Hs in Hp. destruct (mount_fields (split_ws line)) as [mp fst] eqn:Hm.
  case_bool_decide as Hmp; [|done]. cbn [negb] in Hp.
  destruct (startswith "sda" name) eqn:Hsda; [done|].
  case_bool_decide as Hty; [|done]. cbn [negb] in Hp. subst.
  destruct (Z.ltb_spec 0 (priority_of name rm fst (if isdigit sz then default 0%Z (py_int sz) else 0%Z))); [|done].
  injection Hp as <-. split; cbn; [rewrite Hs; eauto|done|by rewrite Hm|done].
Qed.

Lemma better_total a b : better a b = false → better b a = true.
Proof. unfold better. repeat case_bool_decide; lia. Qed.

#[local] Instance better_trans : Transitive (λ a b, better a b).
Proof.
  intros a b c. unfold better. rewrite !Is_true_true. intros Hab Hbc.
  repeat case_bool_decide; lia.
Qed.

(** [d] has a higher priority than [d'], or the same and is at least as large. *)
Definition ranks (d d' : dev) : Prop :=
  (priority d' < priority d)%Z ∨ (priority d' = priority d ∧ size_ d' ≤ size_ d)%Z.

Lemma better_ranks d d' : better d d' = true ↔ ranks d d'.
Proof.
  unfold better, ranks. rewrite orb_true_iff, andb_true_iff, bool_decide_eq_true, Z.ltb_lt, Z.leb_le.
  by rewrite (eq_comm (priority d)).
Qed.

(** The device the console should mount, from the text of the listing: the
    candidate of a mountable line that no candidate beats in priority or, at
    equal priority, in size; of several such the first. *)
Definition best_of (out : string) (d : dev) : Prop :=
  (∃ line, line ∈ splitlines out ∧ parse_dev line = Some d ∧ mountable line d) ∧
  (∀ d', d' ∈ find_devs out → ranks d d') ∧
  ∃ l1 l2, find_devs out = l1 ++ d :: l2 ∧ ∀ d', d' ∈ l1 → ¬ ranks d' d.

Lemma best_spec out d l : sort_by better (find_devs out) = d :: l → best_of out d.
Proof.
  intros Hs. destruct (sort_by_head better better_total _ _ _ Hs) as (l1 & l2 & Hl & H1 & H2). split_and!.
  - assert (d ∈ find_devs out) as Hd by (rewrite Hl; apply elem_of_app; right; left).
    apply list_elem_of_omap in Hd as (line & Hline & Hp). exists line. split_and!; [done|done|].
    by apply parse_dev_mountable.
  - intros d' Hd'. destruct (H2 d' Hd') as [->|?]; [by right|by apply better_ranks].
  - exists l1, l2. split; [done|]. intros d' Hd' Hr%better_ranks. by rewrite H1 in Hr.
Qed.

Definition LSBLK : list string := ["lsblk"; "-nrbo"; "NAME,SIZE,TYPE,RM,MOUNTPOINT,FSTYPE"].

Section Toggle.
Context {E : Env} {Y : Yaml} {Sh : Shell}.
Context (exec_silent : ∀ n a w, trace (exec n a w).2 = trace w).

(** A command that is no mount command. *)
Definition no_mount (e : event) : Prop := ∀ dv tg, e ≠ Ran ["sudo"; "mount"; dv; tg].
(** A mount command for [dv] at [tg]. *)
Definition mount_only (dv tg : string) (e : event) : Prop :=
  ∀ dv' tg', e = Ran ["sudo"; "mount"; dv'; tg'] → dv' = dv ∧ tg' = tg.

Lemma run_no_mount argv : take 2 argv ≠ ["sudo"; "mount"] → only (emits no_mount) (run argv).
Proof. intros Hargv. apply run_emits; [done|]. intros dv tg [= ->]. by destruct Hargv. Qed.
Lemma run_mount_only dv tg argv : take 2 argv ≠ ["sudo"; "mount"] → only (emits (mount_only dv tg)) (run argv).
Proof. intros Hargv. apply run_emits; [done|]. intros dv' tg' [= ->]. by destruct Hargv. Qed.
#[local] Hint Extern 1 (only (emits no_mount) (run _)) => by apply run_no_mount : io.
#[local] Hint Extern 1 (only (emits (mount_only _ _)) (run _)) => by apply run_mount_only : io.

Lemma mount_device_only dv tg : only (emits (mount_only dv tg)) (mount_device dv tg).
Proof.
  unfold mount_device.
  assert (only (emits (mount_only dv tg)) (run ["sudo"; "mount"; dv; tg])) as Hrun.
  { apply run_emits; [done|]. by intros dv' tg' [= <- <-]. }
  repeat first [exact Hrun | only_step].
Qed.

Lemma mount_target_no_mount : only (emits no_mount) mount_target.
Proof. unfold mount_target, read_cfg. solve_only. Qed.
Lemma unmount_no_mount tg : only (emits no_mount) (unmount tg).
Proof. unfold unmount. solve_only. Qed.

(** An event of the whole run is one of its first part or one of the rest. *)
Lemma emitted_split P e w w1 w' :
  emits P w w1 → (∃ l, trace w' = trace w1 ++ l) → emitted e w w' → P e ∨ emitted e w1 w'.
Proof.
  intros (l1 & H1 & HP) (l2 & H2) (l & Hl & He). rewrite H2, H1, <-(assoc_L (++)) in Hl.
  apply app_inv_head in Hl as <-. apply elem_of_app in He as [He|He].
  - left. by eapply Forall_forall in HP.
  - right. by exists l2.
Qed.

Lemma emits_app P w w' : emits P w w' → ∃ l, trace w' = trace w ++ l.
Proof. intros (l & Hl & _). by exists l. Qed.

End Toggle.

(** ** Witnesses *)

Lemma state_round_trip_witness :
  (read_hotswap_state (E := quiet)
     (update_state (E := quiet) true (isoformat <$> Some noon_tm) 2 (no_drive [])).2).1 =
    Ok (YMap [("drive_present", YBool true); ("last_export_ts", YStr "2025-10-14T12:00:00");
              ("total_exported", YInt 2); ("updated", YStr "2025-10-14T12:00:00")]).
Proof.
  apply (state_round_trip (E := quiet)); [done|done|by_computation| |by_computation].
  apply way_check. vm_compute. reflexivity.
Defined.

(** The disk [/dev/sde] is there. *)
Definition with_devices : world := no_drive [(["dev"; "sde"], File [] 0)].

