(* ===== verification/HotswapRecords.v ===== *)
(** * The records on the drive

    Every line of the transfer log a batch leaves on an empty drive is JSON and
    reads back as the entry of one exported file. *)
From S2P Require Import Prelude Text Os TextFacts OsFacts OsQuiet PyNum Config Json JsonFacts Sha256 Scenario.
From S2P Require Import Hotswap HotswapFacts HotswapBatch ConsoleFacts.
From Stdlib Require Import Ascii.

(** ** Lines *)

(** No line ends inside the text. *)
Definition inline (s : string) : Prop := over (λ c, is_boundary c = false) s.

Lemma printable_inline c : (32 ≤ code c ∧ code c ≤ 126)%Z → is_boundary c = false.
Proof. intros Hc. unfold is_boundary. apply bool_decide_eq_false. lia. Qed.

Lemma split_bounds_line l cur r :
  Forall (λ c, is_boundary c = false) l →
  split_bounds cur (l ++ chars nl ++ r) = (reverse cur ++ l) :: split_bounds [] r.
Proof.
  intros Hl. revert cur. induction Hl as [|c l Hc Hl IH]; intros cur; cbn [app split_bounds].
  - rewrite app_nil_r. change (is_boundary (ascii_of_N 10)) with true. cbv iota. f_equal. by destruct r.
  - rewrite Hc, IH. f_equal. rewrite reverse_cons, <-(assoc_L (++)). done.
Qed.

Lemma splitlines_lines ls :
  Forall inline ls → splitlines (join "" ((λ s, s +:+ nl) <$> ls)) = ls.
Proof.
  intros Hls. unfold splitlines. assert (chars (join "" ((λ s, s +:+ nl) <$> ls)) =
    mjoin ((λ s, chars s ++ chars nl) <$> ls)) as ->.
  { clear. induction ls as [|s ls IH]; [done|]. csimpl. destruct ls as [|s' ls]; csimpl in *.
    - by rewrite chars_app, app_nil_r.
    - rewrite !chars_app. rewrite IH. by rewrite app_nil_l. }
  induction Hls as [|s ls Hs Hls IH]; [done|].
  change (mjoin ((λ s, chars s ++ chars nl) <$> s :: ls))
    with ((chars s ++ chars nl) ++ mjoin ((λ s, chars s ++ chars nl) <$> ls)).
  rewrite <-(assoc_L (++)), split_bounds_line by done.
  rewrite fmap_cons, IH. f_equal. apply of_chars_chars.
Qed.

(** ** Plain texts *)

Lemma plain_show_path p : Forall plain p → plain (show_path p).
Proof.
  assert (plain "/" ∧ plain "") as [H1 H2] by by repeat constructor.
  intros Hp. destruct p as [|c p]; [done|]. unfold show_path. induction Hp as [|c' p' Hc _ IH]; [done|].
  cbn [foldr]. apply plain_app; [done|by apply plain_app].
Qed.

Lemma plain_fmt_ymd t : plain (fmt_ymd t).
Proof. unfold fmt_ymd. auto using plain_app, plain_zpad. Qed.

Lemma hex_digit_plain z : (0 ≤ z < 16)%Z → plain_char (hex_digit z) = true.
Proof.
  intros Hz. assert (forallb (λ z, plain_char (hex_digit z)) (seqZ 0 16) = true) as Hall by (vm_compute; reflexivity).
  rewrite forallb_forall in Hall. apply Hall, list_elem_of_In, elem_of_seqZ. lia.
Qed.

Lemma plain_sha256 d : plain (sha256 d).
Proof.
  assert (∀ z, plain (hex_word z)) as Hw.
  { intros z. unfold plain, hex_word. rewrite chars_of_chars. apply Forall_fmap, Forall_true. intros i.
    apply hex_digit_plain. change 15%Z with (Z.ones 4). rewrite Z.land_ones by lia. apply Z.mod_pos_bound. lia. }
  unfold sha256, hexdigest. cbv zeta. auto 10 using plain_app.
Qed.

Lemma plain_take n s : plain s → plain (str_take n s).
Proof. unfold plain, str_take. rewrite chars_of_chars. apply Forall_take. Qed.

(** ** The transfer log *)

Section Log.
Context {E : Env}.

(** What a reader gets from the line of the exported file [m] with contents [d]. *)
Definition entry_dict (B D : path) (k : nat) (m : string) (d : bytes) : yval :=
  YMap [("ts", YStr (isoformat (localtime (clock k)))); ("hostname", YStr nodename);
        ("src", YStr (show_path (B ++ [m]))); ("dst", YStr (show_path (D ++ [m])));
        ("size", YInt 0); ("sha256", YStr (str_take 16 (sha256 d))); ("result", YStr "OK")].

Lemma entry_line B D k m d :
  Forall plain (B ++ [m]) → Forall plain (D ++ [m]) → plain nodename →
  loads (dumps (ok_entry B D k m d)) = Ok (entry_dict B D k m d) ∧ inline (dumps (ok_entry B D k m d)).
Proof.
  intros HB HD Hhost. unfold ok_entry. match goal with |- context [JObj ?l] => set (ms := l) end.
  assert (flat_members ms) as Hflat.
  { pose proof (plain_isoformat (localtime (clock k))). pose proof (plain_show_path _ HB).
    pose proof (plain_show_path _ HD). pose proof (plain_take 16 _ (plain_sha256 d)).
    assert (plain "OK") by by repeat constructor.
    repeat (apply Forall_cons; split; [split; [by repeat constructor|done]|]). constructor. }
  split.
  - rewrite loads_dumps; [reflexivity|done|by apply (bool_decide_unpack _)|done].
  - rewrite dumps_text. apply over_dict_text; [apply printable_inline|by repeat constructor..|done].
Qed.
End Log.

(** C34.  The audit trail can be read by a program: when no call fails and the
    names are plain ASCII, the transfer log that a batch starts on a drive has
    one line for each exported file, in the order of the batch, and [json.loads]
    makes of it the dictionary with time, host, source, destination, the first
    sixteen digits of the file's SHA-256 digest and the result OK (and the size
    0: that of the source, which has gone). *)
Theorem transfer_log_reads_back {E : Env} {Y : Yaml} (B root : path) (r : Z) w :
  (∀ n, fault n = None) → (∀ n b, bitrot n b = b) →
  export_layout (mounts w) B root → one_mount (mounts w) → node_at w B = Some Dir →
  (0 < r ≤ MAX_ROTATE)%Z →
  (∀ n, fnmatch n "*.pcap*" = true → node_at w (B ++ [n]) ≠ Some Dir) →
  (∀ n d t, node_at w (B ++ [n]) = Some (File d t) → settled r t ∧ plain n) →
  drive_ready root w → node_at w (root ++ ["TRANSFER.LOG"]) = None →
  Forall plain B → Forall plain root → plain nodename →
  ∃ w' l i, export_batch B root (YInt r) w = (Ok (Z.of_nat (length l), 0%Z), w') ∧
    (∀ n d t, (n, (d, t)) ∈ l ↔ fnmatch n "*.pcap*" = true ∧ node_at w (B ++ [n]) = Some (File d t)) ∧
    (l ≠ [] → ∃ text t, node_at w' (root ++ ["TRANSFER.LOG"]) = Some (File (encode text) t) ∧
       Forall2 (λ f line, ∃ k, loads line =
           Ok (entry_dict B (root ++ ["pcap"; fmt_ymd (localtime (clock i))]) k f.1 f.2.1))
         l (splitlines text)).
Proof.
  intros Hq Hb HL Hone Hdir Hr Hnodir Hset Hdrive Hnolog HpB Hproot Hhost.
  destruct (export_batch_q B root r w Hq Hb HL Hone Hdir Hr Hnodir (λ n d t Hn, proj1 (Hset n d t Hn)) Hdrive)
    as (w' & l & i & Hrun & _ & Hl & _ & Hrec).
  exists w', l, i. split_and!; [done|done|]. intros Hne.
  destruct (Hrec Hne) as (now & t & entries & t' & _ & Hent & Hlog). unfold contents in Hlog. rewrite Hnolog in Hlog.
  exists (join "" ((λ e, dumps e +:+ nl) <$> entries)), t'. split; [exact Hlog|].
  set (D := root ++ ["pcap"; fmt_ymd (localtime (clock i))]) in *.
  assert (Forall plain D) as HpD.
  { apply Forall_app. split; [done|]. repeat constructor; apply plain_fmt_ymd. }
  assert (Forall2 (λ f e, (∃ k, loads (dumps e) = Ok (entry_dict B D k f.1 f.2.1)) ∧ inline (dumps e)) l entries) as Hboth.
  { assert (Forall (λ f : string * (bytes * Z), plain f.1) l) as Hpl.
    { apply Forall_forall. intros [n [d t0]] Hin. apply Hl in Hin as [_ Hn]. by apply (Hset n d t0). }
    clear -Hent Hpl HpB HpD Hhost. induction Hent as [|f e l es [k ->] _ IH]; [constructor|].
    apply Forall_cons in Hpl as [Hf Hpl]. constructor; [|by apply IH].
    destruct (entry_line B D k f.1 f.2.1) as [Hload Hin]; [by apply Forall_app; repeat constructor..|done|].
    split; [by exists k|done]. }
  change (λ e, dumps e +:+ nl) with ((λ s, s +:+ nl) ∘ dumps). rewrite list_fmap_compose, splitlines_lines.
  - apply Forall2_fmap_r. eapply Forall2_impl; [exact Hboth|]. by intros f e [Hk _].
  - apply Forall_fmap. eapply Forall2_Forall_r; [exact Hboth|]. apply Forall_true. by intros f e [_ He].
Qed.

(** ** The theorem at work on a sensor *)

#[local] Instance plain_dec s : Decision (plain s).
Proof. unfold plain. apply _. Defined.

Lemma transfer_log_reads_back_witness :
  ∃ w' l i, export_batch (E:=quiet) backlog drive (YInt 20) (with_drive backlog_two) =
      (Ok (Z.of_nat (length l), 0%Z), w') ∧
    (∀ n d t, (n, (d, t)) ∈ l ↔ fnmatch n "*.pcap*" = true ∧
       node_at (with_drive backlog_two) (backlog ++ [n]) = Some (File d t)) ∧
    (l ≠ [] → ∃ text t, node_at w' (drive ++ ["TRANSFER.LOG"]) = Some (File (encode text) t) ∧
       Forall2 (λ f line, ∃ k, loads line = Ok (entry_dict (E:=quiet) backlog
           (drive ++ ["pcap"; fmt_ymd (localtime (Env:=quiet) (clock (Env:=quiet) i))]) k f.1 f.2.1))
         l (splitlines text)).
Proof.
  apply (transfer_log_reads_back (E:=quiet) backlog drive 20 (with_drive backlog_two)); [done|done|by_computation|by_computation
    |reflexivity|unfold MAX_ROTATE; lia| | |exact drive_ready_two|by rewrite drive_node|by_computation..].
  - intros n _ Hn. by destruct (backlog_two_nodes n Dir Hn) as [?|?].
  - intros n d t Hn. split.
    + intros k. destruct (backlog_two_nodes n _ Hn) as [Heq|Heq]; injection Heq as _ ->; vm_compute; done.
    + assert (n ∈ children (with_drive backlog_two) backlog) as Hin
        by (apply elem_of_children_node; [by_computation|by rewrite Hn]).
      assert (Forall plain (children (with_drive backlog_two) backlog)) as Hall by by_computation.
      rewrite Forall_forall in Hall. by apply Hall.
Defined.
