(* ===== verification/ConsoleStats.v ===== *)
(** * The log statistics of the console

    [json_stats] goes through three overlapping recursive patterns; each log
    file below the spool directory counts once. *)
From S2P Require Import Prelude Text Os OsFacts OsQuiet WalkFacts PyNum Config Json Scenario Console.

(** ** Specification *)

Definition PATTERNS : list string := ["*.json*"; "*.log"; "*.log.json*"].

(** A regular file below [spool] with a name of one of the patterns; neither it
    nor a directory on the way is hidden. *)
Definition spooled (w : world) (spool p : path) : Prop :=
  ∃ comps n pat d t, p = spool ++ comps ++ [n] ∧ dirs_along w spool comps ∧
    node_at w p = Some (File d t) ∧ pat ∈ PATTERNS ∧ fnmatch n pat = true ∧ visible n.

Definition size_at (w : world) (p : path) : Z :=
  match node_at w p with Some n => st_size n | None => 0 end.
Definition mtime_at (w : world) (p : path) : Z :=
  match node_at w p with Some n => st_mtime n | None => 0 end.
Definition total_size (w : world) (l : list path) : Z := foldr (λ p acc, size_at w p + acc)%Z 0%Z l.
Definition latest (w : world) (l : list path) : Z := foldr (λ p acc, Z.max (mtime_at w p) acc) 0%Z l.

Definition is_file_in (w : world) (p : path) : Prop := ∃ d t, node_at w p = Some (File d t).

Section Stats.
Context {E : Env} {Y : Yaml} {Sh : Shell} (no_fault : ∀ n, fault n = None).

(** The statistics of the files seen so far. *)
Definition stats_of (w : world) (l : list path) : jstats := JStats l (total_size w l) (latest w l).

Lemma json_file_q w w0 l p :
  same_disk w w0 → NoDup l → is_Some (node_at w p) →
  ∃ l' w', json_file (stats_of w l) p w0 = (Ok (stats_of w l'), w') ∧ same_disk w w' ∧ NoDup l' ∧
    ∀ q, q ∈ l' ↔ q ∈ l ∨ q = p ∧ is_file_in w q.
Proof.
  intros Hs Hnd [n Hn]. unfold json_file. rewrite (bind_ok _ _ _ _ _ (os_isdir_q no_fault _ _)).
  rewrite (same_disk_node w w0), Hn by done.
  destruct (is_dir n || bool_decide (p ∈ seen (stats_of w l))) eqn:Hskip.
  - exists l, (tick w0). split_and!; [done|by etrans|done|]. intros q. split; [by left|].
    intros [?|[-> (d & t & Hf)]]; [done|]. rewrite Hn in Hf. injection Hf as ->. cbn in Hskip.
    by apply bool_decide_eq_true in Hskip.
  - apply orb_false_iff in Hskip as [Hdir Hin%bool_decide_eq_false].
    exists (p :: l), (tick (tick w0)). cbv zeta. unfold try_except.
    rewrite (bind_ok _ _ (tick w0) n (tick (tick w0)))
      by (rewrite (stat_q no_fault), node_at_tick, (same_disk_node w w0), Hn; done).
    split_and!; [|done|by constructor|].
    + assert (size_at w p = st_size n ∧ mtime_at w p = st_mtime n) as [Hsz Hmt]
        by (unfold size_at, mtime_at; by rewrite Hn).
      unfold mret, io_ret, stats_of. cbn [seen total last_m total_size latest foldr].
      by rewrite Hsz, Hmt, (Z.add_comm (st_size n)), (Z.max_comm (st_mtime n)).
    + intros q. rewrite elem_of_cons. split; [|naive_solver]. intros [->|]; [right|by left].
      split; [done|]. unfold is_file_in. destruct n as [d t|]; [by exists d, t|done].
Qed.

Lemma json_files_q w ps : ∀ w0 l,
  same_disk w w0 → NoDup l → Forall (λ p, is_Some (node_at w p)) ps →
  ∃ l' w', json_files ps (stats_of w l) w0 = (Ok (stats_of w l'), w') ∧ same_disk w w' ∧ NoDup l' ∧
    ∀ q, q ∈ l' ↔ q ∈ l ∨ q ∈ ps ∧ is_file_in w q.
Proof.
  induction ps as [|p ps IH]; intros w0 l Hs Hnd Hps; cbn [json_files].
  - exists l, w0. split_and!; try done. intros q. split; [by left|]. by intros [|[?%elem_of_nil _]].
  - apply Forall_cons in Hps as [Hp Hps].
    destruct (json_file_q w w0 l p Hs Hnd Hp) as (l1 & w1 & H1 & Hs1 & Hnd1 & Hl1).
    destruct (IH w1 l1 Hs1 Hnd1 Hps) as (l2 & w2 & H2 & Hs2 & Hnd2 & Hl2).
    exists l2, w2. rewrite (bind_ok _ _ _ _ _ H1). split_and!; try done. intros q.
    rewrite Hl2, Hl1, elem_of_cons. naive_solver.
Qed.

(** The files below [spool] that match one of [pats]. *)
Definition found (w : world) (spool : path) (pats : list string) (p : path) : Prop :=
  ∃ comps n pat, p = spool ++ comps ++ [n] ∧ dirs_along w spool comps ∧
    pat ∈ pats ∧ fnmatch n pat = true ∧ visible n ∧ is_file_in w p.

Lemma json_patterns_q w spool pats : ∀ w0 l,
  plain_dir (mounts w) spool → same_disk w w0 → NoDup l →
  ∃ l' w', json_patterns spool pats (stats_of w l) w0 = (Ok (stats_of w l'), w') ∧ same_disk w w' ∧
    NoDup l' ∧ ∀ q, q ∈ l' ↔ q ∈ l ∨ found w spool pats q.
Proof.
  induction pats as [|pat pats IH]; intros w0 l Hd Hs Hnd; cbn [json_patterns].
  - exists l, w0. split_and!; try done. intros q. split; [by left|].
    by intros [|(? & ? & ? & _ & _ & ?%elem_of_nil & _)].
  - destruct (glob_rec_q no_fault spool pat w0) as (ps & w1 & H1 & Hs1 & Hps).
    { by destruct Hs as [_ ->]. }
    assert (same_disk w w1) as Hw1 by by etrans.
    destruct (json_files_q w ps w1 l Hw1 Hnd) as (l1 & w2 & H2 & Hs2 & Hnd1 & Hl1).
    { apply Forall_forall. intros p Hp. apply Hps in Hp as (? & ? & _ & _ & Hn & _).
      by rewrite (same_disk_node w w0) in Hn. }
    destruct (IH w2 l1 Hd Hs2 Hnd1) as (l2 & w3 & H3 & Hs3 & Hnd2 & Hl2).
    exists l2, w3. rewrite (bind_ok _ _ _ _ _ H1), (bind_ok _ _ _ _ _ H2). split_and!; try done.
    intros q. rewrite Hl2, Hl1, Hps. unfold found. split.
    + intros [[|[(comps & n & -> & Hal & _ & Hm & Hv) Hf]]|(comps & n & pat' & -> & Hal & Hin & Hrest)];
        [by left|right..].
      * exists comps, n, pat. rewrite (dirs_along_same w w0) in Hal by done. split_and!; try done. by left.
      * exists comps, n, pat'. split_and!; try apply Hrest; try done. by right.
    + intros [|(comps & n & pat' & -> & Hal & Hin & Hm & Hv & Hf)]; [by left; left|].
      apply elem_of_cons in Hin as [->|Hin].
      * left. right. split; [|done]. exists comps, n.
        rewrite (dirs_along_same w w0), (same_disk_node w w0) by done.
        destruct Hf as (d & t & Hf). rewrite Hf. by split_and!.
      * right. by exists comps, n, pat'.
Qed.

Lemma json_stats_q w w0 spool :
  plain_dir (mounts w) (to_path spool) → same_disk w w0 →
  ∃ l w', json_stats (YStr spool) w0 = (Ok (Z.of_nat (length l), total_size w l, latest w l), w') ∧
    same_disk w w' ∧ NoDup l ∧ ∀ p, p ∈ l ↔ spooled w (to_path spool) p.
Proof.
  intros Hd Hs. destruct (json_patterns_q w (to_path spool) PATTERNS w0 [] Hd Hs) as
    (l & w' & Hw & Hs' & Hnd & Hl); [constructor|].
  exists l, w'. split_and!; [|done|done|].
  - unfold json_stats, try_except. rewrite (bind_ok (lift_res (ystr_path (YStr spool))) _ w0 (to_path spool) w0 eq_refl).
    change (JStats [] 0 0) with (stats_of w []). by rewrite (bind_ok _ _ _ _ _ Hw).
  - intros p. rewrite Hl. split.
    + intros [?%elem_of_nil|(comps & n & pat & -> & Hal & Hin & Hm & Hv & d & t & Hf)]; [done|].
      by exists comps, n, pat, d, t.
    + intros (comps & n & pat & d & t & -> & Hal & Hf & Hin & Hm & Hv). right.
      exists comps, n, pat. split_and!; try done. by exists d, t.
Qed.

(** C21: when no call fails and nothing is mounted below the spool directory,
    [json_stats] returns the number, the total size and the latest time of the
    log files below it: each regular file, at any depth, with a name of one of
    the three patterns and no hidden component counts exactly once, although
    the patterns overlap. *)
Theorem json_stats_counts w spool :
  plain_dir (mounts w) (to_path spool) →
  ∃ l, NoDup l ∧ (∀ p, p ∈ l ↔ spooled w (to_path spool) p) ∧
    (json_stats (YStr spool) w).1 = Ok (Z.of_nat (length l), total_size w l, latest w l).
Proof.
  intros Hd. destruct (json_stats_q w w spool Hd (reflexivity w)) as (l & w' & Hw & _ & Hnd & Hl).
  exists l. split_and!; [done|done|by rewrite Hw].
Qed.
End Stats.

(** ** Witness *)

Definition spool_dir : path := ["var"; "seer"; "json_spool"].

(** Two log files, one in a directory of the day, and files that do not count. *)
Definition spool_files : list (path * node) :=
  [(spool_dir, Dir);
   (spool_dir ++ ["conn.log"], File (encode "four") (5 * second));
   (spool_dir ++ ["2025-10-14"], Dir);
   (spool_dir ++ ["2025-10-14"; "dns.log.json"], File (encode "sixsix") (7 * second));
   (spool_dir ++ [".state"], Dir);
   (spool_dir ++ [".state"; "x.json"], File (encode "hidden") (9 * second));
   (spool_dir ++ ["notes.txt"], File (encode "other") (9 * second))].

Lemma json_stats_counts_witness :
  (∃ l, NoDup l ∧ (∀ p, p ∈ l ↔ spooled (no_drive spool_files) spool_dir p) ∧
    (json_stats (E := quiet) (YStr "/var/seer/json_spool") (no_drive spool_files)).1 =
      Ok (Z.of_nat (length l), total_size (no_drive spool_files) l, latest (no_drive spool_files) l)) ∧
  (json_stats (E := quiet) (YStr "/var/seer/json_spool") (no_drive spool_files)).1 = Ok (2, 10, 7 * second)%Z.
Proof.
  split; [|vm_compute; reflexivity].
  apply (json_stats_counts (E := quiet) (λ _, eq_refl) (no_drive spool_files) "/var/seer/json_spool").
  by_computation.
Defined.
