(* ===== verification/ConsoleStatus.v ===== *)
(** * The status the console reports

    What [collect_status] returns is what is on the disk: the capture files of
    the three directories, the log files, and the state the hot-swap service
    has written. *)
From S2P Require Import Prelude Text Os OsFacts OsQuiet WalkFacts PyNum Config Json Scenario.
From S2P Require Import Mover Hotswap Wizard WizardFacts Console ConsoleStats.

(** [k] is the number of visible capture files of the directory [d]. *)
Definition counted (w : world) (d : path) (k : Z) : Prop :=
  ∃ names, NoDup names ∧ k = Z.of_nat (length names) ∧
    ∀ n, n ∈ names ↔ node_at w d = Some Dir ∧ is_Some (node_at w (d ++ [n])) ∧
                     fnmatch n "*.pcap*" = true ∧ visible n.

(** The programs the console asks for a status change nothing on the disk. *)
Definition only_reports {E : Env} : Prop := ∀ n argv w, same_disk w (exec n argv w).2.

Section Status.
Context {E : Env} {Y : Yaml} {Sh : Shell} (no_fault : ∀ n, fault n = None) (reports : only_reports).

(** A listing has no name twice. *)
Lemma glob_glob_NoDup d pat w : wp (glob_glob d pat) (λ r _, ∀ l, r = Ok l → NoDup l) w.
Proof using.
  unfold glob_glob. apply wp_bind, wp_try. eapply wp_mono; [apply wp_scandir_names|].
  assert (∀ names, NoDup names → NoDup ((λ n, d ++ [n]) <$>
    List.filter (λ n, fnmatch n pat && negb (startswith "." n)) names)) as Hnd.
  { intros names Hn. apply NoDup_fmap_2; [intros x y Hxy; by apply app_inj_2 in Hxy as [_ [= ->]]|].
    by apply NoDup_ListNoDup, List.NoDup_filter, NoDup_ListNoDup. }
  intros [l|e] w1 Hl; [apply wp_ret; intros ? [= <-]; by apply Hnd, Hl|].
  destruct (is_OSError e); [|done]. apply wp_ret, wp_ret. intros l [= <-]. by apply (Hnd []), NoDup_nil.
Qed.

Lemma count_pcaps_q s w w0 :
  plain_dir (mounts w) (to_path s) → same_disk w w0 →
  ∃ k w', count_pcaps (YStr s) w0 = (Ok k, w') ∧ same_disk w w' ∧ counted w (to_path s) k.
Proof using no_fault.
  intros Hd Hs. destruct (glob_glob_q no_fault (to_path s) "*.pcap*" w0) as (l & w1 & Hw1 & Hs1 & Hl).
  { by destruct Hs as [_ ->]. }
  pose proof (wp_run _ _ _ _ _ Hw1 (glob_glob_NoDup _ _ _) l eq_refl) as Hnd.
  assert (∃ names, l = (λ n, to_path s ++ [n]) <$> names) as [names ->].
  { assert (Forall (λ p, ∃ n, p = to_path s ++ [n]) l) as Hall.
    { apply Forall_forall. intros p Hp. apply Hl in Hp as (n & -> & _). by exists n. }
    clear -Hall. induction Hall as [|p l [n ->] _ [names ->]]; [by exists []|by exists (n :: names)]. }
  exists (Z.of_nat (length names)), w1. split_and!; [|by etrans|].
  - unfold count_pcaps, try_except. rewrite (bind_ok (lift_res (ystr_path (YStr s))) _ w0 (to_path s) w0 eq_refl).
    rewrite (bind_ok _ _ _ _ _ Hw1), length_fmap. done.
  - exists names. split_and!; [by eapply NoDup_fmap_1|done|]. intros n. split.
    + intros Hn. destruct (Hl (to_path s ++ [n])) as [Hin _].
      destruct Hin as (m & Heq & Hrest); [apply list_elem_of_fmap; by exists n|].
      apply app_inj_2 in Heq as [_ [= <-]]; [|done]. by rewrite !(same_disk_node w w0) in Hrest.
    + intros Hrest. destruct (Hl (to_path s ++ [n])) as [_ Hin].
      destruct (proj1 (list_elem_of_fmap _ _ _) (Hin ltac:(exists n; by rewrite !(same_disk_node w w0)))) as (m & Heq & Hm).
      by apply app_inj_2 in Heq as [_ [= ->]].
Qed.

Lemma run_q argv w : ∃ r w', run argv w = (Ok r, w') ∧ same_disk w w'.
Proof using no_fault reports.
  unfold run. rewrite (bind_ok (emit _) _ w tt (emit_event (Ran argv) w) eq_refl).
  rewrite (bind_ok _ _ _ _ _ (syscall_q no_fault _ _ _)). unfold exec_proc.
  set (w1 := tick (emit_event (Ran argv) w)). pose proof (reports (ticks w1) argv w1) as Hs.
  destruct (exec (ticks w1) argv w1) as [r w2]. by exists r, (tick w2).
Qed.

Lemma is_active_q u w : ∃ s w', systemctl_is_active u w = (Ok s, w') ∧ same_disk w w'.
Proof using no_fault reports.
  unfold systemctl_is_active. case_bool_decide; [by eexists _, w|].
  destruct (run_q ["systemctl"; "is-active"; u] w) as (r & w1 & Hw1 & Hs1).
  rewrite (bind_ok _ _ _ _ _ Hw1). by eexists _, w1.
Qed.

Lemma timer_state_q w : ∃ s w', timer_state w = (Ok s, w') ∧ same_disk w w'.
Proof using no_fault reports. unfold timer_state. case_bool_decide; [by eexists _, w|apply is_active_q]. Qed.

(** The state of the hot-swap service, when its file holds a dictionary. *)
Lemma read_state_q b t text l w :
  node_at w (to_path HOTSWAP_STATE) = Some (File b t) → read_text b = Ok text → loads text = Ok (YMap l) →
  read_hotswap_state w = (Ok (YMap l), tick w).
Proof using no_fault.
  intros Hn Ht Hl. unfold read_hotswap_state, try_except.
  rewrite (bind_ok _ _ _ _ _ (open_read_q no_fault _ _ _ _ Hn)), Ht.
  rewrite (bind_ok (lift_res (Ok text)) _ _ text _ eq_refl), Hl. done.
Qed.

(** What the status must show of the world [w] with the answers [a] in the
    configuration and the entries [l] in the state file. *)
Record shows (w : world) (a : answers) (spool : string) (l : list (string * yval)) (s : status) : Prop := {
  sh_dirs : ring_dir s = YStr (a_ring a) ∧ dest_dir s = YStr (a_dest a) ∧ Console.backlog_dir s = YStr (a_backlog a);
  sh_ring : counted w (to_path (a_ring a)) (buff_count s);
  sh_dest : counted w (to_path (a_dest a)) (dest_count s);
  sh_back : counted w (to_path (a_backlog a)) (back_count s);
  sh_logs : ∃ files, NoDup files ∧ (∀ p, p ∈ files ↔ spooled w (to_path spool) p) ∧
    j_count s = Z.of_nat (length files) ∧ j_bytes s = total_size w files ∧ j_last s = latest w files;
  sh_drive : drive_present s = default (YBool false) (assoc "drive_present" l) ∧
    last_export_ts s = default YNull (assoc "last_export_ts" l) ∧
    Console.total_exported s = default (YInt 0) (assoc "total_exported" l);
}.

(** C33.  The status is the truth: when no call fails, the programs the console
    asks change nothing, the configuration is one of the wizard and the state
    file holds a dictionary, [collect_status] returns, the disk stays as it is,
    and the status has the number of visible capture files of ring, queue and
    backlog, number, size and latest time of the log files, and the drive
    information of the state file. *)
Theorem collect_status_shows g a spool b t b' t' text l w :
  node_at w CFG_PATH = Some (File b t) → safe_load b = Ok (config_of a) → JSON_SPOOL g = YStr spool →
  Forall (λ s, plain_dir (mounts w) (to_path s)) [a_ring a; a_dest a; a_backlog a; spool] →
  node_at w (to_path HOTSWAP_STATE) = Some (File b' t') → read_text b' = Ok text → loads text = Ok (YMap l) →
  ∃ s w', collect_status g w = (Ok s, w') ∧ same_disk w w' ∧ shows w a spool l s.
Proof using no_fault reports.
  intros Hcfg Hload Hg Hplain Hst Htext Hl. rewrite !Forall_cons in Hplain. destruct Hplain as (Hp1 & Hp2 & Hp3 & Hp4 & _).
  destruct (is_active_q (CAPTURE_SERVICE g) w) as (s1 & w1 & H1 & Hs1).
  destruct (is_active_q MOVER_SERVICE w1) as (s2 & w2 & H2 & Hs2).
  destruct (timer_state_q w2) as (s3 & w3 & H3 & Hs3).
  destruct (is_active_q HOTSWAP_SERVICE w3) as (s4 & w4 & H4 & Hs4).
  destruct (is_active_q ("seer-zeek@" +:+ status_iface g +:+ ".service") w4) as (s5 & w5 & H5 & Hs5).
  assert (same_disk w w5) as Hw5 by (do 4 (etrans; [eassumption|]); done).
  assert (read_cfg w5 = (Ok (config_of a), tick w5)) as H6.
  { unfold read_cfg, try_except. rewrite <-(same_disk_node w w5) in Hcfg by done.
    rewrite (bind_ok _ _ _ _ _ (open_read_q no_fault _ _ _ _ Hcfg)), Hload. done. }
  destruct (count_pcaps_q (a_ring a) w (tick w5) Hp1 Hw5) as (k1 & w6 & H7 & Hw6 & Hk1).
  destruct (count_pcaps_q (a_dest a) w w6 Hp2 Hw6) as (k2 & w7 & H8 & Hw7 & Hk2).
  destruct (count_pcaps_q (a_backlog a) w w7 Hp3 Hw7) as (k3 & w8 & H9 & Hw8 & Hk3).
  destruct (json_stats_q no_fault w w8 spool Hp4 Hw8) as (files & w9 & H10 & Hw9 & Hnd & Hfiles).
  rewrite <-(same_disk_node w w9) in Hst by done. pose proof (read_state_q b' t' text l w9 Hst Htext Hl) as H11.
  eexists _, (tick w9). split_and!; [|done|].
  - unfold collect_status. rewrite (bind_ok _ _ _ _ _ H1), (bind_ok _ _ _ _ _ H2), (bind_ok _ _ _ _ _ H3),
      (bind_ok _ _ _ _ _ H4), (bind_ok _ _ _ _ _ H5), (bind_ok _ _ _ _ _ H6).
    rewrite (bind_ok (lift_res (yget (config_of a) "ring_dir" _)) _ _ (YStr (a_ring a)) _ eq_refl).
    rewrite (bind_ok (lift_res (yget (config_of a) "dest_dir" _)) _ _ (YStr (a_dest a)) _ eq_refl).
    rewrite (bind_ok (lift_res (yget (config_of a) "backlog_dir" _)) _ _ (YStr (a_backlog a)) _ eq_refl).
    rewrite (bind_ok _ _ _ _ _ H7), (bind_ok _ _ _ _ _ H8), (bind_ok _ _ _ _ _ H9), Hg.
    rewrite (bind_ok _ _ _ _ _ H10), (bind_ok _ _ _ _ _ H11). reflexivity.
  - split; cbn; try done. by exists files.
Qed.
End Status.

(** ** The theorem at work on a sensor *)

Definition sensor_answers : answers :=
  Answers "enp2s0" 65535 20 4 42 (float_of_Z 1) 4 "/var/seer/pcap_ring" "/opt/seer/var/queue"
    "/opt/seer/var/backlog" "/var/seer/json_spool" "/var/log/seer/mover.log" 80 90.
Definition answers_yaml : Yaml := {|
  safe_load := λ _, Ok (config_of sensor_answers);
  safe_dump := λ _, encode "interface: enp2s0";
  show_other := λ _, "1.0";
|}.
Definition state_dict : list (string * json) := [("drive_present", JBool true); ("total_exported", JInt 5)].
Definition running_sensor : world :=
  no_drive ((CFG_PATH, File (encode "interface: enp2s0") 0) ::
            (STATE_FILE, File (encode (dumps (JObj state_dict))) 0) :: ring_four ++ backlog_two ++ spool_files).
Definition console_globals : globals :=
  Globals (float_of_Z 1) "seer-capture@enp2s0.service" (YStr "/var/seer/json_spool") (Some (YStr "enp2s0")) false.

Lemma collect_status_shows_witness :
  ∃ s w', collect_status (E:=quiet) (Y:=answers_yaml) console_globals running_sensor = (Ok s, w') ∧
    same_disk running_sensor w' ∧
    shows running_sensor sensor_answers "/var/seer/json_spool"
      [("drive_present", YBool true); ("total_exported", YInt 5)] s.
Proof.
  apply (collect_status_shows (E:=quiet) (Y:=answers_yaml) (λ _, eq_refl) (λ _ _ _, conj eq_refl eq_refl)
    console_globals sensor_answers "/var/seer/json_spool" (encode "interface: enp2s0") 0
    (encode (dumps (JObj state_dict))) 0 (dumps (JObj state_dict))).
  - vm_compute. reflexivity.
  - reflexivity.
  - reflexivity.
  - by_computation.
  - vm_compute. reflexivity.
  - vm_compute. reflexivity.
  - vm_compute. reflexivity.
Defined.
