(* ===== verification/ConsoleClear.v ===== *)
(** * Clearing the captures

    [act_clear] removes the capture files of the ring, the queue and the
    backlog, and nothing else. *)
From S2P Require Import Prelude Text Os OsFacts OsQuiet WalkFacts PyNum Config Scenario Console.

(** The place of a capture file of one of [dirs]. *)
Definition capture_in (dirs : list path) (mnt : gmap path mount) (k : key) : Prop :=
  ∃ d n, d ∈ dirs ∧ k = locate mnt (d ++ [n]) ∧ fnmatch n "*.pcap*" = true ∧ visible n.

(** Files only go: none is new or changed, and those that go are captures. *)
Definition thins (dirs : list path) : relation world := λ w w',
  mounts w' = mounts w ∧
  (∀ k f t, kget (fs w') k = Some (File f t) → kget (fs w) k = Some (File f t)) ∧
  (∀ k f t, kget (fs w) k = Some (File f t) →
    kget (fs w') k = Some (File f t) ∨ capture_in dirs (mounts w) k).

#[global] Instance thins_preorder dirs : PreOrder (thins dirs).
Proof.
  split; [intros w; split_and!; auto|].
  intros w1 w2 w3 (Hm1 & Hn1 & Hg1) (Hm2 & Hn2 & Hg2). split_and!; [congruence|auto|].
  intros k f t Hk. destruct (Hg1 _ _ _ Hk) as [Hk'|]; [|by right].
  rewrite <-Hm1. by apply Hg2.
Qed.

Lemma touches_thins dirs w w' : touches [] w w' → thins dirs w w'.
Proof.
  intros [Hm Hk]. assert (∀ k, outside_of (mounts w) [] k) as Hout by by intros k p ?%elem_of_nil.
  split_and!; [done|..]; intros k f t H; destruct (Hk k (Hout k)) as [Heq|[Hd1 Hd2]]; try congruence.
  left. congruence.
Qed.

Lemma thins_no_file dirs w w' p :
  thins dirs w w' → (∀ f t, node_at w p ≠ Some (File f t)) → ∀ f t, node_at w' p ≠ Some (File f t).
Proof. intros (Hm & Hn & _) Hp f t Hf. unfold node_at in *. rewrite Hm in Hf. by apply Hn in Hf; eapply Hp. Qed.

Section Clear.
Context {E : Env} {Y : Yaml} {Sh : Shell} (no_fault : ∀ n, fault n = None).

(** One file goes, or stays when it is no file. *)
Lemma clear_one_q dirs d n w :
  d ∈ dirs → fnmatch n "*.pcap*" = true → visible n →
  ∃ w', try_except (unlink (d ++ [n])) is_Exception (λ _, mret tt) w = (Ok tt, w') ∧ thins dirs w w' ∧
        ∀ f t, node_at w' (d ++ [n]) ≠ Some (File f t).
Proof.
  intros Hd Hn Hv. unfold try_except, unlink, mbind, io_bind, get. rewrite (syscall_q no_fault), node_at_tick.
  assert (thins dirs w (tick w)) as Htick by (apply touches_thins, same_disk_touches; done).
  destruct (node_at w (d ++ [n])) as [[f t|]|] eqn:Hnode; unfold os_error, raise; cbn [is_Exception];
    [|exists (tick w); split_and!; [done|done|intros ? ?; rewrite node_at_tick; congruence]..].
  exists (del_node (d ++ [n]) (tick w)). split_and!; [done| |].
  - split_and!; [done|..]; intros k f' t'; unfold del_node; cbn [fs set_fs mounts tick];
      unfold kget; destruct k.2 eqn:Hk2; try done.
    + by intros [_ ?]%lookup_delete_Some.
    + intros Hk. destruct (decide (k = locate (mounts w) (d ++ [n]))) as [->|Hne].
      * right. by exists d, n.
      * left. by rewrite lookup_delete_ne.
  - intros f' t'. unfold node_at, del_node. cbn [fs set_fs mounts tick]. unfold kget.
    destruct (locate (mounts w) (d ++ [n])).2 eqn:Hk2; [done|]. by rewrite lookup_delete_eq.
Qed.

Lemma clear_files_q dirs d l : ∀ w,
  d ∈ dirs → (∀ p, p ∈ l → ∃ n, p = d ++ [n] ∧ fnmatch n "*.pcap*" = true ∧ visible n) →
  ∃ w', forM_io (λ p, try_except (unlink p) is_Exception (λ _, mret tt)) l w = (Ok tt, w') ∧
        thins dirs w w' ∧ ∀ p f t, p ∈ l → node_at w' p ≠ Some (File f t).
Proof.
  induction l as [|p l IH]; intros w Hd Hl; cbn [forM_io].
  { exists w. split_and!; [done|done|]. by intros p f t ?%elem_of_nil. }
  destruct (Hl p) as (n & -> & Hn & Hv); [left|].
  destruct (clear_one_q dirs d n w Hd Hn Hv) as (w1 & H1 & Ht1 & Hp).
  destruct (IH w1 Hd) as (w2 & H2 & Ht2 & Hrest); [intros q Hq; apply Hl; by right|].
  exists w2. rewrite (bind_ok _ _ _ _ _ H1). split_and!; [done|by etrans|].
  intros q f t [->|Hq]%elem_of_cons; [by eapply thins_no_file|by apply Hrest].
Qed.

(** One directory. *)
Lemma clear_dir_q dirs s w :
  to_path s ∈ dirs → plain_dir (mounts w) (to_path s) →
  (∀ k f t, node_at w (take k (to_path s)) ≠ Some (File f t)) →
  ∃ w', clear_dir (YStr s) w = (Ok tt, w') ∧ thins dirs w w' ∧
    ∀ n f t, fnmatch n "*.pcap*" = true → visible n → node_at w' (to_path s ++ [n]) ≠ Some (File f t).
Proof.
  intros Hd Hplain Hway. unfold clear_dir.
  rewrite (bind_ok (lift_res (ystr_path (YStr s))) _ w (to_path s) w eq_refl).
  destruct (makedirs_q no_fault (to_path s) w Hway) as [([] & w1 & Hw1) Hready].
  pose proof (makedirs_touches [] (to_path s) w) as Ht1. rewrite Hw1 in Ht1, Hready. cbn [snd] in *.
  rewrite (bind_ok _ _ _ _ _ Hw1). assert (mounts w1 = mounts w) as Hm by apply Ht1.
  destruct (glob_glob_q no_fault (to_path s) "*.pcap*" w1) as (l & w2 & Hw2 & Hs2 & Hl); [by rewrite Hm|].
  rewrite (bind_ok _ _ _ _ _ Hw2).
  destruct (clear_files_q dirs (to_path s) l w2 Hd) as (w3 & Hw3 & Ht3 & Hnone).
  { intros p (n & -> & _ & _ & Hn & Hv)%Hl. eauto. }
  exists w3. split_and!; [done| |].
  - etrans; [by apply touches_thins|]. etrans; [|exact Ht3]. by apply touches_thins, same_disk_touches.
  - intros n f t Hn Hv Hf. assert (node_at w1 (to_path s ++ [n]) = Some (File f t)) as Hf1.
    { rewrite <-(same_disk_node w1 w2) by done. destruct Ht3 as (Hm3 & Hnew & _). unfold node_at in *.
      rewrite Hm3 in Hf. by apply Hnew. }
    apply (Hnone (to_path s ++ [n]) f t); [|done]. apply Hl. exists n.
    split_and!; try done. by apply dir_ready_self.
Qed.

Lemma clear_dirs_q dirs l : ∀ w,
  (∀ s, s ∈ l → to_path s ∈ dirs ∧ plain_dir (mounts w) (to_path s) ∧
     ∀ k f t, node_at w (take k (to_path s)) ≠ Some (File f t)) →
  ∃ w', forM_io clear_dir (YStr <$> l) w = (Ok tt, w') ∧ thins dirs w w' ∧
    ∀ s n f t, s ∈ l → fnmatch n "*.pcap*" = true → visible n →
      node_at w' (to_path s ++ [n]) ≠ Some (File f t).
Proof.
  induction l as [|s l IH]; intros w Hl; cbn [fmap list_fmap forM_io].
  { exists w. split_and!; [done|done|]. by intros s n f t ?%elem_of_nil. }
  destruct (Hl s) as (Hd & Hp & Hway); [left|].
  destruct (clear_dir_q dirs s w Hd Hp Hway) as (w1 & H1 & Ht1 & Hnone1).
  destruct (IH w1) as (w2 & H2 & Ht2 & Hnone2).
  { intros s' Hs'. destruct (Hl s') as (Hd' & Hp' & Hway'); [by right|].
    assert (mounts w1 = mounts w) as -> by apply Ht1. split_and!; try done.
    intros k. by eapply thins_no_file. }
  exists w2. rewrite (bind_ok _ _ _ _ _ H1). split_and!; [done|by etrans|].
  intros s' n f t [->|Hs']%elem_of_cons Hn Hv; [|by apply Hnone2].
  eapply thins_no_file; [exact Ht2|]. intros. by apply Hnone1.
Qed.

(** C22: when no call fails, the configuration can be read and no file is in the
    way of the directories, [act_clear] returns; then the ring, the queue and
    the backlog have no visible capture file left, and every other file of the
    machine is as it was. *)
Theorem act_clear_clears buff dest back w b t l :
  node_at w CFG_PATH = Some (File b t) → safe_load b = Ok (YMap l) →
  default (YStr "/opt/seer/var/queue") (assoc "dest_dir" l) = YStr dest →
  default (YStr "/opt/seer/var/backlog") (assoc "backlog_dir" l) = YStr back →
  (∀ s, s ∈ [buff; dest; back] → plain_dir (mounts w) (to_path s) ∧
     ∀ k f t, node_at w (take k (to_path s)) ≠ Some (File f t)) →
  ∃ w', act_clear buff w = (Ok tt, w') ∧ thins (to_path <$> [buff; dest; back]) w w' ∧
    ∀ s n f t, s ∈ [buff; dest; back] → fnmatch n "*.pcap*" = true → visible n →
      node_at w' (to_path s ++ [n]) ≠ Some (File f t).
Proof.
  intros Hcfg Hload Hdest Hback Hdirs. unfold act_clear.
  destruct (makedirs_q no_fault (to_path buff) w) as [([] & w1 & Hw1) _]; [apply Hdirs; left|].
  pose proof (makedirs_touches [] (to_path buff) w) as Ht1. rewrite Hw1 in Ht1. cbn [snd] in Ht1.
  rewrite (bind_ok _ _ _ _ _ Hw1).
  assert (read_cfg w1 = (Ok (or_empty (YMap l)), tick w1)) as Hread.
  { unfold read_cfg, try_except. rewrite (bind_ok _ _ _ b (tick w1)).
    - by rewrite Hload.
    - apply (open_read_q no_fault CFG_PATH b t). eapply touches_file; [exact Ht1| |done].
      by intros p ?%elem_of_nil. }
  rewrite (bind_ok _ _ _ _ _ Hread).
  assert (or_empty (YMap l) = YMap l) as -> by (by destruct l).
  unfold yget. rewrite Hdest, Hback.
  rewrite (bind_ok (lift_res (Ok (YStr dest))) _ _ _ _ eq_refl).
  rewrite (bind_ok (lift_res (Ok (YStr back))) _ _ _ _ eq_refl).
  assert (thins (to_path <$> [buff; dest; back]) w (tick w1)) as Ht.
  { etrans; [by apply touches_thins|]. by apply touches_thins, same_disk_touches. }
  destruct (clear_dirs_q (to_path <$> [buff; dest; back]) [buff; dest; back] (tick w1)) as (w2 & H2 & Ht2 & Hnone).
  { intros s Hs. destruct (Hdirs s Hs) as [Hp Hway]. assert (mounts (tick w1) = mounts w) as -> by apply Ht1.
    split_and!; [by apply list_elem_of_fmap_2|done|]. intros k. by eapply thins_no_file. }
  exists w2. split_and!; [exact H2|by etrans|done].
Qed.
End Clear.

(** ** Witness *)

(** Four captures and a note in the ring, two captures in the backlog. *)
Definition full_sensor : world :=
  no_drive ((CFG_PATH, File [] 0%Z) :: ring_four ++ backlog_two).

Lemma act_clear_clears_witness :
  ∃ w', act_clear (E := quiet) "/var/seer/pcap_ring" full_sensor = (Ok tt, w') ∧
    thins [ring; ["opt"; "seer"; "var"; "queue"]; backlog] full_sensor w' ∧
    ∀ s n f t, s ∈ ["/var/seer/pcap_ring"; "/opt/seer/var/queue"; "/opt/seer/var/backlog"] →
      fnmatch n "*.pcap*" = true → visible n → node_at w' (to_path s ++ [n]) ≠ Some (File f t).
Proof.
  apply (act_clear_clears (E := quiet) (λ _, eq_refl) "/var/seer/pcap_ring" "/opt/seer/var/queue"
    "/opt/seer/var/backlog" full_sensor [] 0%Z
    [("ring_dir", YStr "/var/seer/pcap_ring"); ("buffer_threshold", YInt 4);
     ("mover_log", YStr "/var/log/seer/mover.log")]); [vm_compute; reflexivity|reflexivity..|].
  intros s Hs. split; [by intros q m|]. apply way_check.
  repeat (apply elem_of_cons in Hs as [->|Hs]; [vm_compute; reflexivity|]). by apply elem_of_nil in Hs.
Defined.
