(* ===== verification/Screen.v ===== *)
(** * The screen and the keys of the console: [render] of [seer_console.py]

    The curses library is the class [Term]: the size of the window, which may
    change from one call to the next, the keys, and which calls fail.  A text
    drawn is an event of the trace; the variables of the loop are a record. *)
From S2P Require Import Prelude Text Os PyNum Config Json Console.
From Stdlib Require Import SpecFloat Ascii.
Local Open Scope Z_scope.

Class Term := {
  win_size : nat → Z * Z;
  addstr_fails : Z * Z → Z → Z → string → bool;
  has_colors : bool;
  pair_fails : Z → Z → bool;
  curs_set_fails : bool;
  key_pressed : nat → Z;
}.

Definition A_NORMAL : Z := 0.
Definition A_BOLD : Z := 2 ^ 21.
Definition A_DIM : Z := 2 ^ 20.
Definition COLOR_BLACK : Z := 0.
Definition COLOR_RED : Z := 1.
Definition COLOR_GREEN : Z := 2.
Definition COLOR_YELLOW : Z := 3.
Definition COLOR_BLUE : Z := 4.
Definition COLOR_MAGENTA : Z := 5.
Definition COLOR_CYAN : Z := 6.
Definition COLOR_WHITE : Z := 7.

(** The variables of [render]. *)
Record ui := Ui {
  REFRESH : spec_float;
  last_key : string;
  status_message : string;
  status_message_time : Z;
  last_json : option (Z * Z);
}.
Definition set_key (k : string) (u : ui) : ui :=
  Ui (REFRESH u) k (status_message u) (status_message_time u) (last_json u).
Definition set_status (m : string) (t : Z) (u : ui) : ui :=
  Ui (REFRESH u) (last_key u) m t (last_json u).
Definition set_refresh (r : spec_float) (u : ui) : ui :=
  Ui r (last_key u) (status_message u) (status_message_time u) (last_json u).
Definition set_json (b t : Z) (u : ui) : ui :=
  Ui (REFRESH u) (last_key u) (status_message u) (status_message_time u) (Some (b, t)).

(** [round(REFRESH + 0.5, 1)] and [round(max(0.5, REFRESH - 0.5), 1)] *)
Definition slower (r : spec_float) : spec_float := round1 (float_add r (flit "0.5")).
Definition faster (r : spec_float) : spec_float :=
  let d := float_sub r (flit "0.5") in
  round1 (if num_gt (NFloat d) (NFloat (flit "0.5")) then d else flit "0.5").

(** [chr(ch) if 32 <= ch < 127 else f"[{ch}]"] *)
Definition key_text (ch : Z) : string :=
  if (32 <=? ch) && (ch <? 127) then of_chars [chr ch] else "[" +:+ pretty ch +:+ "]".

Definition ord (c : ascii) : Z := code c.
Definition is_key (ch : Z) (c : ascii) : bool := ch =? ord c.
Definition is_key2 (ch : Z) (c d : ascii) : bool := is_key ch c || is_key ch d.

(** The write rate of the logs over the last frame. *)
Definition rate_text (last : option (Z * Z)) (j_bytes now : Z) : string :=
  match last with
  | None => "n/a"
  | Some (last_bytes, last_ts) =>
      let dt := binary_normalize prec emax (now - last_ts) (-22) false in
      let dt := if num_gt (NFloat dt) (NFloat (flit "0.001")) then dt else flit "0.001" in
      let bps := float_div (float_of_Z (Z.max 0 (j_bytes - last_bytes))) dt in
      if num_lt (NFloat bps) (NInt 1024)
      then human_bytes (NFloat (float_mul bps (float_of_Z 60))) +:+ "/min"
      else human_bytes (NFloat bps) +:+ "/s"
  end.

(** [strftime('%H:%M:%S  %b %d %Y')] *)
Definition month_name (m : Z) : string :=
  nth (Z.to_nat (m - 1)) ["Jan"; "Feb"; "Mar"; "Apr"; "May"; "Jun"; "Jul"; "Aug"; "Sep"; "Oct"; "Nov"; "Dec"] "".
Definition fmt_header (t : tm) : string :=
  fmt_hms t +:+ "  " +:+ month_name (tm_mon t) +:+ " " +:+ zpad 2 (tm_mday t) +:+ " " +:+ zpad 4 (tm_year t).

Section Screen.
Context {E : Env} {Y : Yaml} {S : Shell} {T : Term}.

(** ** Curses *)

Definition getmaxyx : prog (Z * Z) := λ w, (Ok (win_size (ticks w)), w).
Definition curses (call : string) : prog unit := emit (Curses call).
Definition addstr (y x : Z) (text : string) (attr : Z) : prog unit :=
  size ← getmaxyx;
  emit (Drawn y x text attr);;
  if addstr_fails size y x text then raise (CursesError "addwstr() returned ERR") else mret tt.
(** The console runs under [curses.wrapper], which has called [start_color()]:
    on a terminal without colours too, [color_pair] returns the attribute. *)
Definition color_pair (n : Z) : prog Z := mret (n * 256).
Definition init_pair (n fg bg : Z) : prog unit :=
  if pair_fails fg bg then raise (CursesError "init_pair() returned ERR") else emit (Paired n fg bg).
Definition curs_set : prog unit :=
  if curs_set_fails then raise (CursesError "curs_set() returned ERR") else curses "curs_set 0".

(** [getch()]: a key, or -1. *)
Definition getch : prog Z := λ w,
  match fault (ticks w) with
  | Some Interrupt => (Err KeyboardInterrupt, tick w)
  | Some Kill => (Err Killed, tick w)
  | _ => (Ok (key_pressed (ticks w)), tick w)
  end.

(** ** Drawing within bounds *)

Definition safe_addstr (y x : Z) (text : string) (attr : Z) : prog unit :=
  try_except
    ('(h, w) ← getmaxyx;
     if (y <? h - 1) && (x <? w - 1) then
       let max_len := w - x - 1 in
       let text := if max_len <? ulen text then uslice max_len text else text in
       addstr y x text attr
     else mret tt)
    is_CursesError (λ _, mret tt).

Definition draw_text (y x w : Z) (text : string) : prog unit :=
  try_except
    ('(h, width) ← getmaxyx;
     if (y <? h) && (x <? width)
     then addstr y x (uslice (width - x - 1) (ljust w (uslice w text))) 0
     else mret tt)
    is_CursesError (λ _, mret tt).

Definition divider (y width : Z) : prog unit :=
  try_except
    ('(h, w) ← getmaxyx;
     if y <? h then addstr y 0 (uslice (Z.min width (w - 1)) (repeat_char "-"%char width)) 0
     else mret tt)
    is_CursesError (λ _, mret tt).

(** ** Help *)

Definition help_lines : list string := [
  "SEER CONSOLE - CONTROLS"; "";
  "SYSTEM:"; "  [1] Stop All Services"; "  [3] Start/Restart Services"; "  [z] Start Zeek"; "  [x] Stop Zeek"; "";
  "EXPORT:"; "  [2] Toggle Mount/Unmount Drive"; "";
  "LOGS:"; "  [c] Capture Logs"; "  [m] Mover Logs"; "  [h] Hotswap Logs"; "  [s] Service Status"; "";
  "DISPLAY:"; "  [+] Refresh Faster"; "  [-] Refresh Slower"; "";
  "OTHER:"; "  [?] Show This Help"; "  [q] Quit"; "";
  "Press any key to return..."].

Fixpoint help_rows (i h w : Z) (lines : list string) : prog unit :=
  match lines with
  | [] => mret tt
  | line :: rest =>
      (if i <? h - 1 then addstr i 2 (uslice (w - 4) line) 0 else mret tt);;
      help_rows (i + 1) h w rest
  end.

Definition show_help : prog unit :=
  curs_set;;
  curses "clear";;
  '(h, w) ← getmaxyx;
  help_rows 0 h w help_lines;;
  curses "refresh";;
  curses "nodelay False";;
  getch;;
  curses "nodelay True".

(** ** Colours *)

Fixpoint init_pairs (l : list (Z * Z)) (bg : Z) : prog unit :=
  match l with
  | [] => mret tt
  | (n, fg) :: l' => init_pair n fg bg;; init_pairs l' bg
  end.

Definition classic : list (Z * Z) :=
  [(1, COLOR_RED); (2, COLOR_GREEN); (3, COLOR_YELLOW); (4, COLOR_CYAN); (5, COLOR_WHITE)].
Definition evr : list (Z * Z) :=
  [(1, COLOR_RED); (2, COLOR_CYAN); (3, COLOR_MAGENTA); (4, COLOR_BLUE); (5, COLOR_WHITE)].

Definition init_colors (g : globals) : prog unit :=
  if has_colors && negb (NO_COLORS g) then
    curses "start_color";;
    curses "use_default_colors";;
    let theme := if bool_decide (lower (getenv "SEER_THEME" "evr") = "classic") then classic else evr in
    try_except (init_pairs theme (-1)) is_CursesError
      (λ _, try_except (init_pairs classic COLOR_BLACK) is_Exception (λ _, mret tt))
  else mret tt.

(** ** What a frame shows *)

Record frame := Frame {
  f_now : tm;
  f_cap : string; f_mov : string; f_tim : string; f_hot : string; f_zeek : string;
  f_buff : Z; f_back : Z; f_jbytes : Z;
  f_cfg : yval; f_present : bool; f_on_drive : Z;
}.

Definition render_iface (g : globals) : string :=
  match IFACE_BOOT g with Some v => yshow v | None => getenv "IFACE" "enp2s0" end.

(** The files on the first candidate that is mounted. *)
Fixpoint count_on_drive (candidates : list yval) : prog Z :=
  match candidates with
  | [] => mret 0
  | v :: rest =>
      candidate ← lift_res (ystr v);
      m ← os_ismount (to_path candidate);
      if (m : bool) then
        try_except (l ← path_rglob (to_path candidate) "*.pcap*"; mret (Z.of_nat (length l)))
          is_OSError (λ _, mret 0)
      else count_on_drive rest
  end.

Definition gather (g : globals) : prog frame :=
  curses "erase";;
  now ← datetime_now;
  cap ← systemctl_is_active (CAPTURE_SERVICE g);
  mov ← systemctl_is_active MOVER_SERVICE;
  tim ← timer_state;
  hot ← systemctl_is_active HOTSWAP_SERVICE;
  zeek ← systemctl_is_active ("seer-zeek@" +:+ render_iface g +:+ ".service");
  buff ← count_pcaps (YStr BUFF_DIR);
  cfg ← read_cfg;
  backlog_dir ← lift_res (yget cfg "backlog_dir" (YStr "/opt/seer/var/backlog"));
  back ← count_pcaps backlog_dir;
  '(_, j_bytes, _) ← json_stats (JSON_SPOOL g);
  hs ← read_hotswap_state;
  present ← lift_res (yget hs "drive_present" (YBool false));
  on_drive ← (if truthy present then
                v ← lift_res (candidates_of cfg); l ← lift_res (yiter v); count_on_drive l
              else mret 0);
  mret (Frame now cap mov tim hot zeek buff back j_bytes cfg (truthy present) on_drive).

(** [status_message and time.time() - status_message_time < 5] *)
Definition status_shown (u : ui) : prog bool :=
  if bool_decide (status_message u = "") then mret false
  else now ← time_time; mret (now - status_message_time u <? 5 * second).

(** [color_pair(n) if has_colors() else 0] *)
Definition pair_if (n : Z) : prog Z := if has_colors then color_pair n else mret 0.

(** The small screen. *)
Definition compact_frame (w : Z) (f : frame) (u : ui) : prog unit :=
  draw_text 0 0 w ("SEER [" +:+ fmt_hms (f_now f) +:+ "]");;
  divider 1 w;;
  safe_addstr 2 0 "PCAP:" 0;;
  safe_addstr 3 2 ("Ring    : " +:+ pretty (f_buff f)) 0;;
  safe_addstr 4 2 ("Backlog : " +:+ pretty (f_back f)) 0;;
  (if f_present f then
     m ← mount_of_cfg (f_cfg f);
     attr ← pair_if 2;
     safe_addstr 5 2 "Drive   : " attr;;
     safe_addstr 5 12 "CONNECTED" 0;;
     safe_addstr 6 2 ("Mount   : " +:+ uslice (w - 12) m) 0;;
     safe_addstr 7 2 ("On Drive: " +:+ pretty (f_on_drive f) +:+ " files") 0
   else
     attr ← pair_if 3;
     safe_addstr 5 2 "Drive   : " attr;;
     safe_addstr 5 12 "not connected" 0);;
  divider 8 w;;
  safe_addstr 9 0 "[2] Mount/Unmount  [q] Quit" 0;;
  recent ← status_shown u;
  (if (recent : bool) then safe_addstr 10 0 ("Status: " +:+ uslice (w - 8) (status_message u)) 0
   else safe_addstr 10 0 ("Input: " +:+ last_key u) 0);;
  curses "refresh".

(** *** The full screen *)

(** [color_pair(n) | attr] *)
Definition pair_or (n attr : Z) : prog Z := c ← color_pair n; mret (Z.lor c attr).

Definition header (w : Z) (f : frame) (u : ui) : prog unit :=
  let hdr := "SEER MONITOR  [REF: " +:+ fmt_fixed1 (REFRESH u) +:+ "s]  [HOST: " +:+ nodename
             +:+ "]  [TIME: " +:+ fmt_header (f_now f) +:+ "]" in
  try_except (attr ← pair_or 4 A_BOLD; safe_addstr 0 0 hdr attr)
    is_Exception (λ _, draw_text 0 0 w hdr);;
  divider 1 w;;
  divider 1 w.

Fixpoint bars (rows : list Z) (left_w w : Z) : prog unit :=
  match rows with
  | [] => mret tt
  | r :: rest => (if left_w <? w then addstr r left_w "|" 0 else mret tt);; bars rest left_w w
  end.

Definition sections (w left_w right_w : Z) : prog unit :=
  let sec_left := "+ SYSTEM " +:+ repeat_char "-"%char (Z.max 0 (left_w - 10)) in
  let sec_right := "+ CONTROLS " +:+ repeat_char "-"%char (Z.max 0 (right_w - 12)) in
  try_except
    (attr ← pair_or 4 A_BOLD; safe_addstr 2 0 sec_left attr;;
     attr ← pair_or 4 A_BOLD; safe_addstr 2 (left_w + 1) sec_right attr)
    is_Exception
    (λ _, draw_text 2 0 left_w sec_left;; draw_text 2 (left_w + 1) right_w sec_right);;
  bars [3; 4; 5; 6; 7; 8; 9; 10; 11] left_w w.

(** One service: its label, and its state in the colour of the badge; [plain] is
    the attribute when there are no colours. *)
Definition badge (y : Z) (label state : string) (plain : Z → Z) : prog unit :=
  let '(s, c) := badge_text state in
  addstr y 2 label 0;;
  attr ← try_except (pair_or c (if c =? 2 then A_BOLD else 0)) is_Exception (λ _, mret (plain c));
  addstr y 14 s attr.

Definition services (f : frame) : prog unit :=
  badge 3 "  CAPTURE : " (f_cap f) (λ c, if c =? 2 then A_BOLD else 0);;
  badge 4 "  MOVER   : " (f_mov f) (λ _, A_NORMAL);;
  addstr 5 2 ("  TIMER   : " +:+ f_tim f) 0;;
  addstr 6 2 ("  ZEEK    : " +:+ f_zeek f) 0;;
  badge 7 "  HOTSWAP : " (f_hot f) (λ _, A_NORMAL).

Definition pcap_counts (f : frame) : prog unit :=
  addstr 8 0 "PCAP:" 0;;
  try_except
    (addstr 9 2 "  Ring        : " 0;;
     attr ← pair_or 2 A_BOLD; addstr 9 21 (ljust 5 (pretty (f_buff f))) attr;;
     addstr 10 2 "  Backlog     : " 0;;
     attr ← pair_or 3 A_DIM; addstr 10 21 (ljust 5 (pretty (f_back f))) attr)
    is_Exception
    (λ _, addstr 9 2 ("  Ring        : " +:+ ljust 5 (pretty (f_buff f))) 0;;
          addstr 10 2 ("  Backlog     : " +:+ ljust 5 (pretty (f_back f))) 0).

Definition drive_status (f : frame) : prog unit :=
  if f_present f then
    m ← mount_of_cfg (f_cfg f);
    try_except
      (attr ← color_pair 5; addstr 11 2 "  Drive       : " attr;;
       attr ← pair_or 2 A_BOLD; addstr 11 17 "CONNECTED" attr;;
       addstr 12 2 "  Mount       : " 0;;
       attr ← color_pair 5; addstr 12 16 m attr;;
       addstr 13 2 "  On Drive    : " 0;;
       attr ← color_pair 2; addstr 13 16 (pretty (f_on_drive f) +:+ " files") attr)
      is_Exception
      (λ _, addstr 11 2 "  Drive       : CONNECTED" 0;;
            addstr 12 2 ("  Mount       : " +:+ m) 0;;
            addstr 13 2 ("  On Drive    : " +:+ pretty (f_on_drive f) +:+ " files") 0)
  else
    attr ← color_pair 3; addstr 11 2 "  Drive       : " attr;;
    addstr 11 17 "not connected" 0.

Definition json_size (f : frame) : prog unit :=
  try_except
    (addstr 14 0 "JSON:" 0;;
     addstr 15 2 "  Captured    : " 0;;
     attr ← pair_or 2 A_BOLD; addstr 15 18 (ljust 12 (human_bytes (NInt (f_jbytes f)))) attr)
    is_Exception
    (λ _, addstr 14 0 "JSON:" 0;;
          addstr 15 2 ("  Captured    : " +:+ ljust 12 (human_bytes (NInt (f_jbytes f)))) 0).

(** The controls: row, column after the middle bar, text, pair and attribute
    (no pair: the normal attribute). *)
Definition control_cells : list (Z * Z * string * option (Z * Z)) := [
  (3, 2, "[1] ", None); (3, 6, "Stop", Some (1, 0));
  (3, 12, "   [3] ", None); (3, 18, "Start", Some (2, A_BOLD));
  (4, 2, "[2] ", None); (4, 6, "Mount/Unmount Drive", Some (5, 0));
  (5, 2, "[z] ", None); (5, 6, "Zeek Start", Some (2, 0));
  (5, 20, "[x] ", None); (5, 24, "Stop", Some (1, 0));
  (7, 2, "[c] ", None); (7, 6, "Cap", Some (5, 0));
  (7, 12, "[m] ", None); (7, 16, "Mov", Some (5, 0));
  (7, 22, "[h] ", None); (7, 26, "Hot", Some (5, 0));
  (8, 2, "[s] ", None); (8, 6, "Status", Some (5, 0));
  (8, 16, "[+/-] ", None); (8, 22, "Speed", Some (5, 0));
  (10, 2, "[?] ", None); (10, 6, "Help", Some (4, A_BOLD));
  (10, 16, "[q] ", None); (10, 20, "Quit", Some (5, 0))].

Definition control_rows : list (Z * string) := [
  (3, "[1] Stop   [3] Start");
  (4, "[2] Mount/Unmount Drive");
  (5, "[z] Zeek Start  [x] Stop");
  (7, "[c] Cap [m] Mov [h] Hot");
  (8, "[s] Status  [+/-] Speed");
  (10, "[?] Help    [q] Quit")].

Definition control_cell (left_w : Z) (c : Z * Z * string * option (Z * Z)) : prog unit :=
  let '(y, dx, text, colour) := c in
  attr ← (match colour with
          | None => mret 0
          | Some (n, 0) => color_pair n
          | Some (n, a) => pair_or n a
          end);
  addstr y (left_w + dx) text attr.

Definition controls (left_w : Z) : prog unit :=
  try_except (forM_io (control_cell left_w) control_cells) is_Exception
    (λ _, forM_io (λ '(y, text), addstr y (left_w + 2) text 0) control_rows).

Definition footer (w : Z) (u : ui) : prog unit :=
  divider 19 w;;
  recent ← status_shown u;
  (if (recent : bool) then draw_text 20 0 w ("Status: " +:+ status_message u)
   else draw_text 20 0 w ("Input: " +:+ last_key u));;
  curses "refresh".

Definition full_frame (w : Z) (f : frame) (u : ui) : prog ui :=
  header w f u;;
  now ← time_time;
  let _rate_txt := rate_text (last_json u) (f_jbytes f) now in
  let u := set_json (f_jbytes f) now u in
  let left_w := w / 2 - 1 in
  let right_w := w - left_w - 3 in
  sections w left_w right_w;;
  services f;;
  pcap_counts f;;
  drive_status f;;
  json_size f;;
  controls left_w;;
  footer w u;;
  mret u.

(** ** Keys *)

(** Another program takes over the terminal. *)
Definition shell_out (cmd : string) : prog unit :=
  curses "def_prog_mode";;
  curses "endwin";;
  os_system cmd;;
  curses "reset_prog_mode".

Definition journal (unit : string) : string :=
  "journalctl -u " +:+ shlex_quote unit +:+ " -n 400 --no-pager | less -SRX".

Definition toggle_key (u : ui) : prog ui :=
  curses "refresh";;
  msg ← act_toggle_mount;
  now ← time_time;
  mret (set_status msg now u).

Definition compact_key (ch : Z) (u : ui) : prog ui :=
  let u := set_key (key_text ch) u in
  if is_key ch "2" then toggle_key u else mret u.

Definition full_key (g : globals) (ch : Z) (u : ui) : prog ui :=
  let u := set_key (key_text ch) u in
  if is_key ch "1" then act_stop g;; mret u
  else if is_key ch "2" then toggle_key u
  else if is_key ch "3" then act_start g;; mret u
  else if is_key ch "?" then show_help;; mret u
  else if is_key ch "+" then mret (set_refresh (slower (REFRESH u)) u)
  else if is_key ch "-" then mret (set_refresh (faster (REFRESH u)) u)
  else if is_key2 ch "c" "C" then shell_out (journal (CAPTURE_SERVICE g));; mret u
  else if is_key2 ch "m" "M" then shell_out (journal MOVER_SERVICE);; mret u
  else if is_key2 ch "h" "H" then shell_out (journal HOTSWAP_SERVICE);; mret u
  else if is_key2 ch "s" "S" then
    shell_out ("systemctl status "
      +:+ join " " ([shlex_quote (CAPTURE_SERVICE g); shlex_quote MOVER_SERVICE]
                    ++ (if bool_decide (MOVER_TIMER = "") then [] else [shlex_quote MOVER_TIMER]))
      +:+ " --no-pager -l | less -SRX");; mret u
  else if is_key2 ch "j" "J" then
    curses "def_prog_mode";;
    curses "endwin";;
    spool ← lift_res (ystr (JSON_SPOOL g));
    os_system ("ls -lt " +:+ shlex_quote spool +:+ " | head -n 200 | sed -n '1,200p' | less -SRX");;
    curses "reset_prog_mode";; mret u
  else if is_key2 ch "p" "P" then
    shell_out ("systemctl status " +:+ shlex_quote SHIPPER_SERVICE +:+ " --no-pager -l | less -SRX");; mret u
  else if is_key2 ch "a" "A" then
    shell_out ("echo " +:+ dquote +:+ "Agent heuristics: (placeholder)" +:+ nl +:+ "- rule1: ..." +:+ nl
               +:+ "- rule2: ..." +:+ nl +:+ dquote +:+ " | less -SRX");; mret u
  else if is_key ch "z" then
    shell_out "sudo /usr/local/bin/seer-zeek.sh start; read -n 1 -s -r -p 'Press any key to continue.'";; mret u
  else if is_key ch "x" then
    shell_out "sudo /usr/local/bin/seer-zeek.sh stop; read -n 1 -s -r -p 'Press any key to continue.'";; mret u
  else mret u.

(** The wait for a key until [t_end]; [None] is the end of the console.  The
    observation stops after [fuel] looks at the keyboard. *)
Definition float_time (t : Z) : spec_float := binary_normalize prec emax t (-22) false.

Fixpoint wait_key (fuel : nat) (t_end : spec_float) (handle : Z → ui → prog ui) (u : ui) : prog (option ui) :=
  match fuel with
  | O => raise Killed
  | Datatypes.S fuel' =>
      now ← time_time;
      if num_lt (NFloat (float_time now)) (NFloat t_end) then
        ch ← try_except getch is_CursesError (λ _, mret (-1));
        if ch =? -1 then sleep;; wait_key fuel' t_end handle u
        else if is_key2 ch "q" "Q" then mret None
        else u' ← handle ch u; mret (Some u')
      else mret (Some u)
  end.

Definition get_input (fuel : nat) (handle : Z → ui → prog ui) (u : ui) : prog (option ui) :=
  now ← time_time;
  wait_key fuel (float_add (float_time now) (REFRESH u)) handle u.

(** One round: a frame, then the keys. *)
Definition round (fuel : nat) (g : globals) (compact_mode : bool) (u : ui) : prog (option ui) :=
  '(h, w) ← getmaxyx;
  f ← gather g;
  if compact_mode || (h <? 20) || (w <? 60) then
    compact_frame w f u;;
    get_input fuel compact_key u
  else
    u ← full_frame w f u;
    get_input fuel (full_key g) u.

Fixpoint render_loop (fuel : nat) (g : globals) (compact_mode : bool) (u : ui) : prog unit :=
  match fuel with
  | O => raise Killed
  | Datatypes.S fuel' =>
      r ← round fuel g compact_mode u;
      match r with
      | None => mret tt
      | Some u' => render_loop fuel' g compact_mode u'
      end
  end.

Definition too_small (h w : Z) : prog unit :=
  curses "clear";;
  addstr 0 0 "Terminal too small!" 0;;
  addstr 1 0 ("Current: " +:+ pretty h +:+ "x" +:+ pretty w) 0;;
  addstr 2 0 "Minimum: 12x40" 0;;
  addstr 3 0 "Resize and restart" 0;;
  curses "refresh";;
  getch;;
  mret tt.

Definition render (fuel : nat) (g : globals) : prog unit :=
  curs_set;;
  curses "nodelay True";;
  '(h, w) ← getmaxyx;
  if (h <? 12) || (w <? 40) then too_small h w
  else
    init_colors g;;
    render_loop fuel g ((h <? 20) || (w <? 60)) (Ui (REFRESH0 g) "" "" 0 None).

(** [curses.wrapper] *)
Definition wrapper (m : prog unit) : prog unit :=
  curses "initscr";; try_finally m (curses "endwin").

Definition main (fuel : nat) (g : globals) : prog unit :=
  if arg_once then report g
  else if negb isatty then
    print "seer-console: not running in a TTY; interactive console requires a terminal."
  else
    try_except (wrapper (render fuel g)) is_CursesError
      (λ e, print ("seer-console: curses error: " +:+ exn_str e)).

(** The program: the module is loaded, then [main]. *)
Definition console (fuel : nat) : prog unit := g ← boot; main fuel g.
End Screen.
