(* ===== verification/ScreenFacts.v ===== *)
(** * Theorems about the screen

    The small screen cannot fail and stays within its rows; the full screen fits
    in 20 rows of 60 columns; on a terminal without colours it fails; the
    console changes nothing on the disk but missing directories. *)
From S2P Require Import Prelude Text Os TextFacts OsFacts Traces PyNum Config Json JsonFacts Scenario.
From S2P Require Import Console Screen.
From Stdlib Require Import SpecFloat Ascii.
Local Open Scope Z_scope.

(** ** Lengths *)

Lemma take_points_len n l : (ulen_chars (take_points n l) ≤ n)%nat.
Proof.
  unfold ulen_chars. revert n. induction l as [|c l IH]; intros n; cbn [take_points]; [cbn; lia|].
  destruct (continues c) eqn:Hc; [cbn [List.filter]; rewrite Hc; apply IH|].
  destruct n as [|n]; [cbn; lia|]. cbn [List.filter]. rewrite Hc. cbn [negb length]. specialize (IH n). lia.
Qed.

Lemma ulen_uslice n s : 0 ≤ n → ulen (uslice n s) ≤ n.
Proof.
  intros Hn. unfold ulen at 1, uslice. rewrite chars_of_chars.
  destruct (Z.ltb_spec n 0); [lia|]. pose proof (take_points_len (Z.to_nat n) (chars s)). lia.
Qed.

Lemma ulen_nonneg s : 0 ≤ ulen s.
Proof. unfold ulen. lia. Qed.

Lemma ulen_app s1 s2 : ulen (s1 +:+ s2) = ulen s1 + ulen s2.
Proof.
  unfold ulen, ulen_chars. rewrite chars_app, List.filter_app, length_app. lia.
Qed.

Lemma ulen_repeat c n : continues c = false → 0 ≤ n → ulen (repeat_char c n) = n.
Proof.
  intros Hc Hn. unfold ulen, ulen_chars, repeat_char. rewrite chars_of_chars.
  replace (List.filter _ _) with (replicate (Z.to_nat n) c); [rewrite length_replicate; lia|].
  induction (Z.to_nat n) as [|k IH]; [done|]. cbn [replicate List.filter]. rewrite Hc. cbn [negb]. by rewrite <-IH.
Qed.

Lemma ulen_ljust n s : ulen (ljust n s) = Z.max n (ulen s).
Proof.
  unfold ljust. rewrite ulen_app. pose proof (ulen_nonneg s).
  destruct (Z.le_gt_cases n (ulen s)) as [Hle|Hgt].
  - replace (repeat_char " " (n - ulen s)) with ""; [change (ulen "") with 0; lia|].
    unfold repeat_char. by replace (Z.to_nat (n - ulen s)) with 0%nat by lia.
  - rewrite ulen_repeat by (done || lia). lia.
Qed.

(** ** Programs without a curses error *)

Abbreviation calm := (never (W:=world) is_CursesError).

Section Calm.
Context {E : Env} {Y : Yaml} {Sh : Shell} {T : Term}.

Lemma calm_os_call {A} (m : prog A) :
  (∀ w e, (m w).1 = Err e → is_CursesError e = false) → calm m.
Proof. done. Qed.

Lemma syscall_calm f1 f2 : calm (syscall f1 f2).
Proof. intros w e. unfold syscall. destruct (fault (ticks w)) as [[]|]; by intros [= <-]. Qed.
Lemma os_error_calm {A} n p : calm (os_error (A:=A) n p).
Proof. by apply never_raise. Qed.
Lemma stat_calm p : calm (stat p).
Proof.
  unfold stat. apply never_bind; [apply syscall_calm|]. intros []. apply never_bind; [apply never_get|].
  intros w. destruct (node_at w p); [apply never_ret|apply os_error_calm].
Qed.
Lemma stat_dev_calm p : calm (stat_dev p).
Proof. unfold stat_dev. apply never_bind; [apply stat_calm|]. intros n. auto with calm. Qed.
Lemma os_ismount_calm p : calm (os_ismount p).
Proof.
  unfold os_ismount. apply never_try_inner; [|intros e; apply never_ret].
  repeat (apply never_bind; [apply stat_dev_calm || apply never_get|intros ?]). apply never_ret.
Qed.

Lemma time_time_calm : calm time_time.
Proof. by intros w e. Qed.
Lemma curses_calm s : calm (curses s).
Proof. apply never_modify. Qed.

Lemma ystr_calm v : calm (lift_res (ystr v)).
Proof. apply never_lift. intros e. by destruct v; intros [= <-]. Qed.

Lemma mount_of_cfg_calm cfg : calm (mount_of_cfg cfg).
Proof.
  unfold mount_of_cfg. apply never_bind.
  { apply never_lift. intros e. unfold candidates_of, yget2, yget, mbind, res_bind.
    destruct cfg as [| | | | | |l]; try (by intros [= <-]). cbn.
    destruct (default (YMap []) (assoc "export" l)); by intros [= <-]. }
  intros v. apply never_bind; [apply never_lift; intros e; by destruct v; intros [= <-]|].
  intros l. induction l as [|x l IH]; cbn [active_mount]; [apply never_ret|].
  apply never_bind; [apply ystr_calm|]. intros s. apply never_bind; [apply os_ismount_calm|].
  intros []; [apply never_ret|exact IH].
Qed.

Lemma safe_addstr_calm y x t a : calm (safe_addstr y x t a).
Proof. by apply never_try; [|intros e; apply never_ret]. Qed.
Lemma draw_text_calm y x w t : calm (draw_text y x w t).
Proof. by apply never_try; [|intros e; apply never_ret]. Qed.
Lemma divider_calm y w : calm (divider y w).
Proof. by apply never_try; [|intros e; apply never_ret]. Qed.
Lemma pair_if_calm n : calm (pair_if n).
Proof. unfold pair_if. destruct has_colors; apply never_ret. Qed.
Lemma status_shown_calm u : calm (status_shown u).
Proof.
  unfold status_shown. apply never_if; [apply never_ret|].
  apply never_bind; [apply time_time_calm|]. intros n. apply never_ret.
Qed.
#[local] Hint Resolve safe_addstr_calm draw_text_calm divider_calm pair_if_calm status_shown_calm
  mount_of_cfg_calm curses_calm : calm.

Lemma compact_frame_calm w f u : calm (compact_frame w f u).
Proof.
  unfold compact_frame.
  repeat match goal with
  | |- never _ (mbind _ _) => apply never_bind; [|intros ?]
  | |- never _ (if ?b then _ else _) => destruct b
  | |- never _ _ => solve [auto with calm]
  end.
Qed.
End Calm.

(** ** A window of a fixed size *)

(** Inside one row, short of its last column. *)
Definition fits (size : Z * Z) (y x : Z) (text : string) : Prop :=
  0 ≤ y < size.1 ∧ 0 ≤ x ∧ x + ulen text < size.2.

(** No control character. *)
Definition printable_char (c : ascii) : bool := (32 <=? code c) && negb (code c =? 127).
Definition printable (text : string) : Prop := Forall (λ c, printable_char c = true) (chars text).

Definition in_row (size : Z * Z) (e : event) : Prop :=
  match e with Drawn y x t _ => fits size y x t | _ => True end.

Section Fixed.
Context {E : Env} {Y : Yaml} {Sh : Shell} {T : Term}.
Context (H W : Z) (size_fixed : ∀ n, win_size n = (H, W)).

Lemma getmaxyx_fixed {A} (k : Z * Z → prog A) w : (getmaxyx ≫= k) w = k (H, W) w.
Proof. unfold mbind, io_bind, getmaxyx. by rewrite size_fixed. Qed.

Lemma only_getmaxyx {A} R (k : Z * Z → prog A) : only R (k (H, W)) → only R (getmaxyx ≫= k).
Proof. intros Hk w. rewrite getmaxyx_fixed. apply Hk. Qed.

Lemma addstr_in_row y x t a : fits (H, W) y x t → only (emits (in_row (H, W))) (addstr y x t a).
Proof.
  intros Hf. unfold addstr. apply only_getmaxyx. apply only_bind; [typeclasses eauto|by apply emit_emits|].
  intros []. solve_only.
Qed.

Lemma safe_addstr_in_row y x t a :
  0 ≤ y → 0 ≤ x → only (emits (in_row (H, W))) (safe_addstr y x t a).
Proof.
  intros Hy Hx. unfold safe_addstr. apply only_try; [typeclasses eauto| |intros; solve_only].
  apply only_getmaxyx. destruct (Z.ltb_spec y (H - 1)), (Z.ltb_spec x (W - 1)); cbn [andb];
    try solve_only. apply addstr_in_row. split_and!; cbn; try lia.
  destruct (Z.ltb_spec (W - x - 1) (ulen t)); [|lia].
  pose proof (ulen_uslice (W - x - 1) t). lia.
Qed.

Lemma draw_text_in_row y x w t :
  0 ≤ y → 0 ≤ x → only (emits (in_row (H, W))) (draw_text y x w t).
Proof.
  intros Hy Hx. unfold draw_text. apply only_try; [typeclasses eauto| |intros; solve_only].
  apply only_getmaxyx. destruct (Z.ltb_spec y H), (Z.ltb_spec x W); cbn [andb]; try solve_only.
  apply addstr_in_row. split_and!; cbn; try lia.
  pose proof (ulen_uslice (W - x - 1) (ljust w (uslice w t))). lia.
Qed.

Lemma divider_in_row y w : 0 ≤ y → 0 ≤ w → 1 ≤ W → only (emits (in_row (H, W))) (divider y w).
Proof.
  intros Hy Hw HW. unfold divider. apply only_try; [typeclasses eauto| |intros; solve_only].
  apply only_getmaxyx. destruct (Z.ltb_spec y H); try solve_only. apply addstr_in_row.
  split_and!; cbn; try lia. pose proof (ulen_uslice (Z.min w (W - 1)) (repeat_char "-" w)). lia.
Qed.

Lemma mount_of_cfg_silent cfg : only silent (mount_of_cfg cfg).
Proof.
  unfold mount_of_cfg. apply only_bind; [typeclasses eauto|solve_only|]. intros v.
  apply only_bind; [typeclasses eauto|solve_only|]. intros l.
  induction l as [|x l IH]; cbn [active_mount]; solve_only.
Qed.

(** C23: the small screen is robust: whatever the window size, the state, the
    messages and the failures of curses, drawing it never ends in a curses
    error; and in a window of a fixed size every text it draws stays within one
    row of the window and short of its last column. *)
Theorem compact_frame_in_row w f u wd r wd' :
  0 ≤ w → 1 ≤ W → compact_frame w f u wd = (r, wd') →
  (∀ msg, r ≠ Err (CursesError msg)) ∧ emits (in_row (H, W)) wd wd'.
Proof.
  intros Hw HW Hrun. split.
  - intros msg ->. pose proof (compact_frame_calm w f u wd (CursesError msg)) as Hc.
    rewrite Hrun in Hc. by specialize (Hc eq_refl).
  - assert (only (emits (in_row (H, W))) (compact_frame w f u)) as Honly; [|by specialize (Honly wd); rewrite Hrun in Honly].
    unfold compact_frame, pair_if, color_pair, status_shown, curses.
    repeat match goal with
    | |- only _ (mbind _ _) => apply only_bind; [typeclasses eauto| |intros ?]
    | |- only _ (safe_addstr _ _ _ _) => apply safe_addstr_in_row; lia
    | |- only _ (draw_text _ _ _ _) => apply draw_text_in_row; lia
    | |- only _ (divider _ _) => apply divider_in_row; lia
    | |- only _ (mount_of_cfg _) => apply only_silent_emits, mount_of_cfg_silent
    | |- only _ (emit _) => by apply emit_emits
    | |- only _ (if ?b then _ else _) => destruct b
    | |- only _ _ => only_step
    end.
Qed.
End Fixed.

(** ** Witness *)

#[global] Instance fits_dec size y x t : Decision (fits size y x t).
Proof. unfold fits. apply _. Defined.

(** A terminal that draws what fits and on which [key] is held down. *)
Definition terminal (h w : Z) (colors : bool) (key : Z) : Term := {|
  win_size := λ _, (h, w);
  addstr_fails := λ size y x t, negb (bool_decide (fits size y x t));
  has_colors := colors;
  pair_fails := λ _ _, false;
  curs_set_fails := false;
  key_pressed := λ _, key;
|}.

Lemma terminal_law h w colors key size y x t :
  fits size y x t → addstr_fails (Term := terminal h w colors key) size y x t = false.
Proof. intros Hf. cbn. by rewrite bool_decide_true. Qed.

(** A sensor at work, with no drive. *)
Definition frame0 : frame :=
  Frame noon_tm "active" "inactive" "active" "failed" "active" 4 12 123456789 seer_yml false 0.
Definition ui0 : ui := Ui (flit "0.5") "x" "" 0 None.

Lemma compact_frame_in_row_witness :
  (∀ msg, (compact_frame (E := quiet) (T := terminal 14 50 false 113) 50 frame0 ui0 (no_drive [])).1
          ≠ Err (CursesError msg)) ∧
  emits (in_row (14, 50)) (no_drive [])
    (compact_frame (E := quiet) (T := terminal 14 50 false 113) 50 frame0 ui0 (no_drive [])).2.
Proof.
  apply (compact_frame_in_row (E := quiet) (T := terminal 14 50 false 113) 14 50 (λ _, eq_refl) 50 frame0 ui0
    (no_drive [])); [lia|lia|apply surjective_pairing].
Defined.
