(* ===== verification/ScreenFull.v ===== *)
(** * The full screen

    In a window of at least 20 rows and 60 columns the full screen is drawn
    without an error when the texts it shows are of a usual length. *)
From S2P Require Import Prelude Text Os TextFacts OsFacts Traces PyNum Config Json JsonFacts Scenario.
From S2P Require Import Console Screen ScreenFacts.
From Stdlib Require Import SpecFloat Ascii.
Local Open Scope Z_scope.

(** ** Texts *)

Lemma printable_app s1 s2 : printable s1 → printable s2 → printable (s1 +:+ s2).
Proof. unfold printable. rewrite chars_app. intros. by apply Forall_app. Qed.

Lemma digits_printable l :
  Forall (λ c, is_digit c = true ∧ is_space c = false) l → Forall (λ c, printable_char c = true) l.
Proof.
  assert (∀ c, implb (is_digit c) (printable_char c) = true) as Hall
    by (apply all_chars; vm_compute; reflexivity).
  intros Hl. eapply Forall_impl; [exact Hl|]. intros c [Hc _]. specialize (Hall c). by rewrite Hc in Hall.
Qed.

Lemma printable_pretty (z : Z) : printable (pretty z).
Proof.
  destruct z as [|p|p]; [by repeat constructor|..].
  - destruct (pretty_N_digits (N.pos p)) as (_ & H2 & _). by apply digits_printable.
  - unfold printable. change (chars (pretty (Z.neg p))) with ("-"%char :: chars (pretty (N.pos p))).
    constructor; [done|]. destruct (pretty_N_digits (N.pos p)) as (_ & H2 & _). by apply digits_printable.
Qed.

Lemma printable_repeat c n : printable_char c = true → printable (repeat_char c n).
Proof. intros Hc. unfold printable, repeat_char. rewrite chars_of_chars. by apply Forall_replicate. Qed.

Lemma printable_ljust n s : printable s → printable (ljust n s).
Proof. intros Hs. apply printable_app; [done|by apply printable_repeat]. Qed.

(** A text of the screen: printable, and short enough. *)
Definition text_ok (n : Z) (s : string) : Prop := printable s ∧ ulen s ≤ n.

Lemma text_ok_app n m k s1 s2 : text_ok n s1 → text_ok m s2 → n + m ≤ k → text_ok k (s1 +:+ s2).
Proof. intros [H1 H2] [H3 H4] Hk. split; [by apply printable_app|]. rewrite ulen_app. lia. Qed.

Lemma text_ok_ljust n k s : text_ok k s → n ≤ k → text_ok k (ljust n s).
Proof. intros [H1 H2] Hk. split; [by apply printable_ljust|]. rewrite ulen_ljust. lia. Qed.

Lemma text_ok_mono n m s : text_ok n s → n ≤ m → text_ok m s.
Proof. intros [H1 H2] Hm. split; [done|lia]. Qed.

#[global] Instance text_ok_dec n s : Decision (text_ok n s).
Proof. unfold text_ok, printable. apply _. Defined.

(** A literal text, by computation. *)
Ltac literal := by apply (bool_decide_unpack _); vm_compute.

Lemma text_ok_lower n s : text_ok n s → text_ok n (lower s).
Proof.
  assert (∀ c, implb (printable_char c) (printable_char (lower_char c)) &&
               Bool.eqb (continues (lower_char c)) (continues c) = true) as Hall
    by (apply all_chars; vm_compute; reflexivity).
  intros [Hp Hl]. unfold lower, text_ok, printable, ulen, ulen_chars in *. rewrite !chars_of_chars. split.
  - apply Forall_fmap. eapply Forall_impl; [exact Hp|]. intros c Hc. cbn. specialize (Hall c).
    apply andb_true_iff in Hall as [Hc' _]. by rewrite Hc in Hc'.
  - etrans; [|exact Hl]. clear Hp Hl. induction (chars s) as [|c l IH]; [done|].
    cbn [fmap list_fmap List.filter]. specialize (Hall c). apply andb_true_iff in Hall as [_ Hc].
    apply Bool.eqb_prop in Hc. rewrite Hc. destruct (continues c); cbn [negb length]; lia.
Qed.

Lemma badge_text_ok n state : 8 ≤ n → text_ok n state → text_ok n (badge_text state).1.
Proof.
  intros Hn Hs. unfold badge_text. apply text_ok_lower in Hs.
  assert (∀ s, text_ok 8 s → text_ok n s) as Hlit by (intros s Hlit; by apply (text_ok_mono 8)).
  do 3 (case_bool_decide; cbn [fst]; [apply Hlit; literal|]).
  destruct (startswith _ _); cbn [fst]; [apply Hlit; literal|].
  case_bool_decide; cbn [fst]; [apply Hlit; literal|done].
Qed.

Lemma printable_fixed1 f : printable (fmt_fixed1 f).
Proof.
  assert (∀ b t, printable ((if b : bool then "-" else "") +:+ pretty (t / 10)%Z +:+ "." +:+ pretty (t mod 10)%Z)) as Hd.
  { intros b t. apply printable_app; [destruct b; by repeat constructor|].
    apply printable_app; [apply printable_pretty|]. apply printable_app; [by repeat constructor|apply printable_pretty]. }
  destruct f as [b|b| |b m e]; [apply Hd|destruct b; by repeat constructor|by repeat constructor|apply Hd].
Qed.

Lemma scale_unit_printable v u us :
  printable u → Forall printable us → printable (scale_unit v u us).2.
Proof.
  intros Hu Hus. revert v u Hu. induction Hus as [|u' us Hu' Hus IH]; intros v u Hu; [done|].
  cbn [scale_unit]. destruct (num_ge _ _); [by apply IH|done].
Qed.

Lemma printable_human_bytes n : printable (human_bytes n).
Proof.
  unfold human_bytes. pose proof (scale_unit_printable (to_float n) "B" ["KB"; "MB"; "GB"; "TB"; "PB"]) as Hu.
  destruct (scale_unit _ _ _) as [v u]. apply printable_app; [apply printable_fixed1|].
  apply printable_app; [by repeat constructor|]. apply Hu; by repeat constructor.
Qed.

(** ** The parts of the frame *)

(** The texts of a frame fit: the states of the services and the mount point in
    their columns, the counts in 20 characters. *)
Record frame_ok (W : Z) (f : frame) : Prop := {
  ok_states : Forall (text_ok (W - 15)) [f_cap f; f_mov f; f_tim f; f_hot f; f_zeek f];
  ok_counts : Forall (text_ok 20)
    [pretty (f_buff f); pretty (f_back f); pretty (f_on_drive f); human_bytes (NInt (f_jbytes f))];
  ok_mounts : ∀ v l s, candidates_of (f_cfg f) = Ok v → yiter v = Ok l → YStr s ∈ l → text_ok (W - 19) s;
}.

Section Full.
Context {E : Env} {Y : Yaml} {Sh : Shell} {T : Term}.
Context (H W : Z) (size_fixed : ∀ n, win_size n = (H, W)) (rows : 20 ≤ H) (cols : 60 ≤ W).

(** What curses documents: a printable text inside a row, short of the last
    column, is drawn without an error. *)
Context (curses_law : ∀ size y x t, fits size y x t → printable t → addstr_fails size y x t = false).

Section Parts.
Context (c : exn → bool).

Lemma addstr_never y x t a n :
  0 ≤ y < H → 0 ≤ x → text_ok n t → x + n < W → never c (addstr y x t a).
Proof.
  intros Hy Hx [Hp Hn] Hw wd e. unfold addstr. rewrite (getmaxyx_fixed H W size_fixed).
  rewrite curses_law; [done| |done]. split_and!; cbn; lia.
Qed.

(** Only a curses error comes out of a drawing call. *)
Lemma addstr_err y x t a wd e : (addstr y x t a wd).1 = Err e → is_CursesError e = true.
Proof.
  unfold addstr. rewrite (getmaxyx_fixed H W size_fixed). unfold mbind, io_bind, emit, modify.
  destruct (addstr_fails _ _ _ _); by intros [= <-].
Qed.

Lemma safe_addstr_never y x t a : never c (safe_addstr y x t a).
Proof.
  apply never_try_all; [|intros; apply never_ret]. intros wd e. rewrite (getmaxyx_fixed H W size_fixed).
  destruct (_ && _); [apply addstr_err|done].
Qed.
Lemma draw_text_never y x w t : never c (draw_text y x w t).
Proof.
  apply never_try_all; [|intros; apply never_ret]. intros wd e. rewrite (getmaxyx_fixed H W size_fixed).
  destruct (_ && _); [apply addstr_err|done].
Qed.
Lemma divider_never y w : never c (divider y w).
Proof.
  apply never_try_all; [|intros; apply never_ret]. intros wd e. rewrite (getmaxyx_fixed H W size_fixed).
  destruct (_ <? _); [apply addstr_err|done].
Qed.
Lemma time_time_never : never c time_time.
Proof. by intros wd e. Qed.
Lemma curses_never s : never c (curses s).
Proof. apply never_modify. Qed.
Lemma status_shown_never u : never c (status_shown u).
Proof.
  unfold status_shown. apply never_if; [apply never_ret|].
  apply never_bind; [apply time_time_never|]. intros n. apply never_ret.
Qed.

Lemma pair_or_err n a wd e : (pair_or n a wd).1 = Err e → is_Exception e = true.
Proof. done. Qed.

(** A part drawn in colour, and without when that fails with an [Exception]. *)
Lemma never_fallback {A} (m : prog A) h :
  never (λ e, negb (is_Exception e)) m → (∀ e, never c (h e)) → never c (try_except m is_Exception h).
Proof.
  intros Hm Hh. apply never_try_all; [|done]. intros wd e He. specialize (Hm wd e He).
  by apply negb_false_iff in Hm.
Qed.

End Parts.

#[local] Hint Resolve never_ret safe_addstr_never draw_text_never divider_never time_time_never
  curses_never status_shown_never : calm.

Lemma pair_or_never n a : never (λ e, negb (is_Exception e)) (pair_or n a).
Proof. intros wd e He. by rewrite (pair_or_err _ _ _ _ He). Qed.
Lemma color_pair_never n : never (λ e, negb (is_Exception e)) (color_pair n).
Proof. apply never_ret. Qed.
#[local] Hint Resolve pair_or_never color_pair_never : calm.

(** Decompose a part into its calls. *)
Ltac parts :=
  repeat match goal with
  | |- never _ (mbind _ _) => apply never_bind; [|intros ?]
  | |- never _ (try_except _ is_Exception _) => apply never_fallback; [|intros ?]
  | |- never _ (if ?b then _ else _) => destruct b
  | |- never _ _ => solve [auto with calm nocore]
  end.

(** A text of at most [n] columns. *)
Ltac cell n := apply (addstr_never _ _ _ _ _ n); [lia|lia| |lia].

Section Whole.
Context (c : exn → bool).

Lemma header_never w f u : never c (header w f u).
Proof. unfold header. parts. Qed.

Lemma bars_never l : Forall (λ y, 0 ≤ y < H) l → never c (bars l (W / 2 - 1) W).
Proof.
  induction 1 as [|y l Hy Hl IH]; cbn [bars]; [apply never_ret|]. apply never_bind; [|by intros _].
  apply never_if; [|apply never_ret]. apply (addstr_never _ _ _ _ _ 1); [done| |literal|];
    pose proof (Z.div_mod W 2 ltac:(done)); pose proof (Z.mod_pos_bound W 2 ltac:(done)); lia.
Qed.

Lemma sections_never : never c (sections W (W / 2 - 1) (W - (W / 2 - 1) - 3)).
Proof.
  unfold sections. cbv zeta. apply never_bind; [parts|]. intros _. apply bars_never.
  repeat (apply Forall_cons; split; [lia|]). apply Forall_nil. done.
Qed.

Lemma badge_never y label state plain :
  0 ≤ y < H → text_ok 12 label → text_ok (W - 15) state → never c (badge y label state plain).
Proof.
  intros Hy Hlabel Hstate. unfold badge.
  pose proof (badge_text_ok (W - 15) state ltac:(lia) Hstate) as Hs.
  destruct (badge_text state) as [s n]. cbn [fst] in Hs.
  apply never_bind; [apply (addstr_never _ _ _ _ _ 12); lia || done|]. intros _.
  apply never_bind; [parts|]. intros a. apply (addstr_never _ _ _ _ _ (W - 15)); lia || done.
Qed.

Lemma services_never f : frame_ok W f → never c (services f).
Proof.
  intros [Hst _ _]. repeat (apply Forall_cons in Hst as [? Hst]). unfold services.
  repeat (apply never_bind; [|intros _]); try (apply badge_never; [lia|literal|done]);
    apply (addstr_never _ _ _ _ _ (W - 3)); try lia;
    (eapply text_ok_app; [apply (text_ok_mono 12); [literal|reflexivity]|eassumption|lia]).
Qed.


(** A label, a number, or a label and a number. *)
Ltac counted :=
  match goal with
  | |- never _ (addstr _ _ (ljust _ _) _) => cell 20; done
  | |- never _ (addstr _ _ (String.append _ _) _) =>
      cell 36; eapply text_ok_app; [|eassumption|]; [apply (text_ok_mono 16); [literal|reflexivity]|lia]
  | |- never _ (addstr _ _ _ _) => cell 16; literal
  end.

Lemma pcap_counts_never f : frame_ok W f → never c (pcap_counts f).
Proof.
  intros [_ Hc _]. apply Forall_cons in Hc as [Hb Hc]. apply Forall_cons in Hc as [Hk _].
  assert (text_ok 20 (ljust 5 (pretty (f_buff f))) ∧ text_ok 20 (ljust 5 (pretty (f_back f)))) as [Hb' Hk']
    by (split; apply text_ok_ljust; done).
  unfold pcap_counts. parts.
  all: counted.
Qed.

Lemma json_size_never f : frame_ok W f → never c (json_size f).
Proof.
  intros [_ Hc _]. do 3 apply Forall_cons in Hc as [_ Hc]. apply Forall_cons in Hc as [Hj _].
  apply (text_ok_ljust 12) in Hj; [|lia]. unfold json_size. parts.
  all: counted.
Qed.

Lemma footer_never w u : never c (footer w u).
Proof. unfold footer. parts. Qed.
End Whole.

(** The middle bar leaves 29 columns to its right. *)
Lemma half_bounds : 29 ≤ W / 2 - 1 ∧ W / 2 - 1 + 29 < W.
Proof. pose proof (Z.div_mod W 2 ltac:(done)); pose proof (Z.mod_pos_bound W 2 ltac:(done)); lia. Qed.

Lemma control_cells_fit :
  Forall (λ '(y, dx, text, _), 0 ≤ y < 20 ∧ 0 ≤ dx ∧ text_ok (29 - dx) text) control_cells.
Proof. literal. Qed.

Lemma control_rows_fit : Forall (λ '(y, text), 0 ≤ y < 20 ∧ text_ok 27 text) control_rows.
Proof. literal. Qed.

Lemma controls_never c : never c (controls (W / 2 - 1)).
Proof.
  pose proof half_bounds. unfold controls. apply never_fallback.
  - apply never_forM. intros [[[y dx] t] col] Hin.
    destruct (proj1 (Forall_forall _ _) control_cells_fit _ Hin) as (Hy & Hdx & Ht). unfold control_cell.
    apply never_bind; [destruct col as [[n []]|]; auto with calm nocore|]. intros a.
    apply (addstr_never _ _ _ _ _ (29 - dx)); lia || done.
  - intros _. apply never_forM. intros [y t] Hin. destruct (proj1 (Forall_forall _ _) control_rows_fit _ Hin) as [Hy Ht].
    apply (addstr_never _ _ _ _ _ 27); lia || done.
Qed.

(** The mount point shown is a candidate of the configuration, or ["drive"]. *)
Lemma active_mount_result l wd m wd' :
  active_mount l wd = (Ok m, wd') → m = "drive" ∨ YStr m ∈ l.
Proof.
  revert wd. induction l as [|v l IH]; intros wd; cbn [active_mount]; [intros [= <- _]; by left|].
  destruct v; try done. rewrite (bind_ok (lift_res (ystr (YStr s))) _ wd s wd eq_refl).
  unfold mbind, io_bind. destruct (os_ismount (to_path s) wd) as [[[]|] wd1]; [|intros Hr|done].
  - intros [= <- _]. right. left.
  - destruct (IH wd1 Hr) as [->|Hin]; [by left|right; by right].
Qed.

Lemma drive_status_never f : frame_ok W f → calm (drive_status f).
Proof.
  intros Hf. pose proof Hf as [_ Hc Hm]. do 2 apply Forall_cons in Hc as [_ Hc]. apply Forall_cons in Hc as [Hn _].
  assert (text_ok 26 (pretty (f_on_drive f) +:+ " files")) as Hfiles
    by (eapply text_ok_app; [exact Hn|apply (text_ok_mono 6); [literal|reflexivity]|lia]).
  assert (∀ c n, never c (color_pair n)) as Hpair by (intros c n; apply never_ret).
  unfold drive_status. destruct (f_present f).
  - apply (never_bind_post _ (text_ok (W - 19))); [apply mount_of_cfg_calm| |].
    + intros wd m wd'. unfold mount_of_cfg, mbind, io_bind, lift_res.
      destruct (candidates_of (f_cfg f)) as [v|] eqn:Hv; [|done]. destruct (yiter v) as [l|] eqn:Hl; [|done].
      intros [->|Hin]%active_mount_result; [apply (text_ok_mono 5); [literal|lia]|by eapply Hm].
    + intros m Hmok.
      assert (text_ok (W - 3) ("  Mount       : " +:+ m)) as Hmount
        by (eapply text_ok_app; [apply (text_ok_mono 16); [literal|reflexivity]|exact Hmok|lia]).
      assert (text_ok 42 ("  On Drive    : " +:+ pretty (f_on_drive f) +:+ " files")) as Hdrive
        by (eapply text_ok_app; [apply (text_ok_mono 16); [literal|reflexivity]|exact Hfiles|lia]).
      parts; try apply Hpair; try (apply (addstr_never _ _ _ _ _ (W - 19)); lia || done);
        try (apply (addstr_never _ _ _ _ _ (W - 3)); lia || done);
        try (cell 26; done); try (cell 42; done); cell 25; literal.
  - parts; [cell 16; literal|cell 13; literal].
Qed.

(** C24.  In a window of at least 20 rows and 60 columns, on a terminal that draws
    what fits, with colours or without, a full frame whose texts are of a usual
    length never ends in a curses error. *)
Theorem full_frame_fits f u wd msg :
  frame_ok W f → (full_frame W f u wd).1 ≠ Err (CursesError msg).
Proof.
  intros Hf He. enough (calm (full_frame W f u)) as Hcalm by by specialize (Hcalm wd _ He).
  unfold full_frame.
  apply never_bind; [apply header_never|intros _]. apply never_bind; [apply time_time_never|intros now]. cbv zeta.
  apply never_bind; [apply sections_never|intros _]. apply never_bind; [by apply services_never|intros _].
  apply never_bind; [by apply pcap_counts_never|intros _]. apply never_bind; [by apply drive_status_never|intros _].
  apply never_bind; [by apply json_size_never|intros _]. apply never_bind; [apply controls_never|intros _].
  apply never_bind; [apply footer_never|intros _]. apply never_ret.
Qed.

End Full.

(** ** Witnesses *)

Lemma frame0_ok : frame_ok 80 frame0.
Proof.
  split; [literal|literal|]. intros v l s [= <-] [= <-] Hs.
  apply elem_of_cons in Hs as [[= ->]|Hs%elem_of_nil]; [literal|done].
Qed.

Lemma full_frame_fits_witness :
  (full_frame (E := quiet) (T := terminal 24 80 false 113) 80 frame0 ui0 (no_drive [])).1
    ≠ Err (CursesError "addwstr() returned ERR").
Proof.
  apply (full_frame_fits (E := quiet) (T := terminal 24 80 false 113) 24 80); [done|lia|lia| |].
  - intros size y x t Hf _. by apply terminal_law.
  - apply frame0_ok.
Defined.
