(* ===== verification/ScreenKeys.v ===== *)
(** * What the keys of the console do

    The refresh interval moves in exact steps; apart from the programs it
    starts, the console makes missing directories and nothing else. *)
From S2P Require Import Prelude Text Os OsFacts PyNum Config Json Scenario Console Screen ScreenFacts.
From Stdlib Require Import SpecFloat Ascii.

(** ** The refresh interval *)

(** [j] half seconds. *)
Definition halves (j : Z) : spec_float :=
  match int_truediv j 2 with Ok f => f | Err _ => S754_nan end.

(** The same finite number. *)
Definition same_finite (x y : spec_float) : bool :=
  match x, y with
  | S754_finite s m e, S754_finite s' m' e' => Bool.eqb s s' && (m =? m')%positive && (e =? e')%Z
  | _, _ => false
  end.
Lemma same_finite_eq x y : same_finite x y = true → x = y.
Proof.
  destruct x, y; try done. cbn. rewrite !andb_true_iff. intros [[Hs Hm] He].
  apply Bool.eqb_prop in Hs. apply Pos.eqb_eq in Hm. apply Z.eqb_eq in He. by subst.
Qed.

Fixpoint steps_exact (n : nat) (j : Z) : bool :=
  match n with
  | O => true
  | S n' => same_finite (slower (halves j)) (halves (j + 1)) &&
            same_finite (faster (halves j)) (halves (Z.max 1 (j - 1))) && steps_exact n' (j + 1)
  end.

Lemma steps_exact_all n i j :
  steps_exact n i = true → (i ≤ j < i + Z.of_nat n)%Z →
  slower (halves j) = halves (j + 1) ∧ faster (halves j) = halves (Z.max 1 (j - 1)).
Proof.
  revert i. induction n as [|n IH]; intros i Hn Hj; [lia|]. cbn [steps_exact] in Hn.
  rewrite !andb_true_iff in Hn. destruct Hn as [[Hs Hf] Hn].
  destruct (decide (j = i)) as [->|Hne]; [split; by apply same_finite_eq|]. apply (IH (i + 1)%Z); [done|lia].
Qed.

Lemma step_exact j :
  (1 ≤ j ≤ 1200)%Z → slower (halves j) = halves (j + 1) ∧ faster (halves j) = halves (Z.max 1 (j - 1)).
Proof.
  intros Hj. apply (steps_exact_all (Z.to_nat 1200) 1); [vm_compute; reflexivity|lia].
Qed.

(** The interval after a key. *)
Definition after_key (ch j : Z) : Z :=
  if is_key ch "+" then (j + 1)%Z else if is_key ch "-" then Z.max 1 (j - 1) else j.

Section Refresh.
Context {E : Env} {Y : Yaml} {Sh : Shell} {T : Term}.

(** All results of [m] satisfy [Φ]. *)
Definition gives {A} (Φ : A → Prop) (m : prog A) : Prop := ∀ w a w', m w = (Ok a, w') → Φ a.

Lemma gives_ret {A} (Φ : A → Prop) a : Φ a → gives Φ (mret a).
Proof. by intros Ha w b w' [= <- _]. Qed.

Lemma gives_bind {A B} (Φ : B → Prop) (m : prog A) (k : A → prog B) :
  (∀ a, gives Φ (k a)) → gives Φ (m ≫= k).
Proof. intros Hk w b w'. unfold mbind, io_bind. destruct (m w) as [[a|e] w1]; [apply Hk|done]. Qed.

(** C26: from [j] half seconds, up to ten minutes, every key leaves the refresh
    interval an exact number of half seconds, at least one: [+] makes it one
    half second longer (the screen slower), [-] one shorter, down to half a
    second, and no other key changes it. *)
Theorem refresh_steps g ch u j w u' w' :
  (1 ≤ j ≤ 1200)%Z → REFRESH u = halves j → full_key g ch u w = (Ok u', w') →
  REFRESH u' = halves (after_key ch j).
Proof.
  intros Hj Hu Hrun. destruct (step_exact j Hj) as [Hs Hf].
  unfold after_key, full_key in *. destruct (is_key ch "+") eqn:Hplus; [|destruct (is_key ch "-") eqn:Hminus].
  - unfold is_key, ord in Hplus. apply Z.eqb_eq in Hplus as ->.
    cbn in Hrun. injection Hrun as <- _. cbn [REFRESH set_refresh set_key]. by rewrite Hu.
  - unfold is_key, ord in Hminus. apply Z.eqb_eq in Hminus as ->.
    cbn in Hrun. injection Hrun as <- _. cbn [REFRESH set_refresh set_key]. by rewrite Hu.
  - enough (gives (λ u', REFRESH u' = REFRESH u) (full_key g ch u)) as Hg
      by (rewrite (Hg w u' w'); [done|]; unfold full_key; by rewrite Hplus, Hminus).
    unfold full_key, toggle_key. rewrite Hplus, Hminus.
    repeat match goal with
    | |- gives _ (if ?b then _ else _) => destruct b
    | |- gives _ (mbind _ _) => apply gives_bind; intros ?
    | |- gives _ (mret _) => by apply gives_ret
    end.
Qed.
End Refresh.

(** ** The disk *)

Section Effects.
Context {E : Env} {Y : Yaml} {Sh : Shell} {T : Term}.
Context (R : relation world) `{!PreOrder R}.
Context (R_dirs : ∀ w w', touches [] w w' → R w w').
Context (R_exec : ∀ n argv w, R w (exec n argv w).2) (R_outside : ∀ n w, R w (outside n w)).

Lemma own_touches {A} (m : prog A) : only (touches []) m → only R m.
Proof. apply only_weaken, R_dirs. Qed.
Lemma own_same {A} (m : prog A) : only same_disk m → only R m.
Proof. intros Hm. by apply own_touches, only_same_touches. Qed.
#[local] Hint Extern 2 (only R _) => apply own_same; solve [eauto with io nocore] : io.
#[local] Hint Extern 3 (only R _) => apply own_touches; solve [eauto with io nocore] : io.

Lemma exec_proc_own argv : only R (exec_proc argv).
Proof.
  intros w. unfold exec_proc. pose proof (R_exec (ticks w) argv w) as Hx.
  destruct (exec (ticks w) argv w) as [r w']. cbn in *. etrans; [exact Hx|].
  by apply R_dirs, same_disk_touches.
Qed.
#[local] Hint Resolve exec_proc_own : io.
Lemma run_own argv : only R (run argv).
Proof. unfold run. solve_only. Qed.
Lemma os_system_own cmd : only R (os_system cmd).
Proof. unfold os_system. solve_only. Qed.
Lemma sleep_own : only R sleep.
Proof.
  intros w. unfold sleep. pose proof (syscall_same None None w) as Hs.
  destruct (syscall None None w) as [[[]|e] w']; cbn in *; [|by apply R_dirs, same_disk_touches].
  etrans; [by apply R_dirs, same_disk_touches|]. apply R_outside.
Qed.
#[local] Hint Resolve run_own os_system_own sleep_own : io.

(** Reading. *)
Lemma listing_same c d : only same_disk (listing c d).
Proof. unfold listing. solve_only. Qed.
#[local] Hint Resolve listing_same : io.
Lemma subdirs_same n c h d : only same_disk (subdirs n c h d).
Proof. revert d. induction n as [|n IH]; intros d; cbn [subdirs]; solve_only. Qed.
#[local] Hint Resolve subdirs_same : io.
Lemma glob_rec_same p pat : only same_disk (glob_rec p pat).
Proof. unfold glob_rec. solve_only. Qed.
Lemma path_rglob_same p pat : only same_disk (path_rglob p pat).
Proof. unfold path_rglob. solve_only. Qed.
#[local] Hint Resolve glob_rec_same path_rglob_same : io.
Lemma read_cfg_same : only same_disk read_cfg.
Proof. unfold read_cfg. solve_only. Qed.
Lemma count_pcaps_same v : only same_disk (count_pcaps v).
Proof. unfold count_pcaps. solve_only. Qed.
Lemma read_hotswap_state_same : only same_disk read_hotswap_state.
Proof. unfold read_hotswap_state. solve_only. Qed.
Lemma json_stats_same v : only same_disk (json_stats v).
Proof.
  unfold json_stats. apply only_try; [typeclasses eauto| |intros; solve_only].
  apply only_bind; [typeclasses eauto|solve_only|]. intros p. apply only_bind; [typeclasses eauto| |intros; solve_only].
  assert (∀ l st, only same_disk (json_files l st)) as Hfiles.
  { induction l as [|q l IH]; intros st; cbn [json_files]; unfold json_file; solve_only. }
  generalize (JStats [] 0 0). generalize ["*.json*"; "*.log"; "*.log.json*"].
  induction l as [|pat l IH]; intros st; cbn [json_patterns]; solve_only.
Qed.
Lemma mount_of_cfg_same cfg : only same_disk (mount_of_cfg cfg).
Proof.
  unfold mount_of_cfg. apply only_bind; [typeclasses eauto|solve_only|]. intros v.
  apply only_bind; [typeclasses eauto|solve_only|]. intros l.
  induction l as [|x l IH]; cbn [active_mount]; solve_only.
Qed.
Lemma count_on_drive_same l : only same_disk (count_on_drive l).
Proof. induction l as [|v l IH]; cbn [count_on_drive]; solve_only. Qed.
#[local] Hint Resolve read_cfg_same count_pcaps_same read_hotswap_state_same json_stats_same
  mount_of_cfg_same count_on_drive_same : io.

(** Actions. *)
Lemma systemctl_own u : only R (systemctl_is_active u).
Proof. unfold systemctl_is_active. solve_only. Qed.
Lemma act_stop_own g : only R (act_stop g).
Proof. unfold act_stop. solve_only. Qed.
Lemma restart_own u : only R (restart u).
Proof. unfold restart. solve_only. Qed.
#[local] Hint Resolve systemctl_own restart_own : io.
Lemma act_start_own g : only R (act_start g).
Proof. unfold act_start. solve_only. Qed.
Lemma act_toggle_mount_own : only R act_toggle_mount.
Proof. unfold act_toggle_mount, mount_target, unmount, mount_device. solve_only. Qed.
Lemma timer_state_own : only R timer_state.
Proof. unfold timer_state. solve_only. Qed.
#[local] Hint Resolve act_stop_own act_start_own act_toggle_mount_own timer_state_own : io.
Lemma report_own g : only R (report g).
Proof. unfold report, collect_status. solve_only. Qed.
#[local] Hint Resolve report_own : io.

(** Drawing. *)
Lemma curses_same s : only same_disk (curses s).
Proof. unfold curses. solve_only. Qed.
Lemma getmaxyx_same : only same_disk getmaxyx.
Proof. by intros w. Qed.
Lemma getch_same : only same_disk getch.
Proof. intros w. unfold getch. by destruct (fault (ticks w)) as [[]|]. Qed.
#[local] Hint Resolve curses_same getmaxyx_same getch_same : io.
Lemma addstr_same y x t a : only same_disk (addstr y x t a).
Proof. unfold addstr. solve_only. Qed.
#[local] Hint Resolve addstr_same : io.
Lemma safe_addstr_same y x t a : only same_disk (safe_addstr y x t a).
Proof. unfold safe_addstr. solve_only. Qed.
Lemma draw_text_same y x w t : only same_disk (draw_text y x w t).
Proof. unfold draw_text. solve_only. Qed.
Lemma divider_same y w : only same_disk (divider y w).
Proof. unfold divider. solve_only. Qed.
Lemma color_pair_same n : only same_disk (color_pair n).
Proof. unfold color_pair. solve_only. Qed.
#[local] Hint Resolve safe_addstr_same draw_text_same divider_same color_pair_same : io.
Lemma pair_or_same n a : only same_disk (pair_or n a).
Proof. unfold pair_or. solve_only. Qed.
#[local] Hint Resolve pair_or_same : io.
Lemma status_shown_same u : only same_disk (status_shown u).
Proof. unfold status_shown. solve_only. Qed.
#[local] Hint Resolve status_shown_same : io.
Lemma show_help_same : only same_disk show_help.
Proof.
  unfold show_help, curs_set.
  assert (∀ l i h w, only same_disk (help_rows i h w l)) as Hrows
    by (induction l as [|t l IH]; intros i h w; cbn [help_rows]; solve_only).
  solve_only; apply Hrows.
Qed.
Lemma compact_frame_same w f u : only same_disk (compact_frame w f u).
Proof. unfold compact_frame, pair_if. solve_only. Qed.
Lemma full_frame_same w f u : only same_disk (full_frame w f u).
Proof.
  unfold full_frame, header, sections, services, badge, pcap_counts, drive_status, json_size, controls, footer.
  assert (∀ l a b, only same_disk (bars l a b)) as Hbars
    by (induction l as [|r l IH]; intros a b; cbn [bars]; solve_only).
  cbv zeta. solve_only; try apply Hbars. unfold control_cell. solve_only.
Qed.
Lemma init_colors_same g : only same_disk (init_colors g).
Proof.
  assert (∀ l bg, only same_disk (init_pairs l bg)) as Hp
    by (induction l as [|[n fg] l IH]; intros bg; cbn [init_pairs]; unfold init_pair; solve_only).
  unfold init_colors. solve_only; apply Hp.
Qed.
#[local] Hint Resolve show_help_same compact_frame_same full_frame_same init_colors_same : io.
Lemma gather_own g : only R (gather g).
Proof. unfold gather. solve_only. Qed.
#[local] Hint Resolve gather_own : io.

(** The loop. *)
Lemma full_key_own g ch u : only R (full_key g ch u).
Proof. unfold full_key, toggle_key, shell_out. solve_only. Qed.
Lemma compact_key_own ch u : only R (compact_key ch u).
Proof. unfold compact_key, toggle_key. solve_only. Qed.
#[local] Hint Resolve full_key_own compact_key_own : io.
Lemma get_input_own n handle u : (∀ ch u, only R (handle ch u)) → only R (get_input n handle u).
Proof.
  intros Hh. unfold get_input. apply only_bind; [typeclasses eauto|solve_only|]. intros now.
  generalize (float_add (float_time now) (REFRESH u)). intros t_end.
  induction n as [|n IH]; cbn [wait_key]; solve_only.
Qed.
Lemma render_loop_own n g b u : only R (render_loop n g b u).
Proof.
  revert u. induction n as [|n IH]; intros u; cbn [render_loop]; [solve_only|].
  apply only_bind; [typeclasses eauto| |intros [u'|]; [apply IH|solve_only]].
  unfold round. apply only_bind; [typeclasses eauto|solve_only|]. intros [h w].
  apply only_bind; [typeclasses eauto|solve_only|]. intros f.
  apply only_if; (apply only_bind; [typeclasses eauto|solve_only|]; intros u1; apply get_input_own);
    [apply compact_key_own|apply full_key_own].
Qed.

(** C27: whatever is pressed and whatever fails, for any number of rounds, what
    happens to the machine while the console runs is what the programs it
    starts and the rest of the machine do, and missing directories that are
    made: every preorder on states that has these steps has the run.  In
    particular the console itself deletes, moves and changes no file. *)
Theorem console_only_own_effects fuel w : R w (console fuel w).2.
Proof.
  enough (only R (console fuel)) as Honly by apply Honly.
  unfold console, boot, main, wrapper, render, too_small, curs_set.
  apply only_bind; [typeclasses eauto|solve_only|]. intros g. apply only_if; [solve_only|].
  apply only_if; [solve_only|]. apply only_try; [typeclasses eauto| |intros; solve_only].
  apply only_bind; [typeclasses eauto|solve_only|]. intros _.
  apply only_finally; [typeclasses eauto| |solve_only].
  do 2 (apply only_bind; [typeclasses eauto|solve_only|]; intros _).
  apply only_bind; [typeclasses eauto|solve_only|]. intros [h w1]. apply only_if; [solve_only|].
  apply only_bind; [typeclasses eauto|solve_only|]. intros _. apply render_loop_own.
Qed.
End Effects.

(** ** Witnesses *)

Definition globals0 : globals :=
  Globals (flit "0.5") "seer-capture@enp2s0.service" (YStr "/var/seer/json_spool") None false.

Lemma refresh_steps_witness :
  REFRESH (set_refresh (slower (halves 1)) (Screen.set_key "+" ui0)) = halves 2.
Proof.
  apply (refresh_steps (E := quiet) (T := terminal 24 80 true 43) globals0 43 ui0 1 (no_drive []) _ (no_drive []));
    [lia|reflexivity|vm_compute; reflexivity].
Defined.

Lemma console_only_own_effects_witness :
  touches [] (no_drive ring_four)
    (console (E := quiet) (T := terminal 24 80 true 113) 3 (no_drive ring_four)).2.
Proof.
  apply (console_only_own_effects (E := quiet) (T := terminal 24 80 true 113) (touches [])); [done|..].
  - intros n argv w. reflexivity.
  - intros n w. reflexivity.
Defined.
